(** * ImageFeatureValue: metadata resolution and batched tensorization

    A shallow embedding of [winml/lib/Api/ImageFeatureValue.cpp]: the
    center-crop computation, the resolution of the tensor description and
    of the per-frame crop rectangles from a binding context, and the CPU
    and GPU conversion loops with their pooled converters.

    Conventions.
    - [uint32_t], [int64_t] and [int] values are [Z] with the wrap-around
      written out ([wrap32], [to_int32]); signed overflow, an index past
      the end of a [std::vector] and a float-to-integer conversion that
      does not fit are undefined behaviour and yield [Undefined].
    - [float] is IEEE-754 binary32 with round-to-nearest-even on every
      operation, through the Standard Library's [SpecFloat] at precision 24
      and maximal exponent 128.
    - Exceptions ([THROW_HR], [WINML_THROW_HR_IF_FALSE_MSG],
      [std::bad_optional_access]) and [FAIL_FAST] are the constructors of
      [Outcome]. *)

From Stdlib Require Import ZArith Lia Bool.
From Stdlib Require Import Floats.SpecFloat.
From stdpp Require Import gmap strings list.
From Stdlib Require Import Reals Lra.

Local Open Scope Z_scope.

(** ** Result codes and outcomes *)

Inductive HRESULT :=
| S_OK
| E_INVALIDARG
| E_NOTIMPL
| E_NOINTERFACE
| E_FAIL
| E_BOUNDS
| TYPE_E_TYPEMISMATCH
| WINML_ERR_INVALID_BINDING
| WINML_ERR_SIZE_MISMATCH.

#[global] Instance HRESULT_eq_dec : EqDecision HRESULT.
Proof. solve_decision. Defined.

(** What a call can do: return, throw an HRESULT, throw
    [std::bad_optional_access], terminate the process ([FAIL_FAST]), or
    run into undefined behaviour. *)
Inductive Outcome (A : Type) :=
| Ret (a : A)
| Throw (hr : HRESULT)
| BadOptionalAccess
| FailFast
| Undefined.

Arguments Ret {A} a.
Arguments Throw {A} hr.
Arguments BadOptionalAccess {A}.
Arguments FailFast {A}.
Arguments Undefined {A}.

#[global] Instance Outcome_ret : MRet Outcome := @Ret.
#[global] Instance Outcome_bind : MBind Outcome := fun A B f m =>
  match m with
  | Ret a => f a
  | Throw hr => Throw hr
  | BadOptionalAccess => BadOptionalAccess
  | FailFast => FailFast
  | Undefined => Undefined
  end.

(** [WINML_THROW_HR_IF_FALSE_MSG(hr, cond, msg)] *)
Definition WINML_THROW_HR_IF_FALSE_MSG (hr : HRESULT) (cond : bool) : Outcome unit :=
  if cond then Ret tt else Throw hr.

(** [std::optional<T>::value()] *)
Definition optional_value {A} (o : option A) : Outcome A :=
  match o with
  | Some a => Ret a
  | None => BadOptionalAccess
  end.

(** [v[i]] on a [std::vector]: undefined past the end. *)
Definition vector_at {A} (v : list A) (i : Z) : Outcome A :=
  if i <? 0 then Undefined
  else match v !! Z.to_nat i with
       | Some a => Ret a
       | None => Undefined
       end.

(** ** Machine integers *)

Definition MAXUINT32 : Z := 4294967295.
Definition wrap32 (z : Z) : Z := z mod 4294967296.
Definition to_int32 (z : Z) : Z :=
  let u := wrap32 z in if u <? 2147483648 then u else u - 4294967296.
Definition INT64_MIN : Z := - 9223372036854775808.
Definition INT64_MAX : Z := 9223372036854775807.

(** [int64_t] multiplication; overflow is undefined. *)
Definition mul_int64 (a b : Z) : Outcome Z :=
  let p := a * b in
  if (INT64_MIN <=? p) && (p <=? INT64_MAX) then Ret p else Undefined.

(** [int64_t] division, truncating; a zero divisor is undefined. *)
Definition div_int64 (a b : Z) : Outcome Z :=
  if b =? 0 then Undefined else Ret (Z.quot a b).

(** ** Single-precision floating point *)

Module F32.

Definition prec : Z := 24.
Definition emax : Z := 128.

Definition float := spec_float.

(** [static_cast<float>(n)] and the implicit integer-to-float conversion. *)
Definition of_Z (n : Z) : float := binary_normalize prec emax n 0 false.

Definition mul : float -> float -> float := SFmul prec emax.
Definition div : float -> float -> float := SFdiv prec emax.
Definition add : float -> float -> float := SFadd prec emax.
Definition ltb : float -> float -> bool := SFltb.

(** The literal [0.5f]. *)
Definition half : float := S754_finite false 8388608 (-24).

(** The integer part of a float, towards zero; [None] on NaN and
    infinities. *)
Definition trunc (f : float) : option Z :=
  match f with
  | S754_zero _ => Some 0
  | S754_finite s m e =>
      let a := match e with
               | Z0 => Zpos m
               | Zpos p => Zpos m * 2 ^ Zpos p
               | Zneg p => Zpos m / 2 ^ Zpos p
               end in
      Some (if s then - a else a)
  | S754_infinity _ | S754_nan => None
  end.

(** [(UINT)f]: truncation; undefined when the truncated value is not a
    [uint32_t]. *)
Definition to_UINT (f : float) : Outcome Z :=
  match trunc f with
  | Some z => if (0 <=? z) && (z <=? MAXUINT32) then Ret z else Undefined
  | None => Undefined
  end.

End F32.

(** ** Windows Runtime and conversion types *)

(** [Windows::Graphics::Imaging::BitmapPixelFormat]: an enumeration over
    [int32]; a [static_cast] from a property value can produce any value. *)
Module BitmapPixelFormat.
Definition t := Z.
Definition Unknown : t := 0.
Definition Rgba16 : t := 12.
Definition Rgba8 : t := 30.
Definition Gray16 : t := 57.
Definition Gray8 : t := 62.
Definition Bgra8 : t := 87.
Definition Nv12 : t := 103.
End BitmapPixelFormat.

Module DirectXPixelFormat.
Definition B8G8R8X8UIntNormalized : Z := 88.
End DirectXPixelFormat.

Inductive TensorKind :=
| TK_Undefined | TK_Float | TK_UInt8 | TK_Int8 | TK_UInt16 | TK_Int16
| TK_Int32 | TK_Int64 | TK_String | TK_Boolean | TK_Float16 | TK_Double
| TK_UInt32 | TK_UInt64 | TK_Complex64 | TK_Complex128.

Inductive ImageTensorDataType :=
| kImageTensorDataTypeFloat32
| kImageTensorDataTypeFloat16
| kImageTensorDataTypeUndefined.

Inductive ImageTensorChannelType :=
| kImageTensorChannelTypeRGB8
| kImageTensorChannelTypeBGR8
| kImageTensorChannelTypeGRAY8.

(** [ImageTensorDescription]: [sizes] is the [int64_t] array of the four
    NCHW extents. *)
Record ImageTensorDescription := {
  dataType : ImageTensorDataType;
  channelType : ImageTensorChannelType;
  sizes : list Z
}.

Record BitmapBounds := {
  X : Z;
  Y : Z;
  Width : Z;
  Height : Z
}.

#[global] Instance BitmapBounds_eq_dec : EqDecision BitmapBounds.
Proof. solve_decision. Defined.

(** [struct ImageFeatureValue::ImageResourceMetadata] *)
Record ImageResourceMetadata := {
  Bounds : list BitmapBounds;
  TensorDescriptor : ImageTensorDescription
}.

(** A boxed property value, as far as this file inspects it. *)
Inductive PropertyValue :=
| PV_Int32 (v : Z)
| PV_UInt32Array (v : list Z)
| PV_Other.

(** What [IPropertySet::Lookup] returns: null, a boxed property value, or
    an object that does not implement [IPropertyValue]. *)
Inductive IInspectable :=
| Insp_null
| Insp_value (pv : PropertyValue)
| Insp_object.

(** [IPropertySet]; [None] is [nullptr]. *)
Definition IPropertySet := option (gmap string IInspectable).

(** [ILearningModelFeatureDescriptor], by the two [try_as] that the
    resolution performs. *)
Inductive FeatureDescriptor :=
| ImageFeatureDescriptor (width height : Z) (pixelFormat : BitmapPixelFormat.t)
    (kind : TensorKind)
| TensorFeatureDescriptor (shape : list Z) (kind : TensorKind)
| OtherFeatureDescriptor.

Inductive BindingType := kInput | kOutput.

(** A video frame is backed by a Direct3D surface or by a software
    bitmap; only its extents matter here. *)
Inductive VideoFrame :=
| SurfaceFrame (width height : Z)
| BitmapFrame (pixelWidth pixelHeight : Z).

(** ** Sessions, converter stores and the binding context *)

(** The device behind a [LearningModelSession]. *)
Record LearningModelSession := {
  IsCpuDevice : bool;
  AdapterLuid : Z
}.

(** [ConverterResourceDescription]: the key of a pooled converter;
    [luid = 0] is the empty LUID of a CPU conversion. *)
Record ConverterResourceDescription := {
  pixel_format : Z;
  width : Z;
  height : Z;
  luid : Z
}.

#[global] Instance ConverterResourceDescription_eq_dec :
  EqDecision ConverterResourceDescription.
Proof. solve_decision. Defined.

(** The two stores of a device. *)
Inductive Store := TensorizerStore | DetensorizerStore.

#[global] Instance Store_eq_dec : EqDecision Store.
Proof. solve_decision. Defined.

(** A [ConverterResources] object: the store it returns to, its key, and
    its identity. *)
Record ConverterResources := {
  cr_store : Store;
  cr_key : ConverterResourceDescription;
  cr_id : nat
}.

(** What the conversion loops do to the outside world, in program order. *)
Inductive Event :=
| EvFetch (c : ConverterResources)
| EvReturnToCache (c : ConverterResources)
| EvVideoFrameToSoftwareTensor (c : ConverterResources) (frame : Z)
    (bounds : BitmapBounds) (offset : Z)
| EvVideoFrameToDX12Tensor (c : ConverterResources) (batchIdx : Z)
    (bounds : BitmapBounds)
| EvSoftwareTensorToVideoFrame (c : ConverterResources) (frame : Z) (offset : Z)
| EvDX12TensorToVideoFrame (c : ConverterResources) (batchIdx : Z)
| EvSyncD3D12ToCPU
| EvResetAllocator (c : ConverterResources).

(** The stores, the live [shared_ptr<PoolObjectWrapper>] control blocks
    (reference count and wrapped converter) and the trace of events. *)
Record World := {
  idle : list ConverterResources;
  next_converter : nat;
  wrappers : gmap nat (nat * ConverterResources);
  next_wrapper : nat;
  trace : list Event
}.

Definition log (e : Event) (w : World) : World :=
  {| idle := idle w; next_converter := next_converter w;
     wrappers := wrappers w; next_wrapper := next_wrapper w;
     trace := trace w ++ [e] |}.

Definition matches_key (s : Store) (d : ConverterResourceDescription)
    (c : ConverterResources) : bool :=
  bool_decide (cr_store c = s) && bool_decide (cr_key c = d).

(** First idle entry of a store with a given key, and the entries that
    remain. *)
Fixpoint FetchAndRemoveObject (s : Store) (d : ConverterResourceDescription)
    (l : list ConverterResources) : option (ConverterResources * list ConverterResources) :=
  match l with
  | [] => None
  | c :: rest =>
      if matches_key s d c then Some (c, rest)
      else match FetchAndRemoveObject s d rest with
           | Some (c', rest') => Some (c', c :: rest')
           | None => None
           end
  end.

(** Modelled from the spec: [ConverterResourceStore::Fetch] is not under
    the sources. It hands out the cached converter for the key when one is
    idle and creates one otherwise; a converter that is checked out is not
    available to another fetch until it is returned. *)
Definition Fetch (s : Store) (d : ConverterResourceDescription) (w : World)
    : ConverterResources * World :=
  match FetchAndRemoveObject s d (idle w) with
  | Some (c, rest) =>
      (c, log (EvFetch c)
            {| idle := rest; next_converter := next_converter w;
               wrappers := wrappers w; next_wrapper := next_wrapper w;
               trace := trace w |})
  | None =>
      let c := {| cr_store := s; cr_key := d; cr_id := next_converter w |} in
      (c, log (EvFetch c)
            {| idle := idle w; next_converter := S (next_converter w);
               wrappers := wrappers w; next_wrapper := next_wrapper w;
               trace := trace w |})
  end.

(** Modelled from the spec: [ConverterResources::ReturnToCache] is not
    under the sources. The converter becomes idle in its store again. *)
Definition ReturnToCache (c : ConverterResources) (w : World) : World :=
  log (EvReturnToCache c)
    {| idle := idle w ++ [c]; next_converter := next_converter w;
       wrappers := wrappers w; next_wrapper := next_wrapper w;
       trace := trace w |}.

(** Modelled from the spec: [PoolObjectWrapper] is not under the sources.
    [PoolObjectWrapper::Create] makes a shared wrapper around a fetched
    converter, held by one reference; the wrapper returns the converter
    to its store when the last reference goes away. *)
Definition PoolObjectWrapper_Create (c : ConverterResources) (w : World)
    : nat * World :=
  (next_wrapper w,
   {| idle := idle w; next_converter := next_converter w;
      wrappers := <[next_wrapper w := (1%nat, c)]> (wrappers w);
      next_wrapper := S (next_wrapper w);
      trace := trace w |}).

(** Copying a [shared_ptr]: one more reference. *)
Definition shared_ptr_copy (p : nat) (w : World) : World :=
  {| idle := idle w; next_converter := next_converter w;
     wrappers := alter (fun rc => (S (fst rc), snd rc)) p (wrappers w);
     next_wrapper := next_wrapper w;
     trace := trace w |}.

(** Dropping a [shared_ptr]: one reference less, and the destructor of
    the wrapper when it was the last. *)
Definition shared_ptr_release (p : nat) (w : World) : World :=
  match wrappers w !! p with
  | Some (1%nat, c) =>
      ReturnToCache c
        {| idle := idle w; next_converter := next_converter w;
           wrappers := delete p (wrappers w);
           next_wrapper := next_wrapper w;
           trace := trace w |}
  | Some (n, c) =>
      {| idle := idle w; next_converter := next_converter w;
         wrappers := <[p := (Nat.pred n, c)]> (wrappers w);
         next_wrapper := next_wrapper w;
         trace := trace w |}
  | None => w
  end.

Definition shared_ptr_reset (p : option nat) (w : World) : World :=
  match p with
  | Some q => shared_ptr_release q w
  | None => w
  end.

(** The converter behind a wrapper ([pooledConverter->Get()]). *)
Definition wrapper_Get (p : nat) (w : World) : option ConverterResources :=
  snd <$> wrappers w !! p.

(** [WinML::BindingContext]; [converter] is its single
    [shared_ptr<PoolObjectWrapper>] slot. *)
Record BindingContext := {
  type : BindingType;
  session : LearningModelSession;
  descriptor : FeatureDescriptor;
  properties : IPropertySet;
  converter : option nat
}.

Definition set_converter (p : option nat) (context : BindingContext) : BindingContext :=
  {| type := type context; session := session context;
     descriptor := descriptor context; properties := properties context;
     converter := p |}.

(** [context.converter = p]: the new reference is taken, then the one the
    slot held is dropped. *)
Definition assign_converter (p : option nat) (cw : BindingContext * World)
    : BindingContext * World :=
  let '(context, w) := cw in
  let w1 := match p with Some q => shared_ptr_copy q w | None => w end in
  (set_converter p context, shared_ptr_reset (converter context) w1).

(** ** The feature value *)

Record ImageFeatureValue := {
  m_videoFrames : list VideoFrame;
  m_batchSize : Z;
  m_widths : list Z;
  m_heights : list Z;
  m_adapter : bool;
  m_tensorAllocators : list nat
}.

Definition frame_width (f : VideoFrame) : Z :=
  match f with
  | SurfaceFrame w _ => wrap32 w
  | BitmapFrame w _ => wrap32 w
  end.

Definition frame_height (f : VideoFrame) : Z :=
  match f with
  | SurfaceFrame _ h => wrap32 h
  | BitmapFrame _ h => wrap32 h
  end.

(** [ImageFeatureValue::Initialize], after the constructors have stored
    the frames. *)
Definition Initialize (frames : list VideoFrame) : ImageFeatureValue :=
  {| m_videoFrames := frames;
     m_batchSize := Z.of_nat (length frames);
     m_widths := map frame_width frames;
     m_heights := map frame_height frames;
     m_adapter := false;
     m_tensorAllocators := [] |}.

(** ** Property overrides *)

Definition HasKey (p : gmap string IInspectable) (k : string) : bool :=
  bool_decide (is_Some (p !! k)).

Definition Lookup (p : gmap string IInspectable) (k : string) : IInspectable :=
  default Insp_null (p !! k).

(** [inspectable.as<IPropertyValue>()] on a non-null object. *)
Definition as_IPropertyValue (i : IInspectable) : Outcome PropertyValue :=
  match i with
  | Insp_value pv => Ret pv
  | Insp_object | Insp_null => Throw E_NOINTERFACE
  end.

Definition GetInt32 (pv : PropertyValue) : Outcome Z :=
  match pv with
  | PV_Int32 v => Ret v
  | _ => Throw TYPE_E_TYPEMISMATCH
  end.

Definition is_UInt32Array (pv : PropertyValue) : bool :=
  match pv with
  | PV_UInt32Array _ => true
  | _ => false
  end.

Definition GetUInt32Array (pv : PropertyValue) : Outcome (list Z) :=
  match pv with
  | PV_UInt32Array v => Ret v
  | _ => Throw TYPE_E_TYPEMISMATCH
  end.

Definition supported_format (pixelFormat : BitmapPixelFormat.t) : bool :=
  (pixelFormat =? BitmapPixelFormat.Rgba8) ||
  (pixelFormat =? BitmapPixelFormat.Bgra8) ||
  (pixelFormat =? BitmapPixelFormat.Gray8).

Definition GetBitmapPixelFormatFromMetadata (properties : IPropertySet)
    : Outcome (option BitmapPixelFormat.t) :=
  match properties with
  | Some p =>
      if HasKey p "BitmapPixelFormat" then
        match Lookup p "BitmapPixelFormat" with
        | Insp_null => Ret None
        | pixelFormatInspectable =>
            pixelFormatValue ← as_IPropertyValue pixelFormatInspectable;
            pixelFormat ← GetInt32 pixelFormatValue;
            _ ← WINML_THROW_HR_IF_FALSE_MSG WINML_ERR_INVALID_BINDING
                  (supported_format pixelFormat);
            Ret (Some pixelFormat)
        end
      else Ret None
  | None => Ret None
  end.

Definition GetBoundsFromMetadata (properties : IPropertySet)
    : Outcome (option BitmapBounds) :=
  match properties with
  | Some p =>
      if HasKey p "BitmapBounds" then
        match Lookup p "BitmapBounds" with
        | Insp_null => Ret None
        | boundsInspectable =>
            boundsPropertyValue ← as_IPropertyValue boundsInspectable;
            _ ← WINML_THROW_HR_IF_FALSE_MSG WINML_ERR_INVALID_BINDING
                  (is_UInt32Array boundsPropertyValue);
            bounds ← GetUInt32Array boundsPropertyValue;
            match bounds with
            | [b0; b1; b2; b3] =>
                Ret (Some {| X := b0; Y := b1; Width := b2; Height := b3 |})
            | _ => Throw WINML_ERR_INVALID_BINDING
            end
        end
      else Ret None
  | None => Ret None
  end.

(** ** Crop rectangle and tensor description *)

(** [ImageFeatureValue::CenterAndCropBounds] *)
Definition CenterAndCropBounds (this : ImageFeatureValue)
    (idx desiredWidth desiredHeight : Z) : Outcome BitmapBounds :=
  let RequiredAspectRatio :=
    F32.div (F32.of_Z desiredWidth) (F32.of_Z desiredHeight) in
  h ← vector_at (m_heights this) idx;
  w ← vector_at (m_widths this) idx;
  bounds ←
    (if F32.ltb (F32.mul RequiredAspectRatio (F32.of_Z h)) (F32.of_Z w) then
       scaled ← F32.to_UINT
                  (F32.add (F32.mul RequiredAspectRatio (F32.of_Z h)) F32.half);
       let bw := Z.min scaled w in
       Ret {| X := wrap32 (w - bw) / 2; Y := 0; Width := bw; Height := h |}
     else
       scaled ← F32.to_UINT
                  (F32.add (F32.div (F32.of_Z w) RequiredAspectRatio) F32.half);
       let bh := Z.min scaled h in
       Ret {| X := 0; Y := wrap32 (h - bh) / 2; Width := w; Height := bh |});
  _ ← WINML_THROW_HR_IF_FALSE_MSG WINML_ERR_INVALID_BINDING
        ((0 <=? X bounds) && (X bounds <=? w) &&
         ((0 <=? Y bounds) && (Y bounds <=? h)));
  Ret bounds.

Definition GetTensorDataTypeFromTensorKind (kind : TensorKind)
    : Outcome ImageTensorDataType :=
  match kind with
  | TK_Float => Ret kImageTensorDataTypeFloat32
  | TK_Float16 => Ret kImageTensorDataTypeFloat16
  | _ => Throw WINML_ERR_INVALID_BINDING
  end.

Definition GetSizeFromTensorDataType (type : ImageTensorDataType) : Outcome Z :=
  match type with
  | kImageTensorDataTypeFloat32 => Ret 4
  | kImageTensorDataTypeFloat16 => Ret 2
  | _ => Throw WINML_ERR_INVALID_BINDING
  end.

Definition CreateImageTensorDescriptor (tensorKind : TensorKind)
    (pixelFormat : BitmapPixelFormat.t) (batchSize width height : Z)
    : Outcome ImageTensorDescription :=
  dt ← GetTensorDataTypeFromTensorKind tensorKind;
  if pixelFormat =? BitmapPixelFormat.Rgba8 then
    Ret {| dataType := dt; channelType := kImageTensorChannelTypeRGB8;
           sizes := [batchSize; 3; height; width] |}
  else if pixelFormat =? BitmapPixelFormat.Bgra8 then
    Ret {| dataType := dt; channelType := kImageTensorChannelTypeBGR8;
           sizes := [batchSize; 3; height; width] |}
  else if pixelFormat =? BitmapPixelFormat.Gray8 then
    Ret {| dataType := dt; channelType := kImageTensorChannelTypeGRAY8;
           sizes := [batchSize; 1; height; width] |}
  else Throw E_NOTIMPL.

(** [tensorDescriptor.sizes[i]] *)
Definition size_at (d : ImageTensorDescription) (i : nat) : Z :=
  nth i (sizes d) 0.

(** ** Metadata resolution *)

(** [std::adjacent_find(first, last, pred)]: the position of the first
    element that satisfies [pred] with its successor; [None] is [last]. *)
Fixpoint adjacent_find {A} (pred : A -> A -> bool) (l : list A) : option nat :=
  match l with
  | a :: rest =>
      match rest with
      | b :: _ => if pred a b then Some 0%nat else S <$> adjacent_find pred rest
      | [] => None
      end
  | [] => None
  end.

(** [std::not_equal_to<uint32_t>()] *)
Definition not_equal_to (a b : Z) : bool := negb (a =? b).

(** [std::adjacent_find(v.begin(), v.end(), std::not_equal_to<uint32_t>()) == v.end()] *)
Definition no_adjacent_difference (v : list Z) : bool :=
  match adjacent_find not_equal_to v with
  | None => true
  | Some _ => false
  end.

(** The extents the descriptor asks for and its tensor kind; [None] when
    the descriptor is neither an image descriptor nor a servable tensor
    descriptor. *)
Definition resolve_extents (this : ImageFeatureValue) (d : FeatureDescriptor)
    : Outcome (option (Z * Z * TensorKind)) :=
  match d with
  | ImageFeatureDescriptor Width Height _ kind =>
      if (Width =? MAXUINT32) && negb (no_adjacent_difference (m_widths this))
      then Throw E_INVALIDARG
      else if (Height =? MAXUINT32) && negb (no_adjacent_difference (m_heights this))
      then Throw E_INVALIDARG
      else
        descriptorWidth ←
          (if Width =? MAXUINT32 then vector_at (m_widths this) 0 else Ret Width);
        descriptorHeight ←
          (if Height =? MAXUINT32 then vector_at (m_heights this) 0 else Ret Height);
        Ret (Some (descriptorWidth, descriptorHeight, kind))
  | TensorFeatureDescriptor shape kind =>
      match shape with
      | [_; s1; s2; s3] =>
          let hasAccecptableChannelSize := (s1 =? 3) || (s1 =? 1) in
          if negb hasAccecptableChannelSize then Ret None
          else if (-1 =? s3) && negb (no_adjacent_difference (m_widths this))
          then Throw E_INVALIDARG
          else if (-1 =? s2) && negb (no_adjacent_difference (m_heights this))
          then Throw E_INVALIDARG
          else
            descriptorWidth ←
              (if -1 =? s3 then vector_at (m_widths this) 0 else Ret (wrap32 s3));
            descriptorHeight ←
              (if -1 =? s2 then vector_at (m_heights this) 0 else Ret (wrap32 s2));
            Ret (Some (descriptorWidth, descriptorHeight, kind))
      | _ => Ret None
      end
  | OtherFeatureDescriptor => Ret None
  end.

(** The body of the loop that sets up the bounds of frame [i]. *)
Definition frame_bounds (this : ImageFeatureValue) (context : BindingContext)
    (descriptorWidth descriptorHeight : Z) (i : Z) : Outcome BitmapBounds :=
  tempBounds ← GetBoundsFromMetadata (properties context);
  match tempBounds with
  | Some b => Ret b
  | None =>
      match type context with
      | kInput => CenterAndCropBounds this i descriptorWidth descriptorHeight
      | kOutput =>
          w ← vector_at (m_widths this) i;
          h ← vector_at (m_heights this) i;
          Ret {| X := 0; Y := 0; Width := w; Height := h |}
      end
  end.

(** The pixel format: the override, else the declared format of an image
    descriptor, else the format the channel count of a tensor descriptor
    stands for. *)
Definition resolve_pixel_format (context : BindingContext)
    : Outcome (option BitmapPixelFormat.t) :=
  pixelFormat ← GetBitmapPixelFormatFromMetadata (properties context);
  match pixelFormat, descriptor context with
  | Some f, _ => Ret (Some f)
  | None, ImageFeatureDescriptor _ _ declared _ => Ret (Some declared)
  | None, TensorFeatureDescriptor shape _ =>
      let channelCount := to_int32 (wrap32 (nth 1 shape 0)) in
      if channelCount =? 1 then Ret (Some BitmapPixelFormat.Gray8)
      else if channelCount =? 3 then Ret (Some BitmapPixelFormat.Bgra8)
      else Throw WINML_ERR_SIZE_MISMATCH
  | None, OtherFeatureDescriptor => Ret None
  end.

(** [ImageFeatureValue::GetInputMetadata]; [Ret None] is the empty
    optional. *)
Definition GetInputMetadata (this : ImageFeatureValue) (context : BindingContext)
    : Outcome (option ImageResourceMetadata) :=
  extents ← resolve_extents this (descriptor context);
  match extents with
  | None => Ret None
  | Some (descriptorWidth, descriptorHeight, tensorKind) =>
      bounds ← mapM (frame_bounds this context descriptorWidth descriptorHeight)
                 (seqZ 0 (m_batchSize this));
      pixelFormat ← resolve_pixel_format context;
      format ← optional_value pixelFormat;
      imageTensorDescriptor ←
        CreateImageTensorDescriptor tensorKind format (m_batchSize this)
          descriptorWidth descriptorHeight;
      Ret (Some {| Bounds := bounds; TensorDescriptor := imageTensorDescriptor |})
  end.

(** ** Stateful code: the feature value, the binding context and the world *)

Record State := {
  st_this : ImageFeatureValue;
  st_context : BindingContext;
  st_world : World
}.

(** A computation that may fail and that leaves a state behind either
    way. *)
Definition M (A : Type) : Type := State -> Outcome A * State.

#[global] Instance M_ret : MRet M := fun A a s => (Ret a, s).
#[global] Instance M_bind : MBind M := fun A B f m s =>
  match m s with
  | (Ret a, s') => f a s'
  | (Throw hr, s') => (Throw hr, s')
  | (BadOptionalAccess, s') => (BadOptionalAccess, s')
  | (FailFast, s') => (FailFast, s')
  | (Undefined, s') => (Undefined, s')
  end.

Definition lift {A} (o : Outcome A) : M A := fun s => (o, s).

Definition get_this : M ImageFeatureValue := fun s => (Ret (st_this s), s).
Definition get_context : M BindingContext := fun s => (Ret (st_context s), s).

Definition with_world {A} (f : World -> A * World) : M A := fun s =>
  let '(a, w) := f (st_world s) in
  (Ret a, {| st_this := st_this s; st_context := st_context s; st_world := w |}).

Definition on_world (f : World -> World) : M unit :=
  with_world (fun w => (tt, f w)).

Definition tell (e : Event) : M unit := on_world (log e).

(** [context.converter = p] *)
Definition set_context_converter (p : option nat) : M unit := fun s =>
  let '(c, w) := assign_converter p (st_context s, st_world s) in
  (Ret tt, {| st_this := st_this s; st_context := c; st_world := w |}).

(** [for (uint32_t i = start; i < start + count; ++i) body(i)] *)
Fixpoint for_range (start : Z) (count : nat) (body : Z -> M unit) : M unit :=
  match count with
  | O => mret tt
  | S k => _ ← body start; for_range (start + 1) k body
  end.

(** ** Tensorization *)

(** A local [shared_ptr<PoolObjectWrapper>]: its reference is dropped
    when the scope is left, by its end or by an exception. *)
Definition scoped_wrapper {A} (p : nat) (body : M A) : M A := fun s =>
  let '(o, s') := body s in
  (o, {| st_this := st_this s'; st_context := st_context s';
         st_world := shared_ptr_release p (st_world s') |}).

(** [CPUTensorize] of one frame into the buffer at [pResource] (an offset
    from the start of the allocation). *)
Definition CPUTensorize_frame (videoFrame : Z) (bounds : BitmapBounds)
    (tensorDescriptor : ImageTensorDescription) (pResource : Z) : M unit :=
  let descriptor :=
    {| pixel_format := BitmapPixelFormat.Bgra8;
       width := to_int32 (size_at tensorDescriptor 3);
       height := to_int32 (size_at tensorDescriptor 2);
       luid := 0 |} in
  c ← with_world (Fetch TensorizerStore descriptor);
  pooledConverter ← with_world (PoolObjectWrapper_Create c);
  scoped_wrapper pooledConverter
    (tell (EvVideoFrameToSoftwareTensor c videoFrame bounds pResource)).

(** [CPUTensorize] of the batch: [tempPResource] starts at the buffer and
    advances by [singleFrameBufferSize] after every frame. *)
Fixpoint CPUTensorize_loop (batchIdx : Z) (count : nat) (bounds : list BitmapBounds)
    (tensorDescriptor : ImageTensorDescription) (tempPResource : Z)
    (singleFrameBufferSize : Z) : M unit :=
  match count with
  | O => mret tt
  | S k =>
      b ← lift (vector_at bounds batchIdx);
      _ ← CPUTensorize_frame batchIdx b tensorDescriptor tempPResource;
      CPUTensorize_loop (batchIdx + 1) k bounds tensorDescriptor
        (tempPResource + singleFrameBufferSize) singleFrameBufferSize
  end.

Definition CPUTensorize (videoFrames : list VideoFrame) (bounds : list BitmapBounds)
    (tensorDescriptor : ImageTensorDescription) (singleFrameBufferSize : Z)
    : M unit :=
  CPUTensorize_loop 0 (length videoFrames) bounds tensorDescriptor 0
    singleFrameBufferSize.

(** ** The execution engine, as far as this code calls it *)

Inductive OrtMemType := OrtMemTypeCPUInput | OrtMemTypeCPUOutput | OrtMemTypeDefault.

(** Where an allocator places its tensors. *)
Record OrtAllocator := {
  alloc_id : nat;
  alloc_name : string;
  alloc_mem_type : OrtMemType
}.

Record OrtValue := {
  ov_shape : list Z;
  ov_float32 : bool;
  ov_allocator : OrtAllocator
}.

(** The results of the calls into the adapter and the runtime. *)
Record Engine := {
  OrtGetWinMLAdapter : HRESULT;
  GetProviderAllocator : HRESULT * OrtAllocator;
  CreateTensor : bool;
  GetTensorMutableData : bool
}.

Definition WINML_THROW_IF_FAILED (hr : HRESULT) : Outcome unit :=
  match hr with
  | S_OK => Ret tt
  | _ => Throw hr
  end.

(** [GPUTensorize]: the function gets the adapter for itself, and throws
    when that fails, before it fetches any converter. *)
Definition GPUTensorize (engine : Engine) (videoFrames : list VideoFrame)
    (bounds : list BitmapBounds) (tensorDescriptor : ImageTensorDescription)
    (spSession : LearningModelSession) : M unit :=
  _ ← lift (WINML_THROW_IF_FAILED (OrtGetWinMLAdapter engine));
  let descriptor :=
    {| pixel_format := DirectXPixelFormat.B8G8R8X8UIntNormalized;
       width := to_int32 (size_at tensorDescriptor 3);
       height := to_int32 (size_at tensorDescriptor 2);
       luid := AdapterLuid spSession |} in
  for_range 0 (length videoFrames) (fun batchIdx =>
    c ← with_world (Fetch TensorizerStore descriptor);
    pooledConverter ← with_world (PoolObjectWrapper_Create c);
    scoped_wrapper pooledConverter
      (b ← lift (vector_at bounds batchIdx);
       _ ← tell (EvVideoFrameToDX12Tensor c batchIdx b);
       set_context_converter (Some pooledConverter))).

(** [Ort::ThrowOnError] *)
Definition ThrowOnError (ok : bool) : Outcome unit :=
  if ok then Ret tt else Throw E_FAIL.

(** [onnxruntime::CPU] *)
Definition onnxruntime_CPU : string := "Cpu".

Definition all_nonzero (v : list Z) : bool := forallb (fun i => negb (to_int32 i =? 0)) v.

(** [if (!m_adapter) WINML_THROW_IF_FAILED(OrtGetWinMLAdapter(m_adapter.put()))] *)
Definition ensure_adapter (engine : Engine) : M unit := fun s =>
  if m_adapter (st_this s) then (Ret tt, s)
  else match OrtGetWinMLAdapter engine with
       | S_OK =>
           (Ret tt,
            {| st_this :=
                 {| m_videoFrames := m_videoFrames (st_this s);
                    m_batchSize := m_batchSize (st_this s);
                    m_widths := m_widths (st_this s);
                    m_heights := m_heights (st_this s);
                    m_adapter := true;
                    m_tensorAllocators := m_tensorAllocators (st_this s) |};
               st_context := st_context s; st_world := st_world s |})
       | hr => (Throw hr, s)
       end.

(** [m_tensorAllocators.emplace_back(a)] *)
Definition remember_allocator (a : OrtAllocator) : M unit := fun s =>
  (Ret tt,
   {| st_this :=
        {| m_videoFrames := m_videoFrames (st_this s);
           m_batchSize := m_batchSize (st_this s);
           m_widths := m_widths (st_this s);
           m_heights := m_heights (st_this s);
           m_adapter := m_adapter (st_this s);
           m_tensorAllocators := m_tensorAllocators (st_this s) ++ [alloc_id a] |};
      st_context := st_context s; st_world := st_world s |}).

(** [std::accumulate(begin(sizes), end(sizes), int64_t(1), std::multiplies<int64_t>())] *)
Fixpoint accumulate_multiplies (l : list Z) (init : Z) : Outcome Z :=
  match l with
  | [] => Ret init
  | x :: rest => p ← mul_int64 init x; accumulate_multiplies rest p
  end.

(** [ImageFeatureValue::GetOrtValue]: a returned [Throw hr] is the failure
    HRESULT the entry point reports, whether returned or thrown inside and
    caught. *)
Definition GetOrtValue (engine : Engine) : M OrtValue :=
  this ← get_this;
  _ ← lift (if all_nonzero (m_widths this) then Ret tt else FailFast);
  _ ← lift (if all_nonzero (m_heights this) then Ret tt else FailFast);
  context ← get_context;
  metadata ← lift (GetInputMetadata this context);
  match metadata with
  | None => lift (Throw E_INVALIDARG)
  | Some resourceMetadata =>
      let spSession := session context in
      _ ← ensure_adapter engine;
      _ ← lift (WINML_THROW_IF_FAILED (fst (GetProviderAllocator engine)));
      let dml_allocator := snd (GetProviderAllocator engine) in
      _ ← lift (ThrowOnError (CreateTensor engine));
      let ort_tensor :=
        {| ov_shape := sizes (TensorDescriptor resourceMetadata);
           ov_float32 :=
             match dataType (TensorDescriptor resourceMetadata) with
             | kImageTensorDataTypeFloat32 => true
             | _ => false
             end;
           ov_allocator := dml_allocator |} in
      _ ← remember_allocator dml_allocator;
      _ ← lift (ThrowOnError (GetTensorMutableData engine));
      _ ← match type context with
          | kInput =>
              bufferSize ← lift (accumulate_multiplies
                                   (sizes (TensorDescriptor resourceMetadata)) 1);
              elementSize ← lift (GetSizeFromTensorDataType
                                    (dataType (TensorDescriptor resourceMetadata)));
              bufferByteSize ← lift (mul_int64 elementSize bufferSize);
              singleFrameBufferSize ← lift (div_int64 bufferByteSize (m_batchSize this));
              if IsCpuDevice spSession then
                CPUTensorize (m_videoFrames this) (Bounds resourceMetadata)
                  (TensorDescriptor resourceMetadata) (wrap32 singleFrameBufferSize)
              else
                GPUTensorize engine (m_videoFrames this) (Bounds resourceMetadata)
                  (TensorDescriptor resourceMetadata) spSession
          | kOutput => mret tt
          end;
      mret ort_tensor
  end.

(** ** Detensorization *)

(** [IVector::GetAt] *)
Definition GetAt {A} (v : list A) (i : Z) : Outcome A :=
  if i <? 0 then Throw E_BOUNDS
  else match v !! Z.to_nat i with
       | Some a => Ret a
       | None => Throw E_BOUNDS
       end.

(** The test on the memory of the output tensor that selects the CPU
    path. *)
Definition on_cpu (ort_value : OrtValue) : bool :=
  bool_decide (alloc_name (ov_allocator ort_value) = onnxruntime_CPU) ||
  match alloc_mem_type (ov_allocator ort_value) with
  | OrtMemTypeCPUOutput | OrtMemTypeCPUInput => true
  | OrtMemTypeDefault => false
  end.

Fixpoint detensorize_cpu_loop (c : ConverterResources) (frames : list VideoFrame)
    (batchIdx : Z) (count : nat) (tempPAllocatedResource bufferByteSize : Z)
    : M unit :=
  match count with
  | O => mret tt
  | S k =>
      _ ← lift (GetAt frames batchIdx);
      _ ← tell (EvSoftwareTensorToVideoFrame c batchIdx tempPAllocatedResource);
      detensorize_cpu_loop c frames (batchIdx + 1) k
        (tempPAllocatedResource + bufferByteSize) bufferByteSize
  end.

Definition detensorize_gpu_body (c : ConverterResources) (frames : list VideoFrame)
    (batchIdx : Z) : M unit :=
  _ ← lift (GetAt frames batchIdx);
  _ ← tell (EvDX12TensorToVideoFrame c batchIdx);
  _ ← tell EvSyncD3D12ToCPU;
  tell (EvResetAllocator c).

(** [ImageFeatureValue::UpdateSourceResourceData] *)
Definition UpdateSourceResourceData (engine : Engine) (ort_value : OrtValue)
    : M unit :=
  context ← get_context;
  let spSession := session context in
  _ ← ensure_adapter engine;
  _ ← lift (ThrowOnError (GetTensorMutableData engine));
  this ← get_this;
  metadata ← lift (GetInputMetadata this context);
  resourceMetadata ← lift (optional_value metadata);
  let w := to_int32 (size_at (TensorDescriptor resourceMetadata) 3) in
  let h := to_int32 (size_at (TensorDescriptor resourceMetadata) 2) in
  _ ← (if on_cpu ort_value then
         let descriptor :=
           {| pixel_format := BitmapPixelFormat.Bgra8; width := w; height := h;
              luid := 0 |} in
         c ← with_world (Fetch DetensorizerStore descriptor);
         pooledConverter ← with_world (PoolObjectWrapper_Create c);
         scoped_wrapper pooledConverter
           (bufferSize ← lift (accumulate_multiplies
                                 (sizes (TensorDescriptor resourceMetadata)) 1);
            elementSize ← lift (GetSizeFromTensorDataType
                                  (dataType (TensorDescriptor resourceMetadata)));
            total ← lift (mul_int64 elementSize bufferSize);
            bufferByteSize ← lift (div_int64 total (m_batchSize this));
            detensorize_cpu_loop c (m_videoFrames this) 0
              (Z.to_nat (m_batchSize this)) 0 bufferByteSize)
       else
         let descriptor :=
           {| pixel_format := DirectXPixelFormat.B8G8R8X8UIntNormalized;
              width := w; height := h; luid := AdapterLuid spSession |} in
         c ← with_world (Fetch DetensorizerStore descriptor);
         pooledConverter ← with_world (PoolObjectWrapper_Create c);
         scoped_wrapper pooledConverter
           (for_range 0 (Z.to_nat (m_batchSize this))
              (detensorize_gpu_body c (m_videoFrames this))));
  set_context_converter None.

(** ** The exact algorithm of the specification *)

(** Round half up of a non-negative rational [n / d], [d > 0]. *)
Definition round_half_up (n d : Z) : Z := (2 * n + d) / (2 * d).

(** Modelled on the words of the specification, with exact rational
    arithmetic: with [r = target_width / target_height], a frame with
    [r * frame_height < frame_width] is cropped to the width
    [min (round (r * frame_height)) frame_width] and centred horizontally;
    any other frame is cropped to the height
    [min (round (frame_width / r)) frame_height] and centred vertically. *)
Definition compute_center_crop (frame_width frame_height target_width target_height : Z)
    : BitmapBounds :=
  if target_width * frame_height <? frame_width * target_height then
    let crop_width :=
      Z.min (round_half_up (target_width * frame_height) target_height) frame_width in
    {| X := (frame_width - crop_width) / 2; Y := 0;
       Width := crop_width; Height := frame_height |}
  else
    let crop_height :=
      Z.min (round_half_up (frame_width * target_height) target_width) frame_height in
    {| X := 0; Y := (frame_height - crop_height) / 2;
       Width := frame_width; Height := crop_height |}.

(** The extent the exact algorithm rounds, as a fraction [(n, d)]: the
    scaled height [r * frame_height] of a frame that is too wide, the
    scaled width [frame_width / r] of any other frame. *)
Definition scaled_extent (frame_width frame_height target_width target_height : Z)
    : Z * Z :=
  if target_width * frame_height <? frame_width * target_height then
    (target_width * frame_height, target_height)
  else
    (frame_width * target_height, target_width).

(** The fraction [n / d] is clear of the ties of the rounding: with
    [k = round_half_up n d], the value [n / d + 1/2] lies above [k] and
    below [k + 1] by more than its own [2^22]-th part. *)
Definition clear_of_ties (nd : Z * Z) : Prop :=
  let k := round_half_up (fst nd) (snd nd) in
  4194304 * (2 * snd nd * k) <= 4194303 * (2 * fst nd + snd nd) /\
  4194305 * (2 * fst nd + snd nd) < 4194304 * (2 * snd nd * (k + 1)).

(** ** Real values of floats *)

(** Powers of two, as reals. *)
Definition bpow (e : Z) : R := powerRZ 2 e.

(** [locates x m e l]: the real [x] lies in the slice of width [2^e] that
    starts at [m * 2^e], at the place [l] says. *)
Definition locates (x : R) (m e : Z) (l : location) : Prop :=
  match l with
  | loc_Exact => x = (IZR m * bpow e)%R
  | loc_Inexact Lt => (IZR m * bpow e < x < (IZR m + / 2) * bpow e)%R
  | loc_Inexact Eq => x = ((IZR m + / 2) * bpow e)%R
  | loc_Inexact Gt => ((IZR m + / 2) * bpow e < x < (IZR m + 1) * bpow e)%R
  end.

(** [rounds_at E x x']: [x] lies in the binade whose floats are the
    multiples of [2^E], and [x'] is such a multiple at most half a unit in
    the last place from [x]. *)
Definition rounds_at (E : Z) (x x' : R) : Prop :=
  (bpow (E + 23) <= x < bpow (E + 24))%R /\
  exists k : Z, x' = (IZR k * bpow E)%R /\ (Rabs (x' - x) <= bpow E / 2)%R.

(** Positive normal floats in their canonical form: a mantissa of 24
    digits. *)
Definition canonic (f : spec_float) : Prop :=
  exists m e, f = S754_finite false m e /\ Zpos (digits2_pos m) = 24 /\ -149 <= e <= 104.

(** The real value of a float; [0] for what is not finite. *)
Definition B2R (f : spec_float) : R :=
  match f with
  | S754_finite s m e => (IZR (cond_Zopp s (Zpos m)) * bpow e)%R
  | _ => 0%R
  end.

(** Values between [2^-50] and [2^50]. *)
Definition moderate (x : R) : Prop := (bpow (-50) <= x < bpow 50)%R.

(** [x'] is [x] rounded to single precision. *)
Definition rounded (x x' : R) : Prop := exists E, rounds_at E x x'.

(** Extents below [2^20]. *)
Definition small (n : Z) : Prop := 0 < n < 1048576.

(** ** Vocabulary of the statements *)

(** All frames share one value on an axis. *)
Definition agree (v : list Z) : Prop := forall a b, a ∈ v -> b ∈ v -> a = b.

(** The descriptor leaves the width free: the sentinel of an image
    descriptor, or [-1] on axis 3 of a tensor descriptor. *)
Definition free_width (d : FeatureDescriptor) : Prop :=
  match d with
  | ImageFeatureDescriptor W _ _ _ => W = MAXUINT32
  | TensorFeatureDescriptor [_; _; _; s3] _ => s3 = -1
  | _ => False
  end.

(** The descriptor leaves the height free. *)
Definition free_height (d : FeatureDescriptor) : Prop :=
  match d with
  | ImageFeatureDescriptor _ H _ _ => H = MAXUINT32
  | TensorFeatureDescriptor [_; _; s2; _] _ => s2 = -1
  | _ => False
  end.

(** The descriptors the resolver serves: image descriptors, and tensor
    descriptors of rank 4 with 1 or 3 channels. *)
Definition servable (d : FeatureDescriptor) : Prop :=
  match d with
  | ImageFeatureDescriptor _ _ _ _ => True
  | TensorFeatureDescriptor [_; s1; _; _] _ => s1 = 1 \/ s1 = 3
  | _ => False
  end.

(** A rectangle that lies within a frame of the given extents. *)
Definition within_frame (b : BitmapBounds) (w h : Z) : Prop :=
  0 <= X b /\ 0 <= Y b /\ X b + Width b <= w /\ Y b + Height b <= h.

(** The channel type that stands for a supported pixel format. *)
Definition channel_of (f : BitmapPixelFormat.t) : ImageTensorChannelType :=
  if f =? BitmapPixelFormat.Rgba8 then kImageTensorChannelTypeRGB8
  else if f =? BitmapPixelFormat.Bgra8 then kImageTensorChannelTypeBGR8
  else kImageTensorChannelTypeGRAY8.

(** The channel extent that stands for a supported pixel format. *)
Definition channel_count (f : BitmapPixelFormat.t) : Z :=
  if f =? BitmapPixelFormat.Gray8 then 1 else 3.

(** [throws_only P o]: when [o] is a thrown HRESULT, it satisfies [P]. *)
Definition throws_only {A} (P : HRESULT -> Prop) (o : Outcome A) : Prop :=
  match o with
  | Throw hr => P hr
  | _ => True
  end.

(** The failures of the stages after the extents: neither the
    invalid-argument nor the size-mismatch code. *)
Definition late_failure (hr : HRESULT) : Prop :=
  hr <> E_INVALIDARG /\ hr <> WINML_ERR_SIZE_MISMATCH.

(** The buffer offsets of the software tensorizations in a trace, with
    the frame each one wrote. *)
Fixpoint cpu_writes (t : list Event) : list (Z * Z) :=
  match t with
  | [] => []
  | EvVideoFrameToSoftwareTensor _ frame _ offset :: rest =>
      (frame, offset) :: cpu_writes rest
  | _ :: rest => cpu_writes rest
  end.

(** The converters a trace returns to their store. *)
Fixpoint returned (t : list Event) : list ConverterResources :=
  match t with
  | [] => []
  | EvReturnToCache c :: rest => c :: returned rest
  | _ :: rest => returned rest
  end.

(** The converters a trace submits device tensorizations on, with the
    batch slot of each. *)
Fixpoint gpu_submissions (t : list Event) : list (ConverterResources * Z) :=
  match t with
  | [] => []
  | EvVideoFrameToDX12Tensor c batchIdx _ :: rest => (c, batchIdx) :: gpu_submissions rest
  | _ :: rest => gpu_submissions rest
  end.

(** ** Worked inputs *)

Definition gpu_session : LearningModelSession :=
  {| IsCpuDevice := false; AdapterLuid := 1 |}.

Definition cpu_session : LearningModelSession :=
  {| IsCpuDevice := true; AdapterLuid := 0 |}.

Definition make_context (t : BindingType) (s : LearningModelSession)
    (d : FeatureDescriptor) (p : IPropertySet) : BindingContext :=
  {| type := t; session := s; descriptor := d; properties := p; converter := None |}.

(** An image descriptor with both extents free. *)
Definition free_image_descriptor : FeatureDescriptor :=
  ImageFeatureDescriptor MAXUINT32 MAXUINT32 BitmapPixelFormat.Bgra8 TK_Float.

(** A world with empty stores and no wrapper alive. *)
Definition empty_world : World :=
  {| idle := []; next_converter := 0; wrappers := ∅; next_wrapper := 0; trace := [] |}.

(** An engine whose calls all succeed, with a device allocator. *)
Definition working_engine : Engine :=
  {| OrtGetWinMLAdapter := S_OK;
     GetProviderAllocator :=
       (S_OK, {| alloc_id := 0; alloc_name := "DML"; alloc_mem_type := OrtMemTypeDefault |});
     CreateTensor := true;
     GetTensorMutableData := true |}.

Definition make_state (frames : list VideoFrame) (context : BindingContext) : State :=
  {| st_this := Initialize frames; st_context := context; st_world := empty_world |}.

(** ** Ownership of the pooled converters *)

(** No wrapper is alive at or above the next wrapper identity. *)
Definition fresh_wrappers (w : World) : Prop :=
  forall k : nat, (next_wrapper w <= k)%nat -> wrappers w !! k = None.

(** The slot of the binding context is empty or holds the only reference
    to its wrapper. *)
Definition sole_owner (s : State) : Prop :=
  match converter (st_context s) with
  | Some p => exists c, wrappers (st_world s) !! p = Some (1%nat, c)
  | None => True
  end.

(** How many converters a step returns: the one the slot held, if any. *)
Definition held (s : State) : nat :=
  match converter (st_context s) with
  | Some _ => 1%nat
  | None => 0%nat
  end.

(** ** The property bag, key by key *)

(** What a property set holds under a key; nothing when the set is
    [nullptr]. *)
Definition property (properties : IPropertySet) (k : string) : option IInspectable :=
  p ← properties; p !! k.

(** The tensor kind a descriptor declares. *)
Definition declared_kind (d : FeatureDescriptor) : option TensorKind :=
  match d with
  | ImageFeatureDescriptor _ _ _ kind => Some kind
  | TensorFeatureDescriptor _ kind => Some kind
  | OtherFeatureDescriptor => None
  end.

(** ** Construction *)

(** The frames [ImageFeatureValue::Create] collects: [batchSize] software
    bitmaps of one format and size, each appended in turn. The
    construction of a bitmap is taken to succeed; its pixel format is not
    read again in this file. *)
Definition Create_frames (batchSize : Z) (format : BitmapPixelFormat.t)
    (width height : Z) : list VideoFrame :=
  foldl (fun videoFrames _ => videoFrames ++ [BitmapFrame width height]) []
    (seqZ 0 batchSize).

(** [ImageFeatureValue::Create] *)
Definition Create (batchSize : Z) (format : BitmapPixelFormat.t) (width height : Z)
    : ImageFeatureValue :=
  Initialize (Create_frames batchSize format width height).

(** [ImageFeatureValue::CreateFromVideoFrame], and the constructor from
    one image. *)
Definition CreateFromVideoFrame (image : VideoFrame) : ImageFeatureValue :=
  Initialize [image].

(** The rectangle that covers a frame. *)
Definition whole_frame (w h : Z) : BitmapBounds :=
  {| X := 0; Y := 0; Width := w; Height := h |}.

(** ** The life of a feature value *)

(** [m_adapter->FreeProviderAllocator(allocator)]: a call through the
    adapter pointer, undefined while the pointer is null. *)
Definition FreeProviderAllocator (this : ImageFeatureValue) (allocator : nat)
    : Outcome nat :=
  if m_adapter this then Ret allocator else Undefined.

(** [ImageFeatureValue::~ImageFeatureValue]: the allocators it frees, in
    the order of [m_tensorAllocators]. *)
Definition ImageFeatureValue_destructor (this : ImageFeatureValue) : Outcome (list nat) :=
  mapM (FreeProviderAllocator this) (m_tensorAllocators this).

(** The states a feature value made from [frames] goes through: the two
    entry points are called in any order, with any engine and tensor, and
    the caller passes any binding context. *)
Inductive reachable (frames : list VideoFrame) : State -> Prop :=
| reachable_new (context : BindingContext) (w : World) :
    reachable frames
      {| st_this := Initialize frames; st_context := context; st_world := w |}
| reachable_GetOrtValue (engine : Engine) (s : State) :
    reachable frames s -> reachable frames (snd (GetOrtValue engine s))
| reachable_UpdateSourceResourceData (engine : Engine) (ort_value : OrtValue) (s : State) :
    reachable frames s ->
    reachable frames (snd (UpdateSourceResourceData engine ort_value s))
| reachable_context (context : BindingContext) (s : State) :
    reachable frames s ->
    reachable frames
      {| st_this := st_this s; st_context := context; st_world := st_world s |}.

(** [t'] is [t] some calls later: the frames, the batch size and the
    extents are those of [t], an adapter that was obtained stays, and the
    list of allocators differs only when the adapter is there. *)
Definition evolves (t t' : ImageFeatureValue) : Prop :=
  m_videoFrames t' = m_videoFrames t /\ m_batchSize t' = m_batchSize t /\
  m_widths t' = m_widths t /\ m_heights t' = m_heights t /\
  (m_adapter t = true -> m_adapter t' = true) /\
  (m_adapter t' = true \/ m_tensorAllocators t' = m_tensorAllocators t).

(** A computation that leaves the feature value as it is, whatever its
    outcome. *)
Definition keeps_this {A} (m : M A) : Prop :=
  forall s, st_this (snd (m s)) = st_this s.

(** A computation that leaves the binding context and the world as they
    are, whatever its outcome. *)
Definition keeps_surroundings {A} (m : M A) : Prop :=
  forall s, st_context (snd (m s)) = st_context s /\ st_world (snd (m s)) = st_world s.

(** A computation that does not terminate the process. *)
Definition never_fails_fast {A} (m : M A) : Prop :=
  forall s, fst (m s) <> FailFast.

(** An outcome other than the termination of the process. *)
Definition survives {A} (o : Outcome A) : Prop := o <> FailFast.

(** ** Events of a computation *)

(** [w'] is [w] with the events [t] appended to its trace. *)
Definition appends (t : list Event) (w w' : World) : Prop :=
  idle w' = idle w /\ next_converter w' = next_converter w /\
  wrappers w' = wrappers w /\ next_wrapper w' = next_wrapper w /\
  trace w' = trace w ++ t.

(** The converters a trace fetches from their stores. *)
Fixpoint fetched (t : list Event) : list ConverterResources :=
  match t with
  | [] => []
  | EvFetch c :: rest => c :: fetched rest
  | _ :: rest => fetched rest
  end.

(** A computation that only adds conversion events to the trace: whatever
    its outcome, it leaves the binding context, the stores and the wrappers
    alone, and fetches and returns no converter. *)
Definition only_converts {A} (m : M A) : Prop :=
  forall s,
    st_context (snd (m s)) = st_context s /\
    exists t, appends t (st_world s) (st_world (snd (m s))) /\
      returned t = [] /\ fetched t = [].

(** The converter behind the wrapper that the slot of the binding context
    holds, if it holds one. *)
Definition slot_converters (s : State) : list ConverterResources :=
  match converter (st_context s) with
  | Some q => option_list (wrapper_Get q (st_world s))
  | None => []
  end.

(** The offsets in the tensor that the software detensorizations of a
    trace read, with the frame each one filled. *)
Fixpoint cpu_reads (t : list Event) : list (Z * Z) :=
  match t with
  | [] => []
  | EvSoftwareTensorToVideoFrame _ frame offset :: rest => (frame, offset) :: cpu_reads rest
  | _ :: rest => cpu_reads rest
  end.

(** The steps of the device readback in a trace: conversions to a frame,
    waits for the device, and resets of a converter's allocator. *)
Fixpoint device_readback (t : list Event) : list Event :=
  match t with
  | [] => []
  | EvDX12TensorToVideoFrame c batchIdx :: rest =>
      EvDX12TensorToVideoFrame c batchIdx :: device_readback rest
  | EvSyncD3D12ToCPU :: rest => EvSyncD3D12ToCPU :: device_readback rest
  | EvResetAllocator c :: rest => EvResetAllocator c :: device_readback rest
  | _ :: rest => device_readback rest
  end.

(** ** Outcomes of the resolution *)

(** An outcome other than undefined behaviour. *)
Definition defined {A} (o : Outcome A) : Prop := o <> Undefined.

(** An outcome other than [std::bad_optional_access]. *)
Definition has_value {A} (o : Outcome A) : Prop := o <> BadOptionalAccess.

(** The failures of reading a property: the two of the property value
    itself and the invalid-binding failure of the checks. *)
Definition property_failure (hr : HRESULT) : Prop :=
  hr = WINML_ERR_INVALID_BINDING \/ hr = E_NOINTERFACE \/ hr = TYPE_E_TYPEMISMATCH.

(** * Properties *)

#[local] Arguments Z.eqb : simpl never.
#[local] Arguments Z.ltb : simpl never.
#[local] Arguments Z.leb : simpl never.
#[local] Arguments Z.add : simpl never.
#[local] Arguments Z.sub : simpl never.
#[local] Arguments Z.mul : simpl never.
#[local] Arguments Z.div : simpl never.
#[local] Arguments Z.modulo : simpl never.
#[local] Arguments Z.quot : simpl never.
#[local] Arguments Z.min : simpl never.
#[local] Arguments wrap32 : simpl never.
#[local] Arguments to_int32 : simpl never.

(** ** Outcomes *)

Lemma bind_Ret {A B} (m : Outcome A) (f : A -> Outcome B) (b : B) :
  m ≫= f = Ret b -> exists a, m = Ret a /\ f a = Ret b.
Proof. destruct m; simpl; try discriminate. eauto. Qed.

Lemma bind_Throw {A B} (m : Outcome A) (f : A -> Outcome B) (hr : HRESULT) :
  m ≫= f = Throw hr -> m = Throw hr \/ exists a, m = Ret a /\ f a = Throw hr.
Proof.
  destruct m; simpl; try discriminate; intros H; [right; eauto | left; congruence].
Qed.

Lemma throws_only_bind {A B} (P : HRESULT -> Prop) (m : Outcome A) (f : A -> Outcome B) :
  throws_only P m -> (forall a, throws_only P (f a)) -> throws_only P (m ≫= f).
Proof. destruct m; simpl; auto. Qed.

Lemma throws_only_mapM {A B} (P : HRESULT -> Prop) (f : A -> Outcome B) (l : list A) :
  (forall a, throws_only P (f a)) -> throws_only P (mapM f l).
Proof.
  intros Hf. induction l as [|a l IH]; simpl; [exact I|].
  apply throws_only_bind; [apply Hf|]. intros b.
  apply throws_only_bind; [exact IH|]. intros; exact I.
Qed.

Lemma throws_only_not {A} (P : HRESULT -> Prop) (o : Outcome A) (hr : HRESULT) :
  throws_only P o -> ~ P hr -> o <> Throw hr.
Proof. intros H Hn ->. exact (Hn H). Qed.

Lemma vector_at_throws {A} (P : HRESULT -> Prop) (v : list A) (i : Z) :
  throws_only P (vector_at v i).
Proof. unfold vector_at. destruct (i <? 0); [exact I|]. destruct (v !! _); exact I. Qed.

Lemma mapM_Ret_length {A B} (f : A -> Outcome B) (l : list A) (r : list B) :
  mapM f l = Ret r -> length r = length l.
Proof.
  revert r. induction l as [|a l IH]; simpl; intros r H.
  - injection H as <-. reflexivity.
  - apply bind_Ret in H as (b & _ & H). apply bind_Ret in H as (k & Hk & H).
    injection H as <-. simpl. f_equal. exact (IH _ Hk).
Qed.

Lemma mapM_Ret_lookup {A B} (f : A -> Outcome B) (l : list A) (r : list B) (i : nat) (b : B) :
  mapM f l = Ret r -> r !! i = Some b -> exists a, l !! i = Some a /\ f a = Ret b.
Proof.
  revert r i. induction l as [|a l IH]; simpl; intros r i H Hi.
  - injection H as <-. destruct i; discriminate.
  - apply bind_Ret in H as (b0 & Hb0 & H). apply bind_Ret in H as (k & Hk & H).
    injection H as <-. destruct i as [|i]; simpl in Hi.
    + injection Hi as <-. exists a. split; [reflexivity | exact Hb0].
    + exact (IH _ _ Hk Hi).
Qed.

(** ** Tensor descriptors the resolver does not serve *)

Lemma resolve_extents_wrong_rank (this : ImageFeatureValue) (shape : list Z) (kind : TensorKind) :
  length shape <> 4%nat ->
  resolve_extents this (TensorFeatureDescriptor shape kind) = Ret None.
Proof.
  intros H. simpl.
  destruct shape as [|a [|b [|c [|d [|e rest]]]]]; try reflexivity.
  exfalso. apply H. reflexivity.
Qed.

Lemma resolve_extents_wrong_channels (this : ImageFeatureValue) (n c h w : Z) (kind : TensorKind) :
  c <> 1 -> c <> 3 ->
  resolve_extents this (TensorFeatureDescriptor [n; c; h; w] kind) = Ret None.
Proof.
  intros H1 H3. simpl.
  destruct (Z.eqb_spec c 3); [contradiction|].
  destruct (Z.eqb_spec c 1); [contradiction|]. reflexivity.
Qed.

Lemma GetInputMetadata_declines (this : ImageFeatureValue) (context : BindingContext) :
  resolve_extents this (descriptor context) = Ret None ->
  GetInputMetadata this context = Ret None.
Proof. intros H. unfold GetInputMetadata. rewrite H. reflexivity. Qed.

Lemma GetOrtValue_declined (engine : Engine) (s : State) :
  all_nonzero (m_widths (st_this s)) = true ->
  all_nonzero (m_heights (st_this s)) = true ->
  GetInputMetadata (st_this s) (st_context s) = Ret None ->
  GetOrtValue engine s = (Throw E_INVALIDARG, s).
Proof.
  intros Hw Hh Hm. unfold GetOrtValue, get_this, get_context, lift, mbind, M_bind.
  rewrite Hw, Hh, Hm. reflexivity.
Qed.

(** The resolution reads the frames' extents and the batch size only. *)
Lemma GetInputMetadata_adapter (this : ImageFeatureValue) (context : BindingContext) (a : bool) :
  GetInputMetadata
    {| m_videoFrames := m_videoFrames this; m_batchSize := m_batchSize this;
       m_widths := m_widths this; m_heights := m_heights this;
       m_adapter := a; m_tensorAllocators := m_tensorAllocators this |} context
  = GetInputMetadata this context.
Proof. destruct this. reflexivity. Qed.

Lemma UpdateSourceResourceData_declined (engine : Engine) (ort_value : OrtValue) (s : State) :
  m_adapter (st_this s) = true \/ OrtGetWinMLAdapter engine = S_OK ->
  GetTensorMutableData engine = true ->
  GetInputMetadata (st_this s) (st_context s) = Ret None ->
  fst (UpdateSourceResourceData engine ort_value s) = BadOptionalAccess /\
  st_context (snd (UpdateSourceResourceData engine ort_value s)) = st_context s /\
  st_world (snd (UpdateSourceResourceData engine ort_value s)) = st_world s.
Proof.
  intros Ha Hd Hm.
  unfold UpdateSourceResourceData, get_this, get_context, lift, ensure_adapter,
    mbind, M_bind.
  destruct (m_adapter (st_this s)) eqn:Hadapter.
  - rewrite Hd. simpl. rewrite Hm. auto.
  - destruct Ha as [Ha | Ha]; [discriminate|]. rewrite Ha, Hd. simpl.
    rewrite GetInputMetadata_adapter, Hm. auto.
Qed.

(** ** Which failures the stages of the resolution can raise *)

Ltac late := first [exact I | split; discriminate].

Lemma GetBoundsFromMetadata_throws (properties : IPropertySet) :
  throws_only late_failure (GetBoundsFromMetadata properties).
Proof.
  unfold GetBoundsFromMetadata. destruct properties as [p|]; [|late].
  destruct (HasKey p "BitmapBounds"); [|late].
  destruct (Lookup p "BitmapBounds") as [|[v|v|]|]; simpl; try late.
  destruct v as [|b0 [|b1 [|b2 [|b3 [|b4 v]]]]]; late.
Qed.

Lemma GetBitmapPixelFormatFromMetadata_throws (properties : IPropertySet) :
  throws_only late_failure (GetBitmapPixelFormatFromMetadata properties).
Proof.
  unfold GetBitmapPixelFormatFromMetadata. destruct properties as [p|]; [|late].
  destruct (HasKey p "BitmapPixelFormat"); [|late].
  destruct (Lookup p "BitmapPixelFormat") as [|[v|v|]|]; simpl; try late.
  destruct (supported_format v); simpl; late.
Qed.

Lemma to_UINT_throws (f : F32.float) : throws_only late_failure (F32.to_UINT f).
Proof.
  unfold F32.to_UINT. destruct (F32.trunc f) as [z|]; [|late].
  destruct (_ && _); late.
Qed.

Lemma CenterAndCropBounds_throws (this : ImageFeatureValue) (idx dw dh : Z) :
  throws_only late_failure (CenterAndCropBounds this idx dw dh).
Proof.
  unfold CenterAndCropBounds.
  apply throws_only_bind; [apply vector_at_throws|]. intros h.
  apply throws_only_bind; [apply vector_at_throws|]. intros w.
  apply throws_only_bind.
  - destruct (F32.ltb _ _);
      (apply throws_only_bind; [apply to_UINT_throws | intros; exact I]).
  - intros b. apply throws_only_bind; [|intros; exact I].
    unfold WINML_THROW_HR_IF_FALSE_MSG. destruct (_ && _); late.
Qed.

Lemma frame_bounds_throws (this : ImageFeatureValue) (context : BindingContext) (dw dh i : Z) :
  throws_only late_failure (frame_bounds this context dw dh i).
Proof.
  unfold frame_bounds.
  apply throws_only_bind; [apply GetBoundsFromMetadata_throws|].
  intros [b|]; [exact I|]. destruct (type context).
  - apply CenterAndCropBounds_throws.
  - apply throws_only_bind; [apply vector_at_throws|]. intros w.
    apply throws_only_bind; [apply vector_at_throws|]. intros; exact I.
Qed.

Lemma CreateImageTensorDescriptor_throws (kind : TensorKind) (f : BitmapPixelFormat.t)
    (batch w h : Z) :
  throws_only late_failure (CreateImageTensorDescriptor kind f batch w h).
Proof.
  unfold CreateImageTensorDescriptor.
  apply throws_only_bind; [destruct kind; late|]. intros dt.
  destruct (f =? _); [exact I|]. destruct (f =? _); [exact I|].
  destruct (f =? _); late.
Qed.

(** The channel axis of a tensor descriptor that passed the extents. *)
Lemma resolve_extents_channels (this : ImageFeatureValue) (shape : list Z)
    (kind : TensorKind) (e : Z * Z * TensorKind) :
  resolve_extents this (TensorFeatureDescriptor shape kind) = Ret (Some e) ->
  length shape = 4%nat /\ (nth 1 shape 0 = 1 \/ nth 1 shape 0 = 3).
Proof.
  simpl. destruct shape as [|a [|b [|c [|d [|x rest]]]]]; try discriminate.
  simpl. destruct (Z.eqb_spec b 3) as [->|]; [auto|].
  destruct (Z.eqb_spec b 1) as [->|]; [auto|]. discriminate.
Qed.

Lemma resolve_extents_not_other (this : ImageFeatureValue) (e : Z * Z * TensorKind) :
  resolve_extents this OtherFeatureDescriptor <> Ret (Some e).
Proof. discriminate. Qed.

Lemma resolve_pixel_format_throws (this : ImageFeatureValue) (context : BindingContext)
    (e : Z * Z * TensorKind) :
  resolve_extents this (descriptor context) = Ret (Some e) ->
  throws_only late_failure (resolve_pixel_format context).
Proof.
  intros He. unfold resolve_pixel_format.
  apply throws_only_bind; [apply GetBitmapPixelFormatFromMetadata_throws|].
  intros [f|]; [exact I|].
  destruct (descriptor context) as [W H declared kind|shape kind|]; try exact I.
  apply resolve_extents_channels in He as [_ [-> | ->]]; exact I.
Qed.

Lemma resolve_extents_throws (this : ImageFeatureValue) (d : FeatureDescriptor) :
  throws_only (fun hr => hr = E_INVALIDARG) (resolve_extents this d).
Proof.
  destruct d as [W H declared kind|shape kind|]; simpl; try exact I.
  - destruct (_ && _); [reflexivity|]. destruct (_ && _); [reflexivity|].
    apply throws_only_bind.
    { destruct (W =? _); [apply vector_at_throws | exact I]. }
    intros dw. apply throws_only_bind; [|intros; exact I].
    destruct (H =? _); [apply vector_at_throws | exact I].
  - destruct shape as [|a [|b [|c [|d [|x rest]]]]]; try exact I.
    destruct (negb _); [exact I|].
    destruct (_ && _); [reflexivity|]. destruct (_ && _); [reflexivity|].
    apply throws_only_bind.
    { destruct (-1 =? d); [apply vector_at_throws | exact I]. }
    intros dw. apply throws_only_bind; [|intros; exact I].
    destruct (-1 =? c); [apply vector_at_throws | exact I].
Qed.

(** After the extents, the resolution raises neither the invalid-argument
    nor the size-mismatch failure. *)
Lemma GetInputMetadata_late (this : ImageFeatureValue) (context : BindingContext)
    (e : Z * Z * TensorKind) :
  resolve_extents this (descriptor context) = Ret (Some e) ->
  throws_only late_failure (GetInputMetadata this context).
Proof.
  intros He. unfold GetInputMetadata. rewrite He. destruct e as [[dw dh] kind].
  simpl. apply throws_only_bind; [apply throws_only_mapM; apply frame_bounds_throws|].
  intros bounds. apply throws_only_bind; [exact (resolve_pixel_format_throws _ _ _ He)|].
  intros [f|]; simpl; [|exact I].
  apply throws_only_bind; [apply CreateImageTensorDescriptor_throws|]. intros; exact I.
Qed.

Lemma GetInputMetadata_Throw_extents (this : ImageFeatureValue) (context : BindingContext)
    (hr : HRESULT) :
  ~ late_failure hr ->
  GetInputMetadata this context = Throw hr <->
  resolve_extents this (descriptor context) = Throw hr.
Proof.
  intros Hn. split; intros H.
  - destruct (resolve_extents this (descriptor context)) as [[e|]| | | |] eqn:He.
    + pose proof (GetInputMetadata_late _ _ _ He) as Hl. rewrite H in Hl.
      contradiction.
    + unfold GetInputMetadata in H. rewrite He in H. discriminate.
    + unfold GetInputMetadata in H. rewrite He in H. simpl in H. congruence.
    + unfold GetInputMetadata in H. rewrite He in H. discriminate.
    + unfold GetInputMetadata in H. rewrite He in H. discriminate.
    + unfold GetInputMetadata in H. rewrite He in H. discriminate.
  - unfold GetInputMetadata. rewrite H. reflexivity.
Qed.

Lemma GetInputMetadata_no_size_mismatch (this : ImageFeatureValue) (context : BindingContext) :
  GetInputMetadata this context <> Throw WINML_ERR_SIZE_MISMATCH.
Proof.
  intros H. apply GetInputMetadata_Throw_extents in H.
  - pose proof (resolve_extents_throws this (descriptor context)) as Ht.
    rewrite H in Ht. discriminate Ht.
  - intros [_ Hs]. apply Hs. reflexivity.
Qed.

(** ** The free-dimension rule *)

Lemma agree_cons (a b : Z) (v : list Z) :
  agree (a :: b :: v) <-> a = b /\ agree (b :: v).
Proof.
  unfold agree. split.
  - intros H. split.
    + apply H; [left | right; left].
    + intros x y Hx Hy. apply H; right; assumption.
  - intros [-> H] x y Hx Hy.
    apply elem_of_cons in Hx as [-> | Hx]; apply elem_of_cons in Hy as [-> | Hy].
    + reflexivity.
    + apply H; [left | exact Hy].
    + apply H; [exact Hx | left].
    + apply H; assumption.
Qed.

Lemma no_adjacent_difference_cons (a b : Z) (v : list Z) :
  no_adjacent_difference (a :: b :: v) = (a =? b) && no_adjacent_difference (b :: v).
Proof.
  unfold no_adjacent_difference.
  change (adjacent_find not_equal_to (a :: b :: v))
    with (if not_equal_to a b then Some 0%nat
          else S <$> adjacent_find not_equal_to (b :: v)).
  unfold not_equal_to at 1.
  generalize (adjacent_find not_equal_to (b :: v)). intros o.
  destruct (a =? b), o; reflexivity.
Qed.

Lemma no_adjacent_difference_agree (v : list Z) :
  no_adjacent_difference v = true <-> agree v.
Proof.
  induction v as [|a [|b v] IH].
  - split; [|reflexivity]. intros _ x y Hx. inversion Hx.
  - split; [|reflexivity]. intros _ x y Hx Hy.
    apply list_elem_of_singleton in Hx, Hy. congruence.
  - rewrite agree_cons, <- IH, no_adjacent_difference_cons, andb_true_iff, Z.eqb_eq.
    reflexivity.
Qed.

Lemma no_adjacent_difference_false (v : list Z) :
  no_adjacent_difference v = false <-> ~ agree v.
Proof.
  rewrite <- no_adjacent_difference_agree.
  destruct (no_adjacent_difference v); intuition congruence.
Qed.

Lemma vector_at_head_agree (v : list Z) (x a : Z) :
  vector_at v 0 = Ret x -> agree v -> a ∈ v -> x = a.
Proof.
  destruct v as [|y v]; [discriminate|]. intros H Ha Hin.
  injection H as <-. apply Ha; [left | exact Hin].
Qed.

Lemma vector_at_not_Throw {A} (v : list A) (i : Z) (hr : HRESULT) :
  vector_at v i <> Throw hr.
Proof.
  unfold vector_at. destruct (i <? 0); [discriminate|].
  destruct (v !! _); discriminate.
Qed.

(** When the image descriptor raises the invalid-argument failure. *)
Lemma resolve_extents_image_invalid (this : ImageFeatureValue) (W H : Z)
    (f : BitmapPixelFormat.t) (kind : TensorKind) :
  resolve_extents this (ImageFeatureDescriptor W H f kind) = Throw E_INVALIDARG <->
  (W = MAXUINT32 /\ ~ agree (m_widths this)) \/
  (H = MAXUINT32 /\ ~ agree (m_heights this)).
Proof.
  simpl. rewrite <- !no_adjacent_difference_false.
  destruct (Z.eqb_spec W MAXUINT32) as [HW|HW];
    destruct (no_adjacent_difference (m_widths this)); simpl;
    destruct (Z.eqb_spec H MAXUINT32) as [HH|HH];
    destruct (no_adjacent_difference (m_heights this)); simpl;
    try (split; [intros _ | reflexivity]; tauto);
    (split; [intros E; exfalso | intros [[? ?]|[? ?]]; congruence]);
    repeat match goal with
    | E : _ ≫= _ = Throw _ |- _ =>
        apply bind_Throw in E as [E | (? & _ & E)]
    | E : vector_at _ _ = Throw _ |- _ => exact (vector_at_not_Throw _ _ _ E)
    | E : Ret _ = Throw _ |- _ => discriminate E
    end.
Qed.

(** When a servable tensor descriptor raises it. *)
Lemma resolve_extents_tensor_invalid (this : ImageFeatureValue) (s0 s1 s2 s3 : Z)
    (kind : TensorKind) :
  s1 = 1 \/ s1 = 3 ->
  resolve_extents this (TensorFeatureDescriptor [s0; s1; s2; s3] kind) = Throw E_INVALIDARG <->
  (s3 = -1 /\ ~ agree (m_widths this)) \/
  (s2 = -1 /\ ~ agree (m_heights this)).
Proof.
  intros Hc. simpl. rewrite <- !no_adjacent_difference_false.
  replace ((s1 =? 3) || (s1 =? 1)) with true
    by (destruct Hc as [-> | ->]; reflexivity).
  simpl.
  destruct (Z.eqb_spec (-1) s3) as [HW|HW];
    destruct (no_adjacent_difference (m_widths this)); simpl;
    destruct (Z.eqb_spec (-1) s2) as [HH|HH];
    destruct (no_adjacent_difference (m_heights this)); simpl;
    try (split; [intros _ | reflexivity]; intuition congruence);
    (split; [intros E; exfalso | intros [[? ?]|[? ?]]; congruence]);
    repeat match goal with
    | E : _ ≫= _ = Throw _ |- _ =>
        apply bind_Throw in E as [E | (? & _ & E)]
    | E : vector_at _ _ = Throw _ |- _ => exact (vector_at_not_Throw _ _ _ E)
    | E : Ret _ = Throw _ |- _ => discriminate E
    end.
Qed.

Lemma resolve_extents_invalid (this : ImageFeatureValue) (d : FeatureDescriptor) :
  servable d ->
  resolve_extents this d = Throw E_INVALIDARG <->
  (free_width d /\ ~ agree (m_widths this)) \/
  (free_height d /\ ~ agree (m_heights this)).
Proof.
  destruct d as [W H f kind|shape kind|]; [intros _| |intros []].
  - apply resolve_extents_image_invalid.
  - destruct shape as [|s0 [|s1 [|s2 [|s3 [|x rest]]]]];
      try (intros Hf; exact (False_ind _ Hf)).
    apply resolve_extents_tensor_invalid.
Qed.

(** ** What a successful resolution returns *)

Lemma GetInputMetadata_Ret (this : ImageFeatureValue) (context : BindingContext)
    (md : ImageResourceMetadata) :
  GetInputMetadata this context = Ret (Some md) ->
  exists dw dh kind f,
    resolve_extents this (descriptor context) = Ret (Some (dw, dh, kind)) /\
    mapM (frame_bounds this context dw dh) (seqZ 0 (m_batchSize this)) = Ret (Bounds md) /\
    resolve_pixel_format context = Ret (Some f) /\
    CreateImageTensorDescriptor kind f (m_batchSize this) dw dh = Ret (TensorDescriptor md).
Proof.
  unfold GetInputMetadata. intros H.
  apply bind_Ret in H as ([[[dw dh] kind]|] & He & H); [|discriminate].
  apply bind_Ret in H as (bounds & Hb & H).
  apply bind_Ret in H as ([f|] & Hf & H); [|discriminate].
  simpl in H. apply bind_Ret in H as (d & Hd & H).
  injection H as <-. exists dw, dh, kind, f. auto.
Qed.

Lemma CreateImageTensorDescriptor_Ret (kind : TensorKind) (f : BitmapPixelFormat.t)
    (batch w h : Z) (d : ImageTensorDescription) :
  CreateImageTensorDescriptor kind f batch w h = Ret d ->
  supported_format f = true /\ channelType d = channel_of f /\
  GetTensorDataTypeFromTensorKind kind = Ret (dataType d) /\
  exists c, (c = 1 \/ c = 3) /\ sizes d = [batch; c; h; w].
Proof.
  unfold CreateImageTensorDescriptor, supported_format, channel_of. intros H.
  apply bind_Ret in H as (dt & Hdt & H).
  destruct (f =? BitmapPixelFormat.Rgba8);
    [|destruct (f =? BitmapPixelFormat.Bgra8);
      [|destruct (f =? BitmapPixelFormat.Gray8); [|discriminate]]];
    injection H as <-; simpl; (repeat split; [exact Hdt|]); eauto.
Qed.

Lemma resolve_extents_kind (this : ImageFeatureValue) (d : FeatureDescriptor)
    (dw dh : Z) (kind : TensorKind) :
  resolve_extents this d = Ret (Some (dw, dh, kind)) -> declared_kind d = Some kind.
Proof.
  destruct d as [W H f k|shape k|]; [| |discriminate]; simpl.
  - destruct (_ && _); [discriminate|]. destruct (_ && _); [discriminate|].
    intros E. apply bind_Ret in E as (x & _ & E). apply bind_Ret in E as (y & _ & E).
    congruence.
  - destruct shape as [|s0 [|s1 [|s2 [|s3 [|x rest]]]]]; try discriminate.
    destruct (negb _); [discriminate|].
    destruct (_ && _); [discriminate|]. destruct (_ && _); [discriminate|].
    intros E. apply bind_Ret in E as (x & _ & E). apply bind_Ret in E as (y & _ & E).
    congruence.
Qed.

Lemma CreateImageTensorDescriptor_supported (kind : TensorKind)
    (f : BitmapPixelFormat.t) (batch w h : Z) :
  supported_format f = true ->
  CreateImageTensorDescriptor kind f batch w h =
    (dt ← GetTensorDataTypeFromTensorKind kind;
     Ret {| dataType := dt; channelType := channel_of f;
            sizes := [batch; channel_count f; h; w] |}).
Proof.
  unfold supported_format, CreateImageTensorDescriptor, channel_of, channel_count.
  intros Hf.
  destruct (Z.eqb_spec f BitmapPixelFormat.Rgba8) as [-> | H1]; [reflexivity|].
  destruct (Z.eqb_spec f BitmapPixelFormat.Bgra8) as [-> | H2]; [reflexivity|].
  destruct (Z.eqb_spec f BitmapPixelFormat.Gray8) as [-> | H3]; [reflexivity|].
  discriminate Hf.
Qed.

(** The resolution, from the outcomes of its stages. *)
Lemma GetInputMetadata_stages (this : ImageFeatureValue) (context : BindingContext)
    (dw dh : Z) (kind : TensorKind) (bounds : list BitmapBounds)
    (f : BitmapPixelFormat.t) (dt : ImageTensorDataType) :
  resolve_extents this (descriptor context) = Ret (Some (dw, dh, kind)) ->
  mapM (frame_bounds this context dw dh) (seqZ 0 (m_batchSize this)) = Ret bounds ->
  resolve_pixel_format context = Ret (Some f) ->
  supported_format f = true ->
  GetTensorDataTypeFromTensorKind kind = Ret dt ->
  GetInputMetadata this context =
    Ret (Some {| Bounds := bounds;
                 TensorDescriptor :=
                   {| dataType := dt; channelType := channel_of f;
                      sizes := [m_batchSize this; channel_count f; dh; dw] |} |}).
Proof.
  intros He Hb Hf Hs Hdt. unfold GetInputMetadata.
  rewrite He. cbn [mbind Outcome_bind]. rewrite Hb. cbn [mbind Outcome_bind].
  rewrite Hf. cbn [mbind Outcome_bind optional_value].
  rewrite (CreateImageTensorDescriptor_supported _ _ _ _ _ Hs), Hdt. reflexivity.
Qed.

Lemma resolve_extents_free_width (this : ImageFeatureValue) (d : FeatureDescriptor)
    (dw dh : Z) (kind : TensorKind) :
  resolve_extents this d = Ret (Some (dw, dh, kind)) -> free_width d ->
  vector_at (m_widths this) 0 = Ret dw /\ agree (m_widths this).
Proof.
  rewrite <- no_adjacent_difference_agree.
  destruct d as [W H f k|shape k|]; [| |discriminate].
  - simpl. intros E ->. rewrite Z.eqb_refl in E.
    destruct (no_adjacent_difference (m_widths this)); [|discriminate].
    simpl in E. destruct (_ && _); [discriminate|].
    apply bind_Ret in E as (x & Hx & E). apply bind_Ret in E as (y & Hy & E).
    injection E as <- <- <-. auto.
  - destruct shape as [|s0 [|s1 [|s2 [|s3 [|x rest]]]]]; try discriminate.
    simpl. intros E ->. destruct (negb _); [discriminate|].
    rewrite Z.eqb_refl in E.
    destruct (no_adjacent_difference (m_widths this)); [|discriminate].
    simpl in E. destruct (_ && _); [discriminate|].
    apply bind_Ret in E as (x & Hx & E). apply bind_Ret in E as (y & Hy & E).
    injection E as <- <- <-. auto.
Qed.

Lemma resolve_extents_free_height (this : ImageFeatureValue) (d : FeatureDescriptor)
    (dw dh : Z) (kind : TensorKind) :
  resolve_extents this d = Ret (Some (dw, dh, kind)) -> free_height d ->
  vector_at (m_heights this) 0 = Ret dh /\ agree (m_heights this).
Proof.
  rewrite <- no_adjacent_difference_agree.
  destruct d as [W H f k|shape k|]; [| |discriminate].
  - simpl. intros E ->. rewrite Z.eqb_refl in E.
    destruct (_ && _); [discriminate|].
    destruct (no_adjacent_difference (m_heights this)); [|discriminate].
    simpl in E.
    apply bind_Ret in E as (x & Hx & E). apply bind_Ret in E as (y & Hy & E).
    injection E as <- <- <-. auto.
  - destruct shape as [|s0 [|s1 [|s2 [|s3 [|x rest]]]]]; try discriminate.
    simpl. intros E ->. destruct (negb _); [discriminate|].
    destruct (_ && _); [discriminate|].
    rewrite Z.eqb_refl in E.
    destruct (no_adjacent_difference (m_heights this)); [|discriminate].
    simpl in E.
    apply bind_Ret in E as (x & Hx & E). apply bind_Ret in E as (y & Hy & E).
    injection E as <- <- <-. auto.
Qed.

(** ** The pixel-format override *)

Lemma mapM_ext {A B} (f g : A -> Outcome B) (l : list A) :
  (forall a, f a = g a) -> mapM f l = mapM g l.
Proof.
  intros H. induction l as [|a l IH]; simpl; [reflexivity|].
  rewrite H, IH. reflexivity.
Qed.

Lemma HasKey_lookup (p : gmap string IInspectable) (k : string) (i : IInspectable) :
  p !! k = Some i -> HasKey p k = true /\ Lookup p k = i.
Proof.
  intros H. unfold HasKey, Lookup. rewrite H. split; [|reflexivity].
  apply bool_decide_eq_true. eauto.
Qed.

Lemma override_found (p : gmap string IInspectable) (f : Z) :
  p !! "BitmapPixelFormat" = Some (Insp_value (PV_Int32 f)) ->
  supported_format f = true ->
  GetBitmapPixelFormatFromMetadata (Some p) = Ret (Some f).
Proof.
  intros Hp Hf. apply HasKey_lookup in Hp as [Hk Hl].
  unfold GetBitmapPixelFormatFromMetadata. rewrite Hk, Hl. simpl.
  rewrite Hf. reflexivity.
Qed.

(** C6. With a valid pixel-format override in the property bag, the
    resolved pixel format is the override, and two binding contexts that
    differ only in the pixel format their image descriptor declares
    resolve to the same result, tensor description included. The
    resolution succeeds exactly when the extents and the rectangles resolve
    and the tensor kind is supported, whatever format the descriptor
    declares, and the tensor description then has the channel type and the
    channel count of the override. *)
Theorem override_hides_declared_format (this : ImageFeatureValue)
    (context1 context2 : BindingContext) (p : gmap string IInspectable)
    (f f1 f2 W H : Z) (kind : TensorKind) :
  properties context1 = Some p ->
  p !! "BitmapPixelFormat" = Some (Insp_value (PV_Int32 f)) ->
  supported_format f = true ->
  descriptor context1 = ImageFeatureDescriptor W H f1 kind ->
  descriptor context2 = ImageFeatureDescriptor W H f2 kind ->
  type context2 = type context1 ->
  properties context2 = properties context1 ->
  resolve_pixel_format context1 = Ret (Some f) /\
  GetInputMetadata this context1 = GetInputMetadata this context2 /\
  (forall md, GetInputMetadata this context1 = Ret (Some md) ->
     channelType (TensorDescriptor md) = channel_of f) /\
  (forall md,
     GetInputMetadata this context1 = Ret (Some md) <->
     exists dw dh dt,
       resolve_extents this (ImageFeatureDescriptor W H f1 kind)
         = Ret (Some (dw, dh, kind)) /\
       mapM (frame_bounds this context1 dw dh) (seqZ 0 (m_batchSize this))
         = Ret (Bounds md) /\
       GetTensorDataTypeFromTensorKind kind = Ret dt /\
       TensorDescriptor md =
         {| dataType := dt; channelType := channel_of f;
            sizes := [m_batchSize this; channel_count f; dh; dw] |}).
Proof.
  intros Hp Hk Hf Hd1 Hd2 Ht Hq.
  assert (Hr1 : resolve_pixel_format context1 = Ret (Some f)).
  { unfold resolve_pixel_format. rewrite Hp, (override_found _ _ Hk Hf). reflexivity. }
  assert (Hr2 : resolve_pixel_format context2 = Ret (Some f)).
  { unfold resolve_pixel_format. rewrite Hq, Hp, (override_found _ _ Hk Hf). reflexivity. }
  split; [exact Hr1|]. split; [|split].
  - unfold GetInputMetadata. rewrite Hr1, Hr2, Hd1, Hd2.
    change (resolve_extents this (ImageFeatureDescriptor W H f2 kind))
      with (resolve_extents this (ImageFeatureDescriptor W H f1 kind)).
    destruct (resolve_extents this (ImageFeatureDescriptor W H f1 kind))
      as [[[[dw dh] k]|]| | | |]; try reflexivity.
    simpl. rewrite (mapM_ext (frame_bounds this context1 dw dh)
                      (frame_bounds this context2 dw dh)); [reflexivity|].
    intros i. unfold frame_bounds. rewrite Hq, Ht. reflexivity.
  - intros md Hmd.
    apply GetInputMetadata_Ret in Hmd as (dw & dh & k & f' & _ & _ & Hf' & Hc).
    rewrite Hr1 in Hf'. injection Hf' as <-.
    apply CreateImageTensorDescriptor_Ret in Hc as (_ & Hc & _). exact Hc.
  - intros md. split.
    + intros Hmd.
      apply GetInputMetadata_Ret in Hmd as (dw & dh & k & f' & He & Hb & Hf' & Hc).
      rewrite Hr1 in Hf'. injection Hf' as <-. rewrite Hd1 in He.
      pose proof (resolve_extents_kind _ _ _ _ _ He) as Hkind.
      injection Hkind as <-.
      rewrite (CreateImageTensorDescriptor_supported _ _ _ _ _ Hf) in Hc.
      apply bind_Ret in Hc as (dt & Hdt & Hc). injection Hc as Hc.
      exists dw, dh, dt. auto.
    + intros (dw & dh & dt & He & Hb & Hdt & Hmd). rewrite <- Hd1 in He.
      rewrite (GetInputMetadata_stages this context1 dw dh kind (Bounds md) f dt
                 He Hb Hr1 Hf Hdt).
      rewrite <- Hmd. destruct md; reflexivity.
Qed.

Lemma override_hides_declared_format_witness :
  let this := Initialize [BitmapFrame 640 480] in
  let p : gmap string IInspectable :=
    {["BitmapPixelFormat" := Insp_value (PV_Int32 BitmapPixelFormat.Gray8)]} in
  let context1 :=
    make_context kInput cpu_session
      (ImageFeatureDescriptor 224 224 BitmapPixelFormat.Bgra8 TK_Float) (Some p) in
  let context2 :=
    make_context kInput cpu_session
      (ImageFeatureDescriptor 224 224 BitmapPixelFormat.Rgba8 TK_Float) (Some p) in
  let md :=
    {| Bounds := [{| X := 80; Y := 0; Width := 480; Height := 480 |}];
       TensorDescriptor :=
         {| dataType := kImageTensorDataTypeFloat32;
            channelType := kImageTensorChannelTypeGRAY8;
            sizes := [1; 1; 224; 224] |} |} in
  resolve_pixel_format context1 = Ret (Some BitmapPixelFormat.Gray8) /\
  GetInputMetadata this context1 = Ret (Some md) /\
  GetInputMetadata this context2 = Ret (Some md).
Proof.
  intros this p context1 context2 md.
  destruct (override_hides_declared_format this context1 context2 p
              BitmapPixelFormat.Gray8 BitmapPixelFormat.Bgra8 BitmapPixelFormat.Rgba8
              224 224 TK_Float eq_refl eq_refl eq_refl eq_refl eq_refl eq_refl eq_refl)
    as (Hf & Hsame & _ & Hiff).
  assert (Hmd : GetInputMetadata this context1 = Ret (Some md)).
  { apply (proj2 (Hiff md)). exists 224, 224, kImageTensorDataTypeFloat32.
    split; [reflexivity|]. split; [vm_compute; reflexivity|].
    split; reflexivity. }
  split; [exact Hf|]. split; [exact Hmd|]. rewrite <- Hsame. exact Hmd.
Defined.

(** ** Declined descriptors at the two entry points *)

(** C8. A tensor descriptor whose shape does not have exactly four axes
    is declined: the resolution returns the empty optional, which is not a
    failure, and the bind entry point then reports the invalid-argument
    result and leaves the feature value, the binding context and the
    converter stores as they were. *)
Theorem wrong_rank_is_declined (engine : Engine) (s : State)
    (shape : list Z) (kind : TensorKind) :
  descriptor (st_context s) = TensorFeatureDescriptor shape kind ->
  length shape <> 4%nat ->
  all_nonzero (m_widths (st_this s)) = true ->
  all_nonzero (m_heights (st_this s)) = true ->
  GetInputMetadata (st_this s) (st_context s) = Ret None /\
  (forall hr, GetInputMetadata (st_this s) (st_context s) <> Throw hr) /\
  GetOrtValue engine s = (Throw E_INVALIDARG, s).
Proof.
  intros Hd Hlen Hw Hh.
  assert (Hm : GetInputMetadata (st_this s) (st_context s) = Ret None).
  { apply GetInputMetadata_declines. rewrite Hd.
    apply resolve_extents_wrong_rank, Hlen. }
  split; [exact Hm|]. split.
  - intros hr. rewrite Hm. discriminate.
  - apply GetOrtValue_declined; assumption.
Qed.

Lemma wrong_rank_is_declined_witness :
  let s := make_state [BitmapFrame 640 480]
             (make_context kInput cpu_session
                (TensorFeatureDescriptor [3; 224; 224] TK_Float) None) in
  GetInputMetadata (st_this s) (st_context s) = Ret None /\
  (forall hr, GetInputMetadata (st_this s) (st_context s) <> Throw hr) /\
  GetOrtValue working_engine s = (Throw E_INVALIDARG, s).
Proof.
  intros s.
  apply (wrong_rank_is_declined working_engine s [3; 224; 224] TK_Float).
  - reflexivity.
  - simpl. lia.
  - reflexivity.
  - reflexivity.
Defined.

(** C9 (as amended). A tensor descriptor of rank 4 whose channel axis is
    neither 1 nor 3 is declined: the resolution returns the empty optional
    and raises no failure; and no binding context at all makes the
    resolution fail with the size-mismatch condition. *)
Theorem wrong_channels_are_declined (this : ImageFeatureValue) (context : BindingContext)
    (n c h w : Z) (kind : TensorKind) :
  descriptor context = TensorFeatureDescriptor [n; c; h; w] kind ->
  c <> 1 -> c <> 3 ->
  GetInputMetadata this context = Ret None /\
  (forall this' context',
     GetInputMetadata this' context' <> Throw WINML_ERR_SIZE_MISMATCH).
Proof.
  intros Hd H1 H3. split.
  - apply GetInputMetadata_declines. rewrite Hd.
    apply resolve_extents_wrong_channels; assumption.
  - intros this' context'. apply GetInputMetadata_no_size_mismatch.
Qed.

Lemma wrong_channels_are_declined_witness :
  let this := Initialize [BitmapFrame 640 480] in
  let context :=
    make_context kInput cpu_session (TensorFeatureDescriptor [1; 4; 224; 224] TK_Float) None in
  GetInputMetadata this context = Ret None /\
  (forall this' context',
     GetInputMetadata this' context' <> Throw WINML_ERR_SIZE_MISMATCH).
Proof.
  intros this context.
  apply (wrong_channels_are_declined this context 1 4 224 224 TK_Float).
  - reflexivity.
  - lia.
  - lia.
Defined.

(** C9, the claim as stated fails: four channels on a rank-4 tensor
    descriptor give the empty optional, not the size-mismatch failure. *)
Lemma wrong_channels_counterexample :
  GetInputMetadata (Initialize [BitmapFrame 640 480])
    (make_context kInput cpu_session (TensorFeatureDescriptor [1; 4; 224; 224] TK_Float) None)
  = Ret None /\
  GetInputMetadata (Initialize [BitmapFrame 640 480])
    (make_context kInput cpu_session (TensorFeatureDescriptor [1; 4; 224; 224] TK_Float) None)
  <> Throw WINML_ERR_SIZE_MISMATCH.
Proof. split; [reflexivity | discriminate]. Qed.

(** C10. When the resolver declines the descriptor of a binding context,
    the readback entry point takes the value of the empty optional and
    fails with [std::bad_optional_access], before it touches the binding
    context or a converter store, where the bind entry point reports the
    invalid-argument result for the same context; the readback reports
    neither that result nor any other HRESULT of the resolution. *)
Theorem readback_dereferences_declined_metadata (engine : Engine) (ort_value : OrtValue)
    (s : State) :
  GetInputMetadata (st_this s) (st_context s) = Ret None ->
  m_adapter (st_this s) = true \/ OrtGetWinMLAdapter engine = S_OK ->
  GetTensorMutableData engine = true ->
  all_nonzero (m_widths (st_this s)) = true ->
  all_nonzero (m_heights (st_this s)) = true ->
  fst (UpdateSourceResourceData engine ort_value s) = BadOptionalAccess /\
  (forall hr, fst (UpdateSourceResourceData engine ort_value s) <> Throw hr) /\
  st_context (snd (UpdateSourceResourceData engine ort_value s)) = st_context s /\
  st_world (snd (UpdateSourceResourceData engine ort_value s)) = st_world s /\
  GetOrtValue engine s = (Throw E_INVALIDARG, s).
Proof.
  intros Hm Ha Hd Hw Hh.
  destruct (UpdateSourceResourceData_declined engine ort_value s Ha Hd Hm)
    as (Hu & Hc & Hwd).
  split; [exact Hu|]. split; [|split; [exact Hc | split; [exact Hwd|]]].
  - intros hr. rewrite Hu. discriminate.
  - apply GetOrtValue_declined; assumption.
Qed.

Lemma readback_dereferences_declined_metadata_witness :
  let s :=
    make_state [BitmapFrame 640 480]
      (make_context kOutput gpu_session (TensorFeatureDescriptor [1; 1000] TK_Float) None) in
  let ort_value :=
    {| ov_shape := [1; 1000]; ov_float32 := true;
       ov_allocator := snd (GetProviderAllocator working_engine) |} in
  fst (UpdateSourceResourceData working_engine ort_value s) = BadOptionalAccess /\
  (forall hr, fst (UpdateSourceResourceData working_engine ort_value s) <> Throw hr) /\
  st_context (snd (UpdateSourceResourceData working_engine ort_value s)) = st_context s /\
  st_world (snd (UpdateSourceResourceData working_engine ort_value s)) = st_world s /\
  GetOrtValue working_engine s = (Throw E_INVALIDARG, s).
Proof.
  intros s ort_value.
  apply (readback_dereferences_declined_metadata working_engine ort_value s).
  - reflexivity.
  - right. reflexivity.
  - reflexivity.
  - reflexivity.
  - reflexivity.
Defined.

(** ** Where the code departs from the specification *)

(** C1. Binding two frames on a GPU session: the converter that the
    device tensorization of frame 0 was submitted on is back in the store
    when the bind entry point returns, before any signal that the
    execution run has finished, and the slot of the binding context holds
    the wrapper of frame 1 only. *)
Theorem gpu_converter_returned_before_completion :
  let s := make_state [SurfaceFrame 640 480; SurfaceFrame 640 480]
             (make_context kInput gpu_session
                (TensorFeatureDescriptor [2; 3; 224; 224] TK_Float) None) in
  exists v s' c0 c1 p,
    GetOrtValue working_engine s = (Ret v, s') /\
    gpu_submissions (trace (st_world s')) = [(c0, 0); (c1, 1)] /\
    c0 <> c1 /\
    returned (trace (st_world s')) = [c0] /\
    idle (st_world s') = [c0] /\
    converter (st_context s') = Some p /\
    wrappers (st_world s') = {[ p := (1%nat, c1) ]}.
Proof.
  intros s.
  destruct (GetOrtValue working_engine s) as [[v| | | |] s'] eqn:E;
    try (vm_compute in E; discriminate E).
  set (key := {| pixel_format := 88; width := 224; height := 224; luid := 1 |}).
  exists v, s', {| cr_store := TensorizerStore; cr_key := key; cr_id := 0 |},
    {| cr_store := TensorizerStore; cr_key := key; cr_id := 1 |}, 1%nat.
  split; [reflexivity|].
  assert (Hs : s' = snd (GetOrtValue working_engine s)) by (rewrite E; reflexivity).
  rewrite Hs. clear E Hs.
  split; [vm_compute; reflexivity|]. split; [discriminate|].
  split; [vm_compute; reflexivity|]. split; [vm_compute; reflexivity|].
  split; [vm_compute; reflexivity|].
  apply map_eq. intros i. vm_compute. reflexivity.
Qed.

(** C5. An override of the bounds in the property bag reaches the
    rectangle list as it is: for a 100 by 100 frame the resolution succeeds
    with the rectangle of width and height 1000 at the origin, which does
    not lie within the frame. *)
Theorem override_bounds_are_not_validated :
  let this := Initialize [BitmapFrame 100 100] in
  let context :=
    make_context kInput cpu_session
      (ImageFeatureDescriptor 100 100 BitmapPixelFormat.Bgra8 TK_Float)
      (Some {["BitmapBounds" := Insp_value (PV_UInt32Array [0; 0; 1000; 1000])]}) in
  exists md,
    GetInputMetadata this context = Ret (Some md) /\
    Bounds md = [{| X := 0; Y := 0; Width := 1000; Height := 1000 |}] /\
    m_widths this = [100] /\ m_heights this = [100] /\
    ~ within_frame {| X := 0; Y := 0; Width := 1000; Height := 1000 |} 100 100.
Proof.
  intros this context.
  destruct (GetInputMetadata this context) as [[md|]| | | |] eqn:E;
    try (vm_compute in E; discriminate E).
  exists md. split; [reflexivity|].
  vm_compute in E. injection E as <-.
  split; [reflexivity|]. split; [reflexivity|]. split; [reflexivity|].
  unfold within_frame. simpl. lia.
Qed.

(** C7. Binding two frames on a CPU session against a 32768 by 32768
    image descriptor of three [float] channels: one frame takes
    12884901888 bytes, the total divides by the batch exactly, and both
    frames are written at offset 0, since the size of one frame is passed
    on as an [unsigned int]. *)
Theorem cpu_frame_offset_truncated :
  let s := make_state [BitmapFrame 640 480; BitmapFrame 640 480]
             (make_context kInput cpu_session
                (ImageFeatureDescriptor 32768 32768 BitmapPixelFormat.Bgra8 TK_Float) None) in
  exists v s',
    GetOrtValue working_engine s = (Ret v, s') /\
    ov_shape v = [2; 3; 32768; 32768] /\
    (4 * (2 * 3 * 32768 * 32768)) / 2 = 12884901888 /\
    (4 * (2 * 3 * 32768 * 32768)) mod 2 = 0 /\
    cpu_writes (trace (st_world s')) = [(0, 0); (1, 0)].
Proof.
  intros s.
  destruct (GetOrtValue working_engine s) as [[v| | | |] s'] eqn:E;
    try (vm_compute in E; discriminate E).
  exists v, s'. split; [reflexivity|].
  vm_compute in E. injection E as <- <-.
  split; [reflexivity|]. split; [reflexivity|]. split; reflexivity.
Qed.

(** ** Single-precision arithmetic *)

Lemma bpow_pos (e : Z) : (0 < bpow e)%R.
Proof. apply powerRZ_lt. lra. Qed.

Lemma bpow_add (a b : Z) : bpow (a + b) = (bpow a * bpow b)%R.
Proof. apply powerRZ_add. lra. Qed.

Lemma bpow_0 : bpow 0 = 1%R.
Proof. reflexivity. Qed.

Lemma bpow_1 : bpow 1 = 2%R.
Proof. unfold bpow. simpl. lra. Qed.

Lemma bpow_succ (e : Z) : bpow (e + 1) = (2 * bpow e)%R.
Proof. rewrite bpow_add, bpow_1. lra. Qed.

Lemma bpow_nonneg_ge_1 (n : Z) : 0 <= n -> (1 <= bpow n)%R.
Proof.
  intros Hn. pattern n. apply natlike_ind; [rewrite bpow_0; lra | | exact Hn].
  intros k Hk IH. unfold Z.succ. rewrite bpow_succ. lra.
Qed.

Lemma bpow_le (a b : Z) : a <= b -> (bpow a <= bpow b)%R.
Proof.
  intros H. replace b with (a + (b - a)) by lia. rewrite bpow_add.
  pose proof (bpow_nonneg_ge_1 (b - a) ltac:(lia)). pose proof (bpow_pos a). nra.
Qed.

Lemma bpow_lt (a b : Z) : a < b -> (bpow a < bpow b)%R.
Proof.
  intros H. replace b with ((a + 1) + (b - a - 1)) by lia. rewrite bpow_add, bpow_succ.
  pose proof (bpow_nonneg_ge_1 (b - a - 1) ltac:(lia)). pose proof (bpow_pos a). nra.
Qed.

Lemma bpow_lt_inv (a b : Z) : (bpow a < bpow b)%R -> a < b.
Proof.
  intros H. destruct (Z_lt_le_dec a b) as [|Hle]; [assumption|].
  apply bpow_le in Hle. lra.
Qed.

Lemma bpow_IZR (n : Z) : 0 <= n -> bpow n = IZR (2 ^ n).
Proof.
  intros Hn. pattern n. apply natlike_ind; [reflexivity | | exact Hn].
  intros k Hk IH. unfold Z.succ. rewrite bpow_succ, IH, Z.pow_add_r by lia.
  rewrite mult_IZR. change (2 ^ 1) with 2. lra.
Qed.

Lemma digits2_pos_bounds (m : positive) :
  2 ^ (Zpos (digits2_pos m) - 1) <= Zpos m < 2 ^ Zpos (digits2_pos m).
Proof.
  induction m as [m IH|m IH|]; simpl digits2_pos.
  - rewrite Pos2Z.inj_succ. replace (Z.succ (Z.pos (digits2_pos m)) - 1) with (Z.pos (digits2_pos m) - 1 + 1) by lia.
    rewrite Z.pow_add_r, Z.pow_succ_r by lia. lia.
  - rewrite Pos2Z.inj_succ. replace (Z.succ (Z.pos (digits2_pos m)) - 1) with (Z.pos (digits2_pos m) - 1 + 1) by lia.
    rewrite Z.pow_add_r, Z.pow_succ_r by lia. lia.
  - simpl. lia.
Qed.

Lemma digits2_pos_unique (m : positive) (n : Z) :
  2 ^ (n - 1) <= Zpos m < 2 ^ n -> Zpos (digits2_pos m) = n.
Proof.
  intros [Hl Hu]. pose proof (digits2_pos_bounds m) as [Dl Du].
  assert (0 < n). { destruct (Z_lt_le_dec 0 n); [assumption|]. 
    assert (2 ^ n <= 2 ^ 0) by (apply Z.pow_le_mono_r; lia). simpl in *. lia. }
  destruct (Z.lt_trichotomy (Zpos (digits2_pos m)) n) as [Hlt | [Heq | Hgt]]; [|assumption|].
  - assert (2 ^ Zpos (digits2_pos m) <= 2 ^ (n - 1)) by (apply Z.pow_le_mono_r; lia). lia.
  - assert (2 ^ n <= 2 ^ (Zpos (digits2_pos m) - 1)) by (apply Z.pow_le_mono_r; lia). lia.
Qed.

Lemma locates_bounds (x : R) (m e : Z) (l : location) :
  locates x m e l -> (IZR m * bpow e <= x < (IZR m + 1) * bpow e)%R.
Proof.
  pose proof (bpow_pos e). destruct l as [|[| |]]; simpl; intros; nra.
Qed.

Lemma loc_of_shr_record_of_loc (m : Z) (l : location) :
  loc_of_shr_record (shr_record_of_loc m l) = l /\
  shr_m (shr_record_of_loc m l) = m.
Proof. destruct l as [|[| |]]; split; reflexivity. Qed.

Lemma shr_1_locates (x : R) (mrs : shr_record) (e : Z) :
  0 <= shr_m mrs ->
  locates x (shr_m mrs) e (loc_of_shr_record mrs) ->
  0 <= shr_m (shr_1 mrs) /\
  locates x (shr_m (shr_1 mrs)) (e + 1) (loc_of_shr_record (shr_1 mrs)).
Proof.
  destruct mrs as [m r s]. simpl shr_m. intros Hm H.
  pose proof (bpow_pos e) as Hb. 
  destruct m as [|p|p]; [| |lia].
  - destruct r, s; simpl in *; rewrite ?bpow_succ; split; try lia; try nra.
  - destruct p as [p|p|].
    + assert (Hp : IZR (Zpos p~1) = (2 * IZR (Zpos p) + 1)%R)
        by (rewrite Pos2Z.inj_xI, plus_IZR, mult_IZR; reflexivity).
      destruct r, s; simpl in *; rewrite ?bpow_succ; rewrite Hp in H; split; try lia; try nra.
    + assert (Hp : IZR (Zpos p~0) = (2 * IZR (Zpos p))%R)
        by (rewrite Pos2Z.inj_xO, mult_IZR; reflexivity).
      destruct r, s; simpl in *; rewrite ?bpow_succ; rewrite Hp in H; split; try lia; try nra.
    + destruct r, s; simpl in *; rewrite ?bpow_succ; split; try lia; try nra.
Qed.

Lemma iter_pos_shr_1_locates (p : positive) :
  forall (x : R) (mrs : shr_record) (e : Z),
  0 <= shr_m mrs ->
  locates x (shr_m mrs) e (loc_of_shr_record mrs) ->
  0 <= shr_m (SpecFloat.iter_pos shr_1 p mrs) /\
  locates x (shr_m (SpecFloat.iter_pos shr_1 p mrs)) (e + Zpos p)
    (loc_of_shr_record (SpecFloat.iter_pos shr_1 p mrs)).
Proof.
  induction p as [p IH|p IH|]; intros x mrs e Hm H; simpl SpecFloat.iter_pos.
  - destruct (shr_1_locates x mrs e Hm H) as [H1 H2].
    destruct (IH x _ _ H1 H2) as [H3 H4].
    destruct (IH x _ _ H3 H4) as [H5 H6].
    split; [exact H5|]. replace (e + Zpos p~1) with (e + 1 + Zpos p + Zpos p) by lia.
    exact H6.
  - destruct (IH x _ _ Hm H) as [H3 H4].
    destruct (IH x _ _ H3 H4) as [H5 H6].
    split; [exact H5|]. replace (e + Zpos p~0) with (e + Zpos p + Zpos p) by lia.
    exact H6.
  - exact (shr_1_locates x mrs e Hm H).
Qed.

Lemma shr_locates (x : R) (mrs : shr_record) (e n : Z) :
  0 <= shr_m mrs -> 0 <= n ->
  locates x (shr_m mrs) e (loc_of_shr_record mrs) ->
  snd (shr mrs e n) = e + n /\
  0 <= shr_m (fst (shr mrs e n)) /\
  locates x (shr_m (fst (shr mrs e n))) (e + n) (loc_of_shr_record (fst (shr mrs e n))).
Proof.
  intros Hm Hn H. destruct n as [|p|p]; [| |lia]; simpl.
  - rewrite Z.add_0_r. auto.
  - split; [reflexivity|]. apply iter_pos_shr_1_locates; assumption.
Qed.

Lemma fexp_normal (e : Z) : -125 <= e -> fexp 24 128 e = e - 24.
Proof. unfold fexp, emin. lia. Qed.

Lemma IZR_pow2 (n : Z) : 0 <= n -> IZR (2 ^ n) = bpow n.
Proof. intros. symmetry. apply bpow_IZR. assumption. Qed.

(** The slice of a positive integer with [d] digits. *)
Lemma locates_binade (x : R) (p : positive) (ex : Z) (l : location) :
  locates x (Zpos p) ex l ->
  (bpow (Zpos (digits2_pos p) + ex - 1) <= x < bpow (Zpos (digits2_pos p) + ex))%R.
Proof.
  intros H. apply locates_bounds in H.
  pose proof (digits2_pos_bounds p) as [Hl Hu].
  pose proof (bpow_pos ex) as Hb.
  replace (Zpos (digits2_pos p) + ex - 1) with ((Zpos (digits2_pos p) - 1) + ex) by lia.
  rewrite !bpow_add.
  rewrite <- (IZR_pow2 (Zpos (digits2_pos p) - 1)), <- (IZR_pow2 (Zpos (digits2_pos p))) by lia.
  apply IZR_le in Hl. assert (Hu' : (IZR (Zpos p) + 1 <= IZR (2 ^ Zpos (digits2_pos p)))%R).
  { rewrite <- plus_IZR. apply IZR_le. lia. }
  revert Hl Hu'. generalize (IZR (2 ^ (Zpos (digits2_pos p) - 1))).
  generalize (IZR (2 ^ Zpos (digits2_pos p))). intros hi lo Hl Hu'.
  split; nra.
Qed.

Lemma round_nearest_even_spec (x : R) (m E : Z) (l : location) :
  locates x m E l ->
  (round_nearest_even m l = m \/ round_nearest_even m l = m + 1) /\
  (Rabs (IZR (round_nearest_even m l) * bpow E - x) <= bpow E / 2)%R.
Proof.
  pose proof (bpow_pos E) as Hb. intros H.
  destruct l as [|[| |]]; simpl in *.
  - split; [auto|]. rewrite H. rewrite Rminus_diag, Rabs_R0. lra.
  - destruct (Z.even m); (split; [auto|]); rewrite ?plus_IZR; subst x;
      apply Rabs_le; lra.
  - split; [auto|]. apply Rabs_le. lra.
  - split; [auto|]. rewrite plus_IZR. apply Rabs_le. lra.
Qed.

Lemma binary_round_aux_correct (x : R) (p : positive) (ex : Z) (lx : location) :
  24 <= Zpos (digits2_pos p) ->
  locates x (Zpos p) ex lx ->
  (bpow (-126) <= x < bpow 127)%R ->
  canonic (binary_round_aux 24 128 false (Zpos p) ex lx) /\
  rounds_at (Zpos (digits2_pos p) + ex - 24) x
    (B2R (binary_round_aux 24 128 false (Zpos p) ex lx)).
Proof.
  intros Hd Hloc Hx.
  set (d := Zpos (digits2_pos p)) in *. set (E := d + ex - 24).
  pose proof (locates_binade _ _ _ _ Hloc) as Hbin. fold d in Hbin.
  assert (HbE : (bpow (E + 23) <= x < bpow (E + 24))%R).
  { replace (E + 23) with (d + ex - 1) by (unfold E; lia).
    replace (E + 24) with (d + ex) by (unfold E; lia). exact Hbin. }
  assert (HE : -149 <= E <= 103).
  { split.
    - assert (-126 < E + 24); [|lia]. apply bpow_lt_inv. lra.
    - assert (E + 23 < 127); [|lia]. apply bpow_lt_inv. lra. }
  pose proof (bpow_pos E) as HposE.
  remember (binary_round_aux 24 128 false (Zpos p) ex lx) as res eqn:Hres.
  unfold binary_round_aux in Hres.
  (* first shift *)
  unfold shr_fexp at 1 in Hres. change (Zdigits2 (Zpos p)) with d in Hres.
  rewrite fexp_normal in Hres by (unfold E in HE; lia).
  destruct (loc_of_shr_record_of_loc (Zpos p) lx) as [Hl0 Hm0].
  destruct (shr_locates x (shr_record_of_loc (Zpos p) lx) ex (d + ex - 24 - ex))
    as (He1 & Hm1 & Hloc1).
  { rewrite Hm0. lia. } { lia. } { rewrite Hm0, Hl0. exact Hloc. }
  destruct (shr (shr_record_of_loc (Zpos p) lx) ex (d + ex - 24 - ex)) as [mrs1 e1].
  simpl in He1, Hm1, Hloc1. subst e1.
  replace (ex + (d + ex - 24 - ex)) with E in * by (unfold E; lia).
  (* the shifted mantissa has 24 digits *)
  pose proof (locates_bounds _ _ _ _ Hloc1) as Hb1.
  assert (Hm1b : 2 ^ 23 <= shr_m mrs1 < 2 ^ 24).
  { rewrite !bpow_add, <- (IZR_pow2 23), <- (IZR_pow2 24) in HbE by lia. split.
    - assert (2 ^ 23 < shr_m mrs1 + 1); [|lia]. apply lt_IZR. rewrite plus_IZR. nra.
    - apply lt_IZR. nra. }
  destruct (round_nearest_even_spec x _ E _ Hloc1) as [Hm2 Herr].
  remember (round_nearest_even (shr_m mrs1) (loc_of_shr_record mrs1)) as m2 eqn:Em2.
  assert (Hm2b : 2 ^ 23 <= m2 <= 2 ^ 24) by lia.
  (* second shift *)
  unfold shr_fexp in Hres.
  destruct (Z.eq_dec m2 (2 ^ 24)) as [Heq | Hne].
  - rewrite Heq in Hres. change (2 ^ 24) with 16777216 in Hres.
    change (Zdigits2 16777216) with 25 in Hres.
    rewrite fexp_normal in Hres by lia.
    replace (25 + E - 24 - E) with 1 in Hres by lia.
    change (shr (shr_record_of_loc 16777216 loc_Exact) E 1)
      with ({| shr_m := 8388608; shr_r := false; shr_s := false |}, E + 1) in Hres.
    cbv iota beta in Hres. cbn [shr_m] in Hres.
    replace (E + 1 <=? 128 - 24) with true in Hres by (symmetry; apply Z.leb_le; lia).
    assert (Hv : B2R res = (IZR m2 * bpow E)%R).
    { rewrite Hres. cbn [B2R cond_Zopp]. rewrite bpow_succ, Heq.
      change (2 ^ 24) with 16777216. lra. }
    split.
    + exists 8388608%positive, (E + 1). split; [exact Hres|]. split; [reflexivity | lia].
    + split; [exact HbE|]. exists m2. rewrite Hv. split; [reflexivity | exact Herr].
  - assert (Hpos : 0 < m2) by lia.
    destruct m2 as [|p2|p2]; try lia.
    assert (Hd2 : Zpos (digits2_pos p2) = 24).
    { apply digits2_pos_unique. change (24 - 1) with 23. lia. }
    change (Zdigits2 (Zpos p2)) with (Zpos (digits2_pos p2)) in Hres. rewrite Hd2 in Hres.
    rewrite fexp_normal in Hres by lia.
    replace (24 + E - 24 - E) with 0 in Hres by lia.
    unfold shr in Hres. cbv iota beta in Hres. cbn [shr_record_of_loc shr_m] in Hres.
    replace (E <=? 128 - 24) with true in Hres by (symmetry; apply Z.leb_le; lia).
    split.
    + exists p2, E. split; [exact Hres|]. split; [exact Hd2 | lia].
    + split; [exact HbE|]. exists (Zpos p2). rewrite Hres. split; [reflexivity | exact Herr].
Qed.

Lemma bpow_m24 : bpow (-24) = (/ 16777216)%R.
Proof. unfold bpow. simpl. f_equal. lra. Qed.

Lemma Rabs_le_inv (x a : R) : (Rabs x <= a)%R -> (- a <= x <= a)%R.
Proof. unfold Rabs. destruct (Rcase_abs x); lra. Qed.

Lemma rounds_at_relative (E : Z) (x x' : R) :
  rounds_at E x x' -> (Rabs (x' - x) <= x / 16777216)%R.
Proof.
  intros [[Hl Hu] (k & _ & Hk)].
  replace (E + 23) with (E + 24 + -1) in Hl by lia. 
  rewrite bpow_add in Hl.
  assert (Hb : bpow E = (bpow (E + 24) * bpow (-24))%R).
  { rewrite <- bpow_add. f_equal. lia. }
  rewrite bpow_m24 in Hb.
  assert (Hm1 : bpow (-1) = (/ 2)%R) by (unfold bpow; simpl; lra).
  rewrite Hm1 in Hl. pose proof (bpow_pos (E + 24)). lra.
Qed.

Lemma rounds_at_pos (E : Z) (x x' : R) : rounds_at E x x' -> (0 < x /\ 0 < x')%R.
Proof.
  intros H. pose proof (rounds_at_relative _ _ _ H) as Hr.
  destruct H as [[Hl Hu] _]. pose proof (bpow_pos (E + 23)).
  split; [lra|]. apply Rabs_le_inv in Hr. lra.
Qed.

Lemma rounds_at_exact (E e0 j : Z) (x x' : R) :
  rounds_at E x x' -> x = (IZR j * bpow e0)%R -> E <= e0 -> x' = x.
Proof.
  intros [_ (k & Hk & Herr)] Hx He.
  replace e0 with ((e0 - E) + E) in Hx by lia.
  rewrite bpow_add, bpow_IZR, <- Rmult_assoc, <- mult_IZR in Hx by lia.
  set (j' := j * 2 ^ (e0 - E)) in *.
  pose proof (bpow_pos E) as Hb.
  rewrite Hk, Hx in *. rewrite <- Rmult_minus_distr_r, <- minus_IZR in Herr.
  rewrite Rabs_mult, (Rabs_pos_eq (bpow E)) in Herr by lra.
  rewrite <- abs_IZR in Herr.
  assert (Hz : (IZR (Z.abs (k - j')) < 1)%R) by nra.
  apply lt_IZR in Hz. replace k with j' by lia. reflexivity.
Qed.

Lemma iter_xO (m k : positive) : Zpos (Pos.iter xO m k) = Zpos m * 2 ^ Zpos k.
Proof.
  induction k as [|k IH] using Pos.peano_ind.
  - simpl. lia.
  - rewrite Pos.iter_succ, Pos2Z.inj_xO, IH, Pos2Z.inj_succ, Z.pow_succ_r by lia. lia.
Qed.

Lemma digits2_pos_shift (m k : positive) :
  Zpos (digits2_pos (Pos.iter xO m k)) = Zpos (digits2_pos m) + Zpos k.
Proof.
  apply digits2_pos_unique. rewrite iter_xO.
  pose proof (digits2_pos_bounds m) as [Hl Hu].
  replace (Zpos (digits2_pos m) + Zpos k - 1) with (Zpos (digits2_pos m) - 1 + Zpos k) by lia.
  rewrite !Z.pow_add_r by lia.
  assert (0 < 2 ^ Zpos k) by (apply Z.pow_pos_nonneg; lia). nia.
Qed.

(** The value and the binade of a canonical float. *)
Lemma canonic_value (f : spec_float) :
  canonic f ->
  exists m e, f = S754_finite false m e /\ Zpos (digits2_pos m) = 24 /\
    -149 <= e <= 104 /\ 2 ^ 23 <= Zpos m < 2 ^ 24 /\
    B2R f = (IZR (Zpos m) * bpow e)%R /\
    (bpow (e + 23) <= B2R f < bpow (e + 24))%R.
Proof.
  intros (m & e & -> & Hd & He). exists m, e.
  pose proof (digits2_pos_bounds m) as Hb. rewrite Hd in Hb. change (24 - 1) with 23 in Hb.
  repeat split; try assumption; try lia.
  - simpl. rewrite bpow_add, <- (IZR_pow2 23), Rmult_comm by lia.
    pose proof (bpow_pos e). apply Rmult_le_compat_r; [lra|]. apply IZR_le. lia.
  - simpl. rewrite bpow_add, <- (IZR_pow2 24), (Rmult_comm (bpow e)) by lia.
    pose proof (bpow_pos e). apply Rmult_lt_compat_r; [lra|]. apply IZR_lt. lia.
Qed.

Lemma binary_round_correct (m : positive) (e : Z) :
  (bpow (-126) <= IZR (Zpos m) * bpow e < bpow 127)%R ->
  canonic (binary_round 24 128 false m e) /\
  rounds_at (Zpos (digits2_pos m) + e - 24) (IZR (Zpos m) * bpow e)
    (B2R (binary_round 24 128 false m e)).
Proof.
  intros Hx. set (d := Zpos (digits2_pos m)).
  assert (Hbin : (bpow (d + e - 1) <= IZR (Zpos m) * bpow e < bpow (d + e))%R).
  { apply (locates_binade _ m e loc_Exact). reflexivity. }
  assert (HE : -125 <= d + e).
  { assert (-126 < d + e); [|lia]. apply bpow_lt_inv. lra. }
  unfold binary_round. fold d. rewrite fexp_normal by lia.
  unfold shl_align.
  destruct (d + e - 24 - e) as [|k|k] eqn:Hk.
  - assert (d = 24) by lia.
    replace (d + e - 24) with (Zpos (digits2_pos m) + e - 24) by reflexivity.
    apply binary_round_aux_correct; [fold d; lia | reflexivity | exact Hx].
  - replace (d + e - 24) with (Zpos (digits2_pos m) + e - 24) by reflexivity.
    apply binary_round_aux_correct; [fold d; lia | reflexivity | exact Hx].
  - assert (Hv : (IZR (Zpos (Pos.iter xO m k)) * bpow (d + e - 24) = IZR (Zpos m) * bpow e)%R).
    { rewrite iter_xO, mult_IZR, IZR_pow2, Rmult_assoc, <- bpow_add by lia.
      do 2 f_equal. lia. }
    pose proof (digits2_pos_shift m k) as Hds. fold d in Hds.
    replace (d + e - 24) with (Zpos (digits2_pos (Pos.iter xO m k)) + (d + e - 24) - 24) at 2
      by lia.
    rewrite <- Hv.
    apply binary_round_aux_correct; [lia | reflexivity | rewrite Hv; exact Hx].
Qed.

(** Conversion of a positive integer. *)
Lemma of_Z_correct (n : Z) :
  0 < n < 2 ^ 24 ->
  canonic (F32.of_Z n) /\ B2R (F32.of_Z n) = IZR n.
Proof.
  intros Hn. destruct n as [|p|p]; try lia.
  unfold F32.of_Z, binary_normalize.
  assert (Hx : (bpow (-126) <= IZR (Zpos p) * bpow 0 < bpow 127)%R).
  { rewrite bpow_0, Rmult_1_r. split.
    - apply Rle_trans with (bpow 0); [apply bpow_le; lia|]. rewrite bpow_0.
      apply IZR_le. lia.
    - apply Rlt_trans with (bpow 24); [|apply bpow_lt; lia].
      rewrite <- IZR_pow2 by lia. apply IZR_lt. lia. }
  destruct (binary_round_correct p 0 Hx) as [Hc Hr]. split; [exact Hc|].
  rewrite <- (Rmult_1_r (IZR (Zpos p))), <- bpow_0.
  apply (rounds_at_exact _ 0 (Zpos p) _ _ Hr); [reflexivity|].
  pose proof (digits2_pos_bounds p) as [Hl _].
  assert (Zpos (digits2_pos p) - 1 < 24); [|lia].
  apply (Z.pow_lt_mono_r_iff 2); lia.
Qed.

Lemma digits2_pos_lower (m : positive) (n : Z) :
  0 <= n -> 2 ^ n <= Zpos m -> n < Zpos (digits2_pos m).
Proof.
  intros Hn H. pose proof (digits2_pos_bounds m) as [_ Hu].
  apply (Z.pow_lt_mono_r_iff 2); lia.
Qed.

(** Multiplication of two canonical floats whose product is neither
    subnormal nor too large. *)
Lemma mul_correct (a b : spec_float) :
  canonic a -> canonic b ->
  (bpow (-126) <= B2R a * B2R b < bpow 127)%R ->
  canonic (F32.mul a b) /\
  exists E, rounds_at E (B2R a * B2R b) (B2R (F32.mul a b)).
Proof.
  intros Ha Hb Hx.
  destruct (canonic_value a Ha) as (m1 & e1 & -> & _ & _ & Hm1 & Hv1 & _).
  destruct (canonic_value b Hb) as (m2 & e2 & -> & _ & _ & Hm2 & Hv2 & _).
  rewrite Hv1, Hv2 in *.
  assert (Hv : (IZR (Zpos m1) * bpow e1 * (IZR (Zpos m2) * bpow e2) =
                IZR (Zpos (m1 * m2)) * bpow (e1 + e2))%R).
  { rewrite Pos2Z.inj_mul, mult_IZR, bpow_add. ring. }
  rewrite Hv in *.
  unfold F32.mul, SFmul. cbn [xorb].
  assert (Hd : 24 <= Zpos (digits2_pos (m1 * m2))).
  { assert (46 < Zpos (digits2_pos (m1 * m2))); [|lia].
    apply digits2_pos_lower; [lia|]. rewrite Pos2Z.inj_mul.
    change (2 ^ 46) with (2 ^ 23 * 2 ^ 23). nia. }
  destruct (binary_round_aux_correct _ (m1 * m2)%positive (e1 + e2) loc_Exact Hd
              eq_refl Hx) as [Hc Hr].
  split; [exact Hc|]. eexists. exact Hr.
Qed.

(** The location that the division computes from the remainder. *)
Lemma new_location_locates (q r m2 : Z) (v : R) (e : Z) :
  0 < m2 -> 0 <= r < m2 ->
  (v * IZR m2 = (IZR q * IZR m2 + IZR r) * bpow e)%R ->
  locates v q e (new_location m2 r).
Proof.
  intros Hm2 Hr Hv. pose proof (bpow_pos e) as Hb.
  assert (Hm2R : (0 < IZR m2)%R) by (apply IZR_lt; lia).
  assert (HrR : (0 <= IZR r < IZR m2)%R) by (split; [apply IZR_le | apply IZR_lt]; lia).
  unfold new_location, new_location_even, new_location_odd.
  destruct (Z.even m2) eqn:Hev.
  - destruct (Z.eqb_spec r 0) as [-> | Hr0].
    + simpl. apply (Rmult_eq_reg_r (IZR m2)); [|lra]. rewrite Hv. lra.
    + assert (0 < IZR r)%R by (apply IZR_lt; lia).
      destruct (Z.compare_spec (2 * r) m2) as [Hc | Hc | Hc]; simpl.
      * apply (Rmult_eq_reg_r (IZR m2)); [|lra]. rewrite Hv.
        rewrite <- Hc, mult_IZR. lra.
      * apply IZR_lt in Hc. rewrite mult_IZR in Hc. split.
        -- apply (Rmult_lt_reg_r (IZR m2)); [lra|]. rewrite Hv. nra.
        -- apply (Rmult_lt_reg_r (IZR m2)); [lra|]. rewrite Hv. nra.
      * apply IZR_lt in Hc. rewrite mult_IZR in Hc. split.
        -- apply (Rmult_lt_reg_r (IZR m2)); [lra|]. rewrite Hv. nra.
        -- apply (Rmult_lt_reg_r (IZR m2)); [lra|]. rewrite Hv. nra.
  - destruct (Z.eqb_spec r 0) as [-> | Hr0].
    + simpl. apply (Rmult_eq_reg_r (IZR m2)); [|lra]. rewrite Hv. lra.
    + assert (0 < IZR r)%R by (apply IZR_lt; lia).
      assert (Hodd : 2 * r <> m2).
      { intros <-. rewrite Z.even_mul in Hev. discriminate. }
      destruct (Z.compare_spec (2 * r + 1) m2) as [Hc | Hc | Hc]; simpl.
      * assert (Hlt : 2 * r < m2) by lia. apply IZR_lt in Hlt. rewrite mult_IZR in Hlt.
        split.
        -- apply (Rmult_lt_reg_r (IZR m2)); [lra|]. rewrite Hv. nra.
        -- apply (Rmult_lt_reg_r (IZR m2)); [lra|]. rewrite Hv. nra.
      * assert (Hlt : 2 * r < m2) by lia. apply IZR_lt in Hlt. rewrite mult_IZR in Hlt.
        split.
        -- apply (Rmult_lt_reg_r (IZR m2)); [lra|]. rewrite Hv. nra.
        -- apply (Rmult_lt_reg_r (IZR m2)); [lra|]. rewrite Hv. nra.
      * assert (Hlt : m2 < 2 * r) by lia. apply IZR_lt in Hlt. rewrite mult_IZR in Hlt.
        split.
        -- apply (Rmult_lt_reg_r (IZR m2)); [lra|]. rewrite Hv. nra.
        -- apply (Rmult_lt_reg_r (IZR m2)); [lra|]. rewrite Hv. nra.
Qed.

Lemma canonic_moderate_exponent (m : positive) (e : Z) :
  2 ^ 23 <= Zpos m < 2 ^ 24 ->
  moderate (IZR (Zpos m) * bpow e) -> -74 < e < 27.
Proof.
  intros Hm [Hl Hu]. pose proof (bpow_pos e) as Hb.
  assert (H1 : (bpow (e + 23) <= IZR (Zpos m) * bpow e)%R).
  { rewrite bpow_add, <- (IZR_pow2 23), Rmult_comm by lia.
    apply Rmult_le_compat_r; [lra|]. apply IZR_le. lia. }
  assert (H2 : (IZR (Zpos m) * bpow e < bpow (e + 24))%R).
  { rewrite bpow_add, <- (IZR_pow2 24), (Rmult_comm (bpow e)) by lia.
    apply Rmult_lt_compat_r; [lra|]. apply IZR_lt. lia. }
  split.
  - assert (-50 < e + 24); [|lia]. apply bpow_lt_inv. lra.
  - assert (e + 23 < 50); [|lia]. apply bpow_lt_inv. lra.
Qed.

(** Division of two canonical floats of moderate size. *)
Lemma div_correct (a b : spec_float) :
  canonic a -> canonic b -> moderate (B2R a) -> moderate (B2R b) ->
  canonic (F32.div a b) /\
  exists E, rounds_at E (B2R a / B2R b) (B2R (F32.div a b)).
Proof.
  intros Ha Hb Hma Hmb.
  destruct (canonic_value a Ha) as (m1 & e1 & -> & Hd1 & _ & Hm1 & Hv1 & _).
  destruct (canonic_value b Hb) as (m2 & e2 & -> & Hd2 & _ & Hm2 & Hv2 & _).
  rewrite Hv1, Hv2 in *.
  pose proof (canonic_moderate_exponent _ _ Hm1 Hma) as He1.
  pose proof (canonic_moderate_exponent _ _ Hm2 Hmb) as He2.
  pose proof (bpow_pos e1) as Hb1. pose proof (bpow_pos e2) as Hb2.
  assert (Hp1 : (0 < IZR (Zpos m1))%R) by (apply IZR_lt; lia).
  assert (Hp2 : (0 < IZR (Zpos m2))%R) by (apply IZR_lt; lia).
  set (v := (IZR (Zpos m1) * bpow e1 / (IZR (Zpos m2) * bpow e2))%R).
  assert (Hvb : (bpow (-126) <= v < bpow 127)%R).
  { destruct Hma as [Hla Hua], Hmb as [Hlb Hub].
    assert (Hq : (bpow (-100) < v < bpow 100)%R).
    { unfold v. replace (-100) with (-50 + -50) by lia. replace 100 with (50 + 50) by lia.
      rewrite !bpow_add.
      assert (Hinv : (bpow (-50) * bpow 50 = 1)%R) by (rewrite <- bpow_add; reflexivity).
      pose proof (bpow_pos (-50)) as HL. pose proof (bpow_pos 50) as HU.
      revert Hla Hua Hlb Hub Hinv HL HU.
      generalize (IZR (Z.pos m1) * bpow e1)%R (IZR (Z.pos m2) * bpow e2)%R
        (bpow (-50)) (bpow 50).
      intros N D L U Hla Hua Hlb Hub Hinv HL HU.
      assert (HiL : (/ L = U)%R) by (symmetry; apply Rmult_inv_r_uniq; lra).
      assert (HiU : (/ U = L)%R) by (symmetry; apply Rmult_inv_r_uniq; lra).
      assert (Hd1' : (/ D <= U)%R) by (rewrite <- HiL; apply Rinv_le_contravar; lra).
      assert (Hd2' : (L < / D)%R) by (rewrite <- HiU; apply Rinv_lt_contravar; nra).
      unfold Rdiv. split; nra. }
    pose proof (bpow_le (-126) (-100) ltac:(lia)). pose proof (bpow_lt 100 127 ltac:(lia)).
    lra. }
  unfold F32.div, SFdiv, SFdiv_core_binary. cbn [xorb].
  change (Zdigits2 (Zpos m1)) with (Zpos (digits2_pos m1)).
  change (Zdigits2 (Zpos m2)) with (Zpos (digits2_pos m2)).
  rewrite Hd1, Hd2.
  replace (24 + e1 - (24 + e2)) with (e1 - e2) by lia.
  rewrite fexp_normal by lia.
  replace (Z.min (e1 - e2 - 24) (e1 - e2)) with (e1 - e2 - 24) by lia.
  replace (e1 - e2 - (e1 - e2 - 24)) with 24 by lia.
  cbv iota beta.
  rewrite Z.shiftl_mul_pow2 by lia.
  pose proof (Z_div_mod (Zpos m1 * 2 ^ 24) (Zpos m2) ltac:(lia)) as Hdm.
  destruct (Z.div_eucl (Zpos m1 * 2 ^ 24) (Zpos m2)) as [q r].
  destruct Hdm as [Hdm Hr].
  assert (Hq : 2 ^ 23 <= q < 2 ^ 25).
  { change (2 ^ 24) with 16777216 in *. change (2 ^ 23) with 8388608 in *.
    change (2 ^ 25) with 33554432. nia. }
  destruct q as [|pq|pq]; try lia.
  assert (Hdq : 24 <= Zpos (digits2_pos pq)).
  { assert (23 < Zpos (digits2_pos pq)); [|lia]. apply digits2_pos_lower; lia. }
  assert (Hloc : locates v (Zpos pq) (e1 - e2 - 24) (new_location (Zpos m2) r)).
  { apply new_location_locates; [lia | lia |].
    rewrite <- mult_IZR, <- plus_IZR, (Z.mul_comm (Zpos pq)), <- Hdm.
    rewrite mult_IZR, (IZR_pow2 24) by lia. unfold v, Rdiv.
    rewrite Rinv_mult, Rmult_assoc.
    replace (e1 - e2 - 24) with (e1 + (- e2) + (-24)) by lia. rewrite !bpow_add.
    assert (Hi2 : (bpow (- e2) = / bpow e2)%R).
    { apply Rmult_eq_reg_r with (bpow e2); [|lra]. rewrite <- bpow_add, Rinv_l by lra.
      replace (- e2 + e2) with 0 by lia. reflexivity. }
    assert (Hi24 : (bpow 24 * bpow (-24) = 1)%R) by (rewrite <- bpow_add; reflexivity).
    rewrite Hi2. field_simplify; [|lra|lra].
    replace (IZR (Z.pos m1) * bpow e1 * bpow 24 * bpow (-24))%R
      with (IZR (Z.pos m1) * bpow e1 * (bpow 24 * bpow (-24)))%R by ring.
    rewrite Hi24. field. lra. }
  destruct (binary_round_aux_correct v pq (e1 - e2 - 24) _ Hdq Hloc Hvb) as [Hc Hro].
  split; [exact Hc|]. eexists. exact Hro.
Qed.

Lemma shl_align_value (m : positive) (e ez : Z) :
  ez <= e ->
  snd (shl_align m e ez) = ez /\
  (IZR (Zpos (fst (shl_align m e ez))) * bpow ez = IZR (Zpos m) * bpow e)%R.
Proof.
  intros He. unfold shl_align. destruct (ez - e) as [|k|k] eqn:Hk; try lia.
  - assert (ez = e) by lia. subst ez. auto.
  - simpl. split; [reflexivity|].
    rewrite iter_xO, mult_IZR, IZR_pow2, Rmult_assoc, <- bpow_add by lia.
    do 2 f_equal. lia.
Qed.

Lemma B2R_half : B2R F32.half = (/ 2)%R.
Proof. unfold F32.half, B2R, bpow. simpl. lra. Qed.

(** Adding [0.5f] to a canonical float of moderate size. *)
Lemma add_half_correct (a : spec_float) :
  canonic a -> moderate (B2R a) ->
  canonic (F32.add a F32.half) /\
  exists E, rounds_at E (B2R a + / 2) (B2R (F32.add a F32.half)).
Proof.
  intros Ha Hma.
  destruct (canonic_value a Ha) as (m & e & -> & _ & _ & Hm & Hv & _).
  rewrite Hv in *.
  destruct Hma as [Hl Hu].
  unfold F32.add, F32.half, SFadd. cbn [cond_Zopp].
  destruct (shl_align_value m e (Z.min e (-24)) ltac:(lia)) as [_ H1].
  destruct (shl_align_value 8388608 (-24) (Z.min e (-24)) ltac:(lia)) as [_ H2].
  set (a1 := fst (shl_align m e (Z.min e (-24)))) in *.
  set (a2 := fst (shl_align 8388608 (-24) (Z.min e (-24)))) in *.
  change (Zpos a1 + Zpos a2) with (Zpos (a1 + a2)).
  unfold binary_normalize.
  assert (Hsum : (IZR (Zpos (a1 + a2)) * bpow (Z.min e (-24)) =
                  IZR (Zpos m) * bpow e + / 2)%R).
  { rewrite Pos2Z.inj_add, plus_IZR, Rmult_plus_distr_r, H1, H2.
    f_equal. unfold bpow. simpl. lra. }
  assert (Hx : (bpow (-126) <= IZR (Zpos (a1 + a2)) * bpow (Z.min e (-24)) < bpow 127)%R).
  { rewrite Hsum. pose proof (bpow_le (-126) (-50) ltac:(lia)).
    pose proof (bpow_lt 50 127 ltac:(lia)).
    assert (bpow 50 + / 2 < bpow 127)%R.
    { replace 127 with (50 + 77) by lia. rewrite bpow_add.
      pose proof (bpow_nonneg_ge_1 50 ltac:(lia)).
      assert (2 <= bpow 77)%R.
      { rewrite <- bpow_1. apply bpow_le. lia. }
      nra. }
    lra. }
  destruct (binary_round_correct (a1 + a2) (Z.min e (-24)) Hx) as [Hc Hr].
  split; [exact Hc|]. rewrite Hsum in Hr. eexists. exact Hr.
Qed.

(** Comparison of canonical floats is comparison of their values. *)
Lemma ltb_correct (a b : spec_float) :
  canonic a -> canonic b -> (F32.ltb a b = true <-> (B2R a < B2R b)%R).
Proof.
  intros Ha Hb.
  destruct (canonic_value a Ha) as (m1 & e1 & -> & _ & _ & Hm1 & Hv1 & Hb1).
  destruct (canonic_value b Hb) as (m2 & e2 & -> & _ & _ & Hm2 & Hv2 & Hb2).
  unfold F32.ltb, SFltb, SFcompare.
  destruct (Z.compare_spec e1 e2) as [Heq | Hlt | Hgt].
  - subst e2. rewrite Hv1, Hv2. pose proof (bpow_pos e1) as Hp.
    change (Pos.compare_cont Eq m1 m2) with (Pos.compare m1 m2).
    destruct (Pos.compare_spec m1 m2) as [Hc | Hc | Hc].
    + subst m2. split; [discriminate | lra].
    + split; [intros _ | reflexivity].
      apply Rmult_lt_compat_r; [lra|]. apply IZR_lt. lia.
    + split; [discriminate|]. intros H. exfalso.
      apply Rmult_lt_reg_r in H; [|lra]. apply lt_IZR in H. lia.
  - split; [intros _ | reflexivity].
    pose proof (bpow_le (e1 + 24) (e2 + 23) ltac:(lia)). lra.
  - split; [discriminate|]. intros H. exfalso.
    pose proof (bpow_le (e2 + 24) (e1 + 23) ltac:(lia)). lra.
Qed.

(** The integer part of a canonical float. *)
Lemma trunc_correct (a : spec_float) :
  canonic a ->
  exists z, F32.trunc a = Some z /\ 0 <= z /\ (IZR z <= B2R a < IZR z + 1)%R.
Proof.
  intros Ha.
  destruct (canonic_value a Ha) as (m & e & -> & _ & _ & Hm & Hv & _).
  rewrite Hv. unfold F32.trunc.
  destruct e as [|p|p].
  - exists (Zpos m). rewrite bpow_0. split; [reflexivity|]. split; [lia | lra].
  - exists (Zpos m * 2 ^ Zpos p). split; [reflexivity|]. split; [lia|].
    rewrite mult_IZR, IZR_pow2 by lia. lra.
  - exists (Zpos m / 2 ^ Zpos p). split; [reflexivity|].
    assert (Hpow : 0 < 2 ^ Zpos p) by (apply Z.pow_pos_nonneg; lia).
    split; [apply Z.div_pos; lia|].
    pose proof (Z.mul_div_le (Zpos m) (2 ^ Zpos p) Hpow) as Hlo.
    pose proof (Z.mul_succ_div_gt (Zpos m) (2 ^ Zpos p) Hpow) as Hhi.
    set (z := Zpos m / 2 ^ Zpos p) in *.
    assert (Hi : (bpow (Zneg p) * bpow (Zpos p) = 1)%R).
    { rewrite <- bpow_add. replace (Zneg p + Zpos p) with 0 by lia. reflexivity. }
    pose proof (bpow_pos (Zneg p)) as Hbn. pose proof (bpow_pos (Zpos p)) as Hbp.
    apply IZR_le in Hlo. apply IZR_lt in Hhi.
    rewrite mult_IZR, IZR_pow2 in Hlo by lia.
    unfold Z.succ in Hhi. rewrite mult_IZR, plus_IZR, IZR_pow2 in Hhi by lia.
    revert Hlo Hhi Hi Hbn Hbp.
    generalize (bpow (Zneg p)) (bpow (Zpos p)) (IZR z) (IZR (Zpos m)).
    intros bn bp zr mr Hlo Hhi Hi Hbn Hbp. 
    assert (mr * bn * bp = mr)%R by (rewrite Rmult_assoc, Hi; lra).
    split; nra.
Qed.

Lemma to_UINT_correct (a : spec_float) :
  canonic a -> (B2R a < 4294967296)%R ->
  exists z, F32.to_UINT a = Ret z /\ 0 <= z <= MAXUINT32 /\
    (IZR z <= B2R a < IZR z + 1)%R.
Proof.
  intros Ha Hlt. destruct (trunc_correct a Ha) as (z & Hz & Hz0 & Hzb).
  exists z. unfold F32.to_UINT. rewrite Hz.
  assert (Hzu : z < 4294967296) by (apply lt_IZR; lra).
  unfold MAXUINT32.
  replace ((0 <=? z) && (z <=? 4294967295)) with true.
  - split; [reflexivity|]. split; [lia | exact Hzb].
  - symmetry. apply andb_true_iff. split; apply Z.leb_le; lia.
Qed.

Lemma small_IZR (n : Z) : small n -> (1 <= IZR n <= 1048575)%R.
Proof. intros [H1 H2]. split; apply IZR_le; lia. Qed.

Lemma small_of_Z (n : Z) :
  small n -> canonic (F32.of_Z n) /\ B2R (F32.of_Z n) = IZR n /\ moderate (IZR n).
Proof.
  intros Hn. destruct (of_Z_correct n) as [Hc Hv]; [unfold small in Hn; simpl; lia|].
  split; [exact Hc|]. split; [exact Hv|].
  apply small_IZR in Hn. unfold moderate.
  pose proof (bpow_le (-50) 0 ltac:(lia)) as H1. rewrite bpow_0 in H1.
  pose proof (bpow_le 20 50 ltac:(lia)) as H2.
  rewrite <- (IZR_pow2 20) in H2 by lia. change (2 ^ 20) with 1048576 in H2. lra.
Qed.

Lemma rounded_bounds (x x' : R) :
  rounded x x' -> (0 < x /\ x - x / 16777216 <= x' <= x + x / 16777216)%R.
Proof.
  intros [E H]. pose proof (rounds_at_relative _ _ _ H) as Hr.
  apply Rabs_le_inv in Hr. destruct (rounds_at_pos _ _ _ H). lra.
Qed.

Lemma bpow_20 : bpow 20 = 1048576%R.
Proof. rewrite <- IZR_pow2 by lia. reflexivity. Qed.
Lemma bpow_m21 : bpow (-21) = (/ 2097152)%R.
Proof. unfold bpow. simpl. f_equal. lra. Qed.
Lemma bpow_m50_lt : (bpow (-50) < / 4194304)%R.
Proof.
  replace (/ 4194304)%R with (bpow (-22)); [apply bpow_lt; lia|].
  unfold bpow. simpl. f_equal. lra.
Qed.
Lemma bpow_50_gt : (8796093022208 < bpow 50)%R.
Proof.
  replace 8796093022208%R with (bpow 43); [apply bpow_lt; lia|].
  rewrite <- IZR_pow2 by lia. reflexivity.
Qed.
Lemma bpow_m126_lt : (bpow (-126) < / 4194304)%R.
Proof.
  replace (/ 4194304)%R with (bpow (-22)); [apply bpow_lt; lia|].
  unfold bpow. simpl. f_equal. lra.
Qed.
Lemma bpow_127_gt : (8796093022208 < bpow 127)%R.
Proof.
  replace 8796093022208%R with (bpow 43); [apply bpow_lt; lia|].
  rewrite <- IZR_pow2 by lia. reflexivity.
Qed.

(** The quotient of two small extents lies between [2^-20] and [2^20]. *)
Lemma ratio_bounds (a b : R) :
  (1 <= a <= 1048575)%R -> (1 <= b <= 1048575)%R ->
  (/ 1048576 < a / b < 1048576)%R.
Proof.
  intros Ha Hb.
  assert (Hi : (/ 1048575 <= / b <= 1)%R).
  { split.
    - apply Rinv_le_contravar; lra.
    - rewrite <- Rinv_1. apply Rinv_le_contravar; lra. }
  unfold Rdiv. assert (/ 1048576 < / 1048575)%R by (apply Rinv_lt_contravar; lra).
  split; nra.
Qed.

Section Crop.

Variables (W H tw th : Z).
Hypothesis (HW : small W) (HH : small H) (Htw : small tw) (Hth : small th).

Let r := F32.div (F32.of_Z tw) (F32.of_Z th).
Let p := F32.mul r (F32.of_Z H).

(** The aspect ratio in single precision. *)
Lemma ratio_rounded :
  canonic r /\ rounded (IZR tw / IZR th) (B2R r) /\ moderate (B2R r) /\
  (/ 2097152 < B2R r < 2097152)%R.
Proof.
  destruct (small_of_Z tw Htw) as (Hc1 & Hv1 & Hm1).
  destruct (small_of_Z th Hth) as (Hc2 & Hv2 & Hm2).
  destruct (div_correct _ _ Hc1 Hc2) as [Hc Hr];
    [rewrite Hv1; exact Hm1 | rewrite Hv2; exact Hm2 |].
  rewrite Hv1, Hv2 in Hr. fold r in Hc, Hr.
  assert (Hb : (/ 2097152 < B2R r < 2097152)%R).
  { destruct (rounded_bounds _ _ Hr) as [Hp Hb].
    pose proof (ratio_bounds _ _ (small_IZR _ Htw) (small_IZR _ Hth)). lra. }
  split; [exact Hc|]. split; [exact Hr|]. split; [|exact Hb].
  unfold moderate. pose proof bpow_m50_lt. pose proof bpow_50_gt. lra.
Qed.

(** The scaled height in single precision. *)
Lemma scaled_height_rounded :
  canonic p /\ rounded (B2R r * IZR H) (B2R p) /\ moderate (B2R p).
Proof.
  destruct ratio_rounded as (Hcr & Hrr & Hmr & Hbr).
  destruct (small_of_Z H HH) as (Hc & Hv & Hm).
  pose proof (small_IZR _ HH) as HbH.
  assert (Hprod : (/ 2097152 < B2R r * IZR H < 2097152 * 1048575)%R) by nra.
  destruct (mul_correct r (F32.of_Z H) Hcr Hc) as [Hcp Hrp].
  { rewrite Hv. pose proof bpow_m126_lt. pose proof bpow_127_gt. lra. }
  rewrite Hv in Hrp. fold p in Hcp, Hrp.
  split; [exact Hcp|]. split; [exact Hrp|].
  destruct (rounded_bounds _ _ Hrp) as [Hp Hb].
  unfold moderate. pose proof bpow_m50_lt. pose proof bpow_50_gt. lra.
Qed.

(** The quotient [W / r] when the scaled height is not below the width. *)
Lemma tall_quotient_bound (w h vr vp : R) :
  (0 < vr)%R -> (1 <= w)%R -> (0 < h)%R ->
  (vp <= vr * h + vr * h / 16777216)%R -> (w <= vp)%R ->
  (0 < w / vr <= h + h / 16777216)%R.
Proof.
  intros Hr Hw Hh Hp Hwp.
  assert (Hq : (w / vr * vr = w)%R) by (field; lra).
  assert (Hpos : (0 < w / vr)%R) by (apply Rdiv_lt_0_compat; lra).
  split; [exact Hpos|].
  apply (Rmult_le_reg_r vr); [exact Hr|]. rewrite Hq. nra.
Qed.

Lemma wrap32_small (z : Z) : 0 <= z < 4294967296 -> wrap32 z = z.
Proof. intros Hz. unfold wrap32. apply Z.mod_small. exact Hz. Qed.

(** What the computation returns on small extents: in the wide case the
    integer part [z] of the rounded [p + 0.5], in the tall case the integer
    part of the rounded [d + 0.5], where [d] is the rounded [W / r]. *)
Lemma CenterAndCropBounds_small (this : ImageFeatureValue) (idx : Z) :
  vector_at (m_widths this) idx = Ret W ->
  vector_at (m_heights this) idx = Ret H ->
  (exists (q : R) (z : Z),
     (B2R p < IZR W)%R /\
     rounded (B2R p + / 2) q /\ (IZR z <= q < IZR z + 1)%R /\ 0 <= z /\
     CenterAndCropBounds this idx tw th =
       Ret {| X := (W - Z.min z W) / 2; Y := 0; Width := Z.min z W; Height := H |}) \/
  (exists (d q : R) (z : Z),
     (IZR W <= B2R p)%R /\
     rounded (IZR W / B2R r) d /\ rounded (d + / 2) q /\
     (IZR z <= q < IZR z + 1)%R /\ 0 <= z /\
     CenterAndCropBounds this idx tw th =
       Ret {| X := 0; Y := (H - Z.min z H) / 2; Width := W; Height := Z.min z H |}).
Proof.
  intros HvW HvH.
  destruct ratio_rounded as (Hcr & Hrr & Hmr & Hbr).
  destruct scaled_height_rounded as (Hcp & Hrp & Hmp).
  destruct (small_of_Z W HW) as (HcW & HvalW & HmW).
  pose proof (small_IZR _ HW) as HbW. pose proof (small_IZR _ HH) as HbH.
  destruct (rounded_bounds _ _ Hrp) as [Hppos Hpb].
  unfold CenterAndCropBounds. rewrite HvH, HvW. cbn [mbind Outcome_bind].
  fold r. fold p.
  destruct (F32.ltb p (F32.of_Z W)) eqn:Hlt.
  - left. apply ltb_correct in Hlt; [|assumption|assumption]. rewrite HvalW in Hlt.
    destruct (add_half_correct p Hcp Hmp) as [Hcq Hrq].
    destruct (rounded_bounds _ _ Hrq) as [Hqpos Hqb].
    destruct (to_UINT_correct (F32.add p F32.half) Hcq) as (z & Hz & Hzr & Hzb); [lra|].
    exists (B2R (F32.add p F32.half)), z.
    split; [exact Hlt|]. split; [exact Hrq|]. split; [exact Hzb|]. split; [lia|].
    rewrite Hz. cbn [mbind Outcome_bind].
    assert (Hmin : 0 <= Z.min z W <= W) by (unfold small in HW; lia).
    rewrite wrap32_small by (unfold small in HW; lia).
    cbn [X Y Width Height].
    assert (Hx : 0 <= (W - Z.min z W) / 2 <= W).
    { split; [apply Z.div_pos; lia|]. apply Z.div_le_upper_bound; lia. }
    unfold WINML_THROW_HR_IF_FALSE_MSG.
    replace ((0 <=? (W - Z.min z W) / 2) && ((W - Z.min z W) / 2 <=? W) &&
             ((0 <=? 0) && (0 <=? H))) with true; [reflexivity|].
    symmetry. rewrite !andb_true_iff, !Z.leb_le. unfold small in HH. lia.
  - right.
    assert (Hge : (IZR W <= B2R p)%R).
    { destruct (Rle_or_lt (IZR W) (B2R p)) as [Hle | Hnlt]; [exact Hle|]. exfalso.
      rewrite <- HvalW in Hnlt. apply ltb_correct in Hnlt; [|assumption|assumption].
      congruence. }
    destruct (div_correct _ _ HcW Hcr) as [Hcd Hrd]; [rewrite HvalW; exact HmW | exact Hmr |].
    rewrite HvalW in Hrd. fold r in Hcd, Hrd.
    destruct (rounded_bounds _ _ Hrd) as [Hdpos Hdb].
    destruct (tall_quotient_bound (IZR W) (IZR H) (B2R r) (B2R p)) as [Hq0 Hq1];
      try lra.
    assert (Hmd : moderate (B2R (F32.div (F32.of_Z W) r))).
    { unfold moderate. pose proof bpow_m50_lt. pose proof bpow_50_gt.
      assert (/ 2097152 < IZR W / B2R r)%R.
      { unfold Rdiv. assert (/ 2097152 < / B2R r)%R by (apply Rinv_lt_contravar; nra).
        nra. }
      lra. }
    destruct (add_half_correct _ Hcd Hmd) as [Hcq Hrq].
    destruct (rounded_bounds _ _ Hrq) as [Hqpos Hqb].
    destruct (to_UINT_correct _ Hcq) as (z & Hz & Hzr & Hzb); [lra|].
    exists (B2R (F32.div (F32.of_Z W) r)),
      (B2R (F32.add (F32.div (F32.of_Z W) r) F32.half)), z.
    split; [exact Hge|].
    split; [exact Hrd|]. split; [exact Hrq|]. split; [exact Hzb|]. split; [lia|].
    rewrite Hz. cbn [mbind Outcome_bind].
    assert (Hmin : 0 <= Z.min z H <= H) by (unfold small in HH; lia).
    rewrite wrap32_small by (unfold small in HH; lia).
    cbn [X Y Width Height].
    assert (Hy : 0 <= (H - Z.min z H) / 2 <= H).
    { split; [apply Z.div_pos; lia|]. apply Z.div_le_upper_bound; lia. }
    unfold WINML_THROW_HR_IF_FALSE_MSG.
    replace ((0 <=? 0) && (0 <=? W) &&
             ((0 <=? (H - Z.min z H) / 2) && ((H - Z.min z H) / 2 <=? H))) with true;
      [reflexivity|].
    symmetry. rewrite !andb_true_iff, !Z.leb_le. unfold small in HW. lia.
Qed.

End Crop.

(** A value with few enough bits is its own rounding. *)
Lemma rounded_exact (x x' : R) (j e0 : Z) :
  rounded x x' -> x = (IZR j * bpow e0)%R -> (x < bpow (e0 + 24))%R -> x' = x.
Proof.
  intros [E Hr] Hx Hlt. apply (rounds_at_exact E e0 j _ _ Hr Hx).
  destruct Hr as [[Hl _] _]. assert (E + 23 < e0 + 24); [|lia].
  apply bpow_lt_inv. lra.
Qed.

Lemma rounded_integer (n : Z) (x' : R) :
  0 < n < 2 ^ 24 -> rounded (IZR n) x' -> x' = IZR n.
Proof.
  intros Hn Hr. apply (rounded_exact _ _ n 0 Hr).
  - rewrite bpow_0. lra.
  - change (0 + 24) with 24. rewrite <- (IZR_pow2 24) by lia. apply IZR_lt. lia.
Qed.

Lemma rounded_half_integer (n : Z) (x' : R) :
  0 < n < 2 ^ 22 -> rounded (IZR n + / 2) x' -> x' = (IZR n + / 2)%R.
Proof.
  intros Hn Hr. apply (rounded_exact _ _ (2 * n + 1) (-1) Hr).
  - rewrite plus_IZR, mult_IZR. unfold bpow. simpl. lra.
  - change (-1 + 24) with 23. rewrite <- (IZR_pow2 23) by lia.
    assert (IZR n + 1 <= IZR (2 ^ 22))%R by (rewrite <- plus_IZR; apply IZR_le; lia).
    change (2 ^ 23) with (2 * 2 ^ 22). rewrite mult_IZR. lra.
Qed.

(** Scaling a relative error bound. *)
Lemma scale_relative (rho vr h : R) :
  (0 < rho)%R -> (0 <= h)%R ->
  (rho - rho / 16777216 <= vr <= rho + rho / 16777216)%R ->
  (rho * h - rho * h / 16777216 <= vr * h <= rho * h + rho * h / 16777216)%R.
Proof. intros Hrho Hh Hvr. split; nra. Qed.

(** The quotients by a value and by its approximation. *)
Lemma quotient_relative (rho vr w : R) :
  (0 < rho)%R -> (0 < w)%R ->
  (rho - rho / 16777216 <= vr <= rho + rho / 16777216)%R ->
  (w / vr - w / vr / 16777216 <= w / rho <= w / vr + w / vr / 16777216)%R.
Proof.
  intros Hrho Hw Hvr.
  assert (Hvrpos : (0 < vr)%R) by lra.
  assert (Hq : (w / vr * vr = w)%R) by (field; lra).
  assert (Hy : (w / rho * rho = w)%R) by (field; lra).
  assert (Hqpos : (0 < w / vr)%R) by (apply Rdiv_lt_0_compat; lra).
  split.
  - apply (Rmult_le_reg_r rho); [exact Hrho|]. rewrite Hy. nra.
  - apply (Rmult_le_reg_r rho); [exact Hrho|]. rewrite Hy. nra.
Qed.

(** Round half up, as a real rounding. *)
Lemma round_half_up_real (n d : Z) (x : R) :
  0 < d -> (x * IZR d = IZR n)%R ->
  (IZR (round_half_up n d) <= x + / 2 < IZR (round_half_up n d) + 1)%R.
Proof.
  intros Hd Hx. unfold round_half_up.
  pose proof (Z.mul_div_le (2 * n + d) (2 * d) ltac:(lia)) as Hlo.
  pose proof (Z.mul_succ_div_gt (2 * n + d) (2 * d) ltac:(lia)) as Hhi.
  set (s := (2 * n + d) / (2 * d)) in *. clearbody s.
  apply IZR_le in Hlo. apply IZR_lt in Hhi. unfold Z.succ in Hhi.
  rewrite !mult_IZR, !plus_IZR, ?mult_IZR in Hlo, Hhi.
  assert (HdR : (0 < IZR d)%R) by (apply IZR_lt; lia).
  rewrite <- Hx in Hlo, Hhi. rewrite plus_IZR in Hhi.
  split.
  - apply (Rmult_le_reg_r (IZR d)); [exact HdR|]. nra.
  - apply (Rmult_lt_reg_r (IZR d)); [exact HdR|]. nra.
Qed.

(** From a real estimate to the integer deviation. *)
Lemma deviation_Z (a n d : Z) (x : R) :
  0 < d -> (x * IZR d = IZR n)%R -> (IZR a - 1 <= x <= IZR a + 1)%R ->
  Z.abs (a * d - n) <= d.
Proof.
  intros Hd Hx Ha. assert (HdR : (0 < IZR d)%R) by (apply IZR_lt; lia).
  apply Z.abs_le. split; apply le_IZR; rewrite ?opp_IZR, minus_IZR, mult_IZR, <- Hx; nra.
Qed.

(** The estimates of the wide case: [vp] is the rounded scaled height,
    [zr] the integer part of the rounded [vp + 0.5]. *)
Lemma wide_estimate (rho vr h w vp vq zr : R) :
  (0 < rho)%R -> (1 <= h)%R -> (w <= 1048575)%R ->
  (rho - rho / 16777216 <= vr <= rho + rho / 16777216)%R ->
  (vr * h - vr * h / 16777216 <= vp <= vr * h + vr * h / 16777216)%R ->
  (vp < w)%R ->
  (vp + / 2 - (vp + / 2) / 16777216 <= vq <= vp + / 2 + (vp + / 2) / 16777216)%R ->
  (zr <= vq < zr + 1)%R ->
  (rho * h - rho * h / 8388608 <= vp <= rho * h + rho * h / 4194304)%R /\
  (rho * h - 3 / 20 <= vp <= rho * h + 3 / 20)%R /\
  (rho * h - 3 / 4 < zr <= rho * h + 3 / 4)%R /\
  (vp - 3 / 5 < zr)%R.
Proof.
  intros Hrho Hh Hw Hvr Hvp Hlt Hvq Hz.
  pose proof (scale_relative rho vr h Hrho ltac:(lra) Hvr) as Hy.
  assert (Hx : (0 < rho * h)%R) by nra.
  revert Hy Hvp Hx. generalize (rho * h)%R (vr * h)%R. intros x y Hy Hvp Hx.
  repeat split; lra.
Qed.

(** The estimates of the tall case: [vd] is the rounded [w / vr], [zr]
    the integer part of the rounded [vd + 0.5]. *)
Lemma tall_estimate (rho vr h w vp vd vq zr : R) :
  (0 < rho)%R -> (1 <= h <= 1048575)%R -> (1 <= w)%R ->
  (rho - rho / 16777216 <= vr <= rho + rho / 16777216)%R ->
  (vr * h - vr * h / 16777216 <= vp <= vr * h + vr * h / 16777216)%R ->
  (w <= vp)%R ->
  (w / vr - w / vr / 16777216 <= vd <= w / vr + w / vr / 16777216)%R ->
  (vd + / 2 - (vd + / 2) / 16777216 <= vq <= vd + / 2 + (vd + / 2) / 16777216)%R ->
  (zr <= vq < zr + 1)%R ->
  (w / rho - 3 / 4 < zr <= w / rho + 3 / 4)%R /\
  (w / rho <= h + 1 / 4)%R /\
  (w / rho - w / rho / 4194304 - 3 / 5 < zr)%R /\
  (rho * h - rho * h / 8388608 <= vp <= rho * h + rho * h / 4194304)%R.
Proof.
  intros Hrho Hh Hw Hvr Hvp Hge Hvd Hvq Hz.
  pose proof (scale_relative rho vr h Hrho ltac:(lra) Hvr) as Hy.
  assert (Hx : (0 < rho * h)%R) by nra.
  destruct (tall_quotient_bound w h vr vp) as [Hq0 Hq1]; try lra.
  pose proof (quotient_relative rho vr w Hrho ltac:(lra) Hvr) as Hqr.
  revert Hy Hvp Hx Hq0 Hq1 Hqr Hvd.
  generalize (rho * h)%R (vr * h)%R (w / vr)%R (w / rho)%R.
  intros x y q t Hy Hvp Hx Hq0 Hq1 Hqr Hvd.
  repeat split; lra.
Qed.

Lemma centred_within (w bw : Z) :
  0 <= bw <= w -> 0 <= (w - bw) / 2 /\ (w - bw) / 2 + bw <= w.
Proof.
  intros H. split; [apply Z.div_pos; lia|].
  assert ((w - bw) / 2 <= w - bw); [|lia].
  apply Z.div_le_upper_bound; lia.
Qed.

Lemma ratio_times (a b c : Z) :
  0 < a -> 0 < b -> (IZR a / IZR b * IZR c * IZR b = IZR (c * a))%R.
Proof.
  intros Ha Hb. rewrite mult_IZR. field. apply not_0_IZR. lia.
Qed.

Lemma quotient_times (a b c : Z) :
  0 < a -> 0 < b -> (IZR c / (IZR a / IZR b) * IZR a = IZR (c * b))%R.
Proof.
  intros Ha Hb. rewrite mult_IZR. field. split; apply not_0_IZR; lia.
Qed.

(** On extents below [2^20] the computation returns a rectangle within
    the frame, one side of which is the frame's and the other within one
    pixel of the extent that preserves the aspect ratio of the target. *)
Lemma CenterAndCropBounds_one_pixel (this : ImageFeatureValue) (idx W H tw th : Z) :
  small W -> small H -> small tw -> small th ->
  vector_at (m_widths this) idx = Ret W ->
  vector_at (m_heights this) idx = Ret H ->
  exists b,
    CenterAndCropBounds this idx tw th = Ret b /\
    within_frame b W H /\
    ((Height b = H /\ Z.abs (Width b * th - H * tw) <= th) \/
     (Width b = W /\ Z.abs (Height b * tw - W * th) <= tw)).
Proof.
  intros HW HH Htw Hth HvW HvH.
  destruct (ratio_rounded tw th Htw Hth) as (_ & Hrr & _ & _).
  destruct (scaled_height_rounded H tw th HH Htw Hth) as (_ & Hrp & _).
  destruct (rounded_bounds _ _ Hrr) as [Hrho Hvr].
  destruct (rounded_bounds _ _ Hrp) as [_ Hvp].
  pose proof (small_IZR _ HW) as HbW. pose proof (small_IZR _ HH) as HbH.
  destruct (CenterAndCropBounds_small W H tw th HW HH Htw Hth this idx HvW HvH)
    as [(q & z & Hlt & Hrq & Hz & Hz0 & Hres) | (d & q & z & Hge & Hrd & Hrq & Hz & Hz0 & Hres)].
  - destruct (rounded_bounds _ _ Hrq) as [_ Hvq].
    destruct (wide_estimate _ _ (IZR H) (IZR W) _ _ (IZR z) Hrho ltac:(lra) ltac:(lra)
                Hvr Hvp Hlt Hvq Hz) as (_ & Hpx & Hzx & _).
    eexists. split; [exact Hres|].
    assert (Hmin : 0 <= Z.min z W <= W) by (unfold small in HW; lia).
    split.
    + unfold within_frame. cbn [X Y Width Height].
      destruct (centred_within W (Z.min z W) Hmin). unfold small in HH. lia.
    + left. cbn [Width Height]. split; [reflexivity|].
      apply (deviation_Z _ _ _ (IZR tw / IZR th * IZR H)).
      * unfold small in Hth. lia.
      * apply ratio_times; [unfold small in Htw | unfold small in Hth]; lia.
      * destruct (Z.min_spec z W) as [[Hc ->] | [Hc ->]]; [lra|].
        apply IZR_le in Hc. lra.
  - destruct (rounded_bounds _ _ Hrd) as [_ Hvd].
    destruct (rounded_bounds _ _ Hrq) as [_ Hvq].
    destruct (tall_estimate _ _ (IZR H) (IZR W) _ _ _ (IZR z) Hrho ltac:(lra) ltac:(lra)
                Hvr Hvp Hge Hvd Hvq Hz) as (Hzy & Hyh & _ & _).
    eexists. split; [exact Hres|].
    assert (Hmin : 0 <= Z.min z H <= H) by (unfold small in HH; lia).
    split.
    + unfold within_frame. cbn [X Y Width Height].
      destruct (centred_within H (Z.min z H) Hmin). unfold small in HW. lia.
    + right. cbn [Width Height]. split; [reflexivity|].
      apply (deviation_Z _ _ _ (IZR W / (IZR tw / IZR th))).
      * unfold small in Htw. lia.
      * apply quotient_times; [unfold small in Htw | unfold small in Hth]; lia.
      * destruct (Z.min_spec z H) as [[Hc ->] | [Hc ->]]; [lra|].
        apply IZR_le in Hc. lra.
Qed.

Lemma round_half_up_multiple (d k : Z) : 0 < d -> round_half_up (d * k) d = k.
Proof.
  intros Hd. unfold round_half_up.
  replace (2 * (d * k) + d) with (d * (2 * k + 1)) by lia.
  rewrite (Z.mul_comm 2 d), Z.div_mul_cancel_l by lia.
  symmetry. apply Z.div_unique with 1; lia.
Qed.

Lemma halves_close (a b w : Z) :
  Z.abs (a - b) <= 1 -> Z.abs ((w - a) / 2 - (w - b) / 2) <= 1.
Proof.
  intros H.
  pose proof (Z.div_mod (w - a) 2 ltac:(lia)).
  pose proof (Z.div_mod (w - b) 2 ltac:(lia)).
  pose proof (Z.mod_pos_bound (w - a) 2 ltac:(lia)).
  pose proof (Z.mod_pos_bound (w - b) 2 ltac:(lia)).
  lia.
Qed.

(** The order of the scaled height and the width, in the integers. *)
Lemma wide_iff (W H tw th : Z) :
  0 < tw -> 0 < th ->
  (IZR tw / IZR th * IZR H < IZR W)%R <-> tw * H < W * th.
Proof.
  intros Htw Hth. assert (HR : (0 < IZR th)%R) by (apply IZR_lt; lia).
  pose proof (ratio_times tw th H Htw Hth) as He. split; intros Hlt.
  - apply lt_IZR. rewrite (Z.mul_comm tw), <- He, mult_IZR. nra.
  - apply IZR_lt in Hlt. rewrite (Z.mul_comm tw), <- He, mult_IZR in Hlt. nra.
Qed.

(** The exact quotient [W / (tw / th)] exceeds [H] when the frame is wide. *)
Lemma quotient_order (rho h w : R) :
  (0 < rho)%R -> ((rho * h < w)%R <-> (h < w / rho)%R).
Proof.
  intros Hrho. assert (Hq : (w / rho * rho = w)%R) by (field; lra).
  split; intros Hlt.
  - apply (Rmult_lt_reg_r rho); [exact Hrho|]. rewrite Hq. lra.
  - apply (Rmult_lt_compat_r rho) in Hlt; [|exact Hrho]. rewrite Hq in Hlt. lra.
Qed.

Lemma quotient_scaled (rho h w c : R) :
  (0 < rho)%R -> (0 < c)%R -> (c * (rho * h) < w)%R -> (c * h < w / rho)%R.
Proof.
  intros Hrho Hc Hlt. assert (Hq : (w / rho * rho = w)%R) by (field; lra).
  apply (Rmult_lt_reg_r rho); [exact Hrho|]. rewrite Hq. lra.
Qed.

Lemma quotient_scaled_le (rho h w c : R) :
  (0 < rho)%R -> (0 < c)%R -> (w <= c * (rho * h))%R -> (w / rho <= c * h)%R.
Proof.
  intros Hrho Hc Hlt. assert (Hq : (w / rho * rho = w)%R) by (field; lra).
  apply (Rmult_le_reg_r rho); [exact Hrho|]. rewrite Hq. lra.
Qed.

Lemma Z_le_of_real (a b : Z) : (IZR a - 1 < IZR b)%R -> a <= b.
Proof.
  intros H. assert (a - 1 < b); [|lia]. apply lt_IZR. rewrite minus_IZR. exact H.
Qed.

(** On extents below [2^20] the rectangle of the computation is within
    one pixel of the rectangle of the exact algorithm in every
    coordinate. *)
Lemma CenterAndCropBounds_near_exact (this : ImageFeatureValue) (idx W H tw th : Z) :
  small W -> small H -> small tw -> small th ->
  vector_at (m_widths this) idx = Ret W ->
  vector_at (m_heights this) idx = Ret H ->
  exists b,
    CenterAndCropBounds this idx tw th = Ret b /\
    Z.abs (X b - X (compute_center_crop W H tw th)) <= 1 /\
    Z.abs (Y b - Y (compute_center_crop W H tw th)) <= 1 /\
    Z.abs (Width b - Width (compute_center_crop W H tw th)) <= 1 /\
    Z.abs (Height b - Height (compute_center_crop W H tw th)) <= 1.
Proof.
  intros HW HH Htw Hth HvW HvH.
  destruct (ratio_rounded tw th Htw Hth) as (_ & Hrr & _ & _).
  destruct (scaled_height_rounded H tw th HH Htw Hth) as (_ & Hrp & _).
  destruct (rounded_bounds _ _ Hrr) as [Hrho Hvr].
  destruct (rounded_bounds _ _ Hrp) as [_ Hvp].
  pose proof (small_IZR _ HW) as HbW. pose proof (small_IZR _ HH) as HbH.
  assert (Htw0 : 0 < tw) by (unfold small in Htw; lia).
  assert (Hth0 : 0 < th) by (unfold small in Hth; lia).
  pose proof (round_half_up_real (tw * H) th (IZR tw / IZR th * IZR H) Hth0) as Hsw.
  rewrite (Z.mul_comm tw H) in Hsw. specialize (Hsw (ratio_times tw th H Htw0 Hth0)).
  rewrite (Z.mul_comm H tw) in Hsw.
  pose proof (round_half_up_real (W * th) tw (IZR W / (IZR tw / IZR th)) Htw0
                (quotient_times tw th W Htw0 Hth0)) as Hsh.
  pose proof (wide_iff W H tw th Htw0 Hth0) as Hwide.
  set (sw := round_half_up (tw * H) th) in *.
  set (sh := round_half_up (W * th) tw) in *.
  set (rho := (IZR tw / IZR th)%R) in *.
  unfold compute_center_crop. fold sw sh.
  destruct (CenterAndCropBounds_small W H tw th HW HH Htw Hth this idx HvW HvH)
    as [(q & z & Hlt & Hrq & Hz & Hz0 & Hres) | (d & q & z & Hge & Hrd & Hrq & Hz & Hz0 & Hres)].
  - destruct (rounded_bounds _ _ Hrq) as [_ Hvq].
    destruct (wide_estimate _ _ (IZR H) (IZR W) _ _ (IZR z) Hrho ltac:(lra) ltac:(lra)
                Hvr Hvp Hlt Hvq Hz) as (Hrel & Hpx & Hzx & Hzp).
    eexists. split; [exact Hres|]. cbn [X Y Width Height].
    destruct (Z.ltb_spec (tw * H) (W * th)) as [Hs | Hs]; cbn [X Y Width Height].
    + assert (Hzs : Z.abs (z - sw) <= 1).
      { apply Z.abs_le. split.
        - assert (sw <= z + 1); [|lia]. apply Z_le_of_real. rewrite plus_IZR. lra.
        - assert (z <= sw + 1); [|lia]. apply Z_le_of_real. rewrite plus_IZR. lra. }
      assert (Hm : Z.abs (Z.min z W - Z.min sw W) <= 1) by lia.
      split; [apply halves_close; exact Hm|]. split; [lia|]. split; [exact Hm | lia].
    + assert (HzW : W <= z).
      { apply Z_le_of_real.
        assert (IZR W <= rho * IZR H)%R.
        { destruct (Rle_or_lt (IZR W) (rho * IZR H)) as [Hle | Hn]; [exact Hle|].
          apply Hwide in Hn. lia. }
        lra. }
      assert (HshH : H <= sh).
      { apply Z_le_of_real.
        assert (Hq : ((1 - / 8388608) * IZR H < IZR W / rho)%R).
        { apply quotient_scaled; lra. }
        lra. }
      replace (Z.min z W) with W by lia. replace (Z.min sh H) with H by lia.
      replace (W - W) with 0 by lia. replace (H - H) with 0 by lia.
      change (0 / 2) with 0. lia.
  - destruct (rounded_bounds _ _ Hrd) as [_ Hvd].
    destruct (rounded_bounds _ _ Hrq) as [_ Hvq].
    destruct (tall_estimate _ _ (IZR H) (IZR W) _ _ _ (IZR z) Hrho ltac:(lra) ltac:(lra)
                Hvr Hvp Hge Hvd Hvq Hz) as (Hzy & Hyh & Hzrel & Hrel).
    eexists. split; [exact Hres|]. cbn [X Y Width Height].
    destruct (Z.ltb_spec (tw * H) (W * th)) as [Hs | Hs]; cbn [X Y Width Height].
    + apply Hwide in Hs.
      assert (HzH : H <= z).
      { apply Z_le_of_real. apply quotient_order in Hs; [|exact Hrho]. lra. }
      assert (HswW : W <= sw).
      { apply Z_le_of_real. lra. }
      replace (Z.min z H) with H by lia. replace (Z.min sw W) with W by lia.
      replace (W - W) with 0 by lia. replace (H - H) with 0 by lia.
      change (0 / 2) with 0. lia.
    + assert (Hzs : Z.abs (z - sh) <= 1).
      { apply Z.abs_le. split.
        - assert (sh <= z + 1); [|lia]. apply Z_le_of_real. rewrite plus_IZR. lra.
        - assert (z <= sh + 1); [|lia]. apply Z_le_of_real. rewrite plus_IZR. lra. }
      assert (Hm : Z.abs (Z.min z H - Z.min sh H) <= 1) by lia.
      split; [lia|]. split; [apply halves_close; exact Hm|]. split; [lia | exact Hm].
Qed.

(** The relative error of the rounded [p + 0.5] in the wide case: three
    roundings, each of relative error [2^-24]. *)
Lemma wide_relative (rho vr h vp vq : R) :
  (0 < rho)%R -> (0 <= h)%R ->
  (rho - rho / 16777216 <= vr <= rho + rho / 16777216)%R ->
  (vr * h - vr * h / 16777216 <= vp <= vr * h + vr * h / 16777216)%R ->
  (vp + / 2 - (vp + / 2) / 16777216 <= vq <= vp + / 2 + (vp + / 2) / 16777216)%R ->
  (rho * h + / 2 - (rho * h + / 2) / 4194304 <= vq
   <= rho * h + / 2 + (rho * h + / 2) / 4194304)%R.
Proof.
  intros Hrho Hh Hvr Hvp Hvq.
  pose proof (scale_relative rho vr h Hrho Hh Hvr) as Hy.
  assert (Hx : (0 <= rho * h)%R) by nra.
  revert Hy Hvp Hx. generalize (rho * h)%R (vr * h)%R. intros x y Hy Hvp Hx.
  split; lra.
Qed.

(** The relative error of the rounded [d + 0.5] in the tall case. *)
Lemma tall_relative (rho vr w vd vq : R) :
  (0 < rho)%R -> (0 < w)%R ->
  (rho - rho / 16777216 <= vr <= rho + rho / 16777216)%R ->
  (w / vr - w / vr / 16777216 <= vd <= w / vr + w / vr / 16777216)%R ->
  (vd + / 2 - (vd + / 2) / 16777216 <= vq <= vd + / 2 + (vd + / 2) / 16777216)%R ->
  (w / rho + / 2 - (w / rho + / 2) / 4194304 <= vq
   <= w / rho + / 2 + (w / rho + / 2) / 4194304)%R.
Proof.
  intros Hrho Hw Hvr Hvd Hvq.
  pose proof (quotient_relative rho vr w Hrho Hw Hvr) as Hqr.
  assert (Hq : (0 < w / vr)%R) by (apply Rdiv_lt_0_compat; lra).
  assert (Ht : (0 < w / rho)%R) by (apply Rdiv_lt_0_compat; lra).
  revert Hqr Hvd Hq Ht. generalize (w / vr)%R (w / rho)%R. intros q t Hqr Hvd Hq Ht.
  split; lra.
Qed.

(** A fraction clear of the ties, in the reals. *)
Lemma clear_of_ties_real (n d : Z) (x : R) :
  0 < d -> (x * IZR d = IZR n)%R -> clear_of_ties (n, d) ->
  (IZR (round_half_up n d) <= x + / 2 - (x + / 2) / 4194304)%R /\
  (x + / 2 + (x + / 2) / 4194304 < IZR (round_half_up n d) + 1)%R.
Proof.
  intros Hd Hx [H1 H2]. cbn [fst snd] in H1, H2.
  set (k := round_half_up n d) in *. clearbody k.
  apply IZR_le in H1. apply IZR_lt in H2.
  rewrite !mult_IZR, !plus_IZR, !mult_IZR in H1, H2. rewrite plus_IZR in H2.
  rewrite <- Hx in H1, H2.
  assert (HdR : (0 < IZR d)%R) by (apply IZR_lt; lia).
  split.
  - apply (Rmult_le_reg_r (IZR d)); [exact HdR|]. nra.
  - apply (Rmult_lt_reg_r (IZR d)); [exact HdR|]. nra.
Qed.

Lemma integer_part_unique (a b : Z) (v : R) :
  (IZR a <= v < IZR a + 1)%R -> (IZR b <= v < IZR b + 1)%R -> a = b.
Proof.
  intros [Ha1 Ha2] [Hb1 Hb2].
  assert (a < b + 1) by (apply lt_IZR; rewrite plus_IZR; lra).
  assert (b < a + 1) by (apply lt_IZR; rewrite plus_IZR; lra).
  lia.
Qed.

(** On extents below [2^20] the computation returns the very rectangle
    of the exact algorithm when the extent that the algorithm rounds is
    clear of the ties. *)
Lemma CenterAndCropBounds_clear_of_ties (this : ImageFeatureValue) (idx W H tw th : Z) :
  small W -> small H -> small tw -> small th ->
  vector_at (m_widths this) idx = Ret W ->
  vector_at (m_heights this) idx = Ret H ->
  clear_of_ties (scaled_extent W H tw th) ->
  CenterAndCropBounds this idx tw th = Ret (compute_center_crop W H tw th).
Proof.
  intros HW HH Htw Hth HvW HvH Hclear.
  destruct (ratio_rounded tw th Htw Hth) as (_ & Hrr & _ & _).
  destruct (scaled_height_rounded H tw th HH Htw Hth) as (_ & Hrp & _).
  destruct (rounded_bounds _ _ Hrr) as [Hrho Hvr].
  destruct (rounded_bounds _ _ Hrp) as [_ Hvp].
  pose proof (small_IZR _ HW) as HbW. pose proof (small_IZR _ HH) as HbH.
  assert (Htw0 : 0 < tw) by (unfold small in Htw; lia).
  assert (Hth0 : 0 < th) by (unfold small in Hth; lia).
  pose proof (ratio_times tw th H Htw0 Hth0) as Hxw.
  rewrite (Z.mul_comm H tw) in Hxw.
  pose proof (quotient_times tw th W Htw0 Hth0) as Hxh.
  pose proof (round_half_up_real (tw * H) th (IZR tw / IZR th * IZR H) Hth0 Hxw) as Hsw.
  pose proof (round_half_up_real (W * th) tw (IZR W / (IZR tw / IZR th)) Htw0 Hxh) as Hsh.
  pose proof (wide_iff W H tw th Htw0 Hth0) as Hwide.
  unfold scaled_extent in Hclear. unfold compute_center_crop.
  set (sw := round_half_up (tw * H) th) in *.
  set (sh := round_half_up (W * th) tw) in *.
  set (rho := (IZR tw / IZR th)%R) in *.
  destruct (CenterAndCropBounds_small W H tw th HW HH Htw Hth this idx HvW HvH)
    as [(q & z & Hlt & Hrq & Hz & Hz0 & Hres) | (d & q & z & Hge & Hrd & Hrq & Hz & Hz0 & Hres)].
  - destruct (rounded_bounds _ _ Hrq) as [_ Hvq].
    destruct (wide_estimate _ _ (IZR H) (IZR W) _ _ (IZR z) Hrho ltac:(lra) ltac:(lra)
                Hvr Hvp Hlt Hvq Hz) as (Hrel & Hpx & Hzx & Hzp).
    rewrite Hres.
    destruct (Z.ltb_spec (tw * H) (W * th)) as [Hs | Hs].
    + destruct (clear_of_ties_real _ _ _ Hth0 Hxw Hclear) as [Hc1 Hc2]. fold sw in Hc1, Hc2.
      pose proof (wide_relative rho _ (IZR H) _ q Hrho ltac:(lra) Hvr Hvp Hvq) as Hq.
      assert (Hzs : z = sw).
      { apply (integer_part_unique z sw q); [exact Hz | lra]. }
      rewrite Hzs. reflexivity.
    + assert (HzW : W <= z).
      { apply Z_le_of_real.
        assert (IZR W <= rho * IZR H)%R.
        { destruct (Rle_or_lt (IZR W) (rho * IZR H)) as [Hle | Hn]; [exact Hle|].
          apply Hwide in Hn. lia. }
        lra. }
      assert (HshH : H <= sh).
      { apply Z_le_of_real.
        assert (Hq : ((1 - / 8388608) * IZR H < IZR W / rho)%R).
        { apply quotient_scaled; lra. }
        lra. }
      replace (Z.min z W) with W by lia. replace (Z.min sh H) with H by lia.
      replace (W - W) with 0 by lia. replace (H - H) with 0 by lia.
      reflexivity.
  - destruct (rounded_bounds _ _ Hrd) as [_ Hvd].
    destruct (rounded_bounds _ _ Hrq) as [_ Hvq].
    destruct (tall_estimate _ _ (IZR H) (IZR W) _ _ _ (IZR z) Hrho ltac:(lra) ltac:(lra)
                Hvr Hvp Hge Hvd Hvq Hz) as (Hzy & Hyh & Hzrel & Hrel).
    rewrite Hres.
    destruct (Z.ltb_spec (tw * H) (W * th)) as [Hs | Hs].
    + apply Hwide in Hs.
      assert (HzH : H <= z).
      { apply Z_le_of_real. apply quotient_order in Hs; [|exact Hrho]. lra. }
      assert (HswW : W <= sw).
      { apply Z_le_of_real. lra. }
      replace (Z.min z H) with H by lia. replace (Z.min sw W) with W by lia.
      replace (W - W) with 0 by lia. replace (H - H) with 0 by lia.
      reflexivity.
    + destruct (clear_of_ties_real _ _ _ Htw0 Hxh Hclear) as [Hc1 Hc2]. fold sh in Hc1, Hc2.
      pose proof (tall_relative rho _ (IZR W) d q Hrho ltac:(lra) Hvr Hvd Hvq) as Hq.
      assert (Hzs : z = sh).
      { apply (integer_part_unique z sh q); [exact Hz | lra]. }
      rewrite Hzs. reflexivity.
Qed.

Lemma integer_part_half (n z : Z) :
  (IZR z <= IZR n + / 2 < IZR z + 1)%R -> z = n.
Proof.
  intros [Hl Hu].
  assert (z - 1 < n) by (apply lt_IZR; rewrite minus_IZR; lra).
  assert (n < z + 1) by (apply lt_IZR; rewrite plus_IZR; lra).
  lia.
Qed.

(** For a square target the computation is the exact algorithm. *)
Lemma CenterAndCropBounds_square (this : ImageFeatureValue) (idx W H t : Z) :
  small W -> small H -> small t ->
  vector_at (m_widths this) idx = Ret W ->
  vector_at (m_heights this) idx = Ret H ->
  CenterAndCropBounds this idx t t = Ret (compute_center_crop W H t t).
Proof.
  intros HW HH Ht HvW HvH.
  destruct (ratio_rounded t t Ht Ht) as (_ & Hrr & _ & _).
  destruct (scaled_height_rounded H t t HH Ht Ht) as (_ & Hrp & _).
  assert (Ht0 : 0 < t) by (unfold small in Ht; lia).
  assert (HtR : (IZR t <> 0)%R) by (apply not_0_IZR; lia).
  assert (Hr1 : B2R (F32.div (F32.of_Z t) (F32.of_Z t)) = 1%R).
  { apply (rounded_integer 1); [lia|].
    replace (IZR 1) with (IZR t / IZR t)%R by (field; exact HtR). exact Hrr. }
  assert (Hp : B2R (F32.mul (F32.div (F32.of_Z t) (F32.of_Z t)) (F32.of_Z H)) = IZR H).
  { apply rounded_integer; [unfold small in HH; simpl; lia|].
    rewrite Hr1, Rmult_1_l in Hrp. exact Hrp. }
  unfold compute_center_crop.
  rewrite (round_half_up_multiple t H Ht0).
  rewrite (Z.mul_comm W t), (round_half_up_multiple t W Ht0).
  destruct (CenterAndCropBounds_small W H t t HW HH Ht Ht this idx HvW HvH)
    as [(q & z & Hlt & Hrq & Hz & Hz0 & Hres) | (d & q & z & Hge & Hrd & Hrq & Hz & Hz0 & Hres)].
  - rewrite Hp in Hlt, Hrq. apply lt_IZR in Hlt.
    apply rounded_half_integer in Hrq; [|unfold small in HH; simpl; lia].
    rewrite Hrq in Hz. apply integer_part_half in Hz. subst z.
    rewrite Hres.
    destruct (Z.ltb_spec (t * H) (t * W)) as [Hs | Hs]; [reflexivity | nia].
  - rewrite Hp in Hge. apply le_IZR in Hge.
    rewrite Hr1, Rdiv_1_r in Hrd.
    apply rounded_integer in Hrd; [|unfold small in HW; simpl; lia].
    rewrite Hrd in Hrq.
    apply rounded_half_integer in Hrq; [|unfold small in HW; simpl; lia].
    rewrite Hrq in Hz. apply integer_part_half in Hz. subst z.
    rewrite Hres.
    destruct (Z.ltb_spec (t * H) (t * W)) as [Hs | Hs]; [nia | reflexivity].
Qed.

(** ** The crop rectangle *)

Lemma to_UINT_range (f : F32.float) (z : Z) :
  F32.to_UINT f = Ret z -> 0 <= z <= MAXUINT32.
Proof.
  unfold F32.to_UINT. destruct (F32.trunc f) as [t|]; [|discriminate].
  destruct (Z.leb_spec 0 t); [|discriminate].
  destruct (Z.leb_spec t MAXUINT32); [|discriminate].
  simpl. intros E. injection E as <-. lia.
Qed.

(** Whatever the floating-point operations give, a rectangle that the
    computation returns lies within the frame. *)
Lemma CenterAndCropBounds_within (this : ImageFeatureValue) (idx dw dh W H : Z)
    (b : BitmapBounds) :
  vector_at (m_widths this) idx = Ret W ->
  vector_at (m_heights this) idx = Ret H ->
  0 <= W < 4294967296 -> 0 <= H < 4294967296 ->
  CenterAndCropBounds this idx dw dh = Ret b ->
  within_frame b W H.
Proof.
  intros HvW HvH HW HH. unfold CenterAndCropBounds. rewrite HvH, HvW.
  cbn [mbind Outcome_bind]. intros E.
  apply bind_Ret in E as (b0 & Hb0 & E).
  apply bind_Ret in E as (_ & _ & E). injection E as <-.
  destruct (F32.ltb _ _).
  - apply bind_Ret in Hb0 as (z & Hz & Hb0). injection Hb0 as <-.
    apply to_UINT_range in Hz. unfold MAXUINT32 in Hz.
    assert (Hmin : 0 <= Z.min z W <= W) by lia.
    unfold within_frame. cbn [X Y Width Height].
    rewrite wrap32_small by lia.
    destruct (centred_within W (Z.min z W) Hmin). lia.
  - apply bind_Ret in Hb0 as (z & Hz & Hb0). injection Hb0 as <-.
    apply to_UINT_range in Hz. unfold MAXUINT32 in Hz.
    assert (Hmin : 0 <= Z.min z H <= H) by lia.
    unfold within_frame. cbn [X Y Width Height].
    rewrite wrap32_small by lia.
    destruct (centred_within H (Z.min z H) Hmin). lia.
Qed.

(** C3 (as amended). For a frame of width [W] and height [H] and a target
    [(tw, th)]: a rectangle that the center-crop computation returns has
    [0 <= x], [0 <= y], [x + crop_w <= W] and [y + crop_h <= H]; and when
    [W], [H], [tw] and [th] are nonzero and below [2^20], the computation
    does return a rectangle, one side of which is the frame's, the other
    being within one pixel of the extent that gives the aspect ratio
    [tw / th] exactly. *)
Theorem center_crop_within_frame_and_one_pixel (this : ImageFeatureValue)
    (idx W H tw th : Z) :
  vector_at (m_widths this) idx = Ret W ->
  vector_at (m_heights this) idx = Ret H ->
  0 < W < 4294967296 -> 0 < H < 4294967296 ->
  (forall b, CenterAndCropBounds this idx tw th = Ret b -> within_frame b W H) /\
  (small W -> small H -> small tw -> small th ->
   exists b,
     CenterAndCropBounds this idx tw th = Ret b /\
     ((Height b = H /\ Z.abs (Width b * th - H * tw) <= th) \/
      (Width b = W /\ Z.abs (Height b * tw - W * th) <= tw))).
Proof.
  intros HvW HvH HW HH. split.
  - intros b Hb.
    apply (CenterAndCropBounds_within this idx tw th W H b HvW HvH); [lia | lia | exact Hb].
  - intros HsW HsH Hstw Hsth.
    destruct (CenterAndCropBounds_one_pixel this idx W H tw th HsW HsH Hstw Hsth HvW HvH)
      as (b & Hb & _ & Hdev).
    exists b. split; [exact Hb | exact Hdev].
Qed.

Lemma center_crop_within_frame_and_one_pixel_witness :
  let this := Initialize [BitmapFrame 640 480] in
  (forall b, CenterAndCropBounds this 0 224 224 = Ret b -> within_frame b 640 480) /\
  exists b,
    CenterAndCropBounds this 0 224 224 = Ret b /\
    ((Height b = 480 /\ Z.abs (Width b * 224 - 480 * 224) <= 224) \/
     (Width b = 640 /\ Z.abs (Height b * 224 - 640 * 224) <= 224)).
Proof.
  intros this.
  destruct (center_crop_within_frame_and_one_pixel this 0 640 480 224 224)
    as [Hin Hone]; try reflexivity; try lia.
  split; [exact Hin|]. apply Hone; unfold small; lia.
Defined.

(** C3, the claim as stated fails on a frame of 2147483647 by 1073741888
    pixels with a square target: the height is not a [float], the scaled
    height rounds to [2^30], and the crop of 1073741824 by 1073741888
    pixels is 64 pixels short of square. *)
Lemma center_crop_counterexample :
  CenterAndCropBounds (Initialize [BitmapFrame 2147483647 1073741888]) 0 1 1
  = Ret {| X := 536870911; Y := 0; Width := 1073741824; Height := 1073741888 |} /\
  Z.abs (1073741824 * 1 - 1073741888 * 1) = 64 /\
  1073741824 <> 2147483647.
Proof. split; [vm_compute; reflexivity|]. split; [reflexivity | lia]. Qed.

(** C4 (as amended). The center-crop computation follows the stated
    algorithm with its real-valued steps carried out in single precision:
    for frame and target extents that are nonzero and below [2^20], it
    returns the very rectangle of the exact algorithm, round half up
    included, whenever the extent that the algorithm rounds is clear of the
    ties of the rounding (that extent plus one half is farther than its own
    [2^22]-th part from the integers around it), and so whenever the target
    is square; near a tie it returns a rectangle whose [x], [y], width and
    height each differ by at most one pixel from those of the exact
    algorithm. *)
Theorem center_crop_follows_algorithm (this : ImageFeatureValue) (idx W H tw th : Z) :
  small W -> small H -> small tw -> small th ->
  vector_at (m_widths this) idx = Ret W ->
  vector_at (m_heights this) idx = Ret H ->
  exists b,
    CenterAndCropBounds this idx tw th = Ret b /\
    Z.abs (X b - X (compute_center_crop W H tw th)) <= 1 /\
    Z.abs (Y b - Y (compute_center_crop W H tw th)) <= 1 /\
    Z.abs (Width b - Width (compute_center_crop W H tw th)) <= 1 /\
    Z.abs (Height b - Height (compute_center_crop W H tw th)) <= 1 /\
    (tw = th -> b = compute_center_crop W H tw th) /\
    (clear_of_ties (scaled_extent W H tw th) -> b = compute_center_crop W H tw th).
Proof.
  intros HW HH Htw Hth HvW HvH.
  destruct (CenterAndCropBounds_near_exact this idx W H tw th HW HH Htw Hth HvW HvH)
    as (b & Hb & Hx & Hy & Hw & Hh).
  exists b. repeat (split; [assumption|]). split.
  - intros <-.
    pose proof (CenterAndCropBounds_square this idx W H tw HW HH Htw HvW HvH) as Hsq.
    rewrite Hb in Hsq. injection Hsq as ->. reflexivity.
  - intros Hclear.
    pose proof (CenterAndCropBounds_clear_of_ties this idx W H tw th HW HH Htw Hth
                  HvW HvH Hclear) as Hex.
    rewrite Hb in Hex. injection Hex as ->. reflexivity.
Qed.

Lemma center_crop_follows_algorithm_witness :
  let this := Initialize [BitmapFrame 640 480] in
  let context :=
    make_context kInput cpu_session (TensorFeatureDescriptor [1; 3; 224; 224] TK_Float) None in
  CenterAndCropBounds this 0 224 224
  = Ret {| X := 80; Y := 0; Width := 480; Height := 480 |} /\
  (exists md,
     GetInputMetadata this context = Ret (Some md) /\
     Bounds md = [{| X := 80; Y := 0; Width := 480; Height := 480 |}]) /\
  CenterAndCropBounds (Initialize [BitmapFrame 640 412]) 0 224 160
  = Ret {| X := 31; Y := 0; Width := 577; Height := 412 |} /\
  CenterAndCropBounds (Initialize [BitmapFrame 1080 1920]) 0 299 224
  = Ret {| X := 0; Y := 555; Width := 1080; Height := 809 |}.
Proof.
  intros this context.
  destruct (center_crop_follows_algorithm this 0 640 480 224 224)
    as (b0 & Hb0 & _ & _ & _ & _ & Hsq & _); try reflexivity; try (unfold small; lia).
  destruct (center_crop_follows_algorithm (Initialize [BitmapFrame 640 412])
              0 640 412 224 160)
    as (b1 & Hb1 & _ & _ & _ & _ & _ & Hc1); try reflexivity; try (unfold small; lia).
  destruct (center_crop_follows_algorithm (Initialize [BitmapFrame 1080 1920])
              0 1080 1920 299 224)
    as (b2 & Hb2 & _ & _ & _ & _ & _ & Hc2); try reflexivity; try (unfold small; lia).
  split; [rewrite Hb0, (Hsq eq_refl); reflexivity|].
  split; [eexists; split; vm_compute; reflexivity|].
  split.
  - rewrite Hb1, Hc1; [reflexivity|]. vm_compute. split; [discriminate | reflexivity].
  - rewrite Hb2, Hc2; [reflexivity|]. vm_compute. split; [discriminate | reflexivity].
Defined.

(** C4, the claim as stated fails on a 640 by 420 frame with a 250 by
    240 target: the exact scaled height is 437.5, a tie, and rounds half up
    to 438, while the single-precision product is below 437.5 and gives
    437. *)
Lemma center_crop_algorithm_counterexample :
  CenterAndCropBounds (Initialize [BitmapFrame 640 420]) 0 250 240
  = Ret {| X := 101; Y := 0; Width := 437; Height := 420 |} /\
  compute_center_crop 640 420 250 240
  = {| X := 101; Y := 0; Width := 438; Height := 420 |} /\
  scaled_extent 640 420 250 240 = (105000, 240) /\
  2 * 105000 = 240 * (2 * 437 + 1) /\
  ~ clear_of_ties (scaled_extent 640 420 250 240).
Proof.
  split; [vm_compute; reflexivity|]. split; [vm_compute; reflexivity|].
  split; [reflexivity|]. split; [reflexivity|].
  intros [Hlow _]. vm_compute in Hlow. apply Hlow. reflexivity.
Qed.

(** ** The software path below the 32-bit limit *)

Lemma cpu_writes_app (t1 t2 : list Event) :
  cpu_writes (t1 ++ t2) = cpu_writes t1 ++ cpu_writes t2.
Proof.
  induction t1 as [|e t1 IH]; [reflexivity|].
  destruct e; simpl; rewrite IH; reflexivity.
Qed.

Lemma Fetch_trace (s : Store) (d : ConverterResourceDescription) (w : World) :
  trace (snd (Fetch s d w)) = trace w ++ [EvFetch (fst (Fetch s d w))].
Proof.
  unfold Fetch. destruct (FetchAndRemoveObject s d (idle w)) as [[c rest]|]; reflexivity.
Qed.

Lemma shared_ptr_release_writes (p : nat) (w : World) :
  cpu_writes (trace (shared_ptr_release p w)) = cpu_writes (trace w).
Proof.
  unfold shared_ptr_release.
  destruct (wrappers w !! p) as [[[|[|n]] c]|]; try reflexivity.
  simpl. rewrite cpu_writes_app. simpl. apply app_nil_r.
Qed.

(** One frame: a single software tensorization, at the offset given. *)
Lemma CPUTensorize_frame_writes (videoFrame : Z) (bounds : BitmapBounds)
    (tensorDescriptor : ImageTensorDescription) (pResource : Z) (s : State) :
  exists s',
    CPUTensorize_frame videoFrame bounds tensorDescriptor pResource s = (Ret tt, s') /\
    st_this s' = st_this s /\ st_context s' = st_context s /\
    cpu_writes (trace (st_world s')) =
      cpu_writes (trace (st_world s)) ++ [(videoFrame, pResource)].
Proof.
  unfold CPUTensorize_frame, scoped_wrapper, tell, on_world, with_world, mbind, M_bind.
  set (d := {| pixel_format := _; width := _; height := _; luid := _ |}).
  pose proof (Fetch_trace TensorizerStore d (st_world s)) as Hf.
  destruct (Fetch TensorizerStore d (st_world s)) as [c w1]. simpl in Hf.
  simpl. eexists. split; [reflexivity|]. simpl. split; [reflexivity|].
  split; [reflexivity|].
  rewrite shared_ptr_release_writes. simpl. rewrite Hf, !cpu_writes_app. simpl.
  rewrite app_nil_r. reflexivity.
Qed.

(** The batch: frame [batchIdx + k] is written at
    [tempPResource + k * singleFrameBufferSize]. *)
Lemma CPUTensorize_loop_writes (count : nat) :
  forall (batchIdx : Z) (bounds : list BitmapBounds)
    (tensorDescriptor : ImageTensorDescription)
    (tempPResource singleFrameBufferSize : Z) (s : State),
  0 <= batchIdx ->
  (Z.to_nat batchIdx + count <= length bounds)%nat ->
  exists s',
    CPUTensorize_loop batchIdx count bounds tensorDescriptor tempPResource
      singleFrameBufferSize s = (Ret tt, s') /\
    st_this s' = st_this s /\ st_context s' = st_context s /\
    cpu_writes (trace (st_world s')) =
      cpu_writes (trace (st_world s)) ++
      map (fun k => (batchIdx + k, tempPResource + k * singleFrameBufferSize))
        (seqZ 0 (Z.of_nat count)).
Proof.
  induction count as [|count IH]; intros batchIdx bounds td p single s Hidx Hlen.
  - exists s. simpl. rewrite app_nil_r. auto.
  - cbn [CPUTensorize_loop]. unfold mbind at 1, M_bind, lift.
    assert (Hb : exists b, vector_at bounds batchIdx = Ret b).
    { unfold vector_at. destruct (Z.ltb_spec batchIdx 0); [lia|].
      destruct (lookup_lt_is_Some_2 bounds (Z.to_nat batchIdx) ltac:(lia)) as [b Hb].
      rewrite Hb. eauto. }
    destruct Hb as [b ->].
    unfold mbind at 1, M_bind.
    destruct (CPUTensorize_frame_writes batchIdx b td p s) as (s1 & -> & Ht1 & Hc1 & Hw1).
    destruct (IH (batchIdx + 1) bounds td (p + single) single s1) as (s2 & Hs2 & Ht2 & Hc2 & Hw2);
      [lia | lia |].
    exists s2. split; [exact Hs2|]. split; [congruence|]. split; [congruence|].
    rewrite Hw2, Hw1, <- app_assoc. f_equal.
    rewrite Nat2Z.inj_succ, (seqZ_cons 0 (Z.succ (Z.of_nat count))) by lia. cbn [map app].
    replace (batchIdx + 0) with batchIdx by lia.
    replace (p + 0 * single) with p by lia. f_equal.
    replace (seqZ (Z.succ 0) (Z.pred (Z.succ (Z.of_nat count))))
      with (Z.add 1 <$> seqZ 0 (Z.of_nat count))
      by (rewrite fmap_add_seqZ; f_equal; lia).
    change (map ?f (?g <$> ?l)) with (f <$> (g <$> l)).
    rewrite <- list_fmap_compose.
    apply list_fmap_ext. intros i k Hk. simpl. f_equal; lia.
Qed.

Lemma accumulate_multiplies_sizes (batch c h w : Z) :
  0 < batch -> 0 < c -> 0 < h -> 0 < w ->
  batch * c * h * w <= INT64_MAX ->
  accumulate_multiplies [batch; c; h; w] 1 = Ret (batch * c * h * w).
Proof.
  intros Hb Hc Hh Hw Hmax. unfold INT64_MAX in Hmax.
  assert (H1 : batch <= batch * c) by nia.
  assert (H2 : batch * c <= batch * c * h) by nia.
  assert (H3 : batch * c * h <= batch * c * h * w) by nia.
  assert (Hm : forall a b, 0 < a * b <= 9223372036854775807 -> mul_int64 a b = Ret (a * b)).
  { intros a b Hab. unfold mul_int64, INT64_MIN, INT64_MAX.
    destruct (Z.leb_spec (-9223372036854775808) (a * b)); [|lia].
    destruct (Z.leb_spec (a * b) 9223372036854775807); [reflexivity | lia]. }
  cbn [accumulate_multiplies].
  rewrite (Hm 1 batch) by lia. cbn [mbind Outcome_bind].
  rewrite (Hm (1 * batch) c) by nia. cbn [mbind Outcome_bind].
  rewrite (Hm (1 * batch * c) h) by nia. cbn [mbind Outcome_bind].
  rewrite (Hm (1 * batch * c * h) w) by nia. cbn [mbind Outcome_bind].
  f_equal. lia.
Qed.

Lemma ensure_adapter_ok (engine : Engine) (s : State) :
  m_adapter (st_this s) = true \/ OrtGetWinMLAdapter engine = S_OK ->
  exists s',
    ensure_adapter engine s = (Ret tt, s') /\
    st_context s' = st_context s /\ st_world s' = st_world s /\
    m_videoFrames (st_this s') = m_videoFrames (st_this s) /\
    m_batchSize (st_this s') = m_batchSize (st_this s).
Proof.
  intros Ha. unfold ensure_adapter. destruct (m_adapter (st_this s)).
  - exists s. auto.
  - destruct Ha as [Ha | Ha]; [discriminate|]. rewrite Ha. eexists. split; [reflexivity|].
    simpl. auto.
Qed.

(** X14. Below 4 GiB per frame, and without overflow of the byte count,
    the CPU path writes frame [k] at [k] times the size of one frame, which
    is the total size divided by the batch size without remainder. *)
Lemma GetOrtValue_cpu_offsets (engine : Engine) (s : State) (md : ImageResourceMetadata)
    (elementSize c h w : Z) :
  all_nonzero (m_widths (st_this s)) = true ->
  all_nonzero (m_heights (st_this s)) = true ->
  GetInputMetadata (st_this s) (st_context s) = Ret (Some md) ->
  type (st_context s) = kInput ->
  IsCpuDevice (session (st_context s)) = true ->
  m_adapter (st_this s) = true \/ OrtGetWinMLAdapter engine = S_OK ->
  fst (GetProviderAllocator engine) = S_OK ->
  CreateTensor engine = true ->
  GetTensorMutableData engine = true ->
  m_batchSize (st_this s) = Z.of_nat (length (m_videoFrames (st_this s))) ->
  0 < m_batchSize (st_this s) ->
  sizes (TensorDescriptor md) = [m_batchSize (st_this s); c; h; w] ->
  0 < c -> 0 < h -> 0 < w ->
  GetSizeFromTensorDataType (dataType (TensorDescriptor md)) = Ret elementSize ->
  0 < elementSize ->
  elementSize * (m_batchSize (st_this s) * c * h * w) <= INT64_MAX ->
  elementSize * (c * h * w) < 4294967296 ->
  exists v s',
    GetOrtValue engine s = (Ret v, s') /\
    elementSize * (m_batchSize (st_this s) * c * h * w) =
      m_batchSize (st_this s) * (elementSize * (c * h * w)) /\
    cpu_writes (trace (st_world s')) =
      cpu_writes (trace (st_world s)) ++
      map (fun k => (k, k * (elementSize * (c * h * w))))
        (seqZ 0 (m_batchSize (st_this s))).
Proof.
  intros Hw0 Hh0 Hmd Hty Hcpu Had Hal Hct Hgd Hbs Hbpos Hsz Hc Hh Hw Hes Hepos Hmax Hlt.
  unfold GetOrtValue, get_this, get_context, lift.
  set (batch := m_batchSize (st_this s)) in *.
  unfold mbind at 1, M_bind. unfold mbind at 1, M_bind. rewrite Hw0.
  unfold mbind at 1, M_bind. rewrite Hh0.
  unfold mbind at 1, M_bind. unfold mbind at 1, M_bind. rewrite Hmd.
  unfold mbind at 1, M_bind.
  destruct (ensure_adapter_ok engine s Had) as (s1 & -> & Hc1 & Hw1 & Hf1 & Hb1).
  unfold mbind at 1, M_bind. rewrite Hal. cbn [WINML_THROW_IF_FAILED].
  unfold mbind at 1, M_bind. rewrite Hct. cbn [ThrowOnError].
  unfold mbind at 1, M_bind. unfold remember_allocator at 1.
  unfold mbind at 1, M_bind. rewrite Hgd. cbn [ThrowOnError].
  unfold mbind at 1, M_bind. rewrite Hty.
  unfold mbind at 1, M_bind. rewrite Hsz.
  assert (Hprod : batch * c * h * w <= INT64_MAX) by (unfold INT64_MAX in *; nia).
  rewrite (accumulate_multiplies_sizes batch c h w Hbpos Hc Hh Hw Hprod).
  unfold mbind at 1, M_bind. rewrite Hes.
  unfold mbind at 1, M_bind.
  assert (Hmul : mul_int64 elementSize (batch * c * h * w) =
                 Ret (elementSize * (batch * c * h * w))).
  { unfold mul_int64, INT64_MIN. unfold INT64_MAX in *.
    destruct (Z.leb_spec (-9223372036854775808) (elementSize * (batch * c * h * w))); [|nia].
    destruct (Z.leb_spec (elementSize * (batch * c * h * w)) 9223372036854775807);
      [reflexivity | lia]. }
  rewrite Hmul.
  unfold mbind at 1, M_bind. unfold div_int64. fold batch.
  destruct (Z.eqb_spec batch 0) as [Hz | _]; [lia|].
  assert (Hdiv : Z.quot (elementSize * (batch * c * h * w)) batch = elementSize * (c * h * w)).
  { rewrite Z.quot_div_nonneg by nia.
    replace (elementSize * (batch * c * h * w)) with (elementSize * (c * h * w) * batch) by lia.
    apply Z.div_mul. lia. }
  rewrite Hdiv. rewrite Hcpu.
  rewrite wrap32_small by nia.
  unfold CPUTensorize. cbv iota beta.
  apply GetInputMetadata_Ret in Hmd as (dw & dh & kind & f & _ & Hbounds & _ & _).
  apply mapM_Ret_length in Hbounds. rewrite length_seqZ in Hbounds.
  match goal with
  | |- context [CPUTensorize_loop 0 ?n ?b ?td 0 ?sz ?st] =>
      destruct (CPUTensorize_loop_writes n 0 b td 0 sz st) as (s2 & Hs2 & Ht2 & Hc2 & Hw2)
  end.
  { lia. } { simpl. fold batch in Hbounds. lia. }
  rewrite Hs2. eexists. eexists. split; [reflexivity|]. split; [lia|].
  rewrite Hw2. cbn [st_world]. rewrite Hw1. f_equal.
  rewrite <- Hbs. apply list_fmap_ext. intros i k Hk. simpl. f_equal; lia.
Qed.

(** ** Bounds computed from the frame itself *)

Lemma vector_at_Ret {A} (v : list A) (i : Z) (a : A) :
  vector_at v i = Ret a -> 0 <= i /\ v !! Z.to_nat i = Some a.
Proof.
  unfold vector_at. destruct (Z.ltb_spec i 0); [discriminate|].
  destruct (v !! Z.to_nat i); [|discriminate]. intros E. injection E as ->. auto.
Qed.

Lemma CenterAndCropBounds_reads (this : ImageFeatureValue) (idx dw dh : Z) (b : BitmapBounds) :
  CenterAndCropBounds this idx dw dh = Ret b ->
  exists W H, vector_at (m_widths this) idx = Ret W /\ vector_at (m_heights this) idx = Ret H.
Proof.
  unfold CenterAndCropBounds. intros E.
  apply bind_Ret in E as (H & HH & E). apply bind_Ret in E as (W & HW & _). eauto.
Qed.

(** X13. Without an override of the bounds, every rectangle of a
    successful resolution lies within its frame, for inputs and outputs
    alike, and there is one rectangle per frame. *)
Lemma bounds_within_frame_without_override (this : ImageFeatureValue)
    (context : BindingContext) (md : ImageResourceMetadata) :
  GetBoundsFromMetadata (properties context) = Ret None ->
  GetInputMetadata this context = Ret (Some md) ->
  Forall (fun w => 0 <= w < 4294967296) (m_widths this) ->
  Forall (fun h => 0 <= h < 4294967296) (m_heights this) ->
  length (Bounds md) = Z.to_nat (m_batchSize this) /\
  forall (i : nat) (b : BitmapBounds),
    Bounds md !! i = Some b ->
    exists W H,
      m_widths this !! i = Some W /\ m_heights this !! i = Some H /\ within_frame b W H.
Proof.
  intros Hno Hmd HFw HFh.
  apply GetInputMetadata_Ret in Hmd as (dw & dh & kind & f & _ & Hbounds & _ & _).
  split.
  { apply mapM_Ret_length in Hbounds. rewrite length_seqZ in Hbounds. exact Hbounds. }
  intros i b Hi.
  destruct (mapM_Ret_lookup _ _ _ _ _ Hbounds Hi) as (a & Ha & Hfb).
  apply lookup_seqZ in Ha as [-> _]. rewrite Z.add_0_l in Hfb.
  unfold frame_bounds in Hfb. rewrite Hno in Hfb. cbn [mbind Outcome_bind] in Hfb.
  destruct (type context).
  - destruct (CenterAndCropBounds_reads _ _ _ _ _ Hfb) as (W & H & HW & HH).
    pose proof (vector_at_Ret _ _ _ HW) as [_ HW']. rewrite Nat2Z.id in HW'.
    pose proof (vector_at_Ret _ _ _ HH) as [_ HH']. rewrite Nat2Z.id in HH'.
    exists W, H. split; [exact HW'|]. split; [exact HH'|].
    apply (CenterAndCropBounds_within this (Z.of_nat i) dw dh W H b HW HH).
    + exact (proj1 (Forall_lookup _ _) HFw _ _ HW').
    + exact (proj1 (Forall_lookup _ _) HFh _ _ HH').
    + exact Hfb.
  - apply bind_Ret in Hfb as (W & HW & Hfb). apply bind_Ret in Hfb as (H & HH & Hfb).
    injection Hfb as <-.
    pose proof (vector_at_Ret _ _ _ HW) as [_ HW']. rewrite Nat2Z.id in HW'.
    pose proof (vector_at_Ret _ _ _ HH) as [_ HH']. rewrite Nat2Z.id in HH'.
    exists W, H. split; [exact HW'|]. split; [exact HH'|].
    pose proof (proj1 (Forall_lookup _ _) HFw _ _ HW').
    pose proof (proj1 (Forall_lookup _ _) HFh _ _ HH').
    unfold within_frame. simpl. lia.
Qed.

(** ** The free-dimension rule *)

Lemma Forall_small_lookup (v : list Z) (i : Z) (x : Z) :
  Forall small v -> vector_at v i = Ret x -> small x.
Proof.
  intros Hv Hx. apply vector_at_Ret in Hx as [_ Hx].
  exact (proj1 (Forall_lookup _ _) Hv _ _ Hx).
Qed.

Lemma GetBitmapPixelFormatFromMetadata_supported (properties : IPropertySet)
    (f : BitmapPixelFormat.t) :
  GetBitmapPixelFormatFromMetadata properties = Ret (Some f) -> supported_format f = true.
Proof.
  unfold GetBitmapPixelFormatFromMetadata.
  destruct properties as [p|]; [|discriminate].
  destruct (HasKey p "BitmapPixelFormat"); [|discriminate].
  destruct (Lookup p "BitmapPixelFormat") as [|[v|v|]|]; simpl; try discriminate.
  destruct (supported_format v) eqn:Hv; simpl; [|discriminate].
  intros E. injection E as <-. exact Hv.
Qed.

Lemma mapM_Ret_exists {A B} (f : A -> Outcome B) (l : list A) :
  (forall a, a ∈ l -> exists b, f a = Ret b) -> exists r, mapM f l = Ret r.
Proof.
  induction l as [|a l IH]; intros H; [exists []; reflexivity|].
  destruct (H a) as [b Hb]; [left|].
  destruct IH as [r Hr]; [intros a' Ha'; apply H; right; exact Ha'|].
  exists (b :: r). cbn [mapM]. rewrite Hb. cbn [mbind Outcome_bind].
  rewrite Hr. reflexivity.
Qed.

(** The extents resolve when the descriptor is one the resolver serves
    and the frames of a nonempty batch agree on every free axis. *)
Lemma resolve_extents_succeeds (this : ImageFeatureValue) (d : FeatureDescriptor) :
  servable d ->
  (free_width d -> agree (m_widths this)) ->
  (free_height d -> agree (m_heights this)) ->
  m_widths this <> [] -> m_heights this <> [] ->
  exists dw dh kind,
    resolve_extents this d = Ret (Some (dw, dh, kind)) /\ declared_kind d = Some kind.
Proof.
  intros Hs Hfw Hfh Hw Hh.
  assert (Hv : forall v : list Z, v <> [] -> exists x, vector_at v 0 = Ret x).
  { intros [|x v] Hne; [contradiction | exists x; reflexivity]. }
  destruct (Hv _ Hw) as [w0 Hw0]. destruct (Hv _ Hh) as [h0 Hh0].
  destruct d as [W H f kind|shape kind|]; [| |destruct Hs].
  - cbn [resolve_extents free_width free_height declared_kind] in *.
    destruct (Z.eqb_spec W MAXUINT32) as [HW | HW].
    + rewrite (proj2 (no_adjacent_difference_agree _) (Hfw HW)). cbn [negb andb].
      destruct (Z.eqb_spec H MAXUINT32) as [HH | HH].
      * rewrite (proj2 (no_adjacent_difference_agree _) (Hfh HH)). cbn [negb andb].
        rewrite Hw0, Hh0. eauto.
      * cbn [andb]. rewrite Hw0. eauto.
    + cbn [andb]. destruct (Z.eqb_spec H MAXUINT32) as [HH | HH].
      * rewrite (proj2 (no_adjacent_difference_agree _) (Hfh HH)). cbn [negb andb].
        rewrite Hh0. eauto.
      * cbn [andb]. eauto.
  - destruct shape as [|s0 [|s1 [|s2 [|s3 [|x rest]]]]]; try (destruct Hs; fail).
    destruct Hs as [-> | ->].
    + cbn [resolve_extents free_width free_height declared_kind] in *.
      change ((1 =? 3) || (1 =? 1)) with true. cbn [negb].
      destruct (Z.eqb_spec (-1) s3) as [HW | HW].
      * rewrite (proj2 (no_adjacent_difference_agree _) (Hfw (eq_sym HW))).
        cbn [negb andb].
        destruct (Z.eqb_spec (-1) s2) as [HH | HH].
        -- rewrite (proj2 (no_adjacent_difference_agree _) (Hfh (eq_sym HH))).
           cbn [negb andb]. rewrite Hw0, Hh0. eauto.
        -- cbn [andb]. rewrite Hw0. eauto.
      * cbn [andb]. destruct (Z.eqb_spec (-1) s2) as [HH | HH].
        -- rewrite (proj2 (no_adjacent_difference_agree _) (Hfh (eq_sym HH))).
           cbn [negb andb]. rewrite Hh0. eauto.
        -- cbn [andb]. eauto.
    + cbn [resolve_extents free_width free_height declared_kind] in *.
      change ((3 =? 3) || (3 =? 1)) with true. cbn [negb].
      destruct (Z.eqb_spec (-1) s3) as [HW | HW].
      * rewrite (proj2 (no_adjacent_difference_agree _) (Hfw (eq_sym HW))).
        cbn [negb andb].
        destruct (Z.eqb_spec (-1) s2) as [HH | HH].
        -- rewrite (proj2 (no_adjacent_difference_agree _) (Hfh (eq_sym HH))).
           cbn [negb andb]. rewrite Hw0, Hh0. eauto.
        -- cbn [andb]. rewrite Hw0. eauto.
      * cbn [andb]. destruct (Z.eqb_spec (-1) s2) as [HH | HH].
        -- rewrite (proj2 (no_adjacent_difference_agree _) (Hfh (eq_sym HH))).
           cbn [negb andb]. rewrite Hh0. eauto.
        -- cbn [andb]. eauto.
Qed.

(** The rectangles of all frames resolve when the bounds override is
    absent or well formed and, where the crop is computed, the extents are
    below [2^20]. *)
Lemma frame_bounds_succeed (frames : list VideoFrame) (context : BindingContext)
    (dw dh : Z) (ob : option BitmapBounds) :
  GetBoundsFromMetadata (properties context) = Ret ob ->
  (ob = None -> type context = kInput ->
   Forall small (m_widths (Initialize frames)) /\
   Forall small (m_heights (Initialize frames)) /\ small dw /\ small dh) ->
  exists bounds,
    mapM (frame_bounds (Initialize frames) context dw dh)
      (seqZ 0 (m_batchSize (Initialize frames))) = Ret bounds.
Proof.
  intros Hob Hcrop. set (this := Initialize frames) in *.
  assert (Hlw : length (m_widths this) = length frames) by apply length_map.
  assert (Hlh : length (m_heights this) = length frames) by apply length_map.
  apply mapM_Ret_exists. intros i Hi.
  apply elem_of_seqZ in Hi. unfold this at 1 in Hi. simpl in Hi.
  assert (Hin : exists W H, vector_at (m_widths this) i = Ret W /\
                            vector_at (m_heights this) i = Ret H).
  { unfold vector_at. destruct (Z.ltb_spec i 0); [lia|].
    destruct (lookup_lt_is_Some_2 (m_widths this) (Z.to_nat i) ltac:(lia)) as [W HW].
    destruct (lookup_lt_is_Some_2 (m_heights this) (Z.to_nat i) ltac:(lia)) as [H' HH].
    rewrite HW, HH. eauto. }
  destruct Hin as (W & H & HW & HH).
  unfold frame_bounds. rewrite Hob. cbn [mbind Outcome_bind].
  destruct ob as [b|]; [eauto|].
  destruct (type context) eqn:Hty.
  - destruct (Hcrop eq_refl eq_refl) as (Hsw & Hsh & Hdw & Hdh).
    destruct (CenterAndCropBounds_one_pixel this i W H dw dh
                (Forall_small_lookup _ _ _ Hsw HW) (Forall_small_lookup _ _ _ Hsh HH)
                Hdw Hdh HW HH) as (b & Hb & _).
    eauto.
  - rewrite HW, HH. cbn [mbind Outcome_bind]. eauto.
Qed.

(** The pixel format resolves to a supported one when the override is
    absent or valid and, without one, an image descriptor declares a
    supported format. *)
Lemma resolve_pixel_format_succeeds (context : BindingContext)
    (o : option BitmapPixelFormat.t) :
  servable (descriptor context) ->
  GetBitmapPixelFormatFromMetadata (properties context) = Ret o ->
  (o = None -> forall W H f k,
     descriptor context = ImageFeatureDescriptor W H f k -> supported_format f = true) ->
  exists f, resolve_pixel_format context = Ret (Some f) /\ supported_format f = true.
Proof.
  intros Hs Ho Hdecl. unfold resolve_pixel_format. rewrite Ho. cbn [mbind Outcome_bind].
  destruct o as [f|].
  - exists f. split; [reflexivity|].
    exact (GetBitmapPixelFormatFromMetadata_supported _ _ Ho).
  - destruct (descriptor context) as [W H f k|shape k|]; [| |destruct Hs].
    + exists f. split; [reflexivity|]. exact (Hdecl eq_refl W H f k eq_refl).
    + destruct shape as [|s0 [|s1 [|s2 [|s3 [|x rest]]]]]; try (destruct Hs; fail).
      destruct Hs as [-> | ->].
      * exists BitmapPixelFormat.Gray8. split; reflexivity.
      * exists BitmapPixelFormat.Bgra8. split; reflexivity.
Qed.

(** C2 (as amended). For every batch and every descriptor the resolver
    serves (an image descriptor, or a tensor descriptor of rank 4 with 1
    or 3 channels), the resolution fails with the invalid-argument
    condition if and only if some free spatial axis has frames that
    disagree on it. Whenever the resolution succeeds, the resolved extent
    on each free axis is the value all frames share. And when the frames of
    a nonempty batch agree on every free axis, the resolution does succeed,
    provided the later stages have nothing to reject: the tensor kind is
    [Float] or [Float16]; the pixel-format override is absent or valid and,
    without one, an image descriptor declares a supported format; the
    bounds override is absent or well formed and, without one on an input
    binding, the extents of the frames and of the target are nonzero and
    below [2^20]. *)
Theorem free_dimension_rule (this : ImageFeatureValue) (context : BindingContext) :
  servable (descriptor context) ->
  (GetInputMetadata this context = Throw E_INVALIDARG <->
     (free_width (descriptor context) /\ ~ agree (m_widths this)) \/
     (free_height (descriptor context) /\ ~ agree (m_heights this))) /\
  (forall md, GetInputMetadata this context = Ret (Some md) ->
     (free_width (descriptor context) ->
        agree (m_widths this) /\
        forall a, a ∈ m_widths this -> size_at (TensorDescriptor md) 3 = a) /\
     (free_height (descriptor context) ->
        agree (m_heights this) /\
        forall a, a ∈ m_heights this -> size_at (TensorDescriptor md) 2 = a)) /\
  (forall frames o ob,
     this = Initialize frames -> frames <> [] ->
     (free_width (descriptor context) -> agree (m_widths this)) ->
     (free_height (descriptor context) -> agree (m_heights this)) ->
     declared_kind (descriptor context) = Some TK_Float \/
     declared_kind (descriptor context) = Some TK_Float16 ->
     GetBitmapPixelFormatFromMetadata (properties context) = Ret o ->
     (o = None -> forall W H f k,
        descriptor context = ImageFeatureDescriptor W H f k ->
        supported_format f = true) ->
     GetBoundsFromMetadata (properties context) = Ret ob ->
     (ob = None -> type context = kInput ->
        Forall small (m_widths this) /\ Forall small (m_heights this) /\
        forall dw dh kind,
          resolve_extents this (descriptor context) = Ret (Some (dw, dh, kind)) ->
          small dw /\ small dh) ->
     exists md, GetInputMetadata this context = Ret (Some md)).
Proof.
  intros Hs. split; [|split].
  - rewrite GetInputMetadata_Throw_extents.
    + apply resolve_extents_invalid, Hs.
    + intros [H _]. apply H. reflexivity.
  - intros md Hmd.
    apply GetInputMetadata_Ret in Hmd as (dw & dh & kind & f & He & _ & _ & Hd).
    apply CreateImageTensorDescriptor_Ret in Hd as (_ & _ & _ & c & _ & Hsz).
    unfold size_at. rewrite Hsz. simpl. split; intros Hfree.
    + destruct (resolve_extents_free_width _ _ _ _ _ He Hfree) as [Hv Ha].
      split; [exact Ha|]. intros a Hin. exact (vector_at_head_agree _ _ _ Hv Ha Hin).
    + destruct (resolve_extents_free_height _ _ _ _ _ He Hfree) as [Hv Ha].
      split; [exact Ha|]. intros a Hin. exact (vector_at_head_agree _ _ _ Hv Ha Hin).
  - intros frames o ob Hthis Hne Hfw Hfh Hkind Ho Hdecl Hob Hcrop.
    assert (Hw : m_widths this <> []).
    { rewrite Hthis. destruct frames; [contradiction | discriminate]. }
    assert (Hh : m_heights this <> []).
    { rewrite Hthis. destruct frames; [contradiction | discriminate]. }
    destruct (resolve_extents_succeeds this (descriptor context) Hs Hfw Hfh Hw Hh)
      as (dw & dh & kind & He & Hk).
    assert (Hdt : exists dt, GetTensorDataTypeFromTensorKind kind = Ret dt).
    { rewrite Hk in Hkind.
      destruct Hkind as [E | E]; injection E as ->; eexists; reflexivity. }
    destruct Hdt as [dt Hdt].
    destruct (resolve_pixel_format_succeeds context o Hs Ho Hdecl) as (f & Hf & Hsup).
    assert (Hb : exists bounds,
              mapM (frame_bounds this context dw dh) (seqZ 0 (m_batchSize this))
              = Ret bounds).
    { rewrite Hthis. apply (frame_bounds_succeed frames context dw dh ob Hob).
      intros Hnone Hty. rewrite <- Hthis.
      destruct (Hcrop Hnone Hty) as (Hsw & Hsh & Hsd).
      destruct (Hsd dw dh kind He). auto. }
    destruct Hb as [bounds Hb].
    eexists. exact (GetInputMetadata_stages this context dw dh kind bounds f dt
                      He Hb Hf Hsup Hdt).
Qed.

Lemma free_dimension_rule_witness :
  let frames := [BitmapFrame 100 200; BitmapFrame 100 200; BitmapFrame 100 200] in
  let this := Initialize frames in
  let mixed := Initialize [BitmapFrame 100 200; BitmapFrame 150 200] in
  let context := make_context kInput cpu_session free_image_descriptor None in
  servable (descriptor context) /\
  (exists md, GetInputMetadata this context = Ret (Some md) /\
     size_at (TensorDescriptor md) 3 = 100 /\ size_at (TensorDescriptor md) 2 = 200) /\
  GetInputMetadata mixed context = Throw E_INVALIDARG.
Proof.
  intros frames this mixed context.
  assert (Hs : servable (descriptor context)) by exact I.
  split; [exact Hs|]. split.
  - destruct (free_dimension_rule this context Hs) as (_ & Hshared & Hsucceeds).
    destruct (Hsucceeds frames None None eq_refl) as [md E].
    + discriminate.
    + intros _. apply no_adjacent_difference_agree. reflexivity.
    + intros _. apply no_adjacent_difference_agree. reflexivity.
    + left. reflexivity.
    + reflexivity.
    + intros _ W H f k Hd. injection Hd as _ _ <- _. reflexivity.
    + reflexivity.
    + intros _ _. split; [|split].
      * simpl. repeat (apply Forall_cons_2; [vm_compute; split; reflexivity|]).
        apply Forall_nil_2.
      * simpl. repeat (apply Forall_cons_2; [vm_compute; split; reflexivity|]).
        apply Forall_nil_2.
      * intros dw dh kind He. vm_compute in He. injection He as <- <- _.
        unfold small. lia.
    + exists md. split; [exact E|].
      destruct (Hshared md E) as [Hw Hh].
      split.
      * apply Hw; [reflexivity | left].
      * apply Hh; [reflexivity | left].
  - apply (proj1 (free_dimension_rule mixed context Hs)). left.
    split; [reflexivity|]. intros Ha.
    assert (100 = 150) as Hne by (apply Ha; [left | right; left]).
    discriminate Hne.
Defined.

(** C2, the claim as stated fails: disagreement does not always give the
    invalid-argument condition, and agreement does not always give
    success. A tensor descriptor with a free width and two channels is
    declined although the frames disagree. Three frames that agree on both
    free axes do not make the resolution succeed when the property bag
    overrides the pixel format with [Rgba16], or gives bounds of three
    elements, or when the descriptor declares the tensor kind [UInt8]; a
    frame of 4294967295 by 4294967295 pixels takes the crop out of the
    range of [UINT]; and an empty batch has no first frame to take the free
    extent from. *)
Lemma free_dimension_counterexample :
  (let this := Initialize [BitmapFrame 100 200; BitmapFrame 150 200] in
   let context :=
     make_context kInput cpu_session (TensorFeatureDescriptor [1; 2; 224; -1] TK_Float) None in
   free_width (descriptor context) /\ ~ agree (m_widths this) /\
   GetInputMetadata this context = Ret None) /\
  (let this := Initialize [BitmapFrame 100 200; BitmapFrame 100 200; BitmapFrame 100 200] in
   let context :=
     make_context kInput cpu_session free_image_descriptor
       (Some {["BitmapPixelFormat" := Insp_value (PV_Int32 BitmapPixelFormat.Rgba16)]}) in
   free_width (descriptor context) /\ free_height (descriptor context) /\
   agree (m_widths this) /\ agree (m_heights this) /\
   GetInputMetadata this context = Throw WINML_ERR_INVALID_BINDING) /\
  (let this := Initialize [BitmapFrame 100 200; BitmapFrame 100 200; BitmapFrame 100 200] in
   agree (m_widths this) /\ agree (m_heights this) /\
   GetInputMetadata this
     (make_context kInput cpu_session free_image_descriptor
        (Some {["BitmapBounds" := Insp_value (PV_UInt32Array [0; 0; 100])]}))
   = Throw WINML_ERR_INVALID_BINDING /\
   GetInputMetadata this
     (make_context kInput cpu_session
        (ImageFeatureDescriptor MAXUINT32 MAXUINT32 BitmapPixelFormat.Bgra8 TK_UInt8) None)
   = Throw WINML_ERR_INVALID_BINDING) /\
  GetInputMetadata (Initialize [BitmapFrame 4294967295 4294967295])
    (make_context kInput cpu_session free_image_descriptor None) = Undefined /\
  GetInputMetadata (Initialize [])
    (make_context kInput cpu_session free_image_descriptor None) = Undefined.
Proof.
  assert (Ha : agree [100; 100; 100]).
  { apply no_adjacent_difference_agree. reflexivity. }
  assert (Hb : agree [200; 200; 200]).
  { apply no_adjacent_difference_agree. reflexivity. }
  split; [|split; [|split; [|split]]].
  - intros this context. split; [reflexivity|]. split; [|reflexivity].
    intros Hc. assert (100 = 150) as Hne by (apply Hc; [left | right; left]).
    discriminate Hne.
  - intros this context. split; [reflexivity|]. split; [reflexivity|].
    split; [exact Ha|]. split; [exact Hb|]. vm_compute. reflexivity.
  - intros this. split; [exact Ha|]. split; [exact Hb|].
    split; vm_compute; reflexivity.
  - vm_compute. reflexivity.
  - vm_compute. reflexivity.
Qed.

(** ** The hardware path, frame by frame *)

Lemma returned_app (t1 t2 : list Event) :
  returned (t1 ++ t2) = returned t1 ++ returned t2.
Proof.
  induction t1 as [|e t1 IH]; [reflexivity|].
  destruct e; simpl; rewrite IH; reflexivity.
Qed.

Lemma gpu_submissions_app (t1 t2 : list Event) :
  gpu_submissions (t1 ++ t2) = gpu_submissions t1 ++ gpu_submissions t2.
Proof.
  induction t1 as [|e t1 IH]; [reflexivity|].
  destruct e; simpl; rewrite IH; reflexivity.
Qed.

Lemma Fetch_world (s : Store) (d : ConverterResourceDescription) (w : World) :
  wrappers (snd (Fetch s d w)) = wrappers w /\
  next_wrapper (snd (Fetch s d w)) = next_wrapper w.
Proof.
  unfold Fetch. destruct (FetchAndRemoveObject s d (idle w)) as [[c rest]|]; auto.
Qed.

Lemma shared_ptr_release_last (p : nat) (w : World) (c : ConverterResources) :
  wrappers w !! p = Some (1%nat, c) ->
  wrappers (shared_ptr_release p w) = delete p (wrappers w) /\
  next_wrapper (shared_ptr_release p w) = next_wrapper w /\
  trace (shared_ptr_release p w) = trace w ++ [EvReturnToCache c].
Proof. intros H. unfold shared_ptr_release. rewrite H. auto. Qed.

Lemma shared_ptr_release_shared (p n : nat) (w : World) (c : ConverterResources) :
  wrappers w !! p = Some (S (S n), c) ->
  wrappers (shared_ptr_release p w) = <[p := (S n, c)]> (wrappers w) /\
  next_wrapper (shared_ptr_release p w) = next_wrapper w /\
  trace (shared_ptr_release p w) = trace w.
Proof. intros H. unfold shared_ptr_release. rewrite H. auto. Qed.

(** The state after one iteration of the GPU loop. *)
Lemma GPUTensorize_step_state (d : ConverterResourceDescription) (bounds : list BitmapBounds)
    (batchIdx : Z) (b : BitmapBounds) (s : State) :
  vector_at bounds batchIdx = Ret b ->
  let c := fst (Fetch TensorizerStore d (st_world s)) in
  let w1 := snd (Fetch TensorizerStore d (st_world s)) in
  let p := next_wrapper w1 in
  (c ← with_world (Fetch TensorizerStore d);
   pooledConverter ← with_world (PoolObjectWrapper_Create c);
   scoped_wrapper pooledConverter
     (b ← lift (vector_at bounds batchIdx);
      _ ← tell (EvVideoFrameToDX12Tensor c batchIdx b);
      set_context_converter (Some pooledConverter))) s
  = (Ret tt,
     {| st_this := st_this s;
        st_context := set_converter (Some p) (st_context s);
        st_world :=
          shared_ptr_release p
            (shared_ptr_reset (converter (st_context s))
               (shared_ptr_copy p
                  (log (EvVideoFrameToDX12Tensor c batchIdx b)
                     (snd (PoolObjectWrapper_Create c w1))))) |}).
Proof.
  intros Hb. unfold mbind, M_bind, with_world, scoped_wrapper, lift, tell, on_world,
    set_context_converter, assign_converter.
  destruct (Fetch TensorizerStore d (st_world s)) as [c w1].
  cbn [fst snd PoolObjectWrapper_Create st_world st_context st_this]. rewrite Hb.
  reflexivity.
Qed.

(** One iteration of the GPU loop: the frame is submitted on a fetched
    converter, whose wrapper takes the slot of the binding context as its
    only reference, and the converter the slot held before goes back to its
    store. *)
Lemma GPUTensorize_step (d : ConverterResourceDescription) (bounds : list BitmapBounds)
    (batchIdx : Z) (s : State) :
  fresh_wrappers (st_world s) -> sole_owner s ->
  0 <= batchIdx -> (Z.to_nat batchIdx < length bounds)%nat ->
  exists s' p c,
    (c ← with_world (Fetch TensorizerStore d);
     pooledConverter ← with_world (PoolObjectWrapper_Create c);
     scoped_wrapper pooledConverter
       (b ← lift (vector_at bounds batchIdx);
        _ ← tell (EvVideoFrameToDX12Tensor c batchIdx b);
        set_context_converter (Some pooledConverter))) s = (Ret tt, s') /\
    fresh_wrappers (st_world s') /\
    converter (st_context s') = Some p /\
    wrappers (st_world s') !! p = Some (1%nat, c) /\
    gpu_submissions (trace (st_world s')) =
      gpu_submissions (trace (st_world s)) ++ [(c, batchIdx)] /\
    returned (trace (st_world s')) = returned (trace (st_world s)) ++ slot_converters s.
Proof.
  intros Hfresh Hsole Hidx Hlen.
  assert (Hb : exists b, vector_at bounds batchIdx = Ret b).
  { unfold vector_at. destruct (Z.ltb_spec batchIdx 0); [lia|].
    destruct (lookup_lt_is_Some_2 bounds (Z.to_nat batchIdx) Hlen) as [b Hb].
    rewrite Hb. eauto. }
  destruct Hb as [b Hb].
  rewrite (GPUTensorize_step_state d bounds batchIdx b s Hb).
  pose proof (Fetch_trace TensorizerStore d (st_world s)) as Hft.
  pose proof (Fetch_world TensorizerStore d (st_world s)) as [Hfw Hfn].
  set (c := fst (Fetch TensorizerStore d (st_world s))) in *.
  set (w1 := snd (Fetch TensorizerStore d (st_world s))) in *.
  set (p := next_wrapper w1) in *.
  set (w3 := shared_ptr_copy p (log (EvVideoFrameToDX12Tensor c batchIdx b)
                                  (snd (PoolObjectWrapper_Create c w1)))).
  assert (Hw3 : wrappers w3 = <[p := (2%nat, c)]> (wrappers (st_world s))).
  { unfold w3. cbn [shared_ptr_copy log PoolObjectWrapper_Create snd wrappers].
    fold p. rewrite <- Hfw. apply map_eq. intros k.
    destruct (decide (k = p)) as [-> | Hne].
    - rewrite lookup_alter_eq, !lookup_insert_eq. reflexivity.
    - rewrite lookup_alter_ne, !lookup_insert_ne by congruence. reflexivity. }
  assert (Hn3 : next_wrapper w3 = S p) by reflexivity.
  assert (Ht3 : trace w3 = trace (st_world s) ++ [EvFetch c] ++
                           [EvVideoFrameToDX12Tensor c batchIdx b]).
  { unfold w3. cbn [shared_ptr_copy log PoolObjectWrapper_Create snd trace].
    rewrite Hft, <- app_assoc. reflexivity. }
  clearbody w3.
  eexists. exists p, c. split; [reflexivity|]. cbn [st_world st_context].
  unfold sole_owner, slot_converters in *.
  cbn [st_world st_context set_converter converter].
  destruct (converter (st_context s)) as [p0|] eqn:Hconv; cbn [shared_ptr_reset].
  - destruct Hsole as [c0 Hp0].
    assert (Hget : wrapper_Get p0 (st_world s) = Some c0).
    { unfold wrapper_Get. rewrite Hp0. reflexivity. }
    rewrite Hget. cbn [option_list].
    assert (Hne : p0 <> p).
    { intros ->. rewrite Hfresh in Hp0; [discriminate|]. unfold p. lia. }
    destruct (shared_ptr_release_last p0 w3 c0) as (Hw4 & Hn4 & Ht4).
    { rewrite Hw3, lookup_insert_ne by congruence. exact Hp0. }
    set (w4 := shared_ptr_release p0 w3) in *. clearbody w4.
    destruct (shared_ptr_release_shared p 0 w4 c) as (Hw5 & Hn5 & Ht5).
    { rewrite Hw4, lookup_delete_ne, Hw3, lookup_insert_eq by congruence. reflexivity. }
    set (w5 := shared_ptr_release p w4) in *. clearbody w5.
    split; [|split; [reflexivity|split; [|split]]].
    + intros k Hk. rewrite Hn5, Hn4, Hn3 in Hk.
      rewrite Hw5, lookup_insert_ne by lia.
      destruct (decide (k = p0)) as [-> | Hk0].
      * rewrite Hw4. apply lookup_delete_eq.
      * rewrite Hw4, lookup_delete_ne, Hw3, lookup_insert_ne by (congruence || lia).
        apply Hfresh. unfold p in Hk. lia.
    + rewrite Hw5. apply lookup_insert_eq.
    + rewrite Ht5, Ht4, Ht3, !gpu_submissions_app. simpl. rewrite ?app_nil_r. reflexivity.
    + rewrite Ht5, Ht4, Ht3, !returned_app. simpl. rewrite ?app_nil_r. reflexivity.
  - destruct (shared_ptr_release_shared p 0 w3 c) as (Hw5 & Hn5 & Ht5).
    { rewrite Hw3, lookup_insert_eq. reflexivity. }
    set (w5 := shared_ptr_release p w3) in *. clearbody w5.
    split; [|split; [reflexivity|split; [|split]]].
    + intros k Hk. rewrite Hn5, Hn3 in Hk.
      rewrite Hw5, lookup_insert_ne, Hw3, lookup_insert_ne by lia.
      apply Hfresh. unfold p in Hk. lia.
    + rewrite Hw5. apply lookup_insert_eq.
    + rewrite Ht5, Ht3, !gpu_submissions_app. simpl. rewrite ?app_nil_r. reflexivity.
    + rewrite Ht5, Ht3, !returned_app. simpl. rewrite ?app_nil_r. reflexivity.
Qed.

(** The GPU loop over [count] frames from [start]: the frames are
    submitted in order, each on the converter fetched for it; when the loop
    ends the converters of all frames but the last are back in their store,
    after the one the slot held before, and the slot holds the only
    reference to the wrapper of the converter of the last frame. *)
Lemma GPUTensorize_loop (d : ConverterResourceDescription) (bounds : list BitmapBounds)
    (count : nat) : forall (start : Z) (s : State),
  fresh_wrappers (st_world s) -> sole_owner s ->
  0 <= start -> (Z.to_nat start + S count <= length bounds)%nat ->
  exists s' p c subs,
    for_range start (S count) (fun batchIdx =>
      c ← with_world (Fetch TensorizerStore d);
      pooledConverter ← with_world (PoolObjectWrapper_Create c);
      scoped_wrapper pooledConverter
        (b ← lift (vector_at bounds batchIdx);
         _ ← tell (EvVideoFrameToDX12Tensor c batchIdx b);
         set_context_converter (Some pooledConverter))) s = (Ret tt, s') /\
    fresh_wrappers (st_world s') /\
    converter (st_context s') = Some p /\
    wrappers (st_world s') !! p = Some (1%nat, c) /\
    gpu_submissions (trace (st_world s')) = gpu_submissions (trace (st_world s)) ++ subs /\
    map snd subs = seqZ start (Z.of_nat (S count)) /\
    last (map fst subs) = Some c /\
    returned (trace (st_world s')) =
      returned (trace (st_world s)) ++ slot_converters s ++ removelast (map fst subs).
Proof.
  induction count as [|k IH]; intros start s Hfresh Hsole Hstart Hlen.
  - destruct (GPUTensorize_step d bounds start s Hfresh Hsole Hstart ltac:(lia))
      as (s1 & p & c & Hrun & Hf1 & Hc1 & Hw1 & Hsub & Hret).
    exists s1, p, c, [(c, start)]. cbn [for_range].
    unfold mbind at 1, M_bind at 1. rewrite Hrun.
    split; [reflexivity|]. split; [exact Hf1|]. split; [exact Hc1|].
    split; [exact Hw1|]. split; [exact Hsub|]. split; [reflexivity|].
    split; [reflexivity|]. cbn [map fst removelast]. rewrite app_nil_r. exact Hret.
  - destruct (GPUTensorize_step d bounds start s Hfresh Hsole Hstart ltac:(lia))
      as (s1 & p1 & c1 & Hrun & Hf1 & Hc1 & Hw1 & Hsub & Hret).
    assert (Hs1 : sole_owner s1).
    { unfold sole_owner. rewrite Hc1. eauto. }
    assert (Hslot : slot_converters s1 = [c1]).
    { unfold slot_converters, wrapper_Get. rewrite Hc1, Hw1. reflexivity. }
    destruct (IH (start + 1) s1 Hf1 Hs1 ltac:(lia) ltac:(lia))
      as (s2 & p & c & subs & Hrun2 & Hf2 & Hc2 & Hw2 & Hsub2 & Hidx & Hlast & Hret2).
    exists s2, p, c, ((c1, start) :: subs). split.
    + change (for_range start (S (S k)) ?body) with
        (_ ← body start; for_range (start + 1) (S k) body).
      unfold mbind at 1, M_bind at 1. rewrite Hrun. exact Hrun2.
    + assert (Hne : map fst subs <> []).
      { intros Hnil. rewrite Hnil in Hlast. discriminate. }
      split; [exact Hf2|]. split; [exact Hc2|]. split; [exact Hw2|].
      split; [|split; [|split]].
      * rewrite Hsub2, Hsub, <- app_assoc. reflexivity.
      * cbn [map snd]. rewrite Hidx.
        rewrite (seqZ_cons start (Z.of_nat (S (S k)))) by lia.
        f_equal. f_equal; lia.
      * cbn [map fst]. destruct (map fst subs) as [|x l]; [congruence|]. exact Hlast.
      * rewrite Hret2, Hret, Hslot, <- !app_assoc. cbn [map fst].
        destruct (map fst subs) as [|x l]; [congruence|]. reflexivity.
Qed.

(** X15. [GPUTensorize] gets the adapter first: when that fails it throws
    the failure and nothing else has happened. Otherwise, for a batch of at
    least one frame and entered with an empty slot, it returns; the frames
    are submitted in the order of the batch, each on the converter fetched
    for it; the converters of all frames but the last are back in their
    store when it returns, in that order; and the slot of the binding
    context holds the only reference to the wrapper of the converter the
    last frame was submitted on. *)
Lemma GPUTensorize_returns_all_but_last (engine : Engine) (videoFrames : list VideoFrame)
    (bounds : list BitmapBounds) (tensorDescriptor : ImageTensorDescription)
    (spSession : LearningModelSession) (s : State) :
  fresh_wrappers (st_world s) -> converter (st_context s) = None ->
  videoFrames <> [] -> (length videoFrames <= length bounds)%nat ->
  (OrtGetWinMLAdapter engine <> S_OK ->
   GPUTensorize engine videoFrames bounds tensorDescriptor spSession s
   = (Throw (OrtGetWinMLAdapter engine), s)) /\
  (OrtGetWinMLAdapter engine = S_OK ->
   exists s' p c subs,
     GPUTensorize engine videoFrames bounds tensorDescriptor spSession s = (Ret tt, s') /\
     gpu_submissions (trace (st_world s')) =
       gpu_submissions (trace (st_world s)) ++ subs /\
     map snd subs = seqZ 0 (Z.of_nat (length videoFrames)) /\
     returned (trace (st_world s')) =
       returned (trace (st_world s)) ++ removelast (map fst subs) /\
     converter (st_context s') = Some p /\
     wrappers (st_world s') !! p = Some (1%nat, c) /\
     last (map fst subs) = Some c).
Proof.
  intros Hfresh Hnone Hne Hlen. unfold GPUTensorize. split.
  - intros Hhr. unfold mbind at 1, M_bind at 1, lift, WINML_THROW_IF_FAILED.
    destruct (OrtGetWinMLAdapter engine); congruence.
  - intros Hok. unfold mbind at 1, M_bind at 1, lift. rewrite Hok.
    cbn [WINML_THROW_IF_FAILED].
    destruct videoFrames as [|v rest]; [congruence|]. cbn [length] in *.
    assert (Hsole : sole_owner s) by (unfold sole_owner; rewrite Hnone; exact I).
    assert (Hslot : slot_converters s = []).
    { unfold slot_converters. rewrite Hnone. reflexivity. }
    set (d := {| pixel_format := DirectXPixelFormat.B8G8R8X8UIntNormalized;
                 width := to_int32 (size_at tensorDescriptor 3);
                 height := to_int32 (size_at tensorDescriptor 2);
                 luid := AdapterLuid spSession |}).
    destruct (GPUTensorize_loop d bounds (length rest) 0 s Hfresh Hsole ltac:(lia)
                ltac:(simpl; lia))
      as (s' & p & c & subs & Hrun & _ & Hc & Hw & Hsub & Hidx & Hlast & Hret).
    exists s', p, c, subs. split; [exact Hrun|]. split; [exact Hsub|].
    split; [exact Hidx|]. split; [|auto].
    rewrite Hret, Hslot. reflexivity.
Qed.

(** ** The two overrides of the property bag *)

Lemma HasKey_absent (p : gmap string IInspectable) (k : string) :
  p !! k = None -> HasKey p k = false.
Proof.
  intros H. unfold HasKey. rewrite H. apply bool_decide_eq_false.
  intros [x Hx]. discriminate.
Qed.

(** X1. The bounds override is read back as it was stored: the lookup
    returns a rectangle exactly when the property set holds, under
    [BitmapBounds], an array of four unsigned integers, and the rectangle
    is [(x, y, width, height)] in the order of the array. *)
Theorem bounds_override_is_read_back (properties : IPropertySet) (b : BitmapBounds) :
  GetBoundsFromMetadata properties = Ret (Some b) <->
  exists p, properties = Some p /\
    p !! "BitmapBounds" =
      Some (Insp_value (PV_UInt32Array [X b; Y b; Width b; Height b])).
Proof.
  split.
  - unfold GetBoundsFromMetadata. destruct properties as [p|]; [|discriminate].
    destruct (p !! "BitmapBounds") as [i|] eqn:Hp.
    + destruct (HasKey_lookup _ _ _ Hp) as [-> ->].
      destruct i as [|[v|v|]|]; simpl; try discriminate.
      destruct v as [|b0 [|b1 [|b2 [|b3 [|b4 v]]]]]; try discriminate.
      intros E. injection E as <-. exists p. auto.
    + rewrite (HasKey_absent _ _ Hp). discriminate.
  - intros (p & -> & Hp). unfold GetBoundsFromMetadata.
    destruct (HasKey_lookup _ _ _ Hp) as [-> ->]. destruct b; reflexivity.
Qed.

(** X2. A property value under [BitmapBounds] that is not an array of
    exactly four unsigned integers is rejected with the invalid-binding
    failure; a missing key, a null entry and a null property set are no
    override at all. *)
Theorem malformed_bounds_override_is_rejected (properties : IPropertySet) :
  (GetBoundsFromMetadata properties = Throw WINML_ERR_INVALID_BINDING <->
   exists pv, property properties "BitmapBounds" = Some (Insp_value pv) /\
     forall x y w h, pv <> PV_UInt32Array [x; y; w; h]) /\
  (GetBoundsFromMetadata properties = Ret None <->
   property properties "BitmapBounds" = None \/
   property properties "BitmapBounds" = Some Insp_null).
Proof.
  unfold GetBoundsFromMetadata, property.
  destruct properties as [p|]; simpl.
  2:{ split; split; try discriminate; auto.
      intros (pv & H & _). discriminate. }
  destruct (p !! "BitmapBounds") as [i|] eqn:Hp.
  - destruct (HasKey_lookup _ _ _ Hp) as [-> ->].
    destruct i as [|[v|v|]|]; simpl.
    + split; split; try discriminate; auto.
      intros (pv & H & _). discriminate.
    + split; split; try discriminate.
      * intros _. exists (PV_Int32 v). split; [reflexivity | discriminate].
      * reflexivity.
      * intros [H | H]; discriminate.
    + destruct v as [|b0 [|b1 [|b2 [|b3 [|b4 v]]]]]; simpl;
        (split; split;
         [ first [discriminate | intros _; eexists; split; [reflexivity | discriminate]]
         | try reflexivity
         | try discriminate
         | try (intros [H | H]; discriminate) ]).
      intros (pv & H & Hn). injection H as <-. exfalso. eapply Hn. reflexivity.
    + split; split; try discriminate.
      * intros _. exists PV_Other. split; [reflexivity | discriminate].
      * reflexivity.
      * intros [H | H]; discriminate.
    + split; split; try discriminate.
      * intros (pv & H & _). discriminate.
      * intros [H | H]; discriminate.
  - rewrite (HasKey_absent _ _ Hp). split; split; try discriminate; auto.
    intros (pv & H & _). discriminate.
Qed.

(** X3. A pixel-format override is accepted exactly when the property set
    holds, under [BitmapPixelFormat], a boxed 32-bit integer that is one of
    [Rgba8], [Bgra8] and [Gray8]; any other boxed integer is rejected with
    the invalid-binding failure. *)
Theorem pixel_format_override_is_validated (properties : IPropertySet)
    (f : BitmapPixelFormat.t) :
  (GetBitmapPixelFormatFromMetadata properties = Ret (Some f) <->
   property properties "BitmapPixelFormat" = Some (Insp_value (PV_Int32 f)) /\
   (f = BitmapPixelFormat.Rgba8 \/ f = BitmapPixelFormat.Bgra8 \/
    f = BitmapPixelFormat.Gray8)) /\
  (GetBitmapPixelFormatFromMetadata properties = Throw WINML_ERR_INVALID_BINDING <->
   exists v, property properties "BitmapPixelFormat" = Some (Insp_value (PV_Int32 v)) /\
     v <> BitmapPixelFormat.Rgba8 /\ v <> BitmapPixelFormat.Bgra8 /\
     v <> BitmapPixelFormat.Gray8).
Proof.
  assert (Hsup : forall v, supported_format v = true <->
            v = BitmapPixelFormat.Rgba8 \/ v = BitmapPixelFormat.Bgra8 \/
            v = BitmapPixelFormat.Gray8).
  { intros v. unfold supported_format. rewrite !orb_true_iff, !Z.eqb_eq. tauto. }
  unfold GetBitmapPixelFormatFromMetadata, property.
  destruct properties as [p|]; simpl.
  2:{ split; split; try discriminate.
      - intros [H _]. discriminate.
      - intros (v & H & _). discriminate. }
  destruct (p !! "BitmapPixelFormat") as [i|] eqn:Hp.
  - destruct (HasKey_lookup _ _ _ Hp) as [-> ->].
    destruct i as [|[v|v|]|]; simpl;
      try (split; split; try discriminate;
           [intros [H _]; discriminate | intros (v' & H & _); discriminate]).
    destruct (supported_format v) eqn:Hv; simpl.
    + apply Hsup in Hv. split; split.
      * intros E. injection E as <-. auto.
      * intros [E _]. injection E as <-. reflexivity.
      * discriminate.
      * intros (v' & E & H1 & H2 & H3). injection E as <-. tauto.
    + assert (Hn : ~ (v = BitmapPixelFormat.Rgba8 \/ v = BitmapPixelFormat.Bgra8 \/
                      v = BitmapPixelFormat.Gray8)).
      { rewrite <- Hsup, Hv. discriminate. }
      split; split.
      * discriminate.
      * intros [E Hf]. injection E as <-. contradiction.
      * intros _. exists v. split; [reflexivity | tauto].
      * reflexivity.
  - rewrite (HasKey_absent _ _ Hp). split; split; try discriminate.
    + intros [H _]. discriminate.
    + intros (v & H & _). discriminate.
Qed.

Lemma GetBoundsFromMetadata_property (p q : IPropertySet) :
  property p "BitmapBounds" = property q "BitmapBounds" ->
  GetBoundsFromMetadata p = GetBoundsFromMetadata q.
Proof.
  assert (H : forall r, GetBoundsFromMetadata r =
            match property r "BitmapBounds" with
            | Some Insp_null | None => Ret None
            | Some i =>
                boundsPropertyValue ← as_IPropertyValue i;
                _ ← WINML_THROW_HR_IF_FALSE_MSG WINML_ERR_INVALID_BINDING
                      (is_UInt32Array boundsPropertyValue);
                bounds ← GetUInt32Array boundsPropertyValue;
                match bounds with
                | [b0; b1; b2; b3] =>
                    Ret (Some {| X := b0; Y := b1; Width := b2; Height := b3 |})
                | _ => Throw WINML_ERR_INVALID_BINDING
                end
            end).
  { intros [r|]; [|reflexivity]. unfold GetBoundsFromMetadata, property. simpl.
    destruct (r !! "BitmapBounds") as [i|] eqn:Hr.
    - destruct (HasKey_lookup _ _ _ Hr) as [-> ->]. destruct i; reflexivity.
    - rewrite (HasKey_absent _ _ Hr). reflexivity. }
  intros E. rewrite !H, E. reflexivity.
Qed.

Lemma GetBitmapPixelFormatFromMetadata_property (p q : IPropertySet) :
  property p "BitmapPixelFormat" = property q "BitmapPixelFormat" ->
  GetBitmapPixelFormatFromMetadata p = GetBitmapPixelFormatFromMetadata q.
Proof.
  assert (H : forall r, GetBitmapPixelFormatFromMetadata r =
            match property r "BitmapPixelFormat" with
            | Some Insp_null | None => Ret None
            | Some i =>
                pixelFormatValue ← as_IPropertyValue i;
                pixelFormat ← GetInt32 pixelFormatValue;
                _ ← WINML_THROW_HR_IF_FALSE_MSG WINML_ERR_INVALID_BINDING
                      (supported_format pixelFormat);
                Ret (Some pixelFormat)
            end).
  { intros [r|]; [|reflexivity]. unfold GetBitmapPixelFormatFromMetadata, property. simpl.
    destruct (r !! "BitmapPixelFormat") as [i|] eqn:Hr.
    - destruct (HasKey_lookup _ _ _ Hr) as [-> ->]. destruct i; reflexivity.
    - rewrite (HasKey_absent _ _ Hr). reflexivity. }
  intros E. rewrite !H, E. reflexivity.
Qed.

(** X4. The resolution reads two entries of the property bag and nothing
    else: two binding contexts with the same binding type and descriptor
    whose property sets agree under [BitmapBounds] and under
    [BitmapPixelFormat] resolve to the same result; a null property set
    counts as an empty one. *)
Theorem only_two_properties_are_read (this : ImageFeatureValue)
    (context1 context2 : BindingContext) :
  type context1 = type context2 ->
  descriptor context1 = descriptor context2 ->
  property (properties context1) "BitmapBounds" =
    property (properties context2) "BitmapBounds" ->
  property (properties context1) "BitmapPixelFormat" =
    property (properties context2) "BitmapPixelFormat" ->
  GetInputMetadata this context1 = GetInputMetadata this context2.
Proof.
  intros Ht Hd Hb Hf. unfold GetInputMetadata. rewrite Hd.
  destruct (resolve_extents this (descriptor context2)) as [[[[dw dh] k]|]| | | |];
    try reflexivity.
  cbn [mbind Outcome_bind].
  rewrite (mapM_ext (frame_bounds this context1 dw dh) (frame_bounds this context2 dw dh)).
  2:{ intros i. unfold frame_bounds.
      rewrite (GetBoundsFromMetadata_property _ _ Hb), Ht. reflexivity. }
  assert (Hr : resolve_pixel_format context1 = resolve_pixel_format context2).
  { unfold resolve_pixel_format.
    rewrite (GetBitmapPixelFormatFromMetadata_property _ _ Hf), Hd. reflexivity. }
  rewrite Hr. reflexivity.
Qed.

Lemma only_two_properties_are_read_witness :
  let this := Initialize [BitmapFrame 640 480] in
  let d := ImageFeatureDescriptor 224 224 BitmapPixelFormat.Bgra8 TK_Float in
  GetInputMetadata this
    (make_context kInput cpu_session d
       (Some {["Brightness" := Insp_value (PV_Int32 7)]}))
  = GetInputMetadata this (make_context kInput cpu_session d None).
Proof.
  intros this d.
  apply (only_two_properties_are_read this
           (make_context kInput cpu_session d
              (Some {["Brightness" := Insp_value (PV_Int32 7)]}))
           (make_context kInput cpu_session d None)); reflexivity.
Defined.

(** ** The rectangles and the description of a successful resolution *)

(** X5. For an output binding without an override of the bounds, the
    resolution gives every frame the rectangle that covers it: origin
    [(0, 0)], the frame's own width and height. *)
Theorem output_bounds_are_whole_frames (this : ImageFeatureValue)
    (context : BindingContext) (md : ImageResourceMetadata) :
  type context = kOutput ->
  GetBoundsFromMetadata (properties context) = Ret None ->
  GetInputMetadata this context = Ret (Some md) ->
  length (Bounds md) = Z.to_nat (m_batchSize this) /\
  forall (i : nat) (b : BitmapBounds),
    Bounds md !! i = Some b ->
    exists W H,
      m_widths this !! i = Some W /\ m_heights this !! i = Some H /\
      b = {| X := 0; Y := 0; Width := W; Height := H |}.
Proof.
  intros Hty Hno Hmd.
  apply GetInputMetadata_Ret in Hmd as (dw & dh & kind & f & _ & Hbounds & _ & _).
  split.
  { apply mapM_Ret_length in Hbounds. rewrite length_seqZ in Hbounds. exact Hbounds. }
  intros i b Hi.
  destruct (mapM_Ret_lookup _ _ _ _ _ Hbounds Hi) as (a & Ha & Hfb).
  apply lookup_seqZ in Ha as [-> _]. rewrite Z.add_0_l in Hfb.
  unfold frame_bounds in Hfb. rewrite Hno, Hty in Hfb. cbn [mbind Outcome_bind] in Hfb.
  apply bind_Ret in Hfb as (W & HW & Hfb). apply bind_Ret in Hfb as (H & HH & Hfb).
  injection Hfb as <-.
  apply vector_at_Ret in HW as [_ HW]. apply vector_at_Ret in HH as [_ HH].
  rewrite Nat2Z.id in HW, HH. eauto.
Qed.

Lemma output_bounds_are_whole_frames_witness :
  let this := Initialize [BitmapFrame 640 480; SurfaceFrame 1920 1080] in
  let context :=
    make_context kOutput cpu_session
      (ImageFeatureDescriptor 224 224 BitmapPixelFormat.Bgra8 TK_Float) None in
  exists md,
    GetInputMetadata this context = Ret (Some md) /\
    length (Bounds md) = 2%nat /\
    forall (i : nat) (b : BitmapBounds),
      Bounds md !! i = Some b ->
      exists W H,
        m_widths this !! i = Some W /\ m_heights this !! i = Some H /\
        b = {| X := 0; Y := 0; Width := W; Height := H |}.
Proof.
  intros this context.
  destruct (GetInputMetadata this context) as [[md|]| | | |] eqn:E;
    try (vm_compute in E; discriminate E).
  exists md. split; [reflexivity|].
  exact (output_bounds_are_whole_frames this context md eq_refl eq_refl E).
Defined.

Lemma mapM_const {A B} (b : B) (l : list A) :
  mapM (fun _ : A => Ret b) l = Ret (replicate (length l) b).
Proof.
  induction l as [|a l IH]; [reflexivity|].
  cbn [mapM]. rewrite IH. reflexivity.
Qed.

(** X6. An override of the bounds is the rectangle of every frame of the
    batch, for inputs and outputs alike and whatever the extents of the
    frames are. *)
Theorem bounds_override_applies_to_every_frame (this : ImageFeatureValue)
    (context : BindingContext) (b : BitmapBounds) (md : ImageResourceMetadata) :
  GetBoundsFromMetadata (properties context) = Ret (Some b) ->
  GetInputMetadata this context = Ret (Some md) ->
  Bounds md = replicate (Z.to_nat (m_batchSize this)) b.
Proof.
  intros Hb Hmd.
  apply GetInputMetadata_Ret in Hmd as (dw & dh & kind & f & _ & Hbounds & _ & _).
  rewrite (mapM_ext _ (fun _ => Ret b)) in Hbounds.
  - rewrite mapM_const, length_seqZ in Hbounds. injection Hbounds as <-. reflexivity.
  - intros i. unfold frame_bounds. rewrite Hb. reflexivity.
Qed.

Lemma bounds_override_applies_to_every_frame_witness :
  let this := Initialize [BitmapFrame 640 480; BitmapFrame 100 100; BitmapFrame 32 32] in
  let b := {| X := 10; Y := 20; Width := 50; Height := 60 |} in
  let context :=
    make_context kInput cpu_session
      (ImageFeatureDescriptor 224 224 BitmapPixelFormat.Bgra8 TK_Float)
      (Some {["BitmapBounds" := Insp_value (PV_UInt32Array [10; 20; 50; 60])]}) in
  exists md,
    GetInputMetadata this context = Ret (Some md) /\ Bounds md = [b; b; b].
Proof.
  intros this b context.
  destruct (GetInputMetadata this context) as [[md|]| | | |] eqn:E;
    try (vm_compute in E; discriminate E).
  exists md. split; [reflexivity|].
  exact (bounds_override_applies_to_every_frame this context b md eq_refl E).
Defined.



(** X8. An extent that the descriptor fixes is the extent of the tensor
    description, whatever the extents of the frames are: the declared width
    and height of an image descriptor, and axes 3 and 2 of a tensor
    descriptor reduced to 32 bits. *)
Theorem fixed_extents_come_from_the_descriptor (this : ImageFeatureValue)
    (context : BindingContext) (md : ImageResourceMetadata) :
  GetInputMetadata this context = Ret (Some md) ->
  match descriptor context with
  | ImageFeatureDescriptor W H _ _ =>
      (W <> MAXUINT32 -> size_at (TensorDescriptor md) 3 = W) /\
      (H <> MAXUINT32 -> size_at (TensorDescriptor md) 2 = H)
  | TensorFeatureDescriptor shape _ =>
      length shape = 4%nat /\
      (nth 3 shape 0 <> -1 -> size_at (TensorDescriptor md) 3 = wrap32 (nth 3 shape 0)) /\
      (nth 2 shape 0 <> -1 -> size_at (TensorDescriptor md) 2 = wrap32 (nth 2 shape 0))
  | OtherFeatureDescriptor => False
  end.
Proof.
  intros Hmd.
  apply GetInputMetadata_Ret in Hmd as (dw & dh & kind & f & He & _ & _ & Hd).
  apply CreateImageTensorDescriptor_Ret in Hd as (_ & _ & _ & c & _ & Hsz).
  unfold size_at. rewrite Hsz. cbn [nth].
  destruct (descriptor context) as [W H f' k|shape k|]; [| |discriminate]; simpl in He.
  - destruct (_ && _); [discriminate|]. destruct (_ && _); [discriminate|].
    apply bind_Ret in He as (x & Hx & He). apply bind_Ret in He as (y & Hy & He).
    injection He as <- <- <-. split; intros Hne.
    + destruct (Z.eqb_spec W MAXUINT32); [contradiction|]. congruence.
    + destruct (Z.eqb_spec H MAXUINT32); [contradiction|]. congruence.
  - destruct shape as [|s0 [|s1 [|s2 [|s3 [|x rest]]]]]; try discriminate.
    destruct (negb _); [discriminate|].
    destruct (_ && _); [discriminate|]. destruct (_ && _); [discriminate|].
    apply bind_Ret in He as (x & Hx & He). apply bind_Ret in He as (y & Hy & He).
    injection He as <- <- <-. cbn [nth]. split; [reflexivity|]. split; intros Hne.
    + destruct (Z.eqb_spec (-1) s3); [congruence|]. congruence.
    + destruct (Z.eqb_spec (-1) s2); [congruence|]. congruence.
Qed.

Lemma fixed_extents_come_from_the_descriptor_witness :
  let this := Initialize [BitmapFrame 640 480] in
  let context :=
    make_context kInput cpu_session
      (TensorFeatureDescriptor [1; 3; 4294967520; 224] TK_Float) None in
  exists md,
    GetInputMetadata this context = Ret (Some md) /\
    size_at (TensorDescriptor md) 3 = 224 /\ size_at (TensorDescriptor md) 2 = 224.
Proof.
  intros this context.
  destruct (GetInputMetadata this context) as [[md|]| | | |] eqn:E;
    try (vm_compute in E; discriminate E).
  exists md. split; [reflexivity|].
  destruct (fixed_extents_come_from_the_descriptor this context md E) as (_ & Hw & Hh).
  split; [apply Hw | apply Hh]; discriminate.
Defined.

(** ** The crop rectangle: its check, its fixed points and degenerate targets *)

(** X9. The check at the end of the center-crop computation cannot fail:
    for a frame whose extents are 32-bit values the computation raises no
    failure at all, whatever the target is. *)
Theorem center_crop_check_never_fails (this : ImageFeatureValue) (idx tw th W H : Z) :
  vector_at (m_widths this) idx = Ret W ->
  vector_at (m_heights this) idx = Ret H ->
  0 <= W < 4294967296 -> 0 <= H < 4294967296 ->
  forall hr, CenterAndCropBounds this idx tw th <> Throw hr.
Proof.
  intros HvW HvH HW HH hr. unfold CenterAndCropBounds. rewrite HvH, HvW.
  cbn [mbind Outcome_bind].
  destruct (F32.ltb _ _).
  - destruct (F32.to_UINT _) as [z| | | |] eqn:Hz; try discriminate.
    + apply to_UINT_range in Hz. unfold MAXUINT32 in Hz.
      cbn [mbind Outcome_bind X Y Width Height].
      assert (Hmin : 0 <= Z.min z W <= W) by lia.
      rewrite wrap32_small by lia.
      destruct (centred_within W (Z.min z W) Hmin).
      unfold WINML_THROW_HR_IF_FALSE_MSG.
      replace ((0 <=? (W - Z.min z W) / 2) && ((W - Z.min z W) / 2 <=? W) &&
               ((0 <=? 0) && (0 <=? H))) with true; [discriminate|].
      symmetry. rewrite !andb_true_iff, !Z.leb_le. lia.
    + pose proof (to_UINT_throws (F32.add (F32.mul (F32.div (F32.of_Z tw) (F32.of_Z th))
                                             (F32.of_Z H)) F32.half)) as Ht.
      rewrite Hz in Ht. exfalso. revert Hz. unfold F32.to_UINT.
      destruct (F32.trunc _); [destruct (_ && _)|]; discriminate.
  - destruct (F32.to_UINT _) as [z| | | |] eqn:Hz; try discriminate.
    + apply to_UINT_range in Hz. unfold MAXUINT32 in Hz.
      cbn [mbind Outcome_bind X Y Width Height].
      assert (Hmin : 0 <= Z.min z H <= H) by lia.
      rewrite wrap32_small by lia.
      destruct (centred_within H (Z.min z H) Hmin).
      unfold WINML_THROW_HR_IF_FALSE_MSG.
      replace ((0 <=? 0) && (0 <=? W) &&
               ((0 <=? (H - Z.min z H) / 2) && ((H - Z.min z H) / 2 <=? H))) with true;
        [discriminate|].
      symmetry. rewrite !andb_true_iff, !Z.leb_le. lia.
    + exfalso. revert Hz. unfold F32.to_UINT.
      destruct (F32.trunc _); [destruct (_ && _)|]; discriminate.
Qed.

Lemma center_crop_check_never_fails_witness :
  CenterAndCropBounds (Initialize [BitmapFrame 4294967295 1]) 0 1 4294967295
  <> Throw WINML_ERR_INVALID_BINDING.
Proof.
  apply (center_crop_check_never_fails (Initialize [BitmapFrame 4294967295 1]) 0
           1 4294967295 4294967295 1); [reflexivity | reflexivity | lia | lia].
Defined.

(** For extents below [2^20] with [tw * H = W * th], the computation
    returns the rectangle that covers the frame. *)
Lemma CenterAndCropBounds_same_aspect (this : ImageFeatureValue) (idx W H tw th : Z) :
  small W -> small H -> small tw -> small th ->
  vector_at (m_widths this) idx = Ret W ->
  vector_at (m_heights this) idx = Ret H ->
  tw * H = W * th ->
  CenterAndCropBounds this idx tw th = Ret (whole_frame W H).
Proof.
  intros HW HH Htw Hth HvW HvH Heq.
  destruct (ratio_rounded tw th Htw Hth) as (_ & Hrr & _ & _).
  destruct (scaled_height_rounded H tw th HH Htw Hth) as (_ & Hrp & _).
  destruct (rounded_bounds _ _ Hrr) as [Hrho Hvr].
  destruct (rounded_bounds _ _ Hrp) as [_ Hvp].
  pose proof (small_IZR _ HW) as HbW. pose proof (small_IZR _ HH) as HbH.
  assert (Htw0 : 0 < tw) by (unfold small in Htw; lia).
  assert (Hth0 : 0 < th) by (unfold small in Hth; lia).
  assert (HtwR : (0 < IZR tw)%R) by (apply IZR_lt; lia).
  assert (HthR : (0 < IZR th)%R) by (apply IZR_lt; lia).
  assert (Hscaled : (IZR tw / IZR th * IZR H = IZR W)%R).
  { pose proof (ratio_times tw th H Htw0 Hth0) as He.
    rewrite (Z.mul_comm H tw), Heq, mult_IZR in He. nra. }
  assert (Hquot : (IZR W / (IZR tw / IZR th) = IZR H)%R).
  { pose proof (quotient_times tw th W Htw0 Hth0) as He.
    rewrite <- Heq, mult_IZR in He. nra. }
  unfold whole_frame.
  destruct (CenterAndCropBounds_small W H tw th HW HH Htw Hth this idx HvW HvH)
    as [(q & z & Hlt & Hrq & Hz & Hz0 & Hres) | (d & q & z & Hge & Hrd & Hrq & Hz & Hz0 & Hres)].
  - destruct (rounded_bounds _ _ Hrq) as [_ Hvq].
    destruct (wide_estimate _ _ (IZR H) (IZR W) _ _ (IZR z) Hrho ltac:(lra) ltac:(lra)
                Hvr Hvp Hlt Hvq Hz) as (_ & _ & Hzx & _).
    rewrite Hscaled in Hzx.
    assert (HzW : W <= z) by (apply Z_le_of_real; lra).
    rewrite Hres. replace (Z.min z W) with W by lia.
    replace (W - W) with 0 by lia. reflexivity.
  - destruct (rounded_bounds _ _ Hrd) as [_ Hvd].
    destruct (rounded_bounds _ _ Hrq) as [_ Hvq].
    destruct (tall_estimate _ _ (IZR H) (IZR W) _ _ _ (IZR z) Hrho ltac:(lra) ltac:(lra)
                Hvr Hvp Hge Hvd Hvq Hz) as (Hzy & _ & _ & _).
    rewrite Hquot in Hzy.
    assert (HzH : H <= z) by (apply Z_le_of_real; lra).
    rewrite Hres. replace (Z.min z H) with H by lia.
    replace (H - H) with 0 by lia. reflexivity.
Qed.

(** X10. A frame that has the aspect ratio of the tensor description is
    not cropped: for an input binding without an override of the bounds,
    and extents below [2^20], the rectangle of a frame of width [W] and
    height [H] with [width * H = W * height], where [width] and [height] are
    the extents of the description, is the rectangle that covers the
    frame. *)
Theorem frames_of_the_target_aspect_are_not_cropped (this : ImageFeatureValue)
    (context : BindingContext) (md : ImageResourceMetadata) (i : nat) (W H : Z) :
  type context = kInput ->
  GetBoundsFromMetadata (properties context) = Ret None ->
  GetInputMetadata this context = Ret (Some md) ->
  Z.of_nat i < m_batchSize this ->
  m_widths this !! i = Some W -> m_heights this !! i = Some H ->
  small W -> small H ->
  small (size_at (TensorDescriptor md) 3) -> small (size_at (TensorDescriptor md) 2) ->
  size_at (TensorDescriptor md) 3 * H = W * size_at (TensorDescriptor md) 2 ->
  Bounds md !! i = Some (whole_frame W H).
Proof.
  intros Hty Hno Hmd Hi HvW HvH HW HH Hdw Hdh Heq.
  apply GetInputMetadata_Ret in Hmd as (dw & dh & kind & f & _ & Hbounds & _ & Hd).
  apply CreateImageTensorDescriptor_Ret in Hd as (_ & _ & _ & c & _ & Hsz).
  unfold size_at in Hdw, Hdh, Heq. rewrite Hsz in Hdw, Hdh, Heq. cbn [nth] in Hdw, Hdh, Heq.
  pose proof (mapM_Ret_length _ _ _ Hbounds) as Hlen. rewrite length_seqZ in Hlen.
  destruct (lookup_lt_is_Some_2 (Bounds md) i ltac:(lia)) as [b Hb].
  destruct (mapM_Ret_lookup _ _ _ _ _ Hbounds Hb) as (a & Ha & Hfb).
  apply lookup_seqZ in Ha as [-> _]. rewrite Z.add_0_l in Hfb.
  unfold frame_bounds in Hfb. rewrite Hno, Hty in Hfb. cbn [mbind Outcome_bind] in Hfb.
  assert (HvW' : vector_at (m_widths this) (Z.of_nat i) = Ret W).
  { unfold vector_at. destruct (Z.ltb_spec (Z.of_nat i) 0); [lia|].
    rewrite Nat2Z.id, HvW. reflexivity. }
  assert (HvH' : vector_at (m_heights this) (Z.of_nat i) = Ret H).
  { unfold vector_at. destruct (Z.ltb_spec (Z.of_nat i) 0); [lia|].
    rewrite Nat2Z.id, HvH. reflexivity. }
  rewrite (CenterAndCropBounds_same_aspect this (Z.of_nat i) W H dw dh
             HW HH Hdw Hdh HvW' HvH' Heq) in Hfb.
  injection Hfb as <-. exact Hb.
Qed.

Lemma frames_of_the_target_aspect_are_not_cropped_witness :
  let this := Initialize [BitmapFrame 640 480; BitmapFrame 1920 1080] in
  let context :=
    make_context kInput cpu_session
      (ImageFeatureDescriptor 640 360 BitmapPixelFormat.Bgra8 TK_Float) None in
  exists md,
    GetInputMetadata this context = Ret (Some md) /\
    Bounds md !! 1%nat = Some (whole_frame 1920 1080).
Proof.
  intros this context.
  destruct (GetInputMetadata this context) as [[md|]| | | |] eqn:E;
    try (vm_compute in E; discriminate E).
  exists md. split; [reflexivity|].
  assert (Hs : sizes (TensorDescriptor md) = [2; 3; 360; 640]).
  { vm_compute in E. injection E as <-. reflexivity. }
  apply (frames_of_the_target_aspect_are_not_cropped this context md 1 1920 1080);
    unfold size_at; rewrite ?Hs; cbn [nth];
    first [exact E | reflexivity | unfold small; lia].
Defined.

Lemma small_of_Z_finite (n : Z) :
  small n -> exists m e, F32.of_Z n = S754_finite false m e.
Proof.
  intros Hn. destruct (small_of_Z n Hn) as [(m & e & Hf & _) _]. eauto.
Qed.

(** X11. Degenerate targets of the center crop, for a frame with extents
    below [2^20]: a target of width 0 gives an empty rectangle of the
    frame's height, a target of height 0 an empty rectangle of the frame's
    width, neither is a failure; a target of 0 by 0 makes the aspect ratio
    a NaN, whose conversion to an unsigned integer is undefined. *)
Theorem degenerate_targets_of_the_crop (this : ImageFeatureValue) (idx W H t : Z) :
  small W -> small H -> small t ->
  vector_at (m_widths this) idx = Ret W ->
  vector_at (m_heights this) idx = Ret H ->
  CenterAndCropBounds this idx 0 t
    = Ret {| X := W / 2; Y := 0; Width := 0; Height := H |} /\
  CenterAndCropBounds this idx t 0
    = Ret {| X := 0; Y := H / 2; Width := W; Height := 0 |} /\
  CenterAndCropBounds this idx 0 0 = Undefined.
Proof.
  intros HW HH Ht HvW HvH.
  destruct (small_of_Z_finite W HW) as (mw & ew & HfW).
  destruct (small_of_Z_finite H HH) as (mh & eh & HfH).
  destruct (small_of_Z_finite t Ht) as (mt & et & Hft).
  assert (HW2 : 0 <= W / 2 <= W).
  { unfold small in HW. split; [apply Z.div_pos; lia|].
    apply Z.div_le_upper_bound; lia. }
  assert (HH2 : 0 <= H / 2 <= H).
  { unfold small in HH. split; [apply Z.div_pos; lia|].
    apply Z.div_le_upper_bound; lia. }
  assert (Hmin0 : forall n, small n -> Z.min 0 n = 0) by (unfold small; lia).
  assert (Hw32 : forall n, small n -> wrap32 (n - 0) = n).
  { intros n Hn. rewrite Z.sub_0_r. apply wrap32_small. unfold small in Hn. lia. }
  unfold CenterAndCropBounds. rewrite HvH, HvW. cbn [mbind Outcome_bind].
  rewrite HfW, HfH, Hft.
  change (F32.of_Z 0) with (S754_zero false).
  split; [|split].
  - cbn [F32.div SFdiv F32.mul SFmul F32.ltb SFltb SFcompare xorb F32.add SFadd F32.half].
    replace (F32.to_UINT F32.half) with (@Ret Z 0) by reflexivity.
    cbn [mbind Outcome_bind X Y Width Height].
    rewrite (Hmin0 W HW), (Hw32 W HW).
    unfold WINML_THROW_HR_IF_FALSE_MSG.
    replace ((0 <=? W / 2) && (W / 2 <=? W) && ((0 <=? 0) && (0 <=? H))) with true;
      [reflexivity|].
    symmetry. rewrite !andb_true_iff, !Z.leb_le. unfold small in HH. lia.
  - cbn [F32.div SFdiv F32.mul SFmul F32.ltb SFltb SFcompare xorb F32.add SFadd F32.half].
    replace (F32.to_UINT F32.half) with (@Ret Z 0) by reflexivity.
    cbn [mbind Outcome_bind X Y Width Height].
    rewrite (Hmin0 H HH), (Hw32 H HH).
    unfold WINML_THROW_HR_IF_FALSE_MSG.
    replace ((0 <=? 0) && (0 <=? W) && ((0 <=? H / 2) && (H / 2 <=? H))) with true;
      [reflexivity|].
    symmetry. rewrite !andb_true_iff, !Z.leb_le. unfold small in HW. lia.
  - reflexivity.
Qed.

Lemma degenerate_targets_of_the_crop_witness :
  let this := Initialize [BitmapFrame 640 480] in
  CenterAndCropBounds this 0 0 224 = Ret {| X := 320; Y := 0; Width := 0; Height := 480 |} /\
  CenterAndCropBounds this 0 224 0 = Ret {| X := 0; Y := 240; Width := 640; Height := 0 |} /\
  CenterAndCropBounds this 0 0 0 = Undefined.
Proof.
  intros this.
  apply (degenerate_targets_of_the_crop this 0 640 480 224);
    try (unfold small; lia); reflexivity.
Defined.

(** ** Batches made by [Create] *)

Lemma foldl_append_replicate {A B} (x : A) (l : list B) (init : list A) :
  foldl (fun acc _ => acc ++ [x]) init l = init ++ replicate (length l) x.
Proof.
  revert init. induction l as [|b l IH]; intros init; simpl.
  - rewrite app_nil_r. reflexivity.
  - rewrite IH, <- app_assoc. reflexivity.
Qed.

Lemma Create_frames_replicate (batchSize : Z) (format : BitmapPixelFormat.t)
    (width height : Z) :
  Create_frames batchSize format width height =
    replicate (Z.to_nat batchSize) (BitmapFrame width height).
Proof.
  unfold Create_frames. rewrite foldl_append_replicate, length_seqZ. reflexivity.
Qed.

Lemma map_replicate {A B} (f : A -> B) (n : nat) (x : A) :
  map f (replicate n x) = replicate n (f x).
Proof. induction n as [|n IH]; simpl; [reflexivity | rewrite IH; reflexivity]. Qed.

Lemma agree_replicate (n : nat) (x : Z) : agree (replicate n x).
Proof.
  intros a b Ha Hb. apply elem_of_replicate in Ha as [-> _].
  apply elem_of_replicate in Hb as [-> _]. reflexivity.
Qed.

Lemma vector_at_replicate {A} (n : nat) (x : A) (i : Z) :
  0 <= i < Z.of_nat n -> vector_at (replicate n x) i = Ret x.
Proof.
  intros Hi. unfold vector_at. destruct (Z.ltb_spec i 0); [lia|].
  rewrite lookup_replicate_2 by lia. reflexivity.
Qed.

Lemma mapM_all_Ret {A B} (f : A -> Outcome B) (b : B) (l : list A) :
  (forall a, a ∈ l -> f a = Ret b) -> mapM f l = Ret (replicate (length l) b).
Proof.
  induction l as [|a l IH]; intros H; [reflexivity|].
  cbn [mapM]. rewrite (H a) by left. cbn [mbind Outcome_bind].
  rewrite IH by (intros a' Ha'; apply H; right; exact Ha'). reflexivity.
Qed.

(** X12. A batch made by [Create] resolves to its own extents: against an
    image descriptor that leaves both extents free, a batch of
    [batchSize >= 1] bitmaps of [width] by [height] pixels (below [2^20])
    yields, for an input and for an output binding alike, the tensor
    description [batchSize, channels, height, width] and, for every frame,
    the rectangle that covers it. *)
Theorem created_batch_resolves_to_its_own_extents (batchSize width height : Z)
    (format declared : BitmapPixelFormat.t) (kind : TensorKind)
    (dt : ImageTensorDataType) (t : BindingType) (spSession : LearningModelSession) :
  0 < batchSize -> small width -> small height ->
  supported_format declared = true ->
  GetTensorDataTypeFromTensorKind kind = Ret dt ->
  GetInputMetadata (Create batchSize format width height)
    (make_context t spSession
       (ImageFeatureDescriptor MAXUINT32 MAXUINT32 declared kind) None)
  = Ret (Some
      {| Bounds := replicate (Z.to_nat batchSize) (whole_frame width height);
         TensorDescriptor :=
           {| dataType := dt; channelType := channel_of declared;
              sizes := [batchSize;
                        if declared =? BitmapPixelFormat.Gray8 then 1 else 3;
                        height; width] |} |}).
Proof.
  intros Hn Hw Hh Hf Hk.
  set (n := Z.to_nat batchSize).
  assert (Hnpos : (0 < n)%nat) by (unfold n; lia).
  assert (Hww : wrap32 width = width) by (apply wrap32_small; unfold small in Hw; lia).
  assert (Hwh : wrap32 height = height) by (apply wrap32_small; unfold small in Hh; lia).
  unfold Create, Initialize. rewrite Create_frames_replicate. fold n.
  rewrite !map_replicate, length_replicate. cbn [frame_width frame_height].
  rewrite Hww, Hwh.
  replace (Z.of_nat n) with batchSize by (unfold n; lia).
  unfold GetInputMetadata, make_context.
  cbn [descriptor properties type resolve_extents m_widths m_heights m_batchSize].
  rewrite Z.eqb_refl.
  rewrite (proj2 (no_adjacent_difference_agree _) (agree_replicate n width)).
  rewrite (proj2 (no_adjacent_difference_agree _) (agree_replicate n height)).
  cbn [negb andb].
  rewrite !vector_at_replicate by lia. cbn [mbind Outcome_bind].
  rewrite (mapM_all_Ret _ (whole_frame width height)).
  - rewrite length_seqZ. fold n. cbn [mbind Outcome_bind].
    unfold resolve_pixel_format.
    cbn [GetBitmapPixelFormatFromMetadata properties descriptor mbind Outcome_bind
         optional_value].
    unfold CreateImageTensorDescriptor. rewrite Hk. cbn [mbind Outcome_bind].
    unfold supported_format in Hf. unfold channel_of.
    destruct (declared =? BitmapPixelFormat.Rgba8) eqn:E1.
    { apply Z.eqb_eq in E1. subst declared. reflexivity. }
    destruct (declared =? BitmapPixelFormat.Bgra8) eqn:E2.
    { apply Z.eqb_eq in E2. subst declared. reflexivity. }
    destruct (declared =? BitmapPixelFormat.Gray8) eqn:E3; [reflexivity | discriminate Hf].
  - intros i Hi. apply elem_of_seqZ in Hi.
    unfold frame_bounds. cbn [properties GetBoundsFromMetadata mbind Outcome_bind type].
    destruct t.
    + apply CenterAndCropBounds_same_aspect; try assumption;
        try (apply vector_at_replicate; lia). lia.
    + cbn [m_widths m_heights]. rewrite !vector_at_replicate by lia. reflexivity.
Qed.

Lemma created_batch_resolves_to_its_own_extents_witness :
  GetInputMetadata (Create 3 BitmapPixelFormat.Gray8 320 200)
    (make_context kInput cpu_session
       (ImageFeatureDescriptor MAXUINT32 MAXUINT32 BitmapPixelFormat.Gray8 TK_Float16)
       None)
  = Ret (Some
      {| Bounds := [whole_frame 320 200; whole_frame 320 200; whole_frame 320 200];
         TensorDescriptor :=
           {| dataType := kImageTensorDataTypeFloat16;
              channelType := kImageTensorChannelTypeGRAY8;
              sizes := [3; 1; 200; 320] |} |}).
Proof.
  apply (created_batch_resolves_to_its_own_extents 3 320 200 BitmapPixelFormat.Gray8
           BitmapPixelFormat.Gray8 TK_Float16 kImageTensorDataTypeFloat16 kInput cpu_session);
    try (unfold small; lia); reflexivity.
Defined.

(** ** What the entry points do to the feature value *)

Lemma keeps_this_bind {A B} (m : M A) (f : A -> M B) :
  keeps_this m -> (forall a, keeps_this (f a)) -> keeps_this (m ≫= f).
Proof.
  intros Hm Hf s. unfold mbind, M_bind. specialize (Hm s).
  destruct (m s) as [[a|hr| | |] s1]; simpl in *; try exact Hm.
  rewrite Hf. exact Hm.
Qed.

Lemma keeps_this_ret {A} (a : A) : keeps_this (mret a : M A).
Proof. intros s. reflexivity. Qed.

Lemma keeps_this_lift {A} (o : Outcome A) : keeps_this (lift o).
Proof. intros s. reflexivity. Qed.

Lemma keeps_this_with_world {A} (f : World -> A * World) : keeps_this (with_world f).
Proof. intros s. unfold with_world. destruct (f (st_world s)). reflexivity. Qed.

Lemma keeps_this_tell (e : Event) : keeps_this (tell e).
Proof. apply keeps_this_with_world. Qed.

Lemma keeps_this_set_context_converter (p : option nat) :
  keeps_this (set_context_converter p).
Proof. intros s. reflexivity. Qed.

Lemma keeps_this_scoped_wrapper {A} (p : nat) (body : M A) :
  keeps_this body -> keeps_this (scoped_wrapper p body).
Proof.
  intros Hb s. unfold scoped_wrapper. specialize (Hb s).
  destruct (body s) as [o s1]. exact Hb.
Qed.

Lemma keeps_this_for_range (count : nat) (body : Z -> M unit) :
  (forall i, keeps_this (body i)) -> forall start, keeps_this (for_range start count body).
Proof.
  intros Hb. induction count as [|k IH]; intros start; cbn [for_range].
  - apply keeps_this_ret.
  - apply keeps_this_bind; [apply Hb | intros _; apply IH].
Qed.

Lemma keeps_this_CPUTensorize_frame (videoFrame : Z) (bounds : BitmapBounds)
    (tensorDescriptor : ImageTensorDescription) (pResource : Z) :
  keeps_this (CPUTensorize_frame videoFrame bounds tensorDescriptor pResource).
Proof.
  unfold CPUTensorize_frame.
  apply keeps_this_bind; [apply keeps_this_with_world|]. intros c.
  apply keeps_this_bind; [apply keeps_this_with_world|]. intros p.
  apply keeps_this_scoped_wrapper, keeps_this_tell.
Qed.

Lemma keeps_this_CPUTensorize_loop (count : nat) (bounds : list BitmapBounds)
    (tensorDescriptor : ImageTensorDescription) (singleFrameBufferSize : Z) :
  forall batchIdx tempPResource,
    keeps_this (CPUTensorize_loop batchIdx count bounds tensorDescriptor tempPResource
                  singleFrameBufferSize).
Proof.
  induction count as [|k IH]; intros batchIdx p; cbn [CPUTensorize_loop].
  - apply keeps_this_ret.
  - apply keeps_this_bind; [apply keeps_this_lift|]. intros b.
    apply keeps_this_bind; [apply keeps_this_CPUTensorize_frame|]. intros _. apply IH.
Qed.

Lemma keeps_this_GPUTensorize (engine : Engine) (videoFrames : list VideoFrame)
    (bounds : list BitmapBounds) (tensorDescriptor : ImageTensorDescription)
    (spSession : LearningModelSession) :
  keeps_this (GPUTensorize engine videoFrames bounds tensorDescriptor spSession).
Proof.
  unfold GPUTensorize. apply keeps_this_bind; [apply keeps_this_lift|]. intros _.
  apply keeps_this_for_range. intros i.
  apply keeps_this_bind; [apply keeps_this_with_world|]. intros c.
  apply keeps_this_bind; [apply keeps_this_with_world|]. intros p.
  apply keeps_this_scoped_wrapper.
  apply keeps_this_bind; [apply keeps_this_lift|]. intros b.
  apply keeps_this_bind; [apply keeps_this_tell|]. intros _.
  apply keeps_this_set_context_converter.
Qed.

Lemma keeps_this_detensorize_cpu_loop (c : ConverterResources) (frames : list VideoFrame)
    (count : nat) (bufferByteSize : Z) :
  forall batchIdx p,
    keeps_this (detensorize_cpu_loop c frames batchIdx count p bufferByteSize).
Proof.
  induction count as [|k IH]; intros batchIdx p; cbn [detensorize_cpu_loop].
  - apply keeps_this_ret.
  - apply keeps_this_bind; [apply keeps_this_lift|]. intros _.
    apply keeps_this_bind; [apply keeps_this_tell|]. intros _. apply IH.
Qed.

Lemma keeps_this_detensorize_gpu_body (c : ConverterResources) (frames : list VideoFrame)
    (batchIdx : Z) :
  keeps_this (detensorize_gpu_body c frames batchIdx).
Proof.
  unfold detensorize_gpu_body.
  apply keeps_this_bind; [apply keeps_this_lift|]. intros _.
  apply keeps_this_bind; [apply keeps_this_tell|]. intros _.
  apply keeps_this_bind; [apply keeps_this_tell|]. intros _.
  apply keeps_this_tell.
Qed.

Lemma evolves_refl (t : ImageFeatureValue) : evolves t t.
Proof. unfold evolves. auto 10. Qed.

Lemma evolves_trans (t1 t2 t3 : ImageFeatureValue) :
  evolves t1 t2 -> evolves t2 t3 -> evolves t1 t3.
Proof.
  unfold evolves. intros (a1 & a2 & a3 & a4 & a5 & a6) (b1 & b2 & b3 & b4 & b5 & b6).
  repeat split; try congruence.
  - auto.
  - destruct b6 as [b6 | b6]; [left; exact b6|].
    destruct a6 as [a6 | a6]; [left; auto | right; congruence].
Qed.

(** The tensorization that ends [GetOrtValue]. *)
Lemma keeps_this_tensorize (engine : Engine) (this : ImageFeatureValue)
    (context : BindingContext) (resourceMetadata : ImageResourceMetadata) :
  keeps_this
    (match type context with
     | kInput =>
         bufferSize ← lift (accumulate_multiplies
                              (sizes (TensorDescriptor resourceMetadata)) 1);
         elementSize ← lift (GetSizeFromTensorDataType
                               (dataType (TensorDescriptor resourceMetadata)));
         bufferByteSize ← lift (mul_int64 elementSize bufferSize);
         singleFrameBufferSize ← lift (div_int64 bufferByteSize (m_batchSize this));
         if IsCpuDevice (session context) then
           CPUTensorize (m_videoFrames this) (Bounds resourceMetadata)
             (TensorDescriptor resourceMetadata) (wrap32 singleFrameBufferSize)
         else
           GPUTensorize engine (m_videoFrames this) (Bounds resourceMetadata)
             (TensorDescriptor resourceMetadata) (session context)
     | kOutput => mret tt
     end).
Proof.
  destruct (type context); [|apply keeps_this_ret].
  apply keeps_this_bind; [apply keeps_this_lift|]. intros bufferSize.
  apply keeps_this_bind; [apply keeps_this_lift|]. intros elementSize.
  apply keeps_this_bind; [apply keeps_this_lift|]. intros bufferByteSize.
  apply keeps_this_bind; [apply keeps_this_lift|]. intros single.
  destruct (IsCpuDevice _).
  - apply keeps_this_CPUTensorize_loop.
  - apply keeps_this_GPUTensorize.
Qed.

Lemma ensure_adapter_cases (engine : Engine) (s : State) :
  (ensure_adapter engine s = (Ret tt, s) /\ m_adapter (st_this s) = true) \/
  (exists s1, ensure_adapter engine s = (Ret tt, s1) /\
     m_adapter (st_this s) = false /\ OrtGetWinMLAdapter engine = S_OK /\
     st_context s1 = st_context s /\ st_world s1 = st_world s /\
     m_videoFrames (st_this s1) = m_videoFrames (st_this s) /\
     m_batchSize (st_this s1) = m_batchSize (st_this s) /\
     m_widths (st_this s1) = m_widths (st_this s) /\
     m_heights (st_this s1) = m_heights (st_this s) /\
     m_adapter (st_this s1) = true /\
     m_tensorAllocators (st_this s1) = m_tensorAllocators (st_this s)) \/
  (exists hr, ensure_adapter engine s = (Throw hr, s) /\
     m_adapter (st_this s) = false /\ OrtGetWinMLAdapter engine = hr /\ hr <> S_OK).
Proof.
  unfold ensure_adapter. destruct (m_adapter (st_this s)); [left; auto|].
  destruct (OrtGetWinMLAdapter engine) eqn:E;
    try (right; right; eexists; split; [reflexivity|];
         split; [reflexivity|]; split; [reflexivity | discriminate]).
  right; left. eexists. split; [reflexivity|]. simpl. auto 12.
Qed.

Lemma ensure_adapter_Ret (engine : Engine) (s s1 : State) :
  ensure_adapter engine s = (Ret tt, s1) ->
  st_context s1 = st_context s /\ st_world s1 = st_world s /\
  m_adapter (st_this s1) = true /\ evolves (st_this s) (st_this s1) /\
  m_tensorAllocators (st_this s1) = m_tensorAllocators (st_this s).
Proof.
  intros E.
  destruct (ensure_adapter_cases engine s)
    as [[E1 Ha] | [(s' & E1 & Ha & _ & Hc & Hw & H1 & H2 & H3 & H4 & H5 & H6) | (hr & E1 & _)]];
    rewrite E1 in E; try discriminate; injection E as <-.
  - pose proof (evolves_refl (st_this s)). auto 10.
  - unfold evolves. rewrite Ha. repeat split; auto; discriminate.
Qed.

Lemma ensure_adapter_not_Ret (engine : Engine) (s s1 : State) (o : Outcome unit) :
  ensure_adapter engine s = (o, s1) -> o <> Ret tt ->
  s1 = s /\ exists hr, o = Throw hr /\ hr <> S_OK /\ OrtGetWinMLAdapter engine = hr /\
    m_adapter (st_this s) = false.
Proof.
  intros E Hn.
  destruct (ensure_adapter_cases engine s)
    as [[E1 Ha] | [(s' & E1 & _) | (hr & E1 & Ha & Hhr & Hne)]];
    rewrite E1 in E; injection E as <- <-; try contradiction.
  split; [reflexivity|]. exists hr. auto.
Qed.

(** The course of [GetOrtValue]: it stops before it changed anything, or
    after it obtained the adapter, or it runs its last part from the state
    in which the adapter is there and the allocator is recorded. *)
Lemma GetOrtValue_run (engine : Engine) (s : State) :
  (exists o, GetOrtValue engine s = (o, s) /\ forall v, o <> Ret v) \/
  (exists o s1, GetOrtValue engine s = (o, s1) /\ (forall v, o <> Ret v) /\
     ensure_adapter engine s = (Ret tt, s1)) \/
  (exists md s1,
     GetInputMetadata (st_this s) (st_context s) = Ret (Some md) /\
     ensure_adapter engine s = (Ret tt, s1) /\
     fst (GetProviderAllocator engine) = S_OK /\
     GetOrtValue engine s =
       (_ ← lift (ThrowOnError (GetTensorMutableData engine));
        _ ← match type (st_context s) with
            | kInput =>
                bufferSize ← lift (accumulate_multiplies (sizes (TensorDescriptor md)) 1);
                elementSize ← lift (GetSizeFromTensorDataType
                                      (dataType (TensorDescriptor md)));
                bufferByteSize ← lift (mul_int64 elementSize bufferSize);
                singleFrameBufferSize ←
                  lift (div_int64 bufferByteSize (m_batchSize (st_this s)));
                if IsCpuDevice (session (st_context s)) then
                  CPUTensorize (m_videoFrames (st_this s)) (Bounds md)
                    (TensorDescriptor md) (wrap32 singleFrameBufferSize)
                else
                  GPUTensorize engine (m_videoFrames (st_this s)) (Bounds md)
                    (TensorDescriptor md) (session (st_context s))
            | kOutput => mret tt
            end;
        mret {| ov_shape := sizes (TensorDescriptor md);
                ov_float32 :=
                  match dataType (TensorDescriptor md) with
                  | kImageTensorDataTypeFloat32 => true
                  | _ => false
                  end;
                ov_allocator := snd (GetProviderAllocator engine) |})
       (snd (remember_allocator (snd (GetProviderAllocator engine)) s1))).
Proof.
  remember (GetOrtValue engine s) as r eqn:E.
  unfold GetOrtValue, get_this, get_context in E.
  unfold mbind at 1, M_bind at 1 in E. unfold mbind at 1, M_bind at 1 in E.
  unfold lift at 1 in E.
  destruct (all_nonzero (m_widths (st_this s))).
  2:{ left. exists FailFast. split; [exact E | discriminate]. }
  unfold mbind at 1, M_bind at 1 in E. unfold lift at 1 in E.
  destruct (all_nonzero (m_heights (st_this s))).
  2:{ left. exists FailFast. split; [exact E | discriminate]. }
  unfold mbind at 1, M_bind at 1 in E. unfold mbind at 1, M_bind at 1 in E.
  unfold lift at 1 in E.
  destruct (GetInputMetadata (st_this s) (st_context s)) as [[md|]|hr| | |] eqn:Hmd;
    try (left; eexists; split; [exact E | discriminate]).
  unfold mbind at 1, M_bind at 1 in E.
  destruct (ensure_adapter engine s) as [o s1] eqn:Hea.
  destruct o as [[]|hr| | |];
    try (apply ensure_adapter_not_Ret in Hea as [-> _]; [|discriminate];
         left; eexists; split; [exact E | discriminate]).
  unfold mbind at 1, M_bind at 1 in E. unfold lift at 1 in E.
  destruct (fst (GetProviderAllocator engine)) eqn:Hal; cbn [WINML_THROW_IF_FAILED] in E;
    try (right; left; eexists; exists s1; split; [exact E|];
         split; [discriminate | reflexivity]).
  unfold mbind at 1, M_bind at 1 in E. unfold lift at 1 in E.
  destruct (CreateTensor engine); cbn [ThrowOnError] in E.
  2:{ right; left. eexists; exists s1. split; [exact E|].
      split; [discriminate | reflexivity]. }
  right; right. exists md, s1. split; [reflexivity|]. split; [reflexivity|].
  split; [reflexivity|]. exact E.
Qed.

(** ** Where the process is terminated *)

Lemma survives_bind {A B} (m : Outcome A) (f : A -> Outcome B) :
  survives m -> (forall a, survives (f a)) -> survives (m ≫= f).
Proof. unfold survives. destruct m; simpl; auto; discriminate. Qed.

Lemma survives_mapM {A B} (f : A -> Outcome B) (l : list A) :
  (forall a, survives (f a)) -> survives (mapM f l).
Proof.
  intros Hf. induction l as [|a l IH]; simpl; [discriminate|].
  apply survives_bind; [apply Hf|]. intros b.
  apply survives_bind; [exact IH|]. intros; discriminate.
Qed.

Lemma survives_vector_at {A} (v : list A) (i : Z) : survives (vector_at v i).
Proof.
  unfold vector_at. destruct (i <? 0); [discriminate|]. destruct (v !! _); discriminate.
Qed.

Lemma survives_to_UINT (f : F32.float) : survives (F32.to_UINT f).
Proof.
  unfold F32.to_UINT. destruct (F32.trunc f); [destruct (_ && _)|]; discriminate.
Qed.

Lemma survives_check (hr : HRESULT) (cond : bool) :
  survives (WINML_THROW_HR_IF_FALSE_MSG hr cond).
Proof. destruct cond; discriminate. Qed.

Lemma survives_CenterAndCropBounds (this : ImageFeatureValue) (idx dw dh : Z) :
  survives (CenterAndCropBounds this idx dw dh).
Proof.
  unfold CenterAndCropBounds.
  apply survives_bind; [apply survives_vector_at|]. intros h.
  apply survives_bind; [apply survives_vector_at|]. intros w.
  apply survives_bind.
  - destruct (F32.ltb _ _);
      (apply survives_bind; [apply survives_to_UINT | intros; discriminate]).
  - intros b. apply survives_bind; [apply survives_check | intros; discriminate].
Qed.

Lemma survives_GetBoundsFromMetadata (properties : IPropertySet) :
  survives (GetBoundsFromMetadata properties).
Proof.
  unfold GetBoundsFromMetadata. destruct properties as [p|]; [|discriminate].
  destruct (HasKey p "BitmapBounds"); [|discriminate].
  destruct (Lookup p "BitmapBounds") as [|[v|v|]|]; simpl; try discriminate.
  destruct v as [|b0 [|b1 [|b2 [|b3 [|b4 v]]]]]; discriminate.
Qed.

Lemma survives_GetBitmapPixelFormatFromMetadata (properties : IPropertySet) :
  survives (GetBitmapPixelFormatFromMetadata properties).
Proof.
  unfold GetBitmapPixelFormatFromMetadata. destruct properties as [p|]; [|discriminate].
  destruct (HasKey p "BitmapPixelFormat"); [|discriminate].
  destruct (Lookup p "BitmapPixelFormat") as [|[v|v|]|]; simpl; try discriminate.
  destruct (supported_format v); discriminate.
Qed.

Lemma survives_frame_bounds (this : ImageFeatureValue) (context : BindingContext)
    (dw dh i : Z) :
  survives (frame_bounds this context dw dh i).
Proof.
  unfold frame_bounds.
  apply survives_bind; [apply survives_GetBoundsFromMetadata|].
  intros [b|]; [discriminate|]. destruct (type context).
  - apply survives_CenterAndCropBounds.
  - apply survives_bind; [apply survives_vector_at|]. intros w.
    apply survives_bind; [apply survives_vector_at|]. intros; discriminate.
Qed.

Lemma survives_resolve_extents (this : ImageFeatureValue) (d : FeatureDescriptor) :
  survives (resolve_extents this d).
Proof.
  destruct d as [W H declared kind|shape kind|]; simpl; try discriminate.
  - destruct (_ && _); [discriminate|]. destruct (_ && _); [discriminate|].
    apply survives_bind.
    { destruct (W =? _); [apply survives_vector_at | discriminate]. }
    intros dw. apply survives_bind; [|intros; discriminate].
    destruct (H =? _); [apply survives_vector_at | discriminate].
  - destruct shape as [|a [|b [|c [|d [|x rest]]]]]; try discriminate.
    destruct (negb _); [discriminate|].
    destruct (_ && _); [discriminate|]. destruct (_ && _); [discriminate|].
    apply survives_bind.
    { destruct (-1 =? d); [apply survives_vector_at | discriminate]. }
    intros dw. apply survives_bind; [|intros; discriminate].
    destruct (-1 =? c); [apply survives_vector_at | discriminate].
Qed.

Lemma survives_resolve_pixel_format (context : BindingContext) :
  survives (resolve_pixel_format context).
Proof.
  unfold resolve_pixel_format.
  apply survives_bind; [apply survives_GetBitmapPixelFormatFromMetadata|].
  intros [f|]; [discriminate|].
  destruct (descriptor context) as [W H declared kind|shape kind|]; try discriminate.
  destruct (_ =? 1); [discriminate|]. destruct (_ =? 3); discriminate.
Qed.

Lemma survives_CreateImageTensorDescriptor (kind : TensorKind) (f : BitmapPixelFormat.t)
    (batch w h : Z) :
  survives (CreateImageTensorDescriptor kind f batch w h).
Proof.
  unfold CreateImageTensorDescriptor.
  apply survives_bind; [destruct kind; discriminate|]. intros dt.
  destruct (f =? _); [discriminate|]. destruct (f =? _); [discriminate|].
  destruct (f =? _); discriminate.
Qed.

Lemma survives_GetInputMetadata (this : ImageFeatureValue) (context : BindingContext) :
  survives (GetInputMetadata this context).
Proof.
  unfold GetInputMetadata.
  apply survives_bind; [apply survives_resolve_extents|].
  intros [[[dw dh] kind]|]; [|discriminate].
  apply survives_bind; [apply survives_mapM; apply survives_frame_bounds|]. intros bounds.
  apply survives_bind; [apply survives_resolve_pixel_format|].
  intros [f|]; simpl; [|discriminate].
  apply survives_bind; [apply survives_CreateImageTensorDescriptor|]. intros; discriminate.
Qed.

Lemma survives_accumulate_multiplies (l : list Z) :
  forall init, survives (accumulate_multiplies l init).
Proof.
  induction l as [|x l IH]; intros init; simpl; [discriminate|].
  apply survives_bind; [|intros; apply IH].
  unfold mul_int64. destruct (_ && _); discriminate.
Qed.

Lemma never_fails_fast_bind {A B} (m : M A) (f : A -> M B) :
  never_fails_fast m -> (forall a, never_fails_fast (f a)) -> never_fails_fast (m ≫= f).
Proof.
  intros Hm Hf s. unfold mbind, M_bind. specialize (Hm s).
  destruct (m s) as [[a|hr| | |] s1]; simpl in *; try discriminate; try contradiction.
  apply Hf.
Qed.

Lemma never_fails_fast_ret {A} (a : A) : never_fails_fast (mret a : M A).
Proof. intros s. discriminate. Qed.

Lemma never_fails_fast_lift {A} (o : Outcome A) : survives o -> never_fails_fast (lift o).
Proof. intros H s. exact H. Qed.

Lemma never_fails_fast_with_world {A} (f : World -> A * World) :
  never_fails_fast (with_world f).
Proof. intros s. unfold with_world. destruct (f (st_world s)). discriminate. Qed.

Lemma never_fails_fast_scoped_wrapper {A} (p : nat) (body : M A) :
  never_fails_fast body -> never_fails_fast (scoped_wrapper p body).
Proof.
  intros Hb s. unfold scoped_wrapper. specialize (Hb s).
  destruct (body s) as [o s1]. exact Hb.
Qed.

Lemma never_fails_fast_for_range (count : nat) (body : Z -> M unit) :
  (forall i, never_fails_fast (body i)) ->
  forall start, never_fails_fast (for_range start count body).
Proof.
  intros Hb. induction count as [|k IH]; intros start; cbn [for_range].
  - apply never_fails_fast_ret.
  - apply never_fails_fast_bind; [apply Hb | intros _; apply IH].
Qed.

Lemma never_fails_fast_CPUTensorize_loop (count : nat) (bounds : list BitmapBounds)
    (tensorDescriptor : ImageTensorDescription) (singleFrameBufferSize : Z) :
  forall batchIdx tempPResource,
    never_fails_fast (CPUTensorize_loop batchIdx count bounds tensorDescriptor
                        tempPResource singleFrameBufferSize).
Proof.
  induction count as [|k IH]; intros batchIdx p; cbn [CPUTensorize_loop].
  - apply never_fails_fast_ret.
  - apply never_fails_fast_bind;
      [apply never_fails_fast_lift, survives_vector_at|]. intros b.
    apply never_fails_fast_bind; [|intros _; apply IH].
    unfold CPUTensorize_frame.
    apply never_fails_fast_bind; [apply never_fails_fast_with_world|]. intros c.
    apply never_fails_fast_bind; [apply never_fails_fast_with_world|]. intros q.
    apply never_fails_fast_scoped_wrapper, never_fails_fast_with_world.
Qed.

Lemma never_fails_fast_GPUTensorize (engine : Engine) (videoFrames : list VideoFrame)
    (bounds : list BitmapBounds) (tensorDescriptor : ImageTensorDescription)
    (spSession : LearningModelSession) :
  never_fails_fast (GPUTensorize engine videoFrames bounds tensorDescriptor spSession).
Proof.
  unfold GPUTensorize.
  apply never_fails_fast_bind.
  { apply never_fails_fast_lift. unfold WINML_THROW_IF_FAILED.
    destruct (OrtGetWinMLAdapter engine); discriminate. }
  intros _. apply never_fails_fast_for_range. intros i.
  apply never_fails_fast_bind; [apply never_fails_fast_with_world|]. intros c.
  apply never_fails_fast_bind; [apply never_fails_fast_with_world|]. intros p.
  apply never_fails_fast_scoped_wrapper.
  apply never_fails_fast_bind; [apply never_fails_fast_lift, survives_vector_at|].
  intros b.
  apply never_fails_fast_bind; [apply never_fails_fast_with_world|]. intros _.
  intros s. discriminate.
Qed.

Lemma all_nonzero_false (v : list Z) :
  Forall (fun x => 0 <= x < 4294967296) v ->
  all_nonzero v = false <-> 0 ∈ v.
Proof.
  intros Hv. unfold all_nonzero. induction Hv as [|x v Hx Hv IH]; simpl.
  - split; [discriminate|]. intros H. inversion H.
  - rewrite andb_false_iff, IH, elem_of_cons.
    assert (Hx0 : negb (to_int32 x =? 0) = false <-> 0 = x).
    { rewrite negb_false_iff, Z.eqb_eq. unfold to_int32.
      rewrite wrap32_small by lia.
      destruct (Z.ltb_spec x 2147483648); lia. }
    rewrite Hx0. reflexivity.
Qed.

(** X20. [GetOrtValue] terminates the process exactly when a frame of the
    batch has a zero width or a zero height; it does so before it looks at
    the binding context, and leaves the state as it was. *)
Theorem fails_fast_exactly_on_zero_extents (engine : Engine) (s : State) :
  Forall (fun w => 0 <= w < 4294967296) (m_widths (st_this s)) ->
  Forall (fun h => 0 <= h < 4294967296) (m_heights (st_this s)) ->
  (fst (GetOrtValue engine s) = FailFast <->
   0 ∈ m_widths (st_this s) \/ 0 ∈ m_heights (st_this s)) /\
  (fst (GetOrtValue engine s) = FailFast -> snd (GetOrtValue engine s) = s).
Proof.
  intros HFw HFh.
  rewrite <- (all_nonzero_false _ HFw), <- (all_nonzero_false _ HFh).
  remember (GetOrtValue engine s) as r eqn:E.
  unfold GetOrtValue, get_this, get_context in E.
  unfold mbind at 1, M_bind at 1 in E. unfold mbind at 1, M_bind at 1 in E.
  unfold lift at 1 in E.
  destruct (all_nonzero (m_widths (st_this s))).
  2:{ subst r. split; [split; auto|]. reflexivity. }
  unfold mbind at 1, M_bind at 1 in E. unfold lift at 1 in E.
  destruct (all_nonzero (m_heights (st_this s))).
  2:{ subst r. split; [split; auto|]. reflexivity. }
  assert (Hr : fst r <> FailFast).
  { subst r.
    match goal with
    | |- fst (?m s) <> FailFast => enough (H : never_fails_fast m) by apply H
    end.
    apply never_fails_fast_bind; [intros s0; discriminate|]. intros context.
    apply never_fails_fast_bind;
      [apply never_fails_fast_lift, survives_GetInputMetadata|].
    intros [md|]; [|intros s0; discriminate].
    apply never_fails_fast_bind.
    { intros s0. unfold ensure_adapter. destruct (m_adapter _); [discriminate|].
      destruct (OrtGetWinMLAdapter engine); discriminate. }
    intros _. apply never_fails_fast_bind.
    { apply never_fails_fast_lift. destruct (fst _); discriminate. }
    intros _. apply never_fails_fast_bind.
    { apply never_fails_fast_lift. destruct (CreateTensor engine); discriminate. }
    intros _. apply never_fails_fast_bind; [intros s0; discriminate|].
    intros _. apply never_fails_fast_bind.
    { apply never_fails_fast_lift. destruct (GetTensorMutableData engine); discriminate. }
    intros _. apply never_fails_fast_bind; [|intros; apply never_fails_fast_ret].
    destruct (type context); [|apply never_fails_fast_ret].
    apply never_fails_fast_bind;
      [apply never_fails_fast_lift, survives_accumulate_multiplies|]. intros bufferSize.
    apply never_fails_fast_bind.
    { apply never_fails_fast_lift. destruct (dataType _); discriminate. }
    intros elementSize. apply never_fails_fast_bind.
    { apply never_fails_fast_lift. unfold mul_int64. destruct (_ && _); discriminate. }
    intros bufferByteSize. apply never_fails_fast_bind.
    { apply never_fails_fast_lift. unfold div_int64. destruct (_ =? _); discriminate. }
    intros single. destruct (IsCpuDevice _).
    - apply never_fails_fast_CPUTensorize_loop.
    - apply never_fails_fast_GPUTensorize. }
  split; [|intros H; contradiction].
  split; [intros H; contradiction | intros [H | H]; discriminate].
Qed.

Lemma fails_fast_exactly_on_zero_extents_witness :
  let s := make_state [BitmapFrame 640 480; BitmapFrame 0 480]
             (make_context kInput cpu_session OtherFeatureDescriptor None) in
  fst (GetOrtValue working_engine s) = FailFast /\ snd (GetOrtValue working_engine s) = s.
Proof.
  intros s.
  destruct (fails_fast_exactly_on_zero_extents working_engine s) as [Hiff Hst].
  - simpl. repeat (apply Forall_cons_2; [vm_compute; split; [discriminate | reflexivity]|]).
    apply Forall_nil_2.
  - simpl. repeat (apply Forall_cons_2; [vm_compute; split; [discriminate | reflexivity]|]).
    apply Forall_nil_2.
  - assert (H : fst (GetOrtValue working_engine s) = FailFast).
    { apply Hiff. left. right. left. }
    split; [exact H | exact (Hst H)].
Defined.

Lemma M_bind_Ret {A B} (m : M A) (f : A -> M B) (s s' : State) (b : B) :
  (m ≫= f) s = (Ret b, s') -> exists a s1, m s = (Ret a, s1) /\ f a s1 = (Ret b, s').
Proof.
  unfold mbind, M_bind. destruct (m s) as [[a|hr| | |] s1]; try discriminate. eauto.
Qed.

Lemma GetOrtValue_evolves (engine : Engine) (s : State) :
  evolves (st_this s) (st_this (snd (GetOrtValue engine s))).
Proof.
  destruct (GetOrtValue_run engine s)
    as [(o & E & _) | [(o & s1 & E & _ & Hea) | (md & s1 & Hmd & Hea & Hal & E)]];
    rewrite E.
  - apply evolves_refl.
  - apply ensure_adapter_Ret in Hea as (_ & _ & _ & He & _). exact He.
  - match goal with
    | |- evolves _ (st_this (snd (?m ?s2))) =>
        assert (Hk : keeps_this m); [|rewrite (Hk s2)]
    end.
    { apply keeps_this_bind; [apply keeps_this_lift|]. intros _.
      apply keeps_this_bind; [apply keeps_this_tensorize|]. intros _.
      apply keeps_this_ret. }
    apply ensure_adapter_Ret in Hea as (_ & _ & Ha & He & _).
    apply (evolves_trans _ _ _ He). unfold evolves. cbn. auto 10.
Qed.

Lemma keeps_this_readback (ort_value : OrtValue) (engine : Engine) (context : BindingContext) :
  keeps_this
    (_ ← lift (ThrowOnError (GetTensorMutableData engine));
     this ← get_this;
     metadata ← lift (GetInputMetadata this context);
     resourceMetadata ← lift (optional_value metadata);
     let w := to_int32 (size_at (TensorDescriptor resourceMetadata) 3) in
     let h := to_int32 (size_at (TensorDescriptor resourceMetadata) 2) in
     _ ← (if on_cpu ort_value then
            let descriptor :=
              {| pixel_format := BitmapPixelFormat.Bgra8; width := w; height := h;
                 luid := 0 |} in
            c ← with_world (Fetch DetensorizerStore descriptor);
            pooledConverter ← with_world (PoolObjectWrapper_Create c);
            scoped_wrapper pooledConverter
              (bufferSize ← lift (accumulate_multiplies
                                    (sizes (TensorDescriptor resourceMetadata)) 1);
               elementSize ← lift (GetSizeFromTensorDataType
                                     (dataType (TensorDescriptor resourceMetadata)));
               total ← lift (mul_int64 elementSize bufferSize);
               bufferByteSize ← lift (div_int64 total (m_batchSize this));
               detensorize_cpu_loop c (m_videoFrames this) 0
                 (Z.to_nat (m_batchSize this)) 0 bufferByteSize)
          else
            let descriptor :=
              {| pixel_format := DirectXPixelFormat.B8G8R8X8UIntNormalized;
                 width := w; height := h; luid := AdapterLuid (session context) |} in
            c ← with_world (Fetch DetensorizerStore descriptor);
            pooledConverter ← with_world (PoolObjectWrapper_Create c);
            scoped_wrapper pooledConverter
              (for_range 0 (Z.to_nat (m_batchSize this))
                 (detensorize_gpu_body c (m_videoFrames this))));
     set_context_converter None).
Proof.
  apply keeps_this_bind; [apply keeps_this_lift|]. intros _.
  apply keeps_this_bind; [intros s; reflexivity|]. intros this.
  apply keeps_this_bind; [apply keeps_this_lift|]. intros metadata.
  apply keeps_this_bind; [apply keeps_this_lift|]. intros md. cbv zeta.
  apply keeps_this_bind; [|intros _; apply keeps_this_set_context_converter].
  destruct (on_cpu ort_value).
  - apply keeps_this_bind; [apply keeps_this_with_world|]. intros c.
    apply keeps_this_bind; [apply keeps_this_with_world|]. intros p.
    apply keeps_this_scoped_wrapper.
    apply keeps_this_bind; [apply keeps_this_lift|]. intros bufferSize.
    apply keeps_this_bind; [apply keeps_this_lift|]. intros elementSize.
    apply keeps_this_bind; [apply keeps_this_lift|]. intros total.
    apply keeps_this_bind; [apply keeps_this_lift|]. intros bufferByteSize.
    apply keeps_this_detensorize_cpu_loop.
  - apply keeps_this_bind; [apply keeps_this_with_world|]. intros c.
    apply keeps_this_bind; [apply keeps_this_with_world|]. intros p.
    apply keeps_this_scoped_wrapper, keeps_this_for_range.
    intros i. apply keeps_this_detensorize_gpu_body.
Qed.

Lemma UpdateSourceResourceData_evolves (engine : Engine) (ort_value : OrtValue) (s : State) :
  evolves (st_this s) (st_this (snd (UpdateSourceResourceData engine ort_value s))).
Proof.
  remember (UpdateSourceResourceData engine ort_value s) as r eqn:E.
  unfold UpdateSourceResourceData, get_context in E.
  unfold mbind at 1, M_bind at 1 in E. unfold mbind at 1, M_bind at 1 in E.
  destruct (ensure_adapter engine s) as [o s1] eqn:Hea.
  destruct o as [[]|hr| | |];
    try (apply ensure_adapter_not_Ret in Hea as [-> _]; [|discriminate];
         subst r; apply evolves_refl).
  apply ensure_adapter_Ret in Hea as (_ & _ & _ & He & _).
  assert (Hk : st_this (snd r) = st_this s1).
  { rewrite E. exact (keeps_this_readback ort_value engine (st_context s) s1). }
  rewrite Hk. exact He.
Qed.

Lemma reachable_evolves (frames : list VideoFrame) (s : State) :
  reachable frames s -> evolves (Initialize frames) (st_this s).
Proof.
  induction 1 as [context w|engine s Hs IH|engine ov s Hs IH|context s Hs IH]; simpl.
  - apply evolves_refl.
  - exact (evolves_trans _ _ _ IH (GetOrtValue_evolves engine s)).
  - exact (evolves_trans _ _ _ IH (UpdateSourceResourceData_evolves engine ov s)).
  - exact IH.
Qed.

(** X16. The frames of a feature value, the batch size and the extents
    taken from the frames at construction are never changed: after any
    sequence of calls of the two entry points, whatever their outcomes,
    they are what [Initialize] made them. *)
Theorem frames_and_extents_never_change (frames : list VideoFrame) (s : State) :
  reachable frames s ->
  m_videoFrames (st_this s) = frames /\
  m_batchSize (st_this s) = Z.of_nat (length frames) /\
  m_widths (st_this s) = map frame_width frames /\
  m_heights (st_this s) = map frame_height frames.
Proof.
  intros Hs. apply reachable_evolves in Hs as (H1 & H2 & H3 & H4 & _). auto.
Qed.

Lemma frames_and_extents_never_change_witness :
  let frames := [SurfaceFrame 640 480; SurfaceFrame 640 480] in
  let s := make_state frames
             (make_context kInput gpu_session
                (TensorFeatureDescriptor [2; 3; 224; 224] TK_Float) None) in
  let ort_value :=
    {| ov_shape := [2; 3; 224; 224]; ov_float32 := true;
       ov_allocator := snd (GetProviderAllocator working_engine) |} in
  let s' := snd (UpdateSourceResourceData working_engine ort_value
                   (snd (GetOrtValue working_engine s))) in
  m_videoFrames (st_this s') = frames /\
  m_batchSize (st_this s') = 2 /\
  m_widths (st_this s') = [640; 640] /\
  m_heights (st_this s') = [480; 480].
Proof.
  intros frames s ort_value s'.
  apply (frames_and_extents_never_change frames s').
  apply reachable_UpdateSourceResourceData, reachable_GetOrtValue, reachable_new.
Defined.

Lemma mapM_FreeProviderAllocator (this : ImageFeatureValue) (l : list nat) :
  m_adapter this = true -> mapM (FreeProviderAllocator this) l = Ret l.
Proof.
  intros Ha. induction l as [|a l IH]; [reflexivity|].
  assert (Hf : FreeProviderAllocator this a = Ret a).
  { unfold FreeProviderAllocator. rewrite Ha. reflexivity. }
  cbn [mapM]. rewrite Hf. cbn [mbind Outcome_bind]. rewrite IH. reflexivity.
Qed.

(** X17. The destructor never calls through a null adapter: in every
    state a feature value can reach, allocators are recorded only when the
    adapter is there, so the destructor frees every recorded allocator, in
    order, and nothing else. *)
Theorem destructor_frees_the_recorded_allocators (frames : list VideoFrame) (s : State) :
  reachable frames s ->
  ImageFeatureValue_destructor (st_this s) = Ret (m_tensorAllocators (st_this s)).
Proof.
  intros Hs. apply reachable_evolves in Hs as (_ & _ & _ & _ & _ & [Ha | Hl]).
  - apply mapM_FreeProviderAllocator, Ha.
  - unfold ImageFeatureValue_destructor. rewrite Hl. reflexivity.
Qed.

Lemma destructor_frees_the_recorded_allocators_witness :
  let s := make_state [BitmapFrame 640 480]
             (make_context kInput cpu_session
                (TensorFeatureDescriptor [1; 3; 224; 224] TK_Float) None) in
  let s' := snd (GetOrtValue working_engine (snd (GetOrtValue working_engine s))) in
  ImageFeatureValue_destructor (st_this s') = Ret (m_tensorAllocators (st_this s')) /\
  ImageFeatureValue_destructor (st_this s) = Ret [].
Proof.
  intros s s'. split.
  - apply (destructor_frees_the_recorded_allocators [BitmapFrame 640 480] s').
    apply reachable_GetOrtValue, reachable_GetOrtValue, reachable_new.
  - reflexivity.
Defined.

(** X18. A call of [GetOrtValue] that returns a tensor has resolved the
    metadata; the tensor has the shape of the resolved description, its
    element type, and the allocator of the provider; the adapter is there
    afterwards, and exactly this one allocator has been added to the
    allocators that the destructor frees. *)
Theorem successful_bind_records_its_allocator (engine : Engine) (s s' : State)
    (v : OrtValue) :
  GetOrtValue engine s = (Ret v, s') ->
  exists md,
    GetInputMetadata (st_this s) (st_context s) = Ret (Some md) /\
    ov_shape v = sizes (TensorDescriptor md) /\
    (ov_float32 v = true <->
     dataType (TensorDescriptor md) = kImageTensorDataTypeFloat32) /\
    ov_allocator v = snd (GetProviderAllocator engine) /\
    m_adapter (st_this s') = true /\
    m_tensorAllocators (st_this s') =
      m_tensorAllocators (st_this s) ++ [alloc_id (snd (GetProviderAllocator engine))].
Proof.
  intros Hret.
  destruct (GetOrtValue_run engine s)
    as [(o & E & Hn) | [(o & s1 & E & Hn & Hea) | (md & s1 & Hmd & Hea & Hal & E)]];
    rewrite E in Hret; try (injection Hret as Ho _; exfalso; exact (Hn _ Ho)).
  exists md. split; [exact Hmd|].
  match type of Hret with
  | ?m ?s2 = _ => assert (Hk : keeps_this m); [|pose proof (Hk s2) as Hthis]
  end.
  { apply keeps_this_bind; [apply keeps_this_lift|]. intros _.
    apply keeps_this_bind; [apply keeps_this_tensorize|]. intros _.
    apply keeps_this_ret. }
  rewrite Hret in Hthis. cbn [snd] in Hthis.
  apply M_bind_Ret in Hret as (_ & s3 & _ & Hret).
  apply M_bind_Ret in Hret as (_ & s4 & _ & Hret).
  injection Hret as <- _. cbn [ov_shape ov_float32 ov_allocator].
  apply ensure_adapter_Ret in Hea as (_ & _ & Ha & _ & Hl).
  rewrite Hthis. cbn. rewrite Hl.
  repeat split; auto; destruct (dataType (TensorDescriptor md)); congruence.
Qed.

Lemma successful_bind_records_its_allocator_witness :
  let s := make_state [BitmapFrame 640 480]
             (make_context kOutput cpu_session
                (ImageFeatureDescriptor 224 224 BitmapPixelFormat.Gray8 TK_Float16) None) in
  exists v s',
    GetOrtValue working_engine s = (Ret v, s') /\
    ov_shape v = [1; 1; 224; 224] /\ ov_float32 v = false /\
    m_adapter (st_this s') = true /\ m_tensorAllocators (st_this s') = [0%nat].
Proof.
  intros s.
  destruct (GetOrtValue working_engine s) as [[v| | | |] s'] eqn:E;
    try (vm_compute in E; discriminate E).
  exists v, s'. split; [reflexivity|].
  destruct (successful_bind_records_its_allocator working_engine s s' v E)
    as (md & Hmd & Hshape & Hf & _ & Ha & Hl).
  vm_compute in Hmd. injection Hmd as <-.
  split; [exact Hshape|]. split; [|split; [exact Ha | exact Hl]].
  destruct (ov_float32 v); [|reflexivity].
  destruct Hf as [Hf _]. discriminate (Hf eq_refl).
Defined.

(** X19. Only inputs are tensorized: for an output binding, [GetOrtValue]
    leaves the binding context, the converter stores and the trace of
    conversions as they were, whatever its outcome. *)
Theorem output_binding_is_not_tensorized (engine : Engine) (s : State) :
  type (st_context s) = kOutput ->
  st_context (snd (GetOrtValue engine s)) = st_context s /\
  st_world (snd (GetOrtValue engine s)) = st_world s.
Proof.
  intros Hty.
  destruct (GetOrtValue_run engine s)
    as [(o & E & _) | [(o & s1 & E & _ & Hea) | (md & s1 & Hmd & Hea & Hal & E)]];
    rewrite E; clear E.
  - auto.
  - apply ensure_adapter_Ret in Hea as (Hc & Hw & _). auto.
  - apply ensure_adapter_Ret in Hea as (Hc & Hw & _). rewrite Hty.
    unfold mbind, M_bind, lift, mret, M_ret, remember_allocator.
    destruct (GetTensorMutableData engine); cbn; auto.
Qed.

Lemma output_binding_is_not_tensorized_witness :
  let s := make_state [BitmapFrame 640 480]
             (make_context kOutput gpu_session
                (TensorFeatureDescriptor [1; 3; 224; 224] TK_Float) None) in
  exists v s',
    GetOrtValue working_engine s = (Ret v, s') /\
    st_context s' = st_context s /\ trace (st_world s') = [].
Proof.
  intros s.
  destruct (output_binding_is_not_tensorized working_engine s eq_refl) as [Hc Hw].
  destruct (GetOrtValue working_engine s) as [[v| | | |] s'] eqn:E;
    try (vm_compute in E; discriminate E).
  exists v, s'. split; [reflexivity|]. cbn [snd] in Hc, Hw.
  split; [exact Hc|]. rewrite Hw. reflexivity.
Defined.

Lemma accumulate_multiplies_zero (l : list Z) :
  accumulate_multiplies l 0 = Ret 0.
Proof.
  induction l as [|x l IH]; [reflexivity|].
  cbn [accumulate_multiplies]. unfold mul_int64. rewrite Z.mul_0_l. exact IH.
Qed.

Lemma accumulate_multiplies_empty_batch (l : list Z) :
  accumulate_multiplies (0 :: l) 1 = Ret 0.
Proof.
  cbn [accumulate_multiplies]. change (mul_int64 1 0) with (@Ret Z 0).
  cbn [mbind Outcome_bind]. apply accumulate_multiplies_zero.
Qed.

(** X21. An empty batch cannot be bound as an input: with a batch size of
    0 the tensor has no element, and the size of one frame is a division of
    0 by 0, which is undefined. *)
Theorem empty_input_batch_divides_by_zero (engine : Engine) (s : State)
    (md : ImageResourceMetadata) :
  m_batchSize (st_this s) = 0 ->
  all_nonzero (m_widths (st_this s)) = true ->
  all_nonzero (m_heights (st_this s)) = true ->
  GetInputMetadata (st_this s) (st_context s) = Ret (Some md) ->
  type (st_context s) = kInput ->
  m_adapter (st_this s) = true \/ OrtGetWinMLAdapter engine = S_OK ->
  fst (GetProviderAllocator engine) = S_OK ->
  CreateTensor engine = true ->
  GetTensorMutableData engine = true ->
  fst (GetOrtValue engine s) = Undefined.
Proof.
  intros Hb Hw0 Hh0 Hmd Hty Had Hal Hct Hgd.
  pose proof Hmd as Hmd'.
  apply GetInputMetadata_Ret in Hmd' as (dw & dh & kind & f & _ & _ & _ & Hd).
  apply CreateImageTensorDescriptor_Ret in Hd as (_ & _ & Hdt & c & _ & Hsz).
  assert (Hes : exists es, GetSizeFromTensorDataType (dataType (TensorDescriptor md)) = Ret es).
  { destruct kind; try discriminate; injection Hdt as <-; simpl; eauto. }
  destruct Hes as [es Hes].
  unfold GetOrtValue, get_this, get_context, lift.
  unfold mbind at 1, M_bind. unfold mbind at 1, M_bind. rewrite Hw0.
  unfold mbind at 1, M_bind. rewrite Hh0.
  unfold mbind at 1, M_bind. unfold mbind at 1, M_bind. rewrite Hmd.
  unfold mbind at 1, M_bind.
  destruct (ensure_adapter_ok engine s Had) as (s1 & -> & _).
  unfold mbind at 1, M_bind. rewrite Hal. cbn [WINML_THROW_IF_FAILED].
  unfold mbind at 1, M_bind. rewrite Hct. cbn [ThrowOnError].
  unfold mbind at 1, M_bind. unfold remember_allocator at 1.
  unfold mbind at 1, M_bind. rewrite Hgd. cbn [ThrowOnError].
  unfold mbind at 1, M_bind. rewrite Hty.
  unfold mbind at 1, M_bind. rewrite Hsz, Hb.
  rewrite accumulate_multiplies_empty_batch.
  unfold mbind at 1, M_bind. rewrite Hes.
  unfold mbind at 1, M_bind.
  replace (mul_int64 es 0) with (@Ret Z 0)
    by (unfold mul_int64; rewrite Z.mul_0_r; reflexivity).
  reflexivity.
Qed.

Lemma empty_input_batch_divides_by_zero_witness :
  let s := {| st_this := Create 0 BitmapPixelFormat.Bgra8 224 224;
              st_context :=
                make_context kInput cpu_session
                  (ImageFeatureDescriptor 224 224 BitmapPixelFormat.Bgra8 TK_Float) None;
              st_world := empty_world |} in
  fst (GetOrtValue working_engine s) = Undefined.
Proof.
  intros s.
  destruct (GetInputMetadata (st_this s) (st_context s)) as [[md|]| | | |] eqn:E;
    try (vm_compute in E; discriminate E).
  apply (empty_input_batch_divides_by_zero working_engine s md);
    try reflexivity; try exact E. right. reflexivity.
Defined.

(** ** Pooled converters: a scope fetches, converts and returns *)

Lemma fetched_app (t1 t2 : list Event) :
  fetched (t1 ++ t2) = fetched t1 ++ fetched t2.
Proof.
  induction t1 as [|e t1 IH]; [reflexivity|].
  destruct e; simpl; rewrite IH; reflexivity.
Qed.

Lemma appends_nil (w : World) : appends [] w w.
Proof. unfold appends. rewrite app_nil_r. auto. Qed.

Lemma appends_trans (t1 t2 : list Event) (w1 w2 w3 : World) :
  appends t1 w1 w2 -> appends t2 w2 w3 -> appends (t1 ++ t2) w1 w3.
Proof.
  unfold appends. intros (a1 & a2 & a3 & a4 & a5) (b1 & b2 & b3 & b4 & b5).
  rewrite b5, a5, app_assoc. repeat split; congruence.
Qed.

Lemma only_converts_bind {A B} (m : M A) (f : A -> M B) :
  only_converts m -> (forall a, only_converts (f a)) -> only_converts (m ≫= f).
Proof.
  intros Hm Hf s. unfold mbind, M_bind.
  destruct (Hm s) as (Hc & t & Ht & Hr & Hfe).
  destruct (m s) as [[a|hr| | |] s1]; simpl in *; try (split; [exact Hc | eauto]).
  destruct (Hf a s1) as (Hc2 & t2 & Ht2 & Hr2 & Hfe2).
  split; [congruence|]. exists (t ++ t2).
  split; [exact (appends_trans _ _ _ _ _ Ht Ht2)|].
  rewrite returned_app, fetched_app, Hr, Hr2, Hfe, Hfe2. auto.
Qed.

Lemma only_converts_ret {A} (a : A) : only_converts (mret a : M A).
Proof. intros s. split; [reflexivity|]. exists []. split; [apply appends_nil | auto]. Qed.

Lemma only_converts_lift {A} (o : Outcome A) : only_converts (lift o).
Proof. intros s. split; [reflexivity|]. exists []. split; [apply appends_nil | auto]. Qed.

Lemma only_converts_tell (e : Event) :
  returned [e] = [] -> fetched [e] = [] -> only_converts (tell e).
Proof.
  intros Hr Hf s. split; [reflexivity|]. exists [e].
  split; [|auto]. unfold appends. simpl. auto.
Qed.

Lemma only_converts_for_range (count : nat) (body : Z -> M unit) :
  (forall i, only_converts (body i)) ->
  forall start, only_converts (for_range start count body).
Proof.
  intros Hb. induction count as [|k IH]; intros start; cbn [for_range].
  - apply only_converts_ret.
  - apply only_converts_bind; [apply Hb | intros _; apply IH].
Qed.

Lemma only_converts_detensorize_cpu_loop (c : ConverterResources)
    (frames : list VideoFrame) (count : nat) (bufferByteSize : Z) :
  forall batchIdx p,
    only_converts (detensorize_cpu_loop c frames batchIdx count p bufferByteSize).
Proof.
  induction count as [|k IH]; intros batchIdx p; cbn [detensorize_cpu_loop].
  - apply only_converts_ret.
  - apply only_converts_bind; [apply only_converts_lift|]. intros _.
    apply only_converts_bind; [apply only_converts_tell; reflexivity|]. intros _.
    apply IH.
Qed.

Lemma only_converts_detensorize_gpu_body (c : ConverterResources)
    (frames : list VideoFrame) (batchIdx : Z) :
  only_converts (detensorize_gpu_body c frames batchIdx).
Proof.
  unfold detensorize_gpu_body.
  apply only_converts_bind; [apply only_converts_lift|]. intros _.
  apply only_converts_bind; [apply only_converts_tell; reflexivity|]. intros _.
  apply only_converts_bind; [apply only_converts_tell; reflexivity|]. intros _.
  apply only_converts_tell; reflexivity.
Qed.

Lemma FetchAndRemoveObject_matches (s : Store) (d : ConverterResourceDescription)
    (l rest : list ConverterResources) (c : ConverterResources) :
  FetchAndRemoveObject s d l = Some (c, rest) -> matches_key s d c = true.
Proof.
  revert rest. induction l as [|x l IH]; intros rest; simpl; [discriminate|].
  destruct (matches_key s d x) eqn:Hx.
  - intros E. injection E as <- <-. exact Hx.
  - destruct (FetchAndRemoveObject s d l) as [[c' rest']|]; [|discriminate].
    intros E. injection E as <- <-. exact (IH _ eq_refl).
Qed.

Lemma Fetch_matches (s : Store) (d : ConverterResourceDescription) (w : World) :
  matches_key s d (fst (Fetch s d w)) = true.
Proof.
  unfold Fetch. destruct (FetchAndRemoveObject s d (idle w)) as [[c rest]|] eqn:E; simpl.
  - exact (FetchAndRemoveObject_matches _ _ _ _ _ E).
  - unfold matches_key. simpl. rewrite !bool_decide_eq_true_2 by reflexivity. reflexivity.
Qed.

(** A pooled scope: a converter is fetched and wrapped, the body converts
    with it, and the wrapper goes away with the scope, which returns the
    converter; whatever the outcome of the body. *)
Lemma pooled_scope {A} (store : Store) (d : ConverterResourceDescription)
    (body : ConverterResources -> M A) (s : State) :
  (forall c, only_converts (body c)) ->
  let c := fst (Fetch store d (st_world s)) in
  let inner :=
    body c {| st_this := st_this s; st_context := st_context s;
              st_world :=
                snd (PoolObjectWrapper_Create c (snd (Fetch store d (st_world s)))) |} in
  let r :=
    (c ← with_world (Fetch store d);
     pooledConverter ← with_world (PoolObjectWrapper_Create c);
     scoped_wrapper pooledConverter (body c)) s in
  fst r = fst inner /\
  st_this (snd r) = st_this (snd inner) /\
  st_context (snd r) = st_context s /\
  matches_key store d c = true /\
  (fresh_wrappers (st_world s) ->
   wrappers (st_world (snd r)) = wrappers (st_world s) /\
   fresh_wrappers (st_world (snd r))) /\
  exists t,
    returned t = [] /\ fetched t = [] /\
    trace (st_world (snd inner)) = trace (st_world s) ++ [EvFetch c] ++ t /\
    trace (st_world (snd r)) = trace (st_world s) ++ [EvFetch c] ++ t ++ [EvReturnToCache c].
Proof.
  intros Hbody c inner r.
  pose proof (Fetch_trace store d (st_world s)) as Hft.
  pose proof (Fetch_world store d (st_world s)) as [Hfw Hfn].
  pose proof (Fetch_matches store d (st_world s)) as Hm.
  subst r inner. unfold mbind, M_bind, with_world, scoped_wrapper.
  fold c in Hft, Hm |- *.
  destruct (Fetch store d (st_world s)) as [c0 w1] eqn:HF. simpl in c. subst c.
  cbn [fst snd] in *. cbn [PoolObjectWrapper_Create fst snd st_world st_context st_this].
  set (p := next_wrapper w1) in *.
  match goal with
  | |- context [body c0 ?s2] => set (s2' := s2)
  end.
  destruct (Hbody c0 s2') as (Hc & t & Ht & Hr & Hfe).
  destruct (body c0 s2') as [o s3]. cbn [fst snd st_world st_context st_this] in *.
  destruct Ht as (Hi & Hnc & Hw & Hnw & Htr). cbn [st_world s2' wrappers trace
    next_wrapper idle next_converter] in Hi, Hnc, Hw, Hnw, Htr.
  assert (Hp : wrappers (st_world s3) !! p = Some (1%nat, c0)).
  { rewrite Hw. apply lookup_insert_eq. }
  destruct (shared_ptr_release_last p (st_world s3) c0 Hp) as (Hw4 & Hn4 & Ht4).
  split; [reflexivity|]. split; [reflexivity|]. split; [exact Hc|].
  split; [exact Hm|]. split.
  { intros Hfresh. split.
    - rewrite Hw4, Hw, delete_insert_eq, Hfw. apply delete_id.
      apply Hfresh. unfold p. lia.
    - intros k Hk. rewrite Hn4, Hnw in Hk. rewrite Hw4, Hw, delete_insert_eq, Hfw.
      rewrite lookup_delete_ne by lia. apply Hfresh. unfold p in Hk. lia. }
  exists t. split; [exact Hr|]. split; [exact Hfe|].
  rewrite Ht4, Htr, Hft, <- !app_assoc. auto.
Qed.

(** One frame of the software tensorization is a pooled scope. *)
Lemma CPUTensorize_frame_scope (videoFrame : Z) (bounds : BitmapBounds)
    (tensorDescriptor : ImageTensorDescription) (pResource : Z) (s : State) :
  fresh_wrappers (st_world s) ->
  exists s' c,
    CPUTensorize_frame videoFrame bounds tensorDescriptor pResource s = (Ret tt, s') /\
    st_context s' = st_context s /\
    wrappers (st_world s') = wrappers (st_world s) /\
    fresh_wrappers (st_world s') /\
    trace (st_world s') =
      trace (st_world s) ++
      [EvFetch c; EvVideoFrameToSoftwareTensor c videoFrame bounds pResource;
       EvReturnToCache c].
Proof.
  intros Hfresh. unfold CPUTensorize_frame.
  set (d := {| pixel_format := _; width := _; height := _; luid := _ |}).
  destruct (pooled_scope TensorizerStore d
              (fun c => tell (EvVideoFrameToSoftwareTensor c videoFrame bounds pResource)) s)
    as (Hfst & _ & Hc & _ & Hw & t & _ & _ & Hinner & Htr).
  { intros c. apply only_converts_tell; reflexivity. }
  cbv zeta in *. destruct (Hw Hfresh) as [Hw1 Hw2].
  match type of Hfst with
  | fst ?r = _ => destruct r as [o s'] eqn:Hr
  end.
  cbn [fst snd] in *. unfold tell, on_world, with_world in Hfst, Hinner.
  cbn [fst snd st_world log trace] in Hfst, Hinner. subst o.
  exists s', (fst (Fetch TensorizerStore d (st_world s))).
  split; [reflexivity|]. split; [exact Hc|]. split; [exact Hw1|]. split; [exact Hw2|].
  rewrite Htr.
  assert (Ht : t = [EvVideoFrameToSoftwareTensor (fst (Fetch TensorizerStore d (st_world s)))
                      videoFrame bounds pResource]).
  { cbn [PoolObjectWrapper_Create snd trace] in Hinner.
    rewrite Fetch_trace, <- !app_assoc in Hinner.
    apply app_inv_head in Hinner. cbn [app] in Hinner. injection Hinner as <-. reflexivity. }
  rewrite Ht. reflexivity.
Qed.

Lemma CPUTensorize_loop_scope (count : nat) :
  forall (batchIdx : Z) (bounds : list BitmapBounds)
    (tensorDescriptor : ImageTensorDescription)
    (tempPResource singleFrameBufferSize : Z) (s : State),
  fresh_wrappers (st_world s) ->
  0 <= batchIdx ->
  (Z.to_nat batchIdx + count <= length bounds)%nat ->
  exists s' cs,
    CPUTensorize_loop batchIdx count bounds tensorDescriptor tempPResource
      singleFrameBufferSize s = (Ret tt, s') /\
    st_context s' = st_context s /\
    wrappers (st_world s') = wrappers (st_world s) /\
    fresh_wrappers (st_world s') /\
    length cs = count /\
    fetched (trace (st_world s')) = fetched (trace (st_world s)) ++ cs /\
    returned (trace (st_world s')) = returned (trace (st_world s)) ++ cs.
Proof.
  induction count as [|count IH]; intros batchIdx bounds td p single s Hfresh Hidx Hlen.
  - exists s, []. rewrite !app_nil_r. simpl. auto 10.
  - cbn [CPUTensorize_loop]. unfold mbind at 1, M_bind, lift.
    assert (Hb : exists b, vector_at bounds batchIdx = Ret b).
    { unfold vector_at. destruct (Z.ltb_spec batchIdx 0); [lia|].
      destruct (lookup_lt_is_Some_2 bounds (Z.to_nat batchIdx) ltac:(lia)) as [b Hb].
      rewrite Hb. eauto. }
    destruct Hb as [b ->].
    unfold mbind at 1, M_bind.
    destruct (CPUTensorize_frame_scope batchIdx b td p s Hfresh)
      as (s1 & c & -> & Hc1 & Hw1 & Hf1 & Ht1).
    destruct (IH (batchIdx + 1) bounds td (p + single) single s1 Hf1)
      as (s2 & cs & Hs2 & Hc2 & Hw2 & Hf2 & Hlcs & Hfe2 & Hr2); [lia | lia |].
    exists s2, (c :: cs). split; [exact Hs2|]. split; [congruence|].
    split; [congruence|]. split; [exact Hf2|]. split; [simpl; lia|].
    rewrite Hfe2, Hr2, Ht1, fetched_app, returned_app. simpl.
    rewrite <- !app_assoc. auto.
Qed.

(** X22. The software tensorization holds no converter beyond a frame:
    [CPUTensorize] of a batch returns, leaves the binding context and the
    live wrappers as they were, and has returned to the store, in order,
    exactly the converters it fetched, one per frame. *)
Theorem cpu_tensorization_returns_what_it_fetches (videoFrames : list VideoFrame)
    (bounds : list BitmapBounds) (tensorDescriptor : ImageTensorDescription)
    (singleFrameBufferSize : Z) (s : State) :
  fresh_wrappers (st_world s) ->
  (length videoFrames <= length bounds)%nat ->
  exists s' cs,
    CPUTensorize videoFrames bounds tensorDescriptor singleFrameBufferSize s = (Ret tt, s') /\
    st_context s' = st_context s /\
    wrappers (st_world s') = wrappers (st_world s) /\
    length cs = length videoFrames /\
    fetched (trace (st_world s')) = fetched (trace (st_world s)) ++ cs /\
    returned (trace (st_world s')) = returned (trace (st_world s)) ++ cs.
Proof.
  intros Hfresh Hlen. unfold CPUTensorize.
  destruct (CPUTensorize_loop_scope (length videoFrames) 0 bounds tensorDescriptor 0
              singleFrameBufferSize s Hfresh ltac:(lia) ltac:(simpl; lia))
    as (s' & cs & Hs & Hc & Hw & _ & Hl & Hfe & Hr).
  exists s', cs. auto 10.
Qed.

Lemma cpu_tensorization_returns_what_it_fetches_witness :
  let s := make_state [BitmapFrame 640 480; BitmapFrame 640 480]
             (make_context kInput cpu_session
                (TensorFeatureDescriptor [2; 3; 224; 224] TK_Float) None) in
  let b := {| X := 80; Y := 0; Width := 480; Height := 480 |} in
  let td := {| dataType := kImageTensorDataTypeFloat32;
               channelType := kImageTensorChannelTypeBGR8;
               sizes := [2; 3; 224; 224] |} in
  exists s' cs,
    CPUTensorize (m_videoFrames (st_this s)) [b; b] td 602112 s = (Ret tt, s') /\
    st_context s' = st_context s /\
    wrappers (st_world s') = wrappers (st_world s) /\
    length cs = 2%nat /\
    fetched (trace (st_world s')) = fetched (trace (st_world s)) ++ cs /\
    returned (trace (st_world s')) = returned (trace (st_world s)) ++ cs.
Proof.
  intros s b td.
  apply (cpu_tensorization_returns_what_it_fetches (m_videoFrames (st_this s)) [b; b] td
           602112 s).
  - intros k _. reflexivity.
  - simpl. lia.
Defined.

(** ** The readback *)

Lemma only_converts_detensorize_cpu (c : ConverterResources) (this : ImageFeatureValue)
    (resourceMetadata : ImageResourceMetadata) :
  only_converts
    (bufferSize ← lift (accumulate_multiplies
                          (sizes (TensorDescriptor resourceMetadata)) 1);
     elementSize ← lift (GetSizeFromTensorDataType
                           (dataType (TensorDescriptor resourceMetadata)));
     total ← lift (mul_int64 elementSize bufferSize);
     bufferByteSize ← lift (div_int64 total (m_batchSize this));
     detensorize_cpu_loop c (m_videoFrames this) 0
       (Z.to_nat (m_batchSize this)) 0 bufferByteSize).
Proof.
  apply only_converts_bind; [apply only_converts_lift|]. intros bufferSize.
  apply only_converts_bind; [apply only_converts_lift|]. intros elementSize.
  apply only_converts_bind; [apply only_converts_lift|]. intros total.
  apply only_converts_bind; [apply only_converts_lift|]. intros bufferByteSize.
  apply only_converts_detensorize_cpu_loop.
Qed.

Lemma only_converts_detensorize_gpu (c : ConverterResources) (this : ImageFeatureValue) :
  only_converts
    (for_range 0 (Z.to_nat (m_batchSize this))
       (detensorize_gpu_body c (m_videoFrames this))).
Proof.
  apply only_converts_for_range. intros i. apply only_converts_detensorize_gpu_body.
Qed.

(** The conversion of the readback, on either path, is a pooled scope on
    the detensorizer store. *)
Lemma readback_conversion (ort_value : OrtValue) (this : ImageFeatureValue)
    (spSession : LearningModelSession) (resourceMetadata : ImageResourceMetadata)
    (s : State) :
  let w := to_int32 (size_at (TensorDescriptor resourceMetadata) 3) in
  let h := to_int32 (size_at (TensorDescriptor resourceMetadata) 2) in
  let r :=
    (if on_cpu ort_value then
       let descriptor :=
         {| pixel_format := BitmapPixelFormat.Bgra8; width := w; height := h;
            luid := 0 |} in
       c ← with_world (Fetch DetensorizerStore descriptor);
       pooledConverter ← with_world (PoolObjectWrapper_Create c);
       scoped_wrapper pooledConverter
         (bufferSize ← lift (accumulate_multiplies
                               (sizes (TensorDescriptor resourceMetadata)) 1);
          elementSize ← lift (GetSizeFromTensorDataType
                                (dataType (TensorDescriptor resourceMetadata)));
          total ← lift (mul_int64 elementSize bufferSize);
          bufferByteSize ← lift (div_int64 total (m_batchSize this));
          detensorize_cpu_loop c (m_videoFrames this) 0
            (Z.to_nat (m_batchSize this)) 0 bufferByteSize)
     else
       let descriptor :=
         {| pixel_format := DirectXPixelFormat.B8G8R8X8UIntNormalized;
            width := w; height := h; luid := AdapterLuid spSession |} in
       c ← with_world (Fetch DetensorizerStore descriptor);
       pooledConverter ← with_world (PoolObjectWrapper_Create c);
       scoped_wrapper pooledConverter
         (for_range 0 (Z.to_nat (m_batchSize this))
            (detensorize_gpu_body c (m_videoFrames this)))) s in
  st_context (snd r) = st_context s /\
  (fresh_wrappers (st_world s) ->
   wrappers (st_world (snd r)) = wrappers (st_world s) /\
   fresh_wrappers (st_world (snd r))) /\
  exists c t,
    cr_store c = DetensorizerStore /\ returned t = [] /\ fetched t = [] /\
    trace (st_world (snd r)) = trace (st_world s) ++ [EvFetch c] ++ t ++ [EvReturnToCache c].
Proof.
  intros w h r. subst r. destruct (on_cpu ort_value); cbv zeta.
  - match goal with
    | |- context [Fetch DetensorizerStore ?d] =>
        destruct (pooled_scope DetensorizerStore d
                    (fun c =>
                       bufferSize ← lift (accumulate_multiplies
                                            (sizes (TensorDescriptor resourceMetadata)) 1);
                       elementSize ← lift (GetSizeFromTensorDataType
                                             (dataType (TensorDescriptor resourceMetadata)));
                       total ← lift (mul_int64 elementSize bufferSize);
                       bufferByteSize ← lift (div_int64 total (m_batchSize this));
                       detensorize_cpu_loop c (m_videoFrames this) 0
                         (Z.to_nat (m_batchSize this)) 0 bufferByteSize) s)
          as (_ & _ & Hc & Hm & Hw & t & Hr & Hf & _ & Ht)
    end.
    { intros c. apply only_converts_detensorize_cpu. }
    cbv zeta in *. split; [exact Hc|]. split; [exact Hw|].
    eexists; exists t. split; [|split; [exact Hr | split; [exact Hf | exact Ht]]].
    unfold matches_key in Hm. apply andb_true_iff in Hm as [Hm _].
    apply bool_decide_eq_true in Hm. exact Hm.
  - match goal with
    | |- context [Fetch DetensorizerStore ?d] =>
        destruct (pooled_scope DetensorizerStore d
                    (fun c =>
                       for_range 0 (Z.to_nat (m_batchSize this))
                         (detensorize_gpu_body c (m_videoFrames this))) s)
          as (_ & _ & Hc & Hm & Hw & t & Hr & Hf & _ & Ht)
    end.
    { intros c. apply only_converts_detensorize_gpu. }
    cbv zeta in *. split; [exact Hc|]. split; [exact Hw|].
    eexists; exists t. split; [|split; [exact Hr | split; [exact Hf | exact Ht]]].
    unfold matches_key in Hm. apply andb_true_iff in Hm as [Hm _].
    apply bool_decide_eq_true in Hm. exact Hm.
Qed.

(** X23. A readback that succeeds empties the slot of the binding
    context: when the slot was the only owner of its wrapper, the wrapper
    is gone afterwards and no other wrapper has appeared; the converters
    returned to their stores during the call are the detensorizer the call
    fetched, and then the converter the slot had kept. *)
Theorem readback_empties_the_slot (engine : Engine) (ort_value : OrtValue) (s s' : State) :
  fresh_wrappers (st_world s) -> sole_owner s ->
  UpdateSourceResourceData engine ort_value s = (Ret tt, s') ->
  converter (st_context s') = None /\
  wrappers (st_world s') =
    match converter (st_context s) with
    | Some q => delete q (wrappers (st_world s))
    | None => wrappers (st_world s)
    end /\
  exists c,
    cr_store c = DetensorizerStore /\
    fetched (trace (st_world s')) = fetched (trace (st_world s)) ++ [c] /\
    returned (trace (st_world s')) =
      returned (trace (st_world s)) ++ c :: slot_converters s.
Proof.
  intros Hfresh Hsole Hret. unfold UpdateSourceResourceData in Hret.
  apply M_bind_Ret in Hret as (context & s0 & H0 & Hret).
  unfold get_context in H0. injection H0 as <- <-.
  apply M_bind_Ret in Hret as ([] & s1 & Hea & Hret).
  apply ensure_adapter_Ret in Hea as (Hc1 & Hw1 & _).
  apply M_bind_Ret in Hret as ([] & s2 & H2 & Hret).
  unfold lift in H2. injection H2 as _ <-.
  apply M_bind_Ret in Hret as (this & s3 & H3 & Hret).
  unfold get_this in H3. injection H3 as <- <-.
  apply M_bind_Ret in Hret as (metadata & s4 & H4 & Hret).
  unfold lift in H4. injection H4 as _ <-.
  apply M_bind_Ret in Hret as (md & s5 & H5 & Hret).
  unfold lift in H5. injection H5 as _ <-.
  cbv zeta in Hret.
  apply M_bind_Ret in Hret as ([] & s6 & Hconv & Hret).
  pose proof (readback_conversion ort_value (st_this s1) (session (st_context s)) md s1)
    as Hrc.
  cbv zeta in Hrc.
  match type of Hrc with
  | context [snd ?r] => replace r with (Ret tt, s6) in Hrc by (symmetry; exact Hconv)
  end.
  cbn [snd] in Hrc. rewrite Hw1, Hc1 in Hrc.
  destruct Hrc as (Hc6 & Hw6 & c & t & Hstore & Hrt & Hft & Htr).
  destruct (Hw6 Hfresh) as [Hw6' Hf6].
  unfold set_context_converter, assign_converter in Hret.
  injection Hret as <-. cbn [st_context st_world set_converter converter].
  split; [reflexivity|]. rewrite Hc6. unfold slot_converters, sole_owner in *.
  destruct (converter (st_context s)) as [q|]; cbn [shared_ptr_reset].
  - destruct Hsole as [c' Hq]. unfold wrapper_Get. rewrite Hq. cbn [fmap option_fmap
      option_map snd option_list].
    destruct (shared_ptr_release_last q (st_world s6) c') as (Hw7 & _ & Ht7).
    { rewrite Hw6'. exact Hq. }
    split; [rewrite Hw7, Hw6'; reflexivity|].
    exists c. split; [exact Hstore|].
    rewrite Ht7, Htr, !fetched_app, !returned_app, Hrt, Hft. simpl.
    rewrite ?app_nil_r, <- ?app_assoc. auto.
  - split; [exact Hw6'|]. exists c. split; [exact Hstore|].
    rewrite Htr, !fetched_app, !returned_app, Hrt, Hft. simpl.
    rewrite ?app_nil_r, <- ?app_assoc. auto.
Qed.

Lemma readback_empties_the_slot_witness :
  let s := make_state [SurfaceFrame 640 480; SurfaceFrame 640 480]
             (make_context kInput gpu_session
                (TensorFeatureDescriptor [2; 3; 224; 224] TK_Float) None) in
  let bound := snd (GetOrtValue working_engine s) in
  let ort_value :=
    {| ov_shape := [2; 3; 224; 224]; ov_float32 := true;
       ov_allocator := snd (GetProviderAllocator working_engine) |} in
  exists s' p,
    UpdateSourceResourceData working_engine ort_value bound = (Ret tt, s') /\
    converter (st_context bound) = Some p /\
    converter (st_context s') = None /\
    wrappers (st_world s') = delete p (wrappers (st_world bound)).
Proof.
  intros s bound ort_value.
  destruct (UpdateSourceResourceData working_engine ort_value bound)
    as [[[]| | | |] s'] eqn:E; try (vm_compute in E; discriminate E).
  exists s', 1%nat. split; [reflexivity|].
  assert (Hp : converter (st_context bound) = Some 1%nat) by (vm_compute; reflexivity).
  split; [exact Hp|].
  destruct (readback_empties_the_slot working_engine ort_value bound s') as (Hn & Hw & _).
  - intros k Hk. assert (Hnext : next_wrapper (st_world bound) = 2%nat)
      by (vm_compute; reflexivity).
    rewrite Hnext in Hk.
    assert (Hwr : wrappers (st_world bound) =
                  {[ 1%nat := (1%nat, {| cr_store := TensorizerStore;
                                         cr_key := {| pixel_format := 88; width := 224;
                                                      height := 224; luid := 1 |};
                                         cr_id := 1 |}) ]}).
    { apply map_eq. intros i. vm_compute. reflexivity. }
    rewrite Hwr. apply lookup_singleton_ne. lia.
  - unfold sole_owner. rewrite Hp. eexists. vm_compute. reflexivity.
  - exact E.
  - rewrite Hp in Hw. split; [exact Hn | exact Hw].
Defined.

Lemma cpu_reads_app (t1 t2 : list Event) :
  cpu_reads (t1 ++ t2) = cpu_reads t1 ++ cpu_reads t2.
Proof.
  induction t1 as [|e t1 IH]; [reflexivity|].
  destruct e; simpl; rewrite IH; reflexivity.
Qed.

Lemma device_readback_app (t1 t2 : list Event) :
  device_readback (t1 ++ t2) = device_readback t1 ++ device_readback t2.
Proof.
  induction t1 as [|e t1 IH]; [reflexivity|].
  destruct e; simpl; rewrite IH; reflexivity.
Qed.

Lemma shared_ptr_reset_trace (o : option nat) (w : World) :
  exists t, trace (shared_ptr_reset o w) = trace w ++ t /\
    cpu_reads t = [] /\ device_readback t = [] /\ fetched t = [].
Proof.
  destruct o as [q|]; simpl.
  - unfold shared_ptr_release.
    destruct (wrappers w !! q) as [[[|[|n]] c]|];
      try (exists []; rewrite app_nil_r; solve [auto]).
    exists [EvReturnToCache c]. auto.
  - exists []. rewrite app_nil_r. auto.
Qed.

Lemma GetAt_Ret {A} (v : list A) (i : Z) :
  0 <= i -> (Z.to_nat i < length v)%nat -> exists a, GetAt v i = Ret a.
Proof.
  intros Hi Hlt. unfold GetAt. destruct (Z.ltb_spec i 0); [lia|].
  destruct (lookup_lt_is_Some_2 v (Z.to_nat i) Hlt) as [a Ha]. rewrite Ha. eauto.
Qed.

Lemma seqZ_succ_map {A} (f : Z -> A) (n : nat) :
  map f (seqZ 0 (Z.of_nat (S n))) = f 0 :: map (fun k => f (1 + k)) (seqZ 0 (Z.of_nat n)).
Proof.
  rewrite Nat2Z.inj_succ, (seqZ_cons 0 (Z.succ (Z.of_nat n))) by lia. cbn [map]. f_equal.
  replace (seqZ (Z.succ 0) (Z.pred (Z.succ (Z.of_nat n))))
    with (Z.add 1 <$> seqZ 0 (Z.of_nat n))
    by (rewrite fmap_add_seqZ; f_equal; lia).
  change (map ?g (?h <$> ?l)) with (g <$> (h <$> l)).
  rewrite <- list_fmap_compose. reflexivity.
Qed.

(** The software readback of [count] frames from [batchIdx]: frame
    [batchIdx + k] is read at [tempPAllocatedResource + k * bufferByteSize]. *)
Lemma detensorize_cpu_loop_run (c : ConverterResources) (frames : list VideoFrame)
    (bufferByteSize : Z) (count : nat) :
  forall (batchIdx p : Z) (s : State),
  0 <= batchIdx ->
  (Z.to_nat batchIdx + count <= length frames)%nat ->
  exists s',
    detensorize_cpu_loop c frames batchIdx count p bufferByteSize s = (Ret tt, s') /\
    trace (st_world s') =
      trace (st_world s) ++
      map (fun k => EvSoftwareTensorToVideoFrame c (batchIdx + k) (p + k * bufferByteSize))
        (seqZ 0 (Z.of_nat count)).
Proof.
  induction count as [|count IH]; intros batchIdx p s Hidx Hlen.
  - exists s. simpl. rewrite app_nil_r. auto.
  - cbn [detensorize_cpu_loop]. unfold mbind at 1, M_bind, lift.
    destruct (GetAt_Ret frames batchIdx Hidx ltac:(lia)) as [f ->].
    unfold mbind at 1, M_bind, tell, on_world, with_world. cbn [fst snd].
    match goal with
    | |- context [detensorize_cpu_loop c frames (batchIdx + 1) count ?q bufferByteSize ?s1] =>
        destruct (IH (batchIdx + 1) q s1) as (s2 & Hs2 & Ht2); [lia | lia |]
    end.
    exists s2. split; [exact Hs2|]. rewrite Ht2. cbn [st_world log trace].
    rewrite seqZ_succ_map, <- app_assoc. cbn [app]. do 2 f_equal.
    + f_equal; lia.
    + apply map_ext. intros k. f_equal; lia.
Qed.

(** The device readback of [count] frames from [start]: every frame is
    converted, the device is waited for, and the allocator is reset, in
    this order. *)
Lemma detensorize_gpu_run (c : ConverterResources) (frames : list VideoFrame)
    (count : nat) :
  forall (start : Z) (s : State),
  0 <= start ->
  (Z.to_nat start + count <= length frames)%nat ->
  exists s',
    for_range start count (detensorize_gpu_body c frames) s = (Ret tt, s') /\
    trace (st_world s') =
      trace (st_world s) ++
      flat_map (fun k => [EvDX12TensorToVideoFrame c (start + k); EvSyncD3D12ToCPU;
                          EvResetAllocator c])
        (seqZ 0 (Z.of_nat count)).
Proof.
  induction count as [|count IH]; intros start s Hidx Hlen.
  - exists s. simpl. rewrite app_nil_r. auto.
  - cbn [for_range]. unfold mbind at 1, M_bind.
    unfold detensorize_gpu_body at 1. unfold mbind at 1, M_bind, lift.
    destruct (GetAt_Ret frames start Hidx ltac:(lia)) as [f ->].
    unfold mbind, M_bind, tell, on_world, with_world. cbn [fst snd].
    match goal with
    | |- context [for_range (start + 1) count ?b ?s1] =>
        destruct (IH (start + 1) s1) as (s2 & Hs2 & Ht2); [lia | lia |]
    end.
    exists s2. split; [exact Hs2|]. rewrite Ht2. cbn [st_world log trace].
    rewrite !flat_map_concat_map, seqZ_succ_map. cbn [concat].
    rewrite <- !app_assoc. cbn [app]. rewrite Z.add_0_r. do 4 f_equal.
    f_equal. apply map_ext. intros k. do 2 f_equal. lia.
Qed.

(** The resolution reads the batch size and the extents only. *)
Lemma GetInputMetadata_ext (t t' : ImageFeatureValue) (context : BindingContext) :
  m_batchSize t' = m_batchSize t -> m_widths t' = m_widths t ->
  m_heights t' = m_heights t ->
  GetInputMetadata t' context = GetInputMetadata t context.
Proof.
  destruct t, t'. simpl. intros -> -> ->. reflexivity.
Qed.

(** The course of a readback whose metadata resolves: the adapter is
    there afterwards, and the conversion and the release of the slot run
    from a state with the binding context and the world of the start. *)
Lemma UpdateSourceResourceData_run (engine : Engine) (ort_value : OrtValue) (s : State)
    (md : ImageResourceMetadata) :
  GetInputMetadata (st_this s) (st_context s) = Ret (Some md) ->
  m_adapter (st_this s) = true \/ OrtGetWinMLAdapter engine = S_OK ->
  GetTensorMutableData engine = true ->
  exists s1,
    st_context s1 = st_context s /\ st_world s1 = st_world s /\
    m_videoFrames (st_this s1) = m_videoFrames (st_this s) /\
    m_batchSize (st_this s1) = m_batchSize (st_this s) /\
    UpdateSourceResourceData engine ort_value s =
      (let this := st_this s1 in
       let spSession := session (st_context s) in
       let w := to_int32 (size_at (TensorDescriptor md) 3) in
       let h := to_int32 (size_at (TensorDescriptor md) 2) in
       _ ← (if on_cpu ort_value then
              let descriptor :=
                {| pixel_format := BitmapPixelFormat.Bgra8; width := w; height := h;
                   luid := 0 |} in
              c ← with_world (Fetch DetensorizerStore descriptor);
              pooledConverter ← with_world (PoolObjectWrapper_Create c);
              scoped_wrapper pooledConverter
                (bufferSize ← lift (accumulate_multiplies (sizes (TensorDescriptor md)) 1);
                 elementSize ← lift (GetSizeFromTensorDataType
                                       (dataType (TensorDescriptor md)));
                 total ← lift (mul_int64 elementSize bufferSize);
                 bufferByteSize ← lift (div_int64 total (m_batchSize this));
                 detensorize_cpu_loop c (m_videoFrames this) 0
                   (Z.to_nat (m_batchSize this)) 0 bufferByteSize)
            else
              let descriptor :=
                {| pixel_format := DirectXPixelFormat.B8G8R8X8UIntNormalized;
                   width := w; height := h; luid := AdapterLuid spSession |} in
              c ← with_world (Fetch DetensorizerStore descriptor);
              pooledConverter ← with_world (PoolObjectWrapper_Create c);
              scoped_wrapper pooledConverter
                (for_range 0 (Z.to_nat (m_batchSize this))
                   (detensorize_gpu_body c (m_videoFrames this))));
       set_context_converter None) s1.
Proof.
  intros Hmd Had Hgd.
  assert (Hea : exists s1, ensure_adapter engine s = (Ret tt, s1)).
  { destruct (ensure_adapter_ok engine s Had) as (s1 & E & _). eauto. }
  destruct Hea as [s1 Hea]. exists s1.
  pose proof Hea as Hea'.
  apply ensure_adapter_Ret in Hea' as (Hc & Hw & _ & (H1 & H2 & H3 & H4 & _) & _).
  split; [exact Hc|]. split; [exact Hw|]. split; [exact H1|]. split; [exact H2|].
  unfold UpdateSourceResourceData, get_context, get_this.
  unfold mbind at 1, M_bind at 1. unfold mbind at 1, M_bind at 1. rewrite Hea.
  unfold mbind at 1, M_bind at 1. unfold lift at 1. rewrite Hgd. cbn [ThrowOnError].
  unfold mbind at 1, M_bind at 1. unfold mbind at 1, M_bind at 1. unfold lift at 1.
  rewrite (GetInputMetadata_ext (st_this s) (st_this s1) (st_context s) H2 H3 H4), Hmd.
  unfold mbind at 1, M_bind at 1. unfold lift at 1. cbn [optional_value].
  reflexivity.
Qed.

Lemma cpu_reads_software (c : ConverterResources) (f g : Z -> Z) (l : list Z) :
  cpu_reads (map (fun k => EvSoftwareTensorToVideoFrame c (f k) (g k)) l) =
  map (fun k => (f k, g k)) l.
Proof. induction l as [|k l IH]; [reflexivity|]. simpl. rewrite IH. reflexivity. Qed.

Lemma device_readback_steps (c : ConverterResources) (f : Z -> Z) (l : list Z) :
  device_readback
    (flat_map (fun k => [EvDX12TensorToVideoFrame c (f k); EvSyncD3D12ToCPU;
                         EvResetAllocator c]) l) =
  flat_map (fun k => [EvDX12TensorToVideoFrame c (f k); EvSyncD3D12ToCPU;
                      EvResetAllocator c]) l.
Proof. induction l as [|k l IH]; [reflexivity|]. simpl. rewrite IH. reflexivity. Qed.

Lemma set_context_converter_None_trace (s : State) :
  exists s' t,
    set_context_converter None s = (Ret tt, s') /\
    trace (st_world s') = trace (st_world s) ++ t /\
    cpu_reads t = [] /\ device_readback t = [] /\ fetched t = [].
Proof.
  unfold set_context_converter, assign_converter.
  destruct (shared_ptr_reset_trace (converter (st_context s)) (st_world s))
    as (t & Ht & H1 & H2 & H3).
  eexists; exists t. split; [reflexivity|]. cbn [st_world]. auto.
Qed.

(** X24. The software readback reads frame [k] of the tensor at [k]
    times the size of one frame, computed in 64 bits: when the byte count
    of the tensor does not overflow, no size is too large for the
    offsets. *)
Theorem readback_reads_frames_at_64_bit_offsets (engine : Engine) (ort_value : OrtValue)
    (s : State) (md : ImageResourceMetadata) (elementSize c h w : Z) :
  GetInputMetadata (st_this s) (st_context s) = Ret (Some md) ->
  on_cpu ort_value = true ->
  m_adapter (st_this s) = true \/ OrtGetWinMLAdapter engine = S_OK ->
  GetTensorMutableData engine = true ->
  m_batchSize (st_this s) = Z.of_nat (length (m_videoFrames (st_this s))) ->
  0 < m_batchSize (st_this s) ->
  sizes (TensorDescriptor md) = [m_batchSize (st_this s); c; h; w] ->
  0 < c -> 0 < h -> 0 < w ->
  GetSizeFromTensorDataType (dataType (TensorDescriptor md)) = Ret elementSize ->
  0 < elementSize ->
  elementSize * (m_batchSize (st_this s) * c * h * w) <= INT64_MAX ->
  exists s',
    UpdateSourceResourceData engine ort_value s = (Ret tt, s') /\
    cpu_reads (trace (st_world s')) =
      cpu_reads (trace (st_world s)) ++
      map (fun k => (k, k * (elementSize * (c * h * w))))
        (seqZ 0 (m_batchSize (st_this s))).
Proof.
  intros Hmd Hcpu Had Hgd Hbs Hbpos Hsz Hc Hh Hw Hes Hepos Hmax.
  destruct (UpdateSourceResourceData_run engine ort_value s md Hmd Had Hgd)
    as (s1 & Hc1 & Hw1 & Hf1 & Hb1 & ->).
  cbv zeta. rewrite Hcpu, Hb1, Hf1.
  set (batch := m_batchSize (st_this s)) in *.
  set (d := {| pixel_format := _; width := _; height := _; luid := _ |}).
  set (body := fun c0 : ConverterResources =>
         bufferSize ← lift (accumulate_multiplies (sizes (TensorDescriptor md)) 1);
         elementSize ← lift (GetSizeFromTensorDataType (dataType (TensorDescriptor md)));
         total ← lift (mul_int64 elementSize bufferSize);
         bufferByteSize ← lift (div_int64 total batch);
         detensorize_cpu_loop c0 (m_videoFrames (st_this s)) 0 (Z.to_nat batch) 0
           bufferByteSize).
  destruct (pooled_scope DetensorizerStore d body s1)
    as (Hfst & _ & _ & _ & _ & t & _ & _ & Hinner & Htr).
  { intros c0. unfold body.
    apply only_converts_bind; [apply only_converts_lift|]. intros bufferSize.
    apply only_converts_bind; [apply only_converts_lift|]. intros es.
    apply only_converts_bind; [apply only_converts_lift|]. intros total.
    apply only_converts_bind; [apply only_converts_lift|]. intros bufferByteSize.
    apply only_converts_detensorize_cpu_loop. }
  cbv zeta in Hfst, Hinner, Htr.
  set (c0 := fst (Fetch DetensorizerStore d (st_world s1))) in *.
  set (s2 := {| st_this := st_this s1; st_context := st_context s1;
                st_world := snd (PoolObjectWrapper_Create c0
                                   (snd (Fetch DetensorizerStore d (st_world s1)))) |}) in *.
  assert (Hin : exists s3,
             body c0 s2 = (Ret tt, s3) /\
             trace (st_world s3) =
               trace (st_world s2) ++
               map (fun k => EvSoftwareTensorToVideoFrame c0 (0 + k)
                               (0 + k * (elementSize * (c * h * w))))
                 (seqZ 0 (Z.of_nat (Z.to_nat batch)))).
  { unfold body, lift. unfold mbind at 1, M_bind. rewrite Hsz.
    assert (Hprod : batch * c * h * w <= INT64_MAX) by (unfold INT64_MAX in *; nia).
    rewrite (accumulate_multiplies_sizes batch c h w Hbpos Hc Hh Hw Hprod).
    unfold mbind at 1, M_bind. rewrite Hes.
    unfold mbind at 1, M_bind.
    assert (Hmul : mul_int64 elementSize (batch * c * h * w) =
                   Ret (elementSize * (batch * c * h * w))).
    { unfold mul_int64, INT64_MIN. unfold INT64_MAX in *.
      destruct (Z.leb_spec (-9223372036854775808) (elementSize * (batch * c * h * w)));
        [|nia].
      destruct (Z.leb_spec (elementSize * (batch * c * h * w)) 9223372036854775807);
        [reflexivity | lia]. }
    rewrite Hmul. unfold mbind at 1, M_bind. unfold div_int64.
    destruct (Z.eqb_spec batch 0) as [Hz | _]; [lia|].
    assert (Hdiv : Z.quot (elementSize * (batch * c * h * w)) batch =
                   elementSize * (c * h * w)).
    { rewrite Z.quot_div_nonneg by nia.
      replace (elementSize * (batch * c * h * w))
        with (elementSize * (c * h * w) * batch) by lia.
      apply Z.div_mul. lia. }
    rewrite Hdiv.
    apply detensorize_cpu_loop_run; [lia|]. simpl. lia. }
  destruct Hin as (s3 & Hbody & Ht3).
  rewrite Hbody in Hfst, Hinner. cbn [fst snd] in Hfst, Hinner.
  match goal with
  | |- exists _, (?m ≫= ?k) s1 = _ /\ _ =>
      change m with (c ← with_world (Fetch DetensorizerStore d);
                     pooledConverter ← with_world (PoolObjectWrapper_Create c);
                     scoped_wrapper pooledConverter (body c))
  end.
  unfold mbind at 1, M_bind at 1.
  match type of Hfst with
  | fst ?r = _ => destruct r as [o s4] eqn:Hr
  end.
  cbn [fst snd] in Hfst, Htr. subst o. cbv beta iota.
  destruct (set_context_converter_None_trace s4) as (s' & t' & -> & Ht' & Hr' & _).
  exists s'. split; [reflexivity|].
  assert (Ht : t = map (fun k => EvSoftwareTensorToVideoFrame c0 (0 + k)
                                   (0 + k * (elementSize * (c * h * w))))
                     (seqZ 0 (Z.of_nat (Z.to_nat batch)))).
  { rewrite Ht3 in Hinner. unfold s2 in Hinner.
    cbn [st_world PoolObjectWrapper_Create snd trace] in Hinner.
    rewrite Fetch_trace, <- !app_assoc in Hinner. fold c0 in Hinner.
    apply app_inv_head in Hinner. cbn [app] in Hinner. injection Hinner as Hinner.
    symmetry. exact Hinner. }
  rewrite Ht', Htr, Hw1, !cpu_reads_app, Hr', Ht, cpu_reads_software. simpl.
  rewrite !app_nil_r, Z2Nat.id by lia. reflexivity.
Qed.

Lemma readback_reads_frames_at_64_bit_offsets_witness :
  let s := make_state [BitmapFrame 640 480; BitmapFrame 640 480]
             (make_context kOutput cpu_session
                (ImageFeatureDescriptor 32768 32768 BitmapPixelFormat.Bgra8 TK_Float) None) in
  let ort_value :=
    {| ov_shape := [2; 3; 32768; 32768]; ov_float32 := true;
       ov_allocator :=
         {| alloc_id := 0; alloc_name := "Cpu"; alloc_mem_type := OrtMemTypeDefault |} |} in
  exists s',
    UpdateSourceResourceData working_engine ort_value s = (Ret tt, s') /\
    cpu_reads (trace (st_world s')) = [(0, 0); (1, 12884901888)].
Proof.
  intros s ort_value.
  destruct (GetInputMetadata (st_this s) (st_context s)) as [[md|]| | | |] eqn:E;
    try (vm_compute in E; discriminate E).
  assert (Hmd : md = {| Bounds := [whole_frame 640 480; whole_frame 640 480];
                        TensorDescriptor :=
                          {| dataType := kImageTensorDataTypeFloat32;
                             channelType := kImageTensorChannelTypeBGR8;
                             sizes := [2; 3; 32768; 32768] |} |}).
  { vm_compute in E. injection E as <-. reflexivity. }
  destruct (readback_reads_frames_at_64_bit_offsets working_engine ort_value s md
              4 3 32768 32768) as (s' & Hs' & Hreads);
    try exact E; try (rewrite Hmd; reflexivity); try reflexivity; try lia;
    try (vm_compute; discriminate).
  - right. reflexivity.
  - exists s'. split; [exact Hs' | exact Hreads].
Defined.

(** X25. The device readback uses one detensorizer for the whole batch,
    and for every frame, in order, it converts the tensor to the frame,
    waits for the device, and only then resets the allocator of the
    converter. *)
Theorem device_readback_syncs_before_reset (engine : Engine) (ort_value : OrtValue)
    (s : State) (md : ImageResourceMetadata) :
  GetInputMetadata (st_this s) (st_context s) = Ret (Some md) ->
  on_cpu ort_value = false ->
  m_adapter (st_this s) = true \/ OrtGetWinMLAdapter engine = S_OK ->
  GetTensorMutableData engine = true ->
  m_batchSize (st_this s) = Z.of_nat (length (m_videoFrames (st_this s))) ->
  exists s' c,
    UpdateSourceResourceData engine ort_value s = (Ret tt, s') /\
    cr_store c = DetensorizerStore /\
    fetched (trace (st_world s')) = fetched (trace (st_world s)) ++ [c] /\
    device_readback (trace (st_world s')) =
      device_readback (trace (st_world s)) ++
      flat_map (fun k => [EvDX12TensorToVideoFrame c k; EvSyncD3D12ToCPU;
                          EvResetAllocator c])
        (seqZ 0 (m_batchSize (st_this s))).
Proof.
  intros Hmd Hcpu Had Hgd Hbs.
  destruct (UpdateSourceResourceData_run engine ort_value s md Hmd Had Hgd)
    as (s1 & Hc1 & Hw1 & Hf1 & Hb1 & ->).
  cbv zeta. rewrite Hcpu, Hb1, Hf1.
  set (batch := m_batchSize (st_this s)) in *.
  set (d := {| pixel_format := _; width := _; height := _; luid := _ |}).
  set (body := fun c0 : ConverterResources =>
         for_range 0 (Z.to_nat batch) (detensorize_gpu_body c0 (m_videoFrames (st_this s)))).
  destruct (pooled_scope DetensorizerStore d body s1)
    as (Hfst & _ & _ & Hm & _ & t & _ & _ & Hinner & Htr).
  { intros c0. unfold body. apply only_converts_for_range. intros i.
    apply only_converts_detensorize_gpu_body. }
  cbv zeta in Hfst, Hinner, Htr, Hm.
  set (c0 := fst (Fetch DetensorizerStore d (st_world s1))) in *.
  set (s2 := {| st_this := st_this s1; st_context := st_context s1;
                st_world := snd (PoolObjectWrapper_Create c0
                                   (snd (Fetch DetensorizerStore d (st_world s1)))) |}) in *.
  destruct (detensorize_gpu_run c0 (m_videoFrames (st_this s)) (Z.to_nat batch) 0 s2)
    as (s3 & Hbody & Ht3); [lia | simpl; lia |].
  fold (body c0) in Hbody.
  rewrite Hbody in Hfst, Hinner. cbn [fst snd] in Hfst, Hinner.
  match goal with
  | |- exists _ _, (?m ≫= ?k) s1 = _ /\ _ =>
      change m with (c ← with_world (Fetch DetensorizerStore d);
                     pooledConverter ← with_world (PoolObjectWrapper_Create c);
                     scoped_wrapper pooledConverter (body c))
  end.
  unfold mbind at 1, M_bind at 1.
  match type of Hfst with
  | fst ?r = _ => destruct r as [o s4] eqn:Hr
  end.
  cbn [fst snd] in Hfst, Htr. subst o. cbv beta iota.
  destruct (set_context_converter_None_trace s4) as (s' & t' & -> & Ht' & _ & Hd' & Hf').
  exists s', c0. split; [reflexivity|]. split.
  { unfold matches_key in Hm. apply andb_true_iff in Hm as [Hm _].
    apply bool_decide_eq_true in Hm. exact Hm. }
  assert (Ht : t = flat_map (fun k => [EvDX12TensorToVideoFrame c0 (0 + k); EvSyncD3D12ToCPU;
                                       EvResetAllocator c0])
                     (seqZ 0 (Z.of_nat (Z.to_nat batch)))).
  { rewrite Ht3 in Hinner. unfold s2 in Hinner.
    cbn [st_world PoolObjectWrapper_Create snd trace] in Hinner.
    rewrite Fetch_trace, <- !app_assoc in Hinner. fold c0 in Hinner.
    apply app_inv_head in Hinner. cbn [app] in Hinner. injection Hinner as Hinner.
    symmetry. exact Hinner. }
  assert (Hfe : fetched t = []).
  { rewrite Ht. generalize (seqZ 0 (Z.of_nat (Z.to_nat batch))).
    intros l. induction l as [|k l IH]; [reflexivity | exact IH]. }
  assert (Hbatch : Z.of_nat (Z.to_nat batch) = batch) by lia.
  rewrite Ht', Htr, Hw1, !fetched_app, !device_readback_app, Hd', Hf', Hfe.
  rewrite Ht, device_readback_steps, Hbatch. simpl. rewrite !app_nil_r. split; [reflexivity|].
  f_equal.
Qed.

Lemma device_readback_syncs_before_reset_witness :
  let s := make_state [SurfaceFrame 640 480; SurfaceFrame 640 480]
             (make_context kOutput gpu_session
                (TensorFeatureDescriptor [2; 3; 224; 224] TK_Float) None) in
  let ort_value :=
    {| ov_shape := [2; 3; 224; 224]; ov_float32 := true;
       ov_allocator := snd (GetProviderAllocator working_engine) |} in
  exists s' c,
    UpdateSourceResourceData working_engine ort_value s = (Ret tt, s') /\
    device_readback (trace (st_world s')) =
      [EvDX12TensorToVideoFrame c 0; EvSyncD3D12ToCPU; EvResetAllocator c;
       EvDX12TensorToVideoFrame c 1; EvSyncD3D12ToCPU; EvResetAllocator c].
Proof.
  intros s ort_value.
  destruct (GetInputMetadata (st_this s) (st_context s)) as [[md|]| | | |] eqn:E;
    try (vm_compute in E; discriminate E).
  destruct (device_readback_syncs_before_reset working_engine ort_value s md)
    as (s' & c & Hs' & _ & _ & Hsteps);
    try exact E; try reflexivity.
  - right. reflexivity.
  - exists s', c. split; [exact Hs' | exact Hsteps].
Defined.

(** ** Worked instances of the batch lemmas *)

Lemma bounds_within_frame_without_override_witness :
  let this := Initialize [BitmapFrame 640 480; BitmapFrame 100 300] in
  let context :=
    make_context kInput cpu_session
      (ImageFeatureDescriptor 224 224 BitmapPixelFormat.Bgra8 TK_Float) None in
  exists md,
    GetInputMetadata this context = Ret (Some md) /\
    length (Bounds md) = 2%nat /\
    forall (i : nat) (b : BitmapBounds),
      Bounds md !! i = Some b ->
      exists W H,
        m_widths this !! i = Some W /\ m_heights this !! i = Some H /\ within_frame b W H.
Proof.
  intros this context.
  destruct (GetInputMetadata this context) as [[md|]| | | |] eqn:E;
    try (vm_compute in E; discriminate E).
  exists md. split; [reflexivity|].
  apply (bounds_within_frame_without_override this context md eq_refl E).
  - simpl. repeat (apply Forall_cons_2; [vm_compute; split; [discriminate | reflexivity]|]).
    apply Forall_nil_2.
  - simpl. repeat (apply Forall_cons_2; [vm_compute; split; [discriminate | reflexivity]|]).
    apply Forall_nil_2.
Defined.

Lemma GetOrtValue_cpu_offsets_witness :
  let s := make_state [BitmapFrame 640 480; BitmapFrame 640 480]
             (make_context kInput cpu_session
                (ImageFeatureDescriptor 224 224 BitmapPixelFormat.Bgra8 TK_Float) None) in
  exists v s',
    GetOrtValue working_engine s = (Ret v, s') /\
    cpu_writes (trace (st_world s')) = [(0, 0); (1, 602112)].
Proof.
  intros s.
  destruct (GetInputMetadata (st_this s) (st_context s)) as [[md|]| | | |] eqn:E;
    try (vm_compute in E; discriminate E).
  assert (Hsz : sizes (TensorDescriptor md) = [2; 3; 224; 224] /\
                dataType (TensorDescriptor md) = kImageTensorDataTypeFloat32).
  { vm_compute in E. injection E as <-. split; reflexivity. }
  destruct Hsz as [Hsz Hdt].
  assert (Hes : GetSizeFromTensorDataType (dataType (TensorDescriptor md)) = Ret 4)
    by (rewrite Hdt; reflexivity).
  assert (Hmax : 4 * (m_batchSize (st_this s) * 3 * 224 * 224) <= INT64_MAX)
    by (vm_compute; discriminate).
  destruct (GetOrtValue_cpu_offsets working_engine s md 4 3 224 224
              eq_refl eq_refl E eq_refl eq_refl (or_intror eq_refl) eq_refl eq_refl eq_refl
              eq_refl eq_refl Hsz eq_refl eq_refl eq_refl Hes eq_refl Hmax eq_refl)
    as (v & s' & Hrun & _ & Hwrites).
  exists v, s'. split; [exact Hrun | exact Hwrites].
Defined.

Lemma GPUTensorize_returns_all_but_last_witness :
  let frames := [SurfaceFrame 640 480; SurfaceFrame 640 480; SurfaceFrame 640 480] in
  let s := make_state frames
             (make_context kInput gpu_session
                (TensorFeatureDescriptor [3; 3; 224; 224] TK_Float) None) in
  let b := {| X := 80; Y := 0; Width := 480; Height := 480 |} in
  let td := {| dataType := kImageTensorDataTypeFloat32;
               channelType := kImageTensorChannelTypeBGR8;
               sizes := [3; 3; 224; 224] |} in
  let no_adapter :=
    {| OrtGetWinMLAdapter := E_FAIL;
       GetProviderAllocator := GetProviderAllocator working_engine;
       CreateTensor := true; GetTensorMutableData := true |} in
  GPUTensorize no_adapter frames [b; b; b] td gpu_session s = (Throw E_FAIL, s) /\
  exists s' p c subs,
    GPUTensorize working_engine frames [b; b; b] td gpu_session s = (Ret tt, s') /\
    gpu_submissions (trace (st_world s')) = subs /\
    map snd subs = [0; 1; 2] /\
    returned (trace (st_world s')) = removelast (map fst subs) /\
    converter (st_context s') = Some p /\
    wrappers (st_world s') !! p = Some (1%nat, c) /\
    last (map fst subs) = Some c.
Proof.
  intros frames s b td no_adapter.
  assert (Hfresh : fresh_wrappers (st_world s)) by (intros k _; reflexivity).
  assert (Hlen : (length frames <= length [b; b; b])%nat) by (simpl; lia).
  assert (Hne : frames <> []) by discriminate.
  destruct (GPUTensorize_returns_all_but_last working_engine frames [b; b; b] td
              gpu_session s Hfresh eq_refl Hne Hlen) as [_ Hrun].
  destruct (GPUTensorize_returns_all_but_last no_adapter frames [b; b; b] td
              gpu_session s Hfresh eq_refl Hne Hlen) as [Hthrow _].
  split; [apply Hthrow; discriminate | exact (Hrun eq_refl)].
Defined.

(** ** The failures of the resolution, one by one *)

Lemma throws_only_weaken {A} (P Q : HRESULT -> Prop) (o : Outcome A) :
  (forall hr, P hr -> Q hr) -> throws_only P o -> throws_only Q o.
Proof. intros H. destruct o; simpl; auto. Qed.

Lemma GetBoundsFromMetadata_failures (properties : IPropertySet) :
  throws_only property_failure (GetBoundsFromMetadata properties).
Proof.
  unfold GetBoundsFromMetadata, property_failure.
  destruct properties as [p|]; [|exact I].
  destruct (HasKey p "BitmapBounds"); [|exact I].
  destruct (Lookup p "BitmapBounds") as [|[v|v|]|]; simpl; auto.
  destruct v as [|b0 [|b1 [|b2 [|b3 [|b4 v]]]]]; simpl; auto.
Qed.

Lemma GetBitmapPixelFormatFromMetadata_failures (properties : IPropertySet) :
  throws_only property_failure (GetBitmapPixelFormatFromMetadata properties).
Proof.
  unfold GetBitmapPixelFormatFromMetadata, property_failure.
  destruct properties as [p|]; [|exact I].
  destruct (HasKey p "BitmapPixelFormat"); [|exact I].
  destruct (Lookup p "BitmapPixelFormat") as [|[v|v|]|]; simpl; auto.
  destruct (supported_format v); simpl; auto.
Qed.

Lemma frame_bounds_failures (this : ImageFeatureValue) (context : BindingContext)
    (dw dh i : Z) :
  throws_only property_failure (frame_bounds this context dw dh i).
Proof.
  unfold frame_bounds.
  apply throws_only_bind; [apply GetBoundsFromMetadata_failures|].
  intros [b|]; [exact I|]. destruct (type context).
  - unfold CenterAndCropBounds.
    apply throws_only_bind; [apply vector_at_throws|]. intros h.
    apply throws_only_bind; [apply vector_at_throws|]. intros w.
    apply throws_only_bind.
    + destruct (F32.ltb _ _);
        (apply throws_only_bind; [|intros; exact I]);
        unfold F32.to_UINT; (destruct (F32.trunc _); [destruct (_ && _)|]); exact I.
    + intros b. apply throws_only_bind; [|intros; exact I].
      unfold WINML_THROW_HR_IF_FALSE_MSG, property_failure. destruct (_ && _); simpl; auto.
  - apply throws_only_bind; [apply vector_at_throws|]. intros w.
    apply throws_only_bind; [apply vector_at_throws|]. intros; exact I.
Qed.

(** X26. The failures of the metadata resolution: it raises the
    invalid-argument failure, the invalid-binding failure, the two failures
    of reading a property value, or the not-implemented failure, and no
    other HRESULT; and it raises the not-implemented failure only for an
    image descriptor that declares a pixel format other than [Rgba8],
    [Bgra8] and [Gray8] while the property bag gives no override. *)
Theorem failures_of_the_resolution (this : ImageFeatureValue) (context : BindingContext)
    (hr : HRESULT) :
  GetInputMetadata this context = Throw hr ->
  hr = E_INVALIDARG \/ property_failure hr \/
  (hr = E_NOTIMPL /\
   GetBitmapPixelFormatFromMetadata (properties context) = Ret None /\
   exists W H f kind,
     descriptor context = ImageFeatureDescriptor W H f kind /\
     supported_format f = false).
Proof.
  unfold GetInputMetadata. intros E.
  apply bind_Throw in E as [E | (extents & He & E)].
  { pose proof (resolve_extents_throws this (descriptor context)) as Ht.
    rewrite E in Ht. left. exact Ht. }
  destruct extents as [[[dw dh] kind]|]; [|discriminate].
  apply bind_Throw in E as [E | (bounds & _ & E)].
  { pose proof (throws_only_mapM property_failure
                  (frame_bounds this context dw dh) (seqZ 0 (m_batchSize this))
                  (frame_bounds_failures this context dw dh)) as Ht.
    rewrite E in Ht. right; left. exact Ht. }
  apply bind_Throw in E as [E | (pixelFormat & Hpf & E)].
  { unfold resolve_pixel_format in E.
    apply bind_Throw in E as [E | (o & Ho & E)].
    - pose proof (GetBitmapPixelFormatFromMetadata_failures (properties context)) as Ht.
      rewrite E in Ht. right; left. exact Ht.
    - destruct o as [f|]; [discriminate|].
      destruct (descriptor context) as [W H declared k|shape k|] eqn:Hd; try discriminate.
      apply resolve_extents_channels in He as [_ [Hc | Hc]]; rewrite Hc in E;
        discriminate. }
  destruct pixelFormat as [f|]; [|discriminate]. simpl in E.
  apply bind_Throw in E as [E | (d & _ & E)]; [|discriminate].
  unfold CreateImageTensorDescriptor in E.
  apply bind_Throw in E as [E | (dt & _ & E)].
  { right; left. left. destruct kind; simpl in E; congruence. }
  destruct (f =? BitmapPixelFormat.Rgba8) eqn:E1; [discriminate|].
  destruct (f =? BitmapPixelFormat.Bgra8) eqn:E2; [discriminate|].
  destruct (f =? BitmapPixelFormat.Gray8) eqn:E3; [discriminate|].
  injection E as <-.
  assert (Hf : supported_format f = false).
  { unfold supported_format. rewrite E1, E2, E3. reflexivity. }
  unfold resolve_pixel_format in Hpf.
  apply bind_Ret in Hpf as (o & Ho & Hpf).
  destruct o as [f'|].
  { injection Hpf as ->. apply GetBitmapPixelFormatFromMetadata_supported in Ho.
    congruence. }
  right; right. split; [reflexivity|]. split; [exact Ho|].
  destruct (descriptor context) as [W H declared k|shape k|]; [| |discriminate].
  - injection Hpf as ->. exists W, H, f, k. auto.
  - destruct (_ =? 1); [injection Hpf as <-; discriminate|].
    destruct (_ =? 3); [injection Hpf as <-; discriminate | discriminate].
Qed.

Lemma failures_of_the_resolution_witness :
  let this := Initialize [BitmapFrame 640 480] in
  let context :=
    make_context kOutput cpu_session
      (ImageFeatureDescriptor 224 224 BitmapPixelFormat.Nv12 TK_Float) None in
  GetInputMetadata this context = Throw E_NOTIMPL /\
  exists W H f kind,
    descriptor context = ImageFeatureDescriptor W H f kind /\
    supported_format f = false.
Proof.
  intros this context.
  assert (E : GetInputMetadata this context = Throw E_NOTIMPL) by reflexivity.
  split; [exact E|].
  destruct (failures_of_the_resolution this context E_NOTIMPL E)
    as [H | [[H | [H | H]] | (_ & _ & H)]]; try discriminate H.
  exact H.
Defined.

(** ** Defined behaviour of the resolution *)

Lemma defined_bind {A B} (m : Outcome A) (f : A -> Outcome B) :
  defined m -> (forall a, m = Ret a -> defined (f a)) -> defined (m ≫= f).
Proof. unfold defined. destruct m; simpl; auto; discriminate. Qed.

Lemma defined_mapM {A B} (f : A -> Outcome B) (l : list A) :
  (forall a, a ∈ l -> defined (f a)) -> defined (mapM f l).
Proof.
  induction l as [|a l IH]; intros Hf; simpl; [discriminate|].
  apply defined_bind; [apply Hf; left|]. intros b _.
  apply defined_bind; [apply IH; intros a' Ha'; apply Hf; right; exact Ha'|].
  intros; discriminate.
Qed.

Lemma has_value_bind {A B} (m : Outcome A) (f : A -> Outcome B) :
  has_value m -> (forall a, m = Ret a -> has_value (f a)) -> has_value (m ≫= f).
Proof. unfold has_value. destruct m; simpl; auto; discriminate. Qed.

Lemma has_value_mapM {A B} (f : A -> Outcome B) (l : list A) :
  (forall a, has_value (f a)) -> has_value (mapM f l).
Proof.
  intros Hf. induction l as [|a l IH]; simpl; [discriminate|].
  apply has_value_bind; [apply Hf|]. intros b _.
  apply has_value_bind; [exact IH|]. intros; discriminate.
Qed.

Lemma has_value_vector_at {A} (v : list A) (i : Z) : has_value (vector_at v i).
Proof.
  unfold vector_at. destruct (i <? 0); [discriminate|]. destruct (v !! _); discriminate.
Qed.

Lemma has_value_GetBoundsFromMetadata (properties : IPropertySet) :
  has_value (GetBoundsFromMetadata properties).
Proof.
  unfold GetBoundsFromMetadata. destruct properties as [p|]; [|discriminate].
  destruct (HasKey p "BitmapBounds"); [|discriminate].
  destruct (Lookup p "BitmapBounds") as [|[v|v|]|]; simpl; try discriminate.
  destruct v as [|b0 [|b1 [|b2 [|b3 [|b4 v]]]]]; discriminate.
Qed.

Lemma defined_GetBoundsFromMetadata (properties : IPropertySet) :
  defined (GetBoundsFromMetadata properties).
Proof.
  unfold GetBoundsFromMetadata. destruct properties as [p|]; [|discriminate].
  destruct (HasKey p "BitmapBounds"); [|discriminate].
  destruct (Lookup p "BitmapBounds") as [|[v|v|]|]; simpl; try discriminate.
  destruct v as [|b0 [|b1 [|b2 [|b3 [|b4 v]]]]]; discriminate.
Qed.

Lemma has_value_frame_bounds (this : ImageFeatureValue) (context : BindingContext)
    (dw dh i : Z) :
  has_value (frame_bounds this context dw dh i).
Proof.
  unfold frame_bounds.
  apply has_value_bind; [apply has_value_GetBoundsFromMetadata|].
  intros [b|] _; [discriminate|]. destruct (type context).
  - unfold CenterAndCropBounds.
    apply has_value_bind; [apply has_value_vector_at|]. intros h _.
    apply has_value_bind; [apply has_value_vector_at|]. intros w _.
    apply has_value_bind.
    + destruct (F32.ltb _ _);
        (apply has_value_bind; [|intros; discriminate]);
        unfold F32.to_UINT; (destruct (F32.trunc _); [destruct (_ && _)|]); discriminate.
    + intros b _. apply has_value_bind; [|intros; discriminate].
      unfold WINML_THROW_HR_IF_FALSE_MSG. destruct (_ && _); discriminate.
  - apply has_value_bind; [apply has_value_vector_at|]. intros w _.
    apply has_value_bind; [apply has_value_vector_at|]. intros; discriminate.
Qed.

Lemma resolve_extents_outcome (this : ImageFeatureValue) (d : FeatureDescriptor) :
  has_value (resolve_extents this d) /\
  (m_widths this <> [] -> m_heights this <> [] -> defined (resolve_extents this d)).
Proof.
  assert (Hv : forall v : list Z, v <> [] -> defined (vector_at v 0)).
  { intros [|x v] Hne; [contradiction | discriminate]. }
  destruct d as [W H declared kind|shape kind|]; simpl; [| |split; intros; discriminate].
  - destruct (_ && _); [split; intros; discriminate|].
    destruct (_ && _); [split; intros; discriminate|]. split.
    + apply has_value_bind.
      { destruct (W =? _); [apply has_value_vector_at | discriminate]. }
      intros dw _. apply has_value_bind; [|intros; discriminate].
      destruct (H =? _); [apply has_value_vector_at | discriminate].
    + intros Hw Hh. apply defined_bind.
      { destruct (W =? _); [apply Hv, Hw | discriminate]. }
      intros dw _. apply defined_bind; [|intros; discriminate].
      destruct (H =? _); [apply Hv, Hh | discriminate].
  - destruct shape as [|a [|b [|c [|d [|x rest]]]]]; try (split; intros; discriminate).
    destruct (negb _); [split; intros; discriminate|].
    destruct (_ && _); [split; intros; discriminate|].
    destruct (_ && _); [split; intros; discriminate|]. split.
    + apply has_value_bind.
      { destruct (-1 =? d); [apply has_value_vector_at | discriminate]. }
      intros dw _. apply has_value_bind; [|intros; discriminate].
      destruct (-1 =? c); [apply has_value_vector_at | discriminate].
    + intros Hw Hh. apply defined_bind.
      { destruct (-1 =? d); [apply Hv, Hw | discriminate]. }
      intros dw _. apply defined_bind; [|intros; discriminate].
      destruct (-1 =? c); [apply Hv, Hh | discriminate].
Qed.

Lemma resolve_pixel_format_outcome (this : ImageFeatureValue) (context : BindingContext)
    (e : Z * Z * TensorKind) :
  resolve_extents this (descriptor context) = Ret (Some e) ->
  defined (resolve_pixel_format context) /\ has_value (resolve_pixel_format context) /\
  resolve_pixel_format context <> Ret None.
Proof.
  intros He. unfold resolve_pixel_format.
  assert (Hg : defined (GetBitmapPixelFormatFromMetadata (properties context)) /\
               has_value (GetBitmapPixelFormatFromMetadata (properties context))).
  { unfold GetBitmapPixelFormatFromMetadata.
    destruct (properties context) as [p|]; [|split; discriminate].
    destruct (HasKey p "BitmapPixelFormat"); [|split; discriminate].
    destruct (Lookup p "BitmapPixelFormat") as [|[v|v|]|]; simpl; try (split; discriminate).
    destruct (supported_format v); split; discriminate. }
  destruct Hg as [Hg1 Hg2].
  destruct (GetBitmapPixelFormatFromMetadata (properties context)) as [[f|]| | | |];
    simpl; try (repeat split; discriminate); try (exfalso; auto; fail).
  - destruct (descriptor context) as [W H declared k|shape k|];
      [repeat split; discriminate | | discriminate He].
    destruct (_ =? 1); [repeat split; discriminate|].
    destruct (_ =? 3); repeat split; discriminate.
Qed.

Lemma CreateImageTensorDescriptor_outcome (kind : TensorKind) (f : BitmapPixelFormat.t)
    (batch w h : Z) :
  defined (CreateImageTensorDescriptor kind f batch w h) /\
  has_value (CreateImageTensorDescriptor kind f batch w h).
Proof.
  unfold CreateImageTensorDescriptor.
  destruct kind; simpl; try (split; discriminate);
    (destruct (f =? _); [split; discriminate|]);
    (destruct (f =? _); [split; discriminate|]);
    destruct (f =? _); split; discriminate.
Qed.

(** X27. The resolution takes the value of its optional pixel format
    only when there is one, and for a nonempty batch it has no undefined
    behaviour when no crop is computed (an output binding, or bounds given
    by the property bag) or when the crop is computed on extents below
    [2^20]: no frame is indexed past the end and no floating-point value
    is converted out of range. *)
Theorem resolution_has_defined_behaviour (frames : list VideoFrame)
    (context : BindingContext) :
  frames <> [] ->
  (type context = kInput ->
   GetBoundsFromMetadata (properties context) = Ret None ->
   Forall small (m_widths (Initialize frames)) /\
   Forall small (m_heights (Initialize frames)) /\
   forall dw dh kind,
     resolve_extents (Initialize frames) (descriptor context) = Ret (Some (dw, dh, kind)) ->
     small dw /\ small dh) ->
  GetInputMetadata (Initialize frames) context <> Undefined /\
  GetInputMetadata (Initialize frames) context <> BadOptionalAccess.
Proof.
  intros Hne Hsmall. set (this := Initialize frames) in *.
  assert (Hw : m_widths this <> []) by (destruct frames; [contradiction | discriminate]).
  assert (Hh : m_heights this <> []) by (destruct frames; [contradiction | discriminate]).
  assert (Hlw : length (m_widths this) = length frames) by apply length_map.
  assert (Hlh : length (m_heights this) = length frames) by apply length_map.
  destruct (resolve_extents_outcome this (descriptor context)) as [Hev Hed].
  specialize (Hed Hw Hh). unfold GetInputMetadata.
  destruct (resolve_extents this (descriptor context)) as [[[[dw dh] kind]|]| | | |] eqn:He;
    simpl; try (split; discriminate);
    try (exfalso; first [apply Hev; reflexivity | apply Hed; reflexivity]).
  destruct (resolve_pixel_format_outcome this context _ He) as (Hpd & Hpv & Hpn).
  assert (Hin : forall i, i ∈ seqZ 0 (m_batchSize this) ->
            exists W H, vector_at (m_widths this) i = Ret W /\
                        vector_at (m_heights this) i = Ret H).
  { intros i Hi. apply elem_of_seqZ in Hi. unfold this at 1 in Hi. simpl in Hi.
    unfold vector_at. destruct (Z.ltb_spec i 0); [lia|].
    destruct (lookup_lt_is_Some_2 (m_widths this) (Z.to_nat i) ltac:(lia)) as [W HW].
    destruct (lookup_lt_is_Some_2 (m_heights this) (Z.to_nat i) ltac:(lia)) as [H' HH].
    rewrite HW, HH. eauto. }
  assert (Hfb : forall i, i ∈ seqZ 0 (m_batchSize this) ->
            defined (frame_bounds this context dw dh i)).
  { intros i Hi. destruct (Hin i Hi) as (W & H & HW & HH).
    unfold frame_bounds.
    apply defined_bind; [apply defined_GetBoundsFromMetadata|].
    intros [b|] Hb; [discriminate|].
    destruct (type context) eqn:Hty.
    - destruct (Hsmall eq_refl Hb) as (Hsw & Hsh & Hsd).
      destruct (Hsd dw dh kind eq_refl) as [Hdw Hdh].
      destruct (CenterAndCropBounds_one_pixel this i W H dw dh
                  (Forall_small_lookup _ _ _ Hsw HW) (Forall_small_lookup _ _ _ Hsh HH)
                  Hdw Hdh HW HH) as (b & -> & _).
      discriminate.
    - rewrite HW, HH. discriminate. }
  split.
  - apply defined_bind; [apply defined_mapM, Hfb|]. intros bounds _.
    apply defined_bind; [exact Hpd|]. intros [f|] Hf; [|contradiction].
    simpl. apply defined_bind; [|intros; discriminate].
    apply (proj1 (CreateImageTensorDescriptor_outcome _ _ _ _ _)).
  - apply has_value_bind; [apply has_value_mapM, has_value_frame_bounds|]. intros bounds _.
    apply has_value_bind; [exact Hpv|]. intros [f|] Hf; [|contradiction].
    simpl. apply has_value_bind; [|intros; discriminate].
    apply (proj2 (CreateImageTensorDescriptor_outcome _ _ _ _ _)).
Qed.

Lemma resolution_has_defined_behaviour_witness :
  let frames := [BitmapFrame 640 480; SurfaceFrame 1 480] in
  let context :=
    make_context kInput gpu_session
      (TensorFeatureDescriptor [2; 3; -1; 224] TK_Float) None in
  GetInputMetadata (Initialize frames) context <> Undefined /\
  GetInputMetadata (Initialize frames) context <> BadOptionalAccess.
Proof.
  intros frames context.
  apply (resolution_has_defined_behaviour frames context).
  - discriminate.
  - intros _ _. split; [|split].
    + simpl. repeat (apply Forall_cons_2; [vm_compute; split; reflexivity|]).
      apply Forall_nil_2.
    + simpl. repeat (apply Forall_cons_2; [vm_compute; split; reflexivity|]).
      apply Forall_nil_2.
    + intros dw dh kind E. vm_compute in E. injection E as <- <- <-.
      unfold small. lia.
Defined.

(** X28. An empty batch with a free extent: created with a batch size of
    zero, the feature value has no frame, the check of equal extents
    passes on the empty vectors, and the resolution reads the first width
    or height of an empty vector, for an image descriptor with a free
    width or height and for a four-dimensional tensor descriptor of one or
    three channels with a free height or width. *)
Theorem empty_batch_with_a_free_extent (format : BitmapPixelFormat.t) (w h : Z)
    (t : BindingType) (s : LearningModelSession) (properties : IPropertySet) :
  (forall W H f kind,
     W = MAXUINT32 \/ H = MAXUINT32 ->
     GetInputMetadata (Create 0 format w h)
       (make_context t s (ImageFeatureDescriptor W H f kind) properties) = Undefined) /\
  (forall n c H W kind,
     c = 1 \/ c = 3 ->
     H = -1 \/ W = -1 ->
     GetInputMetadata (Create 0 format w h)
       (make_context t s (TensorFeatureDescriptor [n; c; H; W] kind) properties) = Undefined).
Proof.
  assert (Hthis : Create 0 format w h = Initialize []) by reflexivity.
  rewrite Hthis. split.
  - intros W H f kind HWH. unfold GetInputMetadata, make_context, descriptor. simpl.
    destruct (Z.eqb_spec W MAXUINT32) as [->|HW];
      destruct (Z.eqb_spec H MAXUINT32) as [->|HH]; simpl; try reflexivity.
    destruct HWH; contradiction.
  - intros n c H W kind Hc HHW. unfold GetInputMetadata, make_context, descriptor. simpl.
    assert (Hch : (c =? 3) || (c =? 1) = true) by (destruct Hc as [-> | ->]; reflexivity).
    rewrite Hch. simpl.
    destruct (Z.eqb_spec (-1) W) as [<-|HW];
      destruct (Z.eqb_spec (-1) H) as [<-|HH]; simpl; try reflexivity.
    destruct HHW; congruence.
Qed.

Lemma empty_batch_with_a_free_extent_witness :
  GetInputMetadata (Create 0 BitmapPixelFormat.Bgra8 640 480)
    (make_context kInput cpu_session
       (ImageFeatureDescriptor 224 MAXUINT32 BitmapPixelFormat.Bgra8 TK_Float) None)
  = Undefined /\
  GetInputMetadata (Create 0 BitmapPixelFormat.Bgra8 640 480)
    (make_context kOutput gpu_session
       (TensorFeatureDescriptor [1; 3; 224; -1] TK_Float16) None)
  = Undefined.
Proof.
  destruct (empty_batch_with_a_free_extent BitmapPixelFormat.Bgra8 640 480
              kInput cpu_session None) as [Hi _].
  destruct (empty_batch_with_a_free_extent BitmapPixelFormat.Bgra8 640 480
              kOutput gpu_session None) as [_ Ht].
  split.
  - apply Hi. right. reflexivity.
  - apply Ht; [right | right]; reflexivity.
Defined.
